(* ===== verification/_CoqProject ===== *)
-Q . S2P
Prelude.v
Collections.v
PayloadId.v
Codec.v
Fields.v
Envelope.v
Index.v
Run.v
RunSearch.v
RunMerge.v
Ledger.v
Policy.v
PathGuard.v
Types.v
PolicyReplay.v
Text.v
Rules.v
Tables.v
Records.v
JobRecords.v
CallRecords.v
RecordCodec.v
ReplayState.v
Replay.v
Effects.v
Delta.v
Reach.v
ReplayDemo.v
Turns.v
Queue.v
Lanes.v
Rolls.v
Journal.v
Sync.v
Checkpoint.v
Restore.v
Names.v
Files.v
Store.v
Driver.v
Durable.v
History.v
Shelf.v
Reopen.v
Pages.v
PagePool.v
