(* ===== verification/Prelude.v ===== *)
(** * Asura storage: a verification library.

    Asura is a local agent service. This library models the Rust crate
    [asura-storage] (src/rust/crates/asura-storage/src), which keeps the
    service's durable state: an append-only journal of typed records, the state
    machine that replays it, an index of sorted run files over it, and a quota
    ledger over the captured output of jobs with the page reads of that output.
    Paths below are relative to the crate's src directory.

    ** Parts, files and correspondence

    - Prelude.v (this file): [outcome], the value, error or panic of a Rust
      call; machine-width integers as [Z] with [wrap], [checked_add64] and
      saturating operations written out; slices ([sub] panics out of range,
      [get_range] does not), big-endian integers, arrays [array n] of bytes;
      the orders behind [Ord] ([Cmp], [CmpOk]), ascending association lists,
      [partition_point]; and the hash interface [Hasher] (SHA-256 is a library
      the crate calls: a parameter, of which only the 32-byte length of its
      result is used). Collections.v: [BTreeMap], [BTreeSet] and [VecDeque]
      operations on lists.
    - Codec.v: authority/conversation/codec.rs [Writer], [Reader]; UTF-8 as
      [core::str] reads it; [Locator], [TerminalKind], [Cause] of types.rs. A
      reader is a function on a slice and an offset. [reads p e a] says that p
      reads the encoding e as a, [parses p Q] that whatever p returns was
      encoded in the bytes it took. Fields.v: repeated and validated fields,
      bounded payloads, and the tactics that step through a record codec in
      both directions.
    - Envelope.v: authority.rs [envelope], [verified_frame], [verified_command],
      [verified_record] and codec.rs [encode_frame], over the interface
      [RecordCodec] with its laws [RecordCodecOk].
    - Types.v: conversation/types.rs, the record structs and the data replay
      keeps. Text.v, Rules.v, Tables.v: the text rules, the [validate] methods
      and derived identities, and the stored codes of conversation/codec.rs.
      Policy.v, PathGuard.v, Records.v, JobRecords.v, CallRecords.v: the payload
      of each record kind, its writer and its reader. RecordCodec.v: [payload]
      and [decode_record], the dispatch over the kinds, as the instance of
      [RecordCodec].
    - PolicyReplay.v: conversation/policy.rs [PolicyReplay] with its methods.
    - ReplayState.v: conversation/state.rs, the [Replay] struct, its lookups in
      the live state, the delta and the index (the [Index] trait is a record of
      functions). Replay.v: [Replay::apply] with one arm per record kind, its
      handlers, [apply_frame], [evict], [reserve], [apply_next] and [replay].
      Effects.v: what the handlers leave alone. Reach.v: the reachable states.
    - Turns.v and Queue.v: the abstract machines of operations and of inputs
      and jobs, which [apply] refines. Lanes.v: the order of waiting inputs.
      Delta.v and Rolls.v: the delta as one sorted run, counters and memory.
      Journal.v: replay of the bytes of one journal with [MemoryIndex].
      ReplayDemo.v: a small journal on which the theorems are evaluated.
    - Sync.v: the statements of a writer and the loops of a reader, and [Field],
      a writer and a reader that agree in both directions. Checkpoint.v:
      authority/checkpoint.rs [encode] and [decode] part by part, with
      [tool_from_frames] and [follow_frame] of state.rs. Restore.v: the whole
      file, and what a restart does with it.
    - Names.v: asura-platform journal_io.rs [JournalName]. Files.v: the trait
      [JournalFiles] of authority/journal.rs as a class of operations on a
      state, [FilesOk], what the driver relies on when they fail, and
      journal/memory.rs [MemoryFiles] as an instance. Store.v: [Store], the index
      over run files. Driver.v: [Journal], its [initialize], [open], [append],
      rolls, [retire], merge steps and quota in a state and error monad over
      the driver's record. Durable.v, History.v: what is on disk after each
      operation and after any history of them. Shelf.v: several runs as one
      index, compaction and rolls. Reopen.v: what a roll leaves on disk and the
      open that follows it.
    - Index.v: authority/index.rs [Tag], [Key], [Generated], [Entry] with all 27
      value formats, their encoders and decoders.
    - Run.v: authority/index/run.rs [RunHeader], pages, [RunWriter],
      [encode_run], [trailer]. RunSearch.v: [lower_bound], [get], [range].
      RunMerge.v: [MergeInput], [Merge]. A source is a function from offset and
      length to bytes, a sink a state with a write operation.
    - Ledger.v: payload/store.rs [Ledger] with every method that changes its
      state, [ModelRefs], [PayloadStore::delete_victim] and [delete_job];
      PayloadId.v: payload/id.rs. Each method is one function on the value
      behind the mutex.
    - Pages.v: payload/pages.rs [snap], [cut_lines], [bounded_text],
      [read_page] over the ledger and a payload file. PagePool.v: [PagePool],
      [Ticket], [worker] as a step relation whose steps are the critical
      sections of the code.

    ** What the theorems show

    - Formats: a written frame, index entry, run header, run page or record of
      any kind reads back as itself; what a decoder accepts is the encoding of
      what it returns, so no two byte strings stand for one value; a torn frame
      is reported as incomplete and not as damage; decoders do not panic on any
      bytes.
    - Replay: each accepted frame is one step of the turn machine and one step
      of the queue machine, so a closed turn or input stays closed, a cancelled
      turn never completes, one turn runs at a time, and the tables keep their
      limits. The counters stay [u64]s and count the frames; memory stays within
      its limit; a roll changes no lookup. Lanes take turns and a reorder moves
      one input. [Journal.replay] accepts exactly the byte strings that are the
      frames of accepted records, in their chain, and the state it returns is
      the one those records reach.
    - Checkpoints: the checkpoint of a reached state, written after a roll,
      restores a state that replays every further frame as the state in memory
      would; a file that decodes is the encoding of what it decodes to.
    - Journal driver: whatever file operation fails, the segment files hold the
      frames of all acknowledged appends in order and no frame that was not
      tried; an append is all or nothing or fences the journal. The listed runs
      answer as one sorted table; compaction and rolls change no answer: the
      file a roll writes holds the delta. The open that follows a roll finds its
      checkpoint and continues the journal as the state in memory would. File
      names parse as they print.
    - Runs: [encode_run] accepts exactly the ascending entry lists; lookups and
      ranges over a written file return what was written, in the order and up to
      the limit asked for; a merge of runs with distinct keys is their sorted
      union whatever the step size, a shared key ends it with an error, and one
      step is bounded work.
    - Ledger: [used] is the sum of what its entries hold after any history in
      the order the callers keep; admission reserves one step within the quota;
      what is expired was expendable; deletion and model holds do what they say.
    - Policy: replay of a journal never lets a denied call or input run; the
      revisions form a chain and every decision is made under the active one;
      every reached state passes the checks of a checkpoint restore.
    - Path guard: the approval set is the latest decision on each path, and an
      admitted record never makes it unreadable.
    - Pages: reading page after page gives the text back; live pages stop at a
      scalar boundary; the text is bounded; a page read leaves the ledger as it
      was. The pool keeps its limits, serves every waiting ticket, gives each
      one reply, and leaves none waiting after shutdown.

    Some theorems record behaviour that differs from what the code means to do:
    [abandoned_during_delete_leaks] and [admission_above_a_lowered_quota]
    (Ledger.v), [long_rule_unreadable] (Policy.v),
    [small_limit_splits_a_scalar] (Pages.v) and
    [crowded_checkpoint_is_refused] (Restore.v): a state with more projects than
    [decode] allows is written and then refused.

    ** Bounds and fuel

    Loops that are not structural take a number of rounds: [Utf8.valid] and
    [utf8_items] the length of the text (each round takes a byte or more),
    [lower_bound] log2 of the pages plus one, the range loops the pages, a merge
    step the entries of its pages, [seek_lead] the three rounds its own
    condition allows, [fill] the bytes of the window, [replay_loop] the bytes of
    the journal plus one (a frame takes a byte or more), [replay_segment] the
    bytes of the segment file plus one. The search, range,
    merge and replay loops panic in the model when their rounds run out, and the
    theorems show results, so the rounds are enough; for [Utf8.valid],
    [utf8_items] and [fill] the theorems show that more rounds change nothing or
    that the whole window is read.

    ** What is not modelled

    The file system and its error codes (asura-platform: payload_io, journal_io)
    are parameters where an operation calls them: for the journal they are the
    class [JournalFiles], whose laws say what a failing call may leave behind.
    Threads appear as steps of PagePool.v and as the order of ledger operations.
    The theorem on [open] is about the directory a roll leaves, opened read-only;
    the replay of a tail with frames, the rebuild of checkpoints and the fall
    back to an older one are modelled and have no theorem of their own. Not
    modelled: the writer thread
    (authority/writer), which runs the driver's operations for callers; the
    audit log and the memory store; capture files ([Capture], [install]) and
    startup recovery of payloads, which are file operations. The other crates
    (service, platform, CLI, control protocol, policy engine) are outside this
    library. *)
From stdpp Require Import prelude list sorting gmap.
From Stdlib Require Import ZArith Lia.

(** ** Outcomes of Rust code: a value, an error value, or a panic. *)
Inductive outcome (E A : Type) : Type :=
| Ok (a : A)
| Err (e : E)
| Panic.
Arguments Ok {_ _} _.
Arguments Err {_ _} _.
Arguments Panic {_ _}.

Definition obind {E A B} (c : outcome E A) (k : A -> outcome E B) : outcome E B :=
  match c with
  | Ok a => k a
  | Err e => Err e
  | Panic => Panic
  end.

Declare Scope rust_scope.
Delimit Scope rust_scope with rust.
Notation "'let?' x ':=' c 'in' k" := (obind c (fun x => k))
  (at level 10, x pattern, c at level 100, k at level 200,
   format "'[v' 'let?'  x  ':='  c  'in' '/' k ']'") : rust_scope.
Notation "c ';;?' k" := (obind c (fun _ => k))
  (at level 100, right associativity) : rust_scope.
Open Scope rust_scope.
Open Scope Z_scope.

Section Outcome.
Context {E A B : Type}.
Implicit Types (c : outcome E A) (k : A -> outcome E B).

Lemma obind_Ok c k b : obind c k = Ok b <-> exists a, c = Ok a /\ k a = Ok b.
Proof. destruct c; simpl; split; try naive_solver; intros (? & ? & ?); congruence. Qed.

Lemma obind_not_panic c k :
  c <> Panic -> (forall a, c = Ok a -> k a <> Panic) -> obind c k <> Panic.
Proof. destruct c; naive_solver. Qed.
End Outcome.

(** [Option::ok_or]. *)
Definition ok_or {E A} (e : E) (o : option A) : outcome E A :=
  match o with Some a => Ok a | None => Err e end.

(** [Option::is_some_and]. *)
Definition is_some_and {A} (f : A -> bool) (o : option A) : bool :=
  match o with Some a => f a | None => false end.

(** [Result::map_err]. *)
Definition map_err {E F A} (f : E -> F) (c : outcome E A) : outcome F A :=
  match c with Ok a => Ok a | Err e => Err (f e) | Panic => Panic end.

(** ** Machine integers: [Z] with the width written out.
    [wrap w] is what an unchecked operation of width [w] keeps in a release
    build. *)
Definition wrap (w v : Z) : Z := v mod 2 ^ w.
Definition uint (w v : Z) : Prop := 0 <= v < 2 ^ w.
Abbreviation u8 := (uint 8).
Abbreviation u16 := (uint 16).
Abbreviation u32 := (uint 32).
Abbreviation u64 := (uint 64).

Definition U64_MAX : Z := 2 ^ 64 - 1.
(** [u64::checked_add], [u64::saturating_sub], [u64::saturating_add]. *)
Definition checked_add64 (a b : Z) : option Z :=
  if decide (a + b <= U64_MAX) then Some (a + b) else None.
Definition saturating_sub (a b : Z) : Z := Z.max 0 (a - b).
Definition saturating_add64 (a b : Z) : Z := Z.min U64_MAX (a + b).
(** [u64::div_ceil] for a positive divisor. *)
Definition div_ceil (a b : Z) : Z := if decide (a mod b = 0) then a / b else a / b + 1.

Lemma wrap_small w v : uint w v -> wrap w v = v.
Proof. intros. unfold wrap. by apply Z.mod_small. Qed.

Lemma wrap_uint w v : 0 <= w -> uint w (wrap w v).
Proof. intros. unfold uint, wrap. apply Z.mod_pos_bound. lia. Qed.

Lemma checked_add64_Some a b c :
  checked_add64 a b = Some c <-> c = a + b /\ a + b <= U64_MAX.
Proof. unfold checked_add64. case_decide; naive_solver. Qed.

Lemma div_ceil_spec a b : 0 <= a -> 0 < b -> a <= div_ceil a b * b < a + b.
Proof.
  intros. unfold div_ceil. pose proof (Z.div_mod a b) as Hd.
  pose proof (Z.mod_pos_bound a b) as Hm. case_decide; nia.
Qed.

Lemma div_ceil_unique a b q : 0 < b -> a <= q * b < a + b -> 0 <= a -> div_ceil a b = q.
Proof.
  intros Hb Hq Ha. pose proof (div_ceil_spec a b Ha Hb). nia.
Qed.

(** ** Bytes. *)
Abbreviation bytes := (list Z).
Definition bytes_ok (l : bytes) : Prop := Forall (uint 8) l.
(** [l.len()] as an integer; offsets and lengths are [Z]. *)
Definition zlen {A} (l : list A) : Z := Z.of_nat (length l).
Definition ztake {A} (n : Z) (l : list A) : list A := take (Z.to_nat n) l.
Definition zdrop {A} (n : Z) (l : list A) : list A := drop (Z.to_nat n) l.
Definition zeros (n : Z) : bytes := replicate (Z.to_nat n) 0.

(** A fixed-size array [[u8; n]]. *)
Definition array (n : Z) (l : bytes) : Prop := zlen l = n /\ bytes_ok l.
Abbreviation Id_ok := (array 16).
Abbreviation Hash_ok := (array 32).

(** [&l[a..b]]: panics unless [a <= b <= l.len()]. *)
Definition sub {E A} (a b : Z) (l : list A) : outcome E (list A) :=
  if decide (0 <= a <= b /\ b <= zlen l) then Ok (ztake (b - a) (zdrop a l)) else Panic.
(** [l.get(a..b)]. *)
Definition get_range {A} (a b : Z) (l : list A) : option (list A) :=
  if decide (0 <= a <= b /\ b <= zlen l) then Some (ztake (b - a) (zdrop a l)) else None.

(** [l.iter().any(|b| *b != 0)]. *)
Definition any_nonzero (l : bytes) : bool := existsb (fun b => negb (b =? 0)) l.

(** Big-endian encoding ([to_be_bytes], [from_be_bytes]). *)
Fixpoint be_bytes (n : nat) (v : Z) : bytes :=
  match n with
  | O => []
  | S n' => (v / 256 ^ Z.of_nat n') mod 256 :: be_bytes n' v
  end.
Definition be_val (l : bytes) : Z := foldl (fun acc b => acc * 256 + b) 0 l.

#[export] Instance uint_dec w v : Decision (uint w v).
Proof. unfold uint. apply _. Defined.
#[export] Instance bytes_ok_dec l : Decision (bytes_ok l).
Proof. unfold bytes_ok. apply _. Defined.
#[export] Instance array_dec n l : Decision (array n l).
Proof. unfold array. apply _. Defined.
(** Closed decidable facts by computation. *)
Ltac by_decide := apply (bool_decide_unpack _); vm_compute; exact I.

Lemma bytes_ok_app l k : bytes_ok (l ++ k) <-> bytes_ok l /\ bytes_ok k.
Proof. apply Forall_app. Qed.
Lemma bytes_ok_zeros n : bytes_ok (zeros n).
Proof. apply Forall_replicate. unfold uint; lia. Qed.
Lemma bytes_ok_ztake n l : bytes_ok l -> bytes_ok (ztake n l).
Proof. apply Forall_take. Qed.
Lemma bytes_ok_zdrop n l : bytes_ok l -> bytes_ok (zdrop n l).
Proof. apply Forall_drop. Qed.

Lemma zlen_app {A} (l k : list A) : zlen (l ++ k) = zlen l + zlen k.
Proof. unfold zlen. rewrite length_app. lia. Qed.
Lemma zlen_cons {A} (a : A) l : zlen (a :: l) = 1 + zlen l.
Proof. unfold zlen. simpl. lia. Qed.
Lemma zlen_nil {A} : zlen (@nil A) = 0.
Proof. done. Qed.
Lemma zlen_nonneg {A} (l : list A) : 0 <= zlen l.
Proof. unfold zlen. lia. Qed.
Lemma zlen_pos {A} (l : list A) : l <> [] -> 0 < zlen l.
Proof. destruct l; [done|]. unfold zlen. simpl. lia. Qed.
Lemma zlen_zeros n : 0 <= n -> zlen (zeros n) = n.
Proof. intros. unfold zlen, zeros. rewrite length_replicate. lia. Qed.
Lemma zlen_ztake {A} n (l : list A) : 0 <= n <= zlen l -> zlen (ztake n l) = n.
Proof. unfold zlen, ztake. intros. rewrite length_take. lia. Qed.
Lemma zlen_zdrop {A} n (l : list A) : 0 <= n <= zlen l -> zlen (zdrop n l) = zlen l - n.
Proof. unfold zlen, zdrop. intros. rewrite length_drop. lia. Qed.
Lemma zlen_map {A B} (f : A -> B) l : zlen (f <$> l) = zlen l.
Proof. unfold zlen. by rewrite length_fmap. Qed.
Lemma ztake_zdrop {A} n (l : list A) : ztake n l ++ zdrop n l = l.
Proof. apply take_drop. Qed.
Lemma ztake_app_l {A} n (l k : list A) : zlen l = n -> ztake n (l ++ k) = l.
Proof. unfold zlen, ztake. intros <-. rewrite Nat2Z.id. apply take_app_length. Qed.
Lemma zdrop_app_l {A} n (l k : list A) : zlen l = n -> zdrop n (l ++ k) = k.
Proof. unfold zlen, zdrop. intros <-. rewrite Nat2Z.id. apply drop_app_length. Qed.
Lemma zdrop_app_le {A} n (l k : list A) : n <= zlen l -> zdrop n (l ++ k) = zdrop n l ++ k.
Proof. unfold zdrop, zlen. intros. apply drop_app_le. lia. Qed.
Lemma ztake_all {A} n (l : list A) : zlen l <= n -> ztake n l = l.
Proof. unfold zlen, ztake. intros. apply take_ge. lia. Qed.
Lemma zdrop_zdrop {A} n m (l : list A) : 0 <= n -> 0 <= m -> zdrop n (zdrop m l) = zdrop (n + m) l.
Proof. intros. unfold zdrop. rewrite drop_drop. f_equal. lia. Qed.

Lemma ztake_app_le {A} n (l k : list A) : n <= zlen l -> ztake n (l ++ k) = ztake n l.
Proof. unfold ztake, zlen. intros. apply take_app_le. lia. Qed.
Lemma ztake_add {A} n m (l : list A) :
  0 <= n -> 0 <= m -> ztake (n + m) l = ztake n l ++ ztake m (zdrop n l).
Proof.
  intros. unfold ztake, zdrop. rewrite Z2Nat.inj_add by done.
  rewrite <- (take_drop (Z.to_nat n) (take (Z.to_nat n + Z.to_nat m) l)).
  rewrite take_take, skipn_firstn_comm. f_equal; f_equal; lia.
Qed.

Lemma array_zeros n : 0 <= n -> array n (zeros n).
Proof. split; [by apply zlen_zeros | apply bytes_ok_zeros]. Qed.
Lemma array_len n l : array n l -> zlen l = n.
Proof. by intros []. Qed.
Lemma array_bytes n l : array n l -> bytes_ok l.
Proof. by intros []. Qed.

Section Sub.
Context {E A : Type}.
Implicit Types l k : list A.

Lemma sub_Ok a b l m :
  sub a b l = @Ok E _ m <-> (0 <= a <= b /\ b <= zlen l) /\ m = ztake (b - a) (zdrop a l).
Proof. unfold sub. case_decide; split; naive_solver. Qed.
Lemma sub_in a b l :
  0 <= a <= b -> b <= zlen l -> sub a b l = @Ok E _ (ztake (b - a) (zdrop a l)).
Proof. intros. unfold sub. by rewrite decide_True. Qed.
Lemma sub_skip n a b l k :
  zlen l = n -> n <= a <= b -> sub a b (l ++ k) = @sub E A (a - n) (b - n) k.
Proof.
  intros <- ?. unfold sub. rewrite zlen_app. pose proof (zlen_nonneg l).
  do 2 case_decide; try done; try lia. do 2 f_equal; [lia|].
  unfold zdrop, zlen. rewrite drop_app_ge by (unfold zlen in *; lia). f_equal. lia.
Qed.
Lemma sub_here n l k : zlen l = n -> sub 0 n (l ++ k) = @Ok E _ l.
Proof.
  intros <-. rewrite sub_in by (rewrite ?zlen_app; pose proof (zlen_nonneg l); pose proof (zlen_nonneg k); lia).
  rewrite Z.sub_0_r. change (zdrop 0 (l ++ k)) with (l ++ k). by rewrite ztake_app_l.
Qed.
Lemma sub_prefix a b l k : b <= zlen l -> sub a b (l ++ k) = @sub E A a b l.
Proof.
  intros Hb. unfold sub. rewrite zlen_app. pose proof (zlen_nonneg k).
  do 2 case_decide; try done; try lia. f_equal. unfold ztake, zdrop, zlen in *.
  rewrite drop_app_le by lia. rewrite take_app_le; [done|]. rewrite length_drop. lia.
Qed.
Lemma sub_all n l : zlen l = n -> sub 0 n l = @Ok E _ l.
Proof. intros. rewrite <- (app_nil_r l) at 1. by apply sub_here. Qed.
Lemma sub_mid a b l e k :
  a = zlen l -> b = a + zlen e -> sub a b (l ++ e ++ k) = @Ok E _ e.
Proof.
  intros -> ->. pose proof (zlen_nonneg e).
  rewrite (sub_skip (zlen l)) by lia. replace (_ - _) with 0 by lia.
  apply sub_here. lia.
Qed.
Lemma sub_end a b l e : a = zlen l -> b = a + zlen e -> sub a b (l ++ e) = @Ok E _ e.
Proof. intros. rewrite <- (app_nil_r e) at 1. by apply sub_mid. Qed.
Lemma sub_no_panic a b l : 0 <= a <= b -> b <= zlen l -> @sub E A a b l <> Panic.
Proof. intros. by rewrite sub_in. Qed.
Lemma sub_len a b l m : sub a b l = @Ok E _ m -> zlen m = b - a.
Proof.
  rewrite sub_Ok. intros [? ->]. rewrite zlen_ztake; [done|]. rewrite zlen_zdrop; lia.
Qed.
End Sub.

Lemma sub_bytes {E} a b l m : sub a b l = @Ok E _ m -> bytes_ok l -> bytes_ok m.
Proof. rewrite sub_Ok. intros [_ ->] ?. by apply bytes_ok_ztake, bytes_ok_zdrop. Qed.
Lemma sub_array {E} a b l m n : sub a b l = @Ok E _ m -> bytes_ok l -> n = b - a -> array n m.
Proof. intros Hs ? ->. split; [by eapply sub_len | by eapply sub_bytes]. Qed.

Lemma any_nonzero_zeros n : any_nonzero (zeros n) = false.
Proof. unfold zeros. by induction (Z.to_nat n). Qed.
Lemma any_nonzero_false l : any_nonzero l = false -> l = zeros (zlen l).
Proof.
  unfold zeros, zlen. rewrite Nat2Z.id. induction l as [|b l IH]; [done|]. simpl.
  intros [Hb Hl]%orb_false_iff. apply negb_false_iff, Z.eqb_eq in Hb. subst. f_equal. auto.
Qed.

Lemma length_be_bytes n v : length (be_bytes n v) = n.
Proof. induction n; simpl; congruence. Qed.

Lemma be_bytes_ok n v : bytes_ok (be_bytes n v).
Proof.
  induction n; simpl; constructor; [|done].
  unfold uint. apply Z.mod_pos_bound. lia.
Qed.

Lemma zlen_be_bytes n v : zlen (be_bytes n v) = Z.of_nat n.
Proof. unfold zlen. by rewrite length_be_bytes. Qed.

Lemma array_be_bytes n v : array (Z.of_nat n) (be_bytes n v).
Proof. split; [apply zlen_be_bytes | apply be_bytes_ok]. Qed.

Lemma be_val_app l k : be_val (l ++ k) = be_val l * 256 ^ Z.of_nat (length k) + be_val k.
Proof.
  unfold be_val. rewrite foldl_app. generalize (foldl (fun acc b => acc * 256 + b) 0 l).
  induction k as [|b k IH] using rev_ind; intros a; simpl; [lia|].
  rewrite !foldl_app, length_app. simpl. rewrite IH, Nat2Z.inj_add, Z.pow_add_r; lia.
Qed.

Lemma be_val_cons b l : be_val (b :: l) = b * 256 ^ Z.of_nat (length l) + be_val l.
Proof. apply (be_val_app [b] l). Qed.

Lemma be_val_bytes n v : be_val (be_bytes n v) = v mod 256 ^ Z.of_nat n.
Proof.
  induction n as [|n IH]; simpl be_bytes.
  - by rewrite Z.mod_1_r.
  - rewrite be_val_cons, IH, length_be_bytes, Nat2Z.inj_succ, Z.pow_succ_r by lia.
    rewrite (Z.mul_comm 256), Z.rem_mul_r by lia. lia.
Qed.

Lemma be_val_bound l : bytes_ok l -> 0 <= be_val l < 256 ^ Z.of_nat (length l).
Proof.
  induction 1 as [|b l Hb _ IH]; [unfold be_val; simpl; lia|].
  rewrite be_val_cons. cbn [length]. rewrite Nat2Z.inj_succ, Z.pow_succ_r by lia.
  unfold uint in Hb. nia.
Qed.

Lemma be_bytes_mod n v m : (n <= m)%nat -> be_bytes n (v mod 256 ^ Z.of_nat m) = be_bytes n v.
Proof.
  induction n as [|n IH]; intros Hm; simpl; [done|]. rewrite IH by lia. f_equal.
  replace (Z.of_nat m) with (Z.of_nat n + (1 + Z.of_nat (m - S n))) by lia.
  rewrite !Z.pow_add_r, Z.pow_1_r by lia.
  rewrite (Z.rem_mul_r v) by lia.
  rewrite (Z.mul_comm (256 ^ Z.of_nat n)), Z.div_add, (Z.div_small (v mod _)), Z.add_0_l
    by (try apply Z.mod_pos_bound; lia).
  rewrite (Z.rem_mul_r _ 256) by lia.
  rewrite (Z.mul_comm 256), Z.mod_add, Z.mod_mod by lia. done.
Qed.

Lemma be_bytes_val l : bytes_ok l -> be_bytes (length l) (be_val l) = l.
Proof.
  induction 1 as [|b l Hb Hl IH]; [done|]. cbn [length be_bytes].
  pose proof (be_val_bound l Hl). unfold uint in Hb.
  rewrite be_val_cons. f_equal.
  - rewrite Z.add_comm, Z.div_add, Z.div_small by lia. rewrite Z.mod_small; lia.
  - rewrite <- (be_bytes_mod _ _ (length l)) by done.
    rewrite Z.add_comm, Z.mod_add, Z.mod_small by lia. done.
Qed.

Lemma be_val_small n v : 0 <= v < 256 ^ Z.of_nat n -> be_val (be_bytes n v) = v.
Proof. intros. rewrite be_val_bytes. by apply Z.mod_small. Qed.

(** ** Orders: Rust's [Ord] as a comparison function with its laws. *)
Class Cmp (A : Type) := cmp : A -> A -> comparison.
Class CmpOk (A : Type) `{Cmp A} : Prop := {
  cmp_eq (x y : A) : cmp x y = Eq <-> x = y;
  cmp_opp (x y : A) : cmp y x = CompOpp (cmp x y);
  cmp_trans (x y z : A) : cmp x y = Lt -> cmp y z = Lt -> cmp x z = Lt;
}.
Notation "x ≺ y" := (cmp x y = Lt) (at level 70) : rust_scope.
(** [x < y] and [x >= y] of [PartialOrd]. *)
Definition ltb `{Cmp A} (x y : A) : bool := match cmp x y with Lt => true | _ => false end.
Definition geb `{Cmp A} (x y : A) : bool := negb (ltb x y).

(** The lexicographic step of a derived [Ord]. *)
Definition cmp_then (c d : comparison) : comparison :=
  match c with Eq => d | _ => c end.

#[export] Instance Z_cmp : Cmp Z := Z.compare.
#[export] Instance prod_cmp `{Cmp A, Cmp B} : Cmp (A * B) :=
  fun x y => cmp_then (cmp x.1 y.1) (cmp x.2 y.2).
Fixpoint list_cmp `{Cmp A} (l k : list A) : comparison :=
  match l, k with
  | [], [] => Eq
  | [], _ => Lt
  | _, [] => Gt
  | x :: l', y :: k' => cmp_then (cmp x y) (list_cmp l' k')
  end.
#[export] Instance list_Cmp `{Cmp A} : Cmp (list A) := list_cmp.
#[export] Instance option_cmp `{Cmp A} : Cmp (option A) :=
  fun x y => match x, y with
             | None, None => Eq
             | None, Some _ => Lt
             | Some _, None => Gt
             | Some a, Some b => cmp a b
             end.

Section CmpFacts.
Context `{CmpOk A}.
Implicit Types x y z : A.

Lemma cmp_refl x : cmp x x = Eq.
Proof. by apply cmp_eq. Qed.
Lemma lt_irrefl x : ~ x ≺ x.
Proof. rewrite cmp_refl. done. Qed.
Lemma lt_gt x y : x ≺ y <-> cmp y x = Gt.
Proof. rewrite (cmp_opp x y). destruct (cmp x y); done. Qed.
Lemma lt_asym x y : x ≺ y -> y ≺ x -> False.
Proof. rewrite lt_gt. congruence. Qed.
Lemma lt_ne x y : x ≺ y -> x <> y.
Proof. intros Hlt ->. by apply (lt_irrefl y). Qed.
Lemma ltb_lt x y : ltb x y = true <-> x ≺ y.
Proof. unfold ltb. destruct (cmp x y); done. Qed.
Lemma geb_nlt x y : geb x y = false <-> x ≺ y.
Proof. unfold geb. rewrite negb_false_iff. apply ltb_lt. Qed.
Lemma geb_true x y : geb x y = true <-> x = y \/ y ≺ x.
Proof.
  unfold geb, ltb. rewrite (lt_gt y x), <- (cmp_eq x y).
  destruct (cmp x y); simpl; split; intros; try tauto; try done; naive_solver.
Qed.
Lemma ltb_false x y : ltb x y = false <-> x = y \/ y ≺ x.
Proof. rewrite <- geb_true. unfold geb. by rewrite negb_true_iff. Qed.
Lemma nlt_trans x y z : x ≺ y -> ltb z y = false -> x ≺ z.
Proof. rewrite ltb_false. intros ? [->|?]; [done|]. by eapply cmp_trans. Qed.

#[export] Instance lt_transitive : Transitive (fun x y => x ≺ y).
Proof. intros ???. apply cmp_trans. Qed.
End CmpFacts.

Lemma cmp_then_Lt c d : cmp_then c d = Lt <-> c = Lt \/ c = Eq /\ d = Lt.
Proof. destruct c; simpl; naive_solver. Qed.
Lemma cmp_then_Eq c d : cmp_then c d = Eq <-> c = Eq /\ d = Eq.
Proof. destruct c; simpl; naive_solver. Qed.
Lemma cmp_then_opp c d : CompOpp (cmp_then c d) = cmp_then (CompOpp c) (CompOpp d).
Proof. by destruct c. Qed.

#[export] Instance Z_cmp_ok : CmpOk Z.
Proof.
  split; unfold cmp, Z_cmp; intros.
  - apply Z.compare_eq_iff.
  - apply Z.compare_antisym.
  - rewrite Z.compare_lt_iff in *. lia.
Qed.

Lemma then_trans `{CmpOk A} (x y z : A) c d e :
  (c = Lt -> d = Lt -> e = Lt) ->
  cmp_then (cmp x y) c = Lt -> cmp_then (cmp y z) d = Lt -> cmp_then (cmp x z) e = Lt.
Proof.
  rewrite !cmp_then_Lt. rewrite !cmp_eq. intros Hcd [Hx|[-> Hc]] [Hy|[-> Hd]].
  - left. by eapply cmp_trans.
  - by left.
  - by left.
  - right. auto.
Qed.

#[export] Instance prod_cmp_ok `{CmpOk A, CmpOk B} : CmpOk (A * B).
Proof.
  split; unfold cmp, prod_cmp; simpl.
  - intros [a b] [a' b']; simpl. rewrite cmp_then_Eq, !cmp_eq. naive_solver.
  - intros [a b] [a' b']; simpl. by rewrite cmp_then_opp, <- !cmp_opp.
  - intros [a b] [a' b'] [a'' b'']; simpl. apply then_trans. apply cmp_trans.
Qed.

#[export] Instance list_cmp_ok `{CmpOk A} : CmpOk (list A).
Proof.
  split; unfold cmp, list_Cmp.
  - induction x as [|a l IH]; intros [|b k]; simpl; try done.
    rewrite cmp_then_Eq, cmp_eq, IH. naive_solver.
  - induction x as [|a l IH]; intros [|b k]; simpl; try done.
    by rewrite cmp_then_opp, <- cmp_opp, IH.
  - induction x as [|a l IH]; intros [|b k] [|c m]; simpl; try done.
    apply then_trans. apply IH.
Qed.

#[export] Instance option_cmp_ok `{CmpOk A} : CmpOk (option A).
Proof.
  split; unfold cmp, option_cmp.
  - intros [a|] [b|]; try done. rewrite cmp_eq. naive_solver.
  - intros [a|] [b|]; try done. apply cmp_opp.
  - intros [a|] [b|] [c|]; try done. apply cmp_trans.
Qed.

(** An order induced by an injection into an ordered type. *)
Lemma cmp_by_injection `{CmpOk B} `{Cmp A} (f : A -> B) :
  (forall x y, f x = f y -> x = y) -> (forall x y, cmp x y = cmp (f x) (f y)) -> CmpOk A.
Proof.
  intros Hinj Hcmp. split; intros *; rewrite !Hcmp.
  - rewrite cmp_eq. naive_solver.
  - apply cmp_opp.
  - apply cmp_trans.
Qed.
Lemma list_cmp_app `{CmpOk A} (l k l' k' : list A) :
  length l = length k -> cmp (l ++ l') (k ++ k') = cmp_then (cmp l k) (cmp l' k').
Proof.
  revert k. induction l as [|a l IH]; intros [|b k] Hl; simplify_eq/=; [done|].
  change (cmp_then (cmp a b) (cmp (l ++ l') (k ++ k')) =
          cmp_then (cmp_then (cmp a b) (cmp l k)) (cmp l' k')).
  rewrite IH by done. by destruct (cmp a b).
Qed.

(** Big-endian bytes of one width order as the numbers they encode. *)
Lemma be_bytes_cmp n v w :
  0 <= v < 256 ^ Z.of_nat n -> 0 <= w < 256 ^ Z.of_nat n ->
  cmp (be_bytes n v) (be_bytes n w) = cmp v w.
Proof.
  revert v w; induction n as [|n IH]; intros v w Hv Hw.
  { simpl in *. assert (v = w) as -> by lia. by rewrite (cmp_refl w). }
  set (P := 256 ^ Z.of_nat n). assert (0 < P) by (unfold P; lia).
  assert (Hdig : forall u, 0 <= u < 256 ^ Z.of_nat (S n) ->
            (u / P) mod 256 = u / P /\ be_bytes n u = be_bytes n (u mod P) /\
            u = P * (u / P) + u mod P /\ 0 <= u mod P < P).
  { intros u Hu. rewrite Nat2Z.inj_succ, Z.pow_succ_r in Hu by lia. fold P in Hu.
    pose proof (Z.mod_pos_bound u P). pose proof (Z.div_mod u P).
    rewrite Z.mod_small by (split; [apply Z.div_pos | apply Z.div_lt_upper_bound]; lia).
    split_and!; [done| by unfold P; rewrite be_bytes_mod | | |]; lia. }
  destruct (Hdig v Hv) as (Ev & Bv & Dv & Rv), (Hdig w Hw) as (Ew & Bw & Dw & Rw).
  change (cmp (be_bytes (S n) v) (be_bytes (S n) w)) with
    (cmp_then (cmp ((v / P) mod 256) ((w / P) mod 256)) (cmp (be_bytes n v) (be_bytes n w))).
  rewrite Ev, Ew, Bv, Bw, IH by done. unfold cmp, Z_cmp.
  destruct (Z.compare_spec (v / P) (w / P)) as [Hq|Hq|Hq]; simpl; symmetry.
  - rewrite Hq in Dv. set (X := P * (w / P)) in *.
    destruct (Z.compare_spec (v mod P) (w mod P));
      [apply Z.compare_eq_iff | apply Z.compare_lt_iff | apply Z.compare_gt_iff]; lia.
  - apply Z.compare_lt_iff. nia.
  - apply Z.compare_gt_iff. nia.
Qed.

(** ** Association lists in strictly ascending key order. *)
Definition ascending `{Cmp K} {V} (l : list (K * V)) : Prop :=
  StronglySorted (fun a b => a.1 ≺ b.1) l.
(** The value of a key. *)
Definition assoc `{Cmp K} {V} (k : K) (l : list (K * V)) : option V :=
  match list_find (fun a => cmp a.1 k = Eq) l with
  | Some (_, a) => Some a.2
  | None => None
  end.
(** [slice::partition_point]: the length of the prefix that satisfies [p]. *)
Fixpoint partition_point {A} (p : A -> bool) (l : list A) : nat :=
  match l with
  | [] => O
  | a :: l' => if p a then S (partition_point p l') else O
  end.

Section Ascending.
Context `{CmpOk K} {V : Type}.
Implicit Types (l : list (K * V)) (k : K).

Lemma ascending_app l1 l2 :
  ascending (l1 ++ l2) <->
  ascending l1 /\ ascending l2 /\ (forall a b, a ∈ l1 -> b ∈ l2 -> a.1 ≺ b.1).
Proof.
  unfold ascending. induction l1 as [|a l1 IH]; simpl.
  - split; [intros Hs|tauto]. split_and!; [constructor|done|]. intros ?? []%not_elem_of_nil.
  - split.
    + intros [Hs Hf]%StronglySorted_inv. apply IH in Hs as (?&?&?).
      rewrite Forall_app in Hf. destruct Hf as [Hf1 Hf2]. rewrite Forall_forall in Hf2.
      split_and!; [by constructor|done|]. intros c b [->|?]%elem_of_cons ?; auto.
    + intros (Hs&?&Hlt). apply StronglySorted_inv in Hs as [? ?]. constructor.
      * apply IH. split_and!; [done..|]. intros; apply Hlt; [by apply list_elem_of_further|done].
      * apply Forall_app. split; [done|]. apply Forall_forall. intros. apply Hlt; [|done].
        constructor.
Qed.

Lemma ascending_snoc l a :
  ascending (l ++ [a]) <-> ascending l /\ (forall b, last l = Some b -> b.1 ≺ a.1).
Proof.
  rewrite ascending_app. split.
  - intros (?&?&Hlt). split; [done|]. intros b Hb. apply Hlt; [|by apply list_elem_of_singleton].
    apply last_Some in Hb as [l' ->]. apply elem_of_app. right. by apply list_elem_of_singleton.
  - intros [Hl Hb]. split_and!; [done|repeat constructor|].
    intros c d Hc ->%list_elem_of_singleton. destruct l as [|x l _] using rev_ind.
    { by apply not_elem_of_nil in Hc. }
    rewrite last_snoc in Hb. specialize (Hb x eq_refl).
    apply ascending_app in Hl as (_&_&Hl).
    apply elem_of_app in Hc as [Hc| ->%list_elem_of_singleton]; [|done].
    eapply cmp_trans; [|exact Hb]. apply Hl; [done|]. by apply list_elem_of_singleton.
Qed.

Lemma ascending_unique l1 l2 : ascending l1 -> ascending l2 -> l1 ≡ₚ l2 -> l1 = l2.
Proof.
  apply StronglySorted_unique_strong. intros a b _ _ Hab Hba. exfalso.
  by apply (lt_asym a.1 b.1).
Qed.
End Ascending.

Lemma filter_Forall {A} (P : A -> Prop) `{!forall x, Decision (P x)} (l : list A) :
  Forall P l -> filter P l = l.
Proof. induction 1; [done|]. by rewrite filter_cons_True, IHForall. Qed.
Lemma filter_Forall_not {A} (P : A -> Prop) `{!forall x, Decision (P x)} (l : list A) :
  Forall (fun x => ~ P x) l -> filter P l = [].
Proof. induction 1; [done|]. by rewrite filter_cons_False. Qed.

Section PartitionPoint.
Context {A : Type} (p : A -> bool).

Lemma partition_point_drop (l : list A) k :
  (k <= partition_point p l)%nat -> partition_point p (drop k l) = (partition_point p l - k)%nat.
Proof.
  revert k. induction l as [|a l IH]; intros [|k] Hk; simpl in *; try lia.
  destruct (p a); [|lia]. rewrite IH; lia.
Qed.
Lemma partition_point_take (l : list A) m :
  partition_point p (take m l) = (partition_point p l `min` m)%nat.
Proof.
  revert m. induction l as [|a l IH]; intros [|m]; simpl; try lia.
  destruct (p a); [|lia]. rewrite IH. lia.
Qed.
Lemma partition_point_le (l : list A) : (partition_point p l <= length l)%nat.
Proof. induction l as [|a l IH]; simpl; [lia|]. destruct (p a); lia. Qed.
End PartitionPoint.

(** In ascending order the partition point separates the smaller keys. *)
Lemma partition_point_lookup `{CmpOk K} {V} (l : list (K * V)) k i a :
  ascending l -> l !! i = Some a ->
  ltb a.1 k = true <-> (i < partition_point (fun b => ltb b.1 k) l)%nat.
Proof.
  intros Hs. revert i. induction Hs as [|b l _ IH Hf]; intros i Hi; [done|]. simpl.
  destruct i as [|i]; simpl in Hi.
  - injection Hi as ->. destruct (ltb a.1 k); split; (lia || done).
  - rewrite Forall_forall in Hf. specialize (Hf a (list_elem_of_lookup_2 _ _ _ Hi)).
    destruct (ltb b.1 k) eqn:Hb.
    + rewrite (IH i Hi). lia.
    + split; [|lia]. intros Ha. rewrite ltb_lt in Ha. exfalso.
      assert (ltb b.1 k = true); [|congruence]. apply ltb_lt. by eapply cmp_trans.
Qed.

Lemma assoc_cons `{CmpOk K} {V} (k k' : K) (v : V) l :
  assoc k ((k', v) :: l) = match cmp k' k with Eq => Some v | _ => assoc k l end.
Proof.
  unfold assoc. simpl. case_decide as Hd; simpl in Hd.
  - by rewrite Hd.
  - destruct (cmp k' k); try done; destruct (list_find _ l) as [[]|]; done.
Qed.
(** A key's value stands at the partition point of the smaller keys. *)
Lemma assoc_partition_point `{CmpOk K} {V} (l : list (K * V)) k :
  ascending l ->
  assoc k l = match l !! partition_point (fun b => ltb b.1 k) l with
              | Some (k', v) => match cmp k' k with Eq => Some v | _ => None end
              | None => None
              end.
Proof.
  induction 1 as [|[k' v] l Hs IH Hf]; [done|]. rewrite assoc_cons. simpl. unfold ltb at 1.
  destruct (cmp k' k) eqn:Hc; simpl; [by rewrite Hc|exact IH|]. rewrite Hc, IH.
  destruct (l !! _) as [[k2 v2]|] eqn:Hk2; [|done].
  rewrite Forall_forall in Hf. specialize (Hf _ (list_elem_of_lookup_2 _ _ _ Hk2)). simpl in Hf.
  destruct (cmp k2 k) eqn:Hc2; [|done|done]. apply cmp_eq in Hc2 as ->. congruence.
Qed.

(** ** Automation.
    [len] proves facts about lengths; [subs] evaluates slices of an explicit
    concatenation of fields; [inv_ok] inverts successful binds. *)
#[export] Hint Rewrite @zlen_app @zlen_cons @zlen_nil zlen_be_bytes @zlen_map : len.
#[export] Hint Rewrite zlen_zeros using lia : len.

Ltac pose_lens :=
  repeat match goal with
  | H : array ?n ?l |- _ => learn_hyp (array_len n l H)
  end.
Ltac len := pose_lens; autorewrite with len; lia.

Ltac field_len :=
  first [ eassumption | eapply array_len; eassumption | apply zlen_be_bytes
        | apply zlen_zeros; lia | reflexivity ].
Ltac sub_lits :=
  repeat match goal with
  | |- context [sub (?a - ?n) ?b _] =>
      let v := eval vm_compute in (a - n) in change (a - n) with v
  | |- context [sub ?a (?b - ?n) _] =>
      let v := eval vm_compute in (b - n) in change (b - n) with v
  end.
Ltac sub_step :=
  match goal with
  | |- context [@sub ?E ?A 0 ?b (?l ++ ?k)] =>
      rewrite (@sub_here E A b l k) by field_len
  | |- context [@sub ?E ?A 0 ?b ?l] => rewrite (@sub_all E A b l) by field_len
  | |- context [@sub ?E ?A ?a ?b (?l ++ ?k)] =>
      erewrite (@sub_skip E A _ a b l k); [ | field_len | lia]; sub_lits
  end.
Ltac subs := repeat (sub_step; cbn [obind]).

Ltac inv_ok :=
  repeat match goal with
  | H : obind _ _ = Ok _ |- _ => apply obind_Ok in H as (? & ? & H)
  | H : Ok _ = Ok _ |- _ => apply (inj Ok) in H
  | H : Err _ = Ok _ |- _ => discriminate H
  | H : Panic = Ok _ |- _ => discriminate H
  | H : (_, _) = (_, _) |- _ => apply pair_eq in H as [? ?]
  end.

(** [inv_res H] inverts a successful run of straight-line code in [H]: binds,
    and guards that return early. *)
Ltac inv_res H :=
  repeat match type of H with
  | obind _ _ = Ok _ =>
      let a := fresh "a" in let Ha := fresh "Ha" in
      apply obind_Ok in H as (a & Ha & H)
  | (if decide ?P then _ else _) = Ok _ =>
      let Hd := fresh "Hd" in destruct (decide P) as [Hd|Hd]; [discriminate H|]
  | (if ?b then _ else _) = Ok _ =>
      let Hd := fresh "Hd" in destruct b eqn:Hd; [discriminate H|]
  | (let '(_, _) := ?p in _) = Ok _ => destruct p
  end.

#[export] Instance Ok_inj {E A} : Inj (=) (=) (@Ok E A).
Proof. by intros ?? [=]. Qed.

(** A panic-free proof walks the binds of a definition. *)
Ltac no_panic_step :=
  match goal with
  | |- obind _ _ <> Panic => apply obind_not_panic; [|intros]
  | |- Ok _ <> Panic => discriminate
  | |- Err _ <> Panic => discriminate
  | |- ok_or _ ?o <> Panic => destruct o; discriminate
  | |- (if decide ?P then _ else _) <> Panic => destruct (decide P)
  | |- (if ?b then _ else _) <> Panic => destruct b eqn:?
  | |- (let '(_, _) := ?p in _) <> Panic => destruct p
  end.

(** Splits an array into its fields, so that [subs] applies to it. *)
Lemma chop n m b : 0 <= n -> 0 <= m -> array (n + m) b ->
  exists l k, b = l ++ k /\ array n l /\ array m k.
Proof.
  intros ?? [Hl Hb]. exists (ztake n b), (zdrop n b). rewrite ztake_zdrop. split; [done|].
  split; split; [rewrite zlen_ztake; lia | by apply bytes_ok_ztake |
    rewrite zlen_zdrop; lia | by apply bytes_ok_zdrop].
Qed.
(** [chop_field H n] takes the first [n] bytes off the array of [H]. *)
Ltac chop_field H n :=
  match type of H with
  | array ?t ?b =>
      let m := eval vm_compute in (t - n) in
      let f := fresh "f" in
      let Hf := fresh "Hf" in
      apply (chop n m b) in H as (f & ? & -> & Hf & H); [ | lia | lia ]
  end.

#[global] Arguments be_bytes : simpl never.
#[global] Arguments zeros : simpl never.

(** ** SHA-256: the [sha2] crate, outside the repository.
    The code relies on the digest being 32 bytes; a streaming hasher that
    received [a] then [b] yields the digest of [a ++ b]. *)
Class Hasher := sha256 : bytes -> bytes.
Class HasherOk `{Hasher} : Prop := sha256_array (m : bytes) : Hash_ok (sha256 m).

(** A concrete digest function for executable examples. *)
Definition poly_hasher : Hasher := fun m =>
  let v := foldl (fun a b => Z.land (a * 5 + b + 1) 0xffffff) 7 m in be_bytes 16 v ++ be_bytes 16 v.
Lemma poly_hasher_ok : @HasherOk poly_hasher.
Proof.
  intros m. unfold sha256, poly_hasher. split; [by rewrite zlen_app, !zlen_be_bytes|].
  apply bytes_ok_app. split; apply be_bytes_ok.
Qed.
