(* ===== verification/Collections.v ===== *)
(** * Ordered collections of the Rust standard library.

    [BTreeMap] is a [gmap] whose iteration is in ascending key order;
    [slice::sort_by] is a stable insertion sort; [Iterator::min_by_key]. *)
From stdpp Require Import prelude list gmap sorting.
From Stdlib Require Import ZArith Lia.
From S2P Require Import Prelude.

Fixpoint insert_by {A} (before : A -> A -> bool) (x : A) (l : list A) : list A :=
  match l with
  | [] => [x]
  | y :: l' => if before y x then y :: insert_by before x l' else x :: l
  end.
(** [slice::sort_by]: stable; [before y x] means [y] does not follow [x]. *)
Definition sort_by {A} (c : A -> A -> comparison) (l : list A) : list A :=
  foldr (fun x acc => insert_by (fun y z => match c z y with Gt => true | _ => false end) x acc) [] l.
(** [BTreeMap::iter]: ascending keys. *)
Definition btree_iter `{Countable K, Cmp K} {V} (m : gmap K V) : list (K * V) :=
  sort_by (fun a b => cmp a.1 b.1) (map_to_list m).
Definition btree_keys `{Countable K, Cmp K} {V} (m : gmap K V) : list K := (btree_iter m).*1.
Definition btree_values `{Countable K, Cmp K} {V} (m : gmap K V) : list V := (btree_iter m).*2.
(** [Iterator::min_by_key]: the first of the smallest. *)
Definition min_by_key {A K} `{Cmp K} (key : A -> K) (l : list A) : option A :=
  match l with
  | [] => None
  | x :: l => Some (foldl (fun m y => if ltb (key y) (key m) then y else m) x l)
  end.

Section SortBy.
Context {A : Type} (c : A -> A -> comparison).
Lemma insert_by_perm before (x : A) l : insert_by before x l ≡ₚ x :: l.
Proof.
  induction l as [|y l IH]; simpl; [done|]. destruct (before y x); [|done].
  rewrite IH. apply Permutation_swap.
Qed.
Lemma sort_by_perm l : sort_by c l ≡ₚ l.
Proof.
  induction l as [|x l IH]; [done|]. cbn [sort_by foldr]. fold (sort_by c l).
  by rewrite insert_by_perm, IH.
Qed.
End SortBy.
Lemma btree_iter_perm `{Countable K, Cmp K} {V} (m : gmap K V) : btree_iter m ≡ₚ map_to_list m.
Proof. apply sort_by_perm. Qed.
Lemma btree_iter_elem `{Countable K, Cmp K} {V} (m : gmap K V) k v : (k, v) ∈ btree_iter m <-> m !! k = Some v.
Proof. by rewrite btree_iter_perm, elem_of_map_to_list. Qed.
Lemma btree_iter_nodup `{Countable K, Cmp K} {V} (m : gmap K V) : NoDup (btree_iter m).*1.
Proof. rewrite btree_iter_perm. apply NoDup_fst_map_to_list. Qed.
Lemma btree_values_elem `{Countable K, Cmp K} {V} (m : gmap K V) v : v ∈ btree_values m <-> exists k, m !! k = Some v.
Proof.
  unfold btree_values. rewrite list_elem_of_fmap. split.
  - intros ([k w] & -> & Hk). exists k. by apply btree_iter_elem.
  - intros [k Hk]. exists (k, v). split; [done|]. by apply btree_iter_elem.
Qed.
Lemma btree_keys_elem `{Countable K, Cmp K} {V} (m : gmap K V) k : k ∈ btree_keys m <-> is_Some (m !! k).
Proof.
  unfold btree_keys. rewrite list_elem_of_fmap. split.
  - intros ([k' w] & -> & Hk). exists w. by apply btree_iter_elem.
  - intros [v Hk]. exists (k, v). split; [done|]. by apply btree_iter_elem.
Qed.

Section SortByKey.
Context {A K : Type} `{CmpOk K} (key : A -> K).
Let c (a b : A) : comparison := cmp (key a) (key b).
Lemma insert_by_sorted x l :
  StronglySorted (fun a b => c a b <> Gt) l ->
  StronglySorted (fun a b => c a b <> Gt) (insert_by (fun y z => match c z y with Gt => true | _ => false end) x l).
Proof.
  induction 1 as [|y l Hs IH Hf]; cbn; [repeat constructor|].
  assert (forall p q r, c p q <> Gt -> c q r <> Gt -> c p r <> Gt) as Htr.
  { unfold c. intros p q r Hpq Hqr. destruct (cmp (key p) (key q)) eqn:E1; [| |done].
    - apply cmp_eq in E1. by rewrite E1.
    - destruct (cmp (key q) (key r)) eqn:E2; [| |done].
      + apply cmp_eq in E2. by rewrite <- E2, E1.
      + by rewrite (cmp_trans _ _ _ E1 E2). }
  destruct (c x y) eqn:Hxy; cbn.
  - constructor; [by constructor|]. constructor; [by rewrite Hxy|].
    eapply Forall_impl; [exact Hf|]. intros z Hz. apply (Htr x y z); [by rewrite Hxy|done].
  - constructor; [by constructor|]. constructor; [by rewrite Hxy|].
    eapply Forall_impl; [exact Hf|]. intros z Hz. apply (Htr x y z); [by rewrite Hxy|done].
  - constructor; [done|]. apply Forall_forall. intros z Hz. rewrite insert_by_perm in Hz.
    apply elem_of_cons in Hz as [->|Hz]; [|rewrite Forall_forall in Hf; by apply Hf].
    unfold c in *. rewrite (cmp_opp (key x)), Hxy. done.
Qed.
Lemma sort_by_sorted l : StronglySorted (fun a b => c a b <> Gt) (sort_by c l).
Proof. induction l as [|x l IH]; [constructor|]. by apply insert_by_sorted. Qed.
End SortByKey.
Lemma min_by_key_elem {A K} `{Cmp K} (key : A -> K) l x : min_by_key key l = Some x -> x ∈ l.
Proof.
  destruct l as [|y l]; [done|]. cbn. intros [= <-].
  enough (forall m, m ∈ y :: l -> foldl (fun m z => if ltb (key z) (key m) then z else m) m l ∈ y :: l) as Hg
    by (apply Hg; constructor).
  assert (forall k m, k ⊆ y :: l -> m ∈ y :: l -> foldl (fun m z => if ltb (key z) (key m) then z else m) m k ∈ y :: l) as Hgen.
  { induction k as [|z k IH]; intros m Hk Hm; [done|]. cbn. apply IH; [set_solver|]. destruct (ltb _ _); set_solver. }
  intros m Hm. apply Hgen; [set_solver|done].
Qed.
