(* ===== verification/PayloadId.v ===== *)
(** * Payload identities (asura-storage/src/payload/id.rs). *)
From stdpp Require Import prelude list.
From Stdlib Require Import ZArith Lia.
From S2P Require Import Prelude.

Abbreviation Id := bytes.
Abbreviation Hash := bytes.

Inductive ObjectKind : Type := KStdout | KStderr | KResult.
Definition object_kind_byte (k : ObjectKind) : Z :=
  match k with KStdout => 1 | KStderr => 2 | KResult => 3 end.
(** The first 16 bytes of a digest; all zero becomes 1 in the final byte. *)
Definition truncated (digest : bytes) : Id :=
  let id := ztake 16 digest in
  if decide (id = zeros 16) then zeros 15 ++ [1] else id.
Definition payload_tag : bytes := [97; 115; 117; 114; 97; 46; 112; 97; 121; 108; 111; 97; 100; 0].
Definition payload_id `{Hasher} (installation job : Id) (kind : ObjectKind) : Id :=
  truncated (sha256 (payload_tag ++ installation ++ job ++ [object_kind_byte kind])).
Definition job_payloads `{Hasher} (installation job : Id) : Id * Id :=
  (payload_id installation job KStdout, payload_id installation job KStderr).

