(* ===== verification/Codec.v ===== *)
(** * Byte codecs of the authority journal.

    [ReplayError] (authority.rs), the [Writer] and [Reader] of
    conversation/codec.rs, [Locator], [TerminalKind] and [Cause] of
    conversation/types.rs, and the standard library's UTF-8 validation that
    [Reader] calls. The predicate [reads] is the interface through which the
    record codecs prove their round trips: a reader consumes exactly the bytes
    of a field wherever they stand and leaves the rest. *)
From stdpp Require Import prelude list.
From Stdlib Require Import ZArith Lia.
From S2P Require Import Prelude.

Inductive ReplayError : Type :=
| Empty
| IncompleteTail
| UnsupportedFormat
| Corrupt
| Limit
| Cancelled.
#[export] Instance ReplayError_eq_dec : EqDecision ReplayError.
Proof. solve_decision. Defined.

Abbreviation Result A := (outcome ReplayError A).

(** [require]: codec.rs, checkpoint.rs, policy.rs and state.rs declare it alike. *)
Definition require (ok : bool) : Result unit := if ok then Ok tt else Err Corrupt.

(** ** UTF-8 as [core::str] reads it. *)
Module Utf8.
Definition continuation (b : Z) : bool := (0x80 <=? b) && (b <=? 0xBF).
Definition width (lead : Z) : nat :=
  if lead <? 0x80 then 1%nat
  else if (0xC2 <=? lead) && (lead <=? 0xDF) then 2%nat
  else if (0xE0 <=? lead) && (lead <=? 0xEF) then 3%nat
  else if (0xF0 <=? lead) && (lead <=? 0xF4) then 4%nat
  else 0%nat.
(** The second byte of a three- or four-byte scalar. *)
Definition second (lead b : Z) : bool :=
  if lead =? 0xE0 then (0xA0 <=? b) && (b <=? 0xBF)
  else if lead =? 0xED then (0x80 <=? b) && (b <=? 0x9F)
  else if lead =? 0xF0 then (0x90 <=? b) && (b <=? 0xBF)
  else if lead =? 0xF4 then (0x80 <=? b) && (b <=? 0x8F)
  else continuation b.
Definition test (p : Z -> bool) (o : option Z) : bool :=
  match o with Some b => p b | None => false end.
(** The first scalar of a non-empty text ([true]) or its first maximal
    invalid sequence ([false]), with its length. *)
Definition first (lead : Z) (rest : bytes) : bool * nat :=
  let c i := test continuation (rest !! i) in
  let s := test (second lead) (rest !! 0%nat) in
  match width lead with
  | 1%nat => (true, 1%nat)
  | 2%nat => if c 0%nat then (true, 2%nat) else (false, 1%nat)
  | 3%nat => if s then if c 1%nat then (true, 3%nat) else (false, 2%nat) else (false, 1%nat)
  | 4%nat =>
      if s then
        if c 1%nat then if c 2%nat then (true, 4%nat) else (false, 3%nat)
        else (false, 2%nat)
      else (false, 1%nat)
  | _ => (false, 1%nat)
  end.
Fixpoint valid_fuel (fuel : nat) (l : bytes) : bool :=
  match fuel, l with
  | _, [] => true
  | O, _ => false
  | S fuel', b :: r =>
      let '(ok, n) := first b r in
      ok && valid_fuel fuel' (drop (pred n) r)
  end.
(** [str::from_utf8(l).is_ok()]. *)
Definition valid (l : bytes) : bool := valid_fuel (length l) l.

Lemma first_len b r ok n : first b r = (ok, n) -> (1 <= n <= 4)%nat /\ (n <= S (length r))%nat.
Proof.
  unfold first, test. intros H.
  repeat case_match; simplify_eq; split; try lia;
    repeat match goal with H : r !! _ = Some _ |- _ => apply lookup_lt_Some in H end; lia.
Qed.
(** The fuel of [valid] is enough: more never changes the answer. *)
Lemma valid_fuel_enough fuel l :
  (length l <= fuel)%nat -> valid_fuel fuel l = valid_fuel (length l) l.
Proof.
  assert (Hgen : forall n fuel l, (length l <= n)%nat -> (length l <= fuel)%nat ->
            forall fuel2, (length l <= fuel2)%nat -> valid_fuel fuel l = valid_fuel fuel2 l).
  { clear. induction n as [|n IH]; intros [|fuel] [|b r] Hn Hf [|fuel2] Hf2; simpl in *;
      try done; try lia.
    destruct (first b r) as [ok k] eqn:Hk. f_equal. pose proof (length_drop r (pred k)).
    apply IH; lia. }
  intros. apply (Hgen (length l)); lia.
Qed.
Lemma valid_ascii l : Forall (fun b => 0 <= b < 0x80) l -> valid l = true.
Proof.
  unfold valid. induction 1 as [|b l Hb _ IH]; [done|]. cbn [length valid_fuel].
  assert (first b l = (true, 1%nat)) as ->.
  { unfold first, width. by destruct (Z.ltb_spec b 0x80); [|lia]. }
  simpl. by rewrite drop_0.
Qed.
End Utf8.

(** A Rust [str]: valid UTF-8 bytes. *)
Definition str_ok (s : bytes) : Prop := bytes_ok s /\ Utf8.valid s = true.

(** ** [Writer]: a byte vector that grows at its end. *)
Abbreviation Writer := bytes.
Definition w_bytes (w : Writer) (b : bytes) : Writer := w ++ b.
Definition w_byte (w : Writer) (n : Z) : Writer := w ++ [n].
Definition w_u64 (w : Writer) (n : Z) : Writer := w_bytes w (be_bytes 8 n).
Definition w_u32 (w : Writer) (n : Z) : Writer := w_bytes w (be_bytes 4 n).
Definition w_u16 (w : Writer) (n : Z) : Writer := w_bytes w (be_bytes 2 n).
Definition w_string (w : Writer) (s : bytes) (limit : Z) : Result Writer :=
  if decide (zlen s > limit) then Err Limit
  else Ok (w_bytes (w_u32 w (wrap 32 (zlen s))) s).
Definition w_optional (w : Writer) (id : option bytes) : Writer :=
  let w := w_byte w (Z.b2z (bool_decide (is_Some id))) in
  match id with Some id => w_bytes w id | None => w end.

(** ** [Reader]: a byte slice and a position. *)
Record Reader : Type := mkReader { rd_bytes : bytes; rd_offset : Z }.
Definition reader (A : Type) : Type := Reader -> Result (A * Reader).
Definition rret {A} (a : A) : reader A := fun r => Ok (a, r).
Definition rbind {A B} (p : reader A) (k : A -> reader B) : reader B :=
  fun r => let? (a, r') := p r in k a r'.
Definition rlift {A} (c : Result A) : reader A := fun r => let? a := c in Ok (a, r).
Notation "'read' x ':=' p 'in' k" := (rbind p (fun x => k))
  (at level 10, x pattern, p at level 100, k at level 200) : rust_scope.

Definition r_take (n : Z) : reader bytes := fun r =>
  let e := rd_offset r + n in
  let? b := ok_or Corrupt (get_range (rd_offset r) e (rd_bytes r)) in
  Ok (b, mkReader (rd_bytes r) e).
Definition r_array (n : Z) : reader bytes := r_take n.
Definition r_byte : reader Z := fun r =>
  let? (b, r) := r_take 1 r in
  match b with [x] => Ok (x, r) | _ => Panic end.
Definition r_u64 : reader Z := read a := r_array 8 in rret (be_val a).
Definition r_u32 : reader Z := read a := r_array 4 in rret (be_val a).
Definition r_u16 : reader Z := read a := r_array 2 in rret (be_val a).
Definition from_utf8 (b : bytes) : Result bytes :=
  if Utf8.valid b then Ok b else Err Corrupt.
Definition r_bounded_string (limit : Z) : reader bytes :=
  read n := r_u32 in
  if decide (n > limit) then rlift (Err Corrupt)
  else read b := r_take n in rlift (from_utf8 b).
Definition r_flag : reader bool :=
  read b := r_byte in
  if b =? 0 then rret false else if b =? 1 then rret true else rlift (Err Corrupt).
Definition r_optional : reader (option bytes) :=
  read f := r_flag in
  if f then read a := r_array 16 in rret (Some a) else rret None.
Definition r_string (limit : Z) : reader bytes :=
  read n := r_u32 in
  if decide (n > limit) then rlift (Err Limit)
  else read b := r_take n in rlift (from_utf8 b).
Definition r_finish : reader unit := fun r =>
  let? _ := require (rd_offset r =? zlen (rd_bytes r)) in Ok (tt, r).

(** ** What a field reader promises. *)
Definition reads {A} (p : reader A) (e : bytes) (a : A) : Prop :=
  forall pre post,
    p (mkReader (pre ++ e ++ post) (zlen pre)) =
    Ok (a, mkReader (pre ++ e ++ post) (zlen pre + zlen e)).
Definition total {A} (p : reader A) : Prop := forall r, p r <> Panic.

Lemma reads_eq {A} (p : reader A) e e' a : reads p e a -> e = e' -> reads p e' a.
Proof. by intros ? <-. Qed.
Lemma reads_ret {A} (a : A) : reads (rret a) [] a.
Proof. intros pre post. unfold rret. by rewrite zlen_nil, Z.add_0_r. Qed.
Lemma reads_bind {A B} (p : reader A) (k : A -> reader B) e1 e2 a b :
  reads p e1 a -> reads (k a) e2 b -> reads (rbind p k) (e1 ++ e2) b.
Proof.
  intros Hp Hk pre post. unfold rbind. rewrite <- app_assoc, Hp. cbn [obind].
  specialize (Hk (pre ++ e1) post). rewrite <- app_assoc, zlen_app in Hk.
  rewrite Hk. by rewrite zlen_app, Z.add_assoc.
Qed.
Lemma reads_lift {A} (a : A) : reads (rlift (Ok a)) [] a.
Proof. apply reads_ret. Qed.
Lemma reads_require (b : bool) : b = true -> reads (rlift (require b)) [] tt.
Proof. intros ->. apply reads_ret. Qed.

Lemma get_range_app {A} (pre e post : list A) n :
  zlen e = n -> get_range (zlen pre) (zlen pre + n) (pre ++ e ++ post) = Some e.
Proof.
  intros <-. unfold get_range. pose proof (zlen_nonneg pre). pose proof (zlen_nonneg e).
  pose proof (zlen_nonneg post).
  rewrite decide_True by (rewrite !zlen_app; lia).
  rewrite zdrop_app_l by done. f_equal. apply ztake_app_l. lia.
Qed.
Lemma reads_take n e : zlen e = n -> reads (r_take n) e e.
Proof. intros Hn pre post. unfold r_take. simpl. by rewrite get_range_app, Hn. Qed.
Lemma reads_array n e : array n e -> reads (r_array n) e e.
Proof. intros [? _]. by apply reads_take. Qed.
Lemma reads_byte x : reads r_byte [x] x.
Proof. intros pre post. unfold r_byte. by rewrite (reads_take 1 [x]). Qed.
Lemma reads_be n v (m : Z) :
  m = Z.of_nat n -> uint (8 * m) v ->
  reads (read a := r_array m in rret (be_val a)) (be_bytes n v) v.
Proof.
  intros -> Hv. unfold uint in Hv. rewrite Z.pow_mul_r in Hv by lia. change (2 ^ 8) with 256 in Hv.
  eapply reads_eq; [|apply app_nil_r].
  eapply reads_bind; [apply reads_take, zlen_be_bytes|].
  rewrite be_val_small by done. apply reads_ret.
Qed.
Lemma reads_u64 v : u64 v -> reads r_u64 (be_bytes 8 v) v.
Proof. by apply (reads_be 8 v 8). Qed.
Lemma reads_u32 v : u32 v -> reads r_u32 (be_bytes 4 v) v.
Proof. by apply (reads_be 4 v 4). Qed.
Lemma reads_u16 v : u16 v -> reads r_u16 (be_bytes 2 v) v.
Proof. by apply (reads_be 2 v 2). Qed.
Lemma reads_flag b : reads r_flag [Z.b2z b] b.
Proof.
  eapply reads_eq; [|apply app_nil_r]. eapply reads_bind; [apply reads_byte|].
  destruct b; apply reads_ret.
Qed.
Lemma reads_utf8 s : str_ok s -> reads (rlift (from_utf8 s)) [] s.
Proof. intros [_ Hs]. unfold from_utf8. rewrite Hs. apply reads_lift. Qed.
(** The bytes [Writer::string] appends. *)
Definition string_field (s : bytes) : bytes := be_bytes 4 (zlen s) ++ s.
Lemma reads_string_gen e limit s :
  str_ok s -> zlen s <= limit -> limit < 2 ^ 32 ->
  reads (read n := r_u32 in
         if decide (n > limit) then rlift (Err e)
         else read b := r_take n in rlift (from_utf8 b)) (string_field s) s.
Proof.
  intros Hs Hl Hm. pose proof (zlen_nonneg s).
  eapply reads_bind; [apply reads_u32; unfold uint; lia|].
  rewrite decide_False by lia.
  eapply reads_eq; [|apply app_nil_r].
  eapply reads_bind; [by apply reads_take|]. by apply reads_utf8.
Qed.
Lemma reads_bounded_string limit s :
  str_ok s -> zlen s <= limit -> limit < 2 ^ 32 ->
  reads (r_bounded_string limit) (string_field s) s.
Proof. apply reads_string_gen. Qed.
Lemma reads_string limit s :
  str_ok s -> zlen s <= limit -> limit < 2 ^ 32 ->
  reads (r_string limit) (string_field s) s.
Proof. apply reads_string_gen. Qed.
Definition option_field (o : option bytes) : bytes :=
  match o with Some a => 1 :: a | None => [0] end.
Lemma reads_option n o :
  (forall a, o = Some a -> array n a) ->
  reads (read f := r_flag in
         if f then read a := r_array n in rret (Some a) else rret None) (option_field o) o.
Proof.
  intros Ho. destruct o as [a|].
  - apply (reads_bind _ _ [1] a true); [apply (reads_flag true)|].
    eapply reads_eq; [|apply app_nil_r].
    eapply reads_bind; [by apply reads_array, Ho|apply reads_ret].
  - apply (reads_bind _ _ [0] [] false); [apply (reads_flag false)|apply reads_ret].
Qed.

Lemma w_optional_field w o : w_optional w o = w ++ option_field o.
Proof.
  unfold w_optional, w_byte, w_bytes, option_field. destruct o; simpl; [|done].
  by rewrite <- app_assoc.
Qed.
Lemma w_string_field w s limit :
  zlen s <= limit -> limit < 2 ^ 32 -> w_string w s limit = Ok (w ++ string_field s).
Proof.
  intros. unfold w_string. rewrite decide_False by lia.
  unfold w_u32, w_bytes, string_field. pose proof (zlen_nonneg s).
  rewrite wrap_small by (unfold uint; lia). by rewrite app_assoc.
Qed.

Lemma total_ret {A} (a : A) : total (rret a).
Proof. done. Qed.
Lemma total_lift {A} (c : Result A) : c <> Panic -> total (rlift c).
Proof. intros ? r. unfold rlift. by destruct c. Qed.
Lemma total_bind {A B} (p : reader A) (k : A -> reader B) :
  total p -> (forall a, total (k a)) -> total (rbind p k).
Proof.
  intros Hp Hk r. unfold rbind. apply obind_not_panic; [apply Hp|]. intros [a r'] _. apply Hk.
Qed.
Lemma total_take n : total (r_take n).
Proof. intros r. unfold r_take. by destruct (get_range _ _ _). Qed.
Lemma total_byte : total r_byte.
Proof.
  intros r. unfold r_byte. apply obind_not_panic; [apply total_take|].
  intros [b r'] H. unfold r_take in H. inv_ok. subst. unfold get_range in *.
  case_decide; simplify_eq/=.
  destruct (ztake _ _) as [|x [|y l]] eqn:Hl; [|done|].
  all: apply (f_equal zlen) in Hl; rewrite zlen_ztake in Hl;
    [|rewrite zlen_zdrop; lia]; rewrite ?zlen_cons, ?zlen_nil in Hl.
  all: try pose proof (zlen_nonneg l); lia.
Qed.
Create HintDb reader_total discriminated.
#[export] Hint Resolve total_ret total_lift total_take total_byte : reader_total.
Ltac total_step :=
  match goal with
  | |- total (rbind _ _) => apply total_bind; [|intros]
  | |- total (if decide ?P then _ else _) => destruct (decide P)
  | |- total (if ?b then _ else _) => destruct b
  | |- total (match ?x with _ => _ end) => destruct x
  | |- total (rlift (require ?b)) => apply total_lift; by destruct b
  | |- total (rlift (from_utf8 ?b)) => apply total_lift; unfold from_utf8; by destruct (Utf8.valid b)
  | |- total (rlift (ok_or _ ?o)) => apply total_lift; by destruct o
  | |- total (rlift (Err _)) => by apply total_lift
  | |- total ?p => solve [auto with reader_total]
  end.
Ltac total_solve := repeat total_step.
Lemma total_array n : total (r_array n).
Proof. apply total_take. Qed.
#[export] Hint Resolve total_array : reader_total.
Lemma total_u64 : total r_u64.
Proof. unfold r_u64. total_solve. Qed.
Lemma total_u32 : total r_u32.
Proof. unfold r_u32. total_solve. Qed.
Lemma total_u16 : total r_u16.
Proof. unfold r_u16. total_solve. Qed.
#[export] Hint Resolve total_u64 total_u32 total_u16 : reader_total.
Lemma total_bounded_string limit : total (r_bounded_string limit).
Proof. unfold r_bounded_string. total_solve. Qed.
Lemma total_flag : total r_flag.
Proof. unfold r_flag. total_solve. Qed.
#[export] Hint Resolve total_bounded_string total_flag : reader_total.
Lemma total_optional : total r_optional.
Proof. unfold r_optional. total_solve. Qed.
#[export] Hint Resolve total_optional : reader_total.

(** ** Frame locators and the terminal codes (conversation/types.rs). *)
Record Locator : Type := mkLocator {
  l_sequence : Z; l_segment : Z; l_offset : Z; l_length : Z;
}.
#[export] Instance Locator_eq_dec : EqDecision Locator.
Proof. solve_decision. Defined.
Definition locator_ok (l : Locator) : Prop :=
  u64 (l_sequence l) /\ u64 (l_segment l) /\ u32 (l_offset l) /\ u32 (l_length l).
Definition locator_none : Locator := mkLocator 0 0 0 0.
Definition locator_is_none (l : Locator) : bool := l_sequence l =? 0.
Definition locator_encode (l : Locator) : bytes :=
  be_bytes 8 (l_sequence l) ++ be_bytes 8 (l_segment l) ++
  be_bytes 4 (l_offset l) ++ be_bytes 4 (l_length l).
Definition locator_decode {E} (b : bytes) : outcome E Locator :=
  let? s := sub 0 8 b in
  let? g := sub 8 16 b in
  let? o := sub 16 20 b in
  let? n := sub 20 24 b in
  Ok (mkLocator (be_val s) (be_val g) (be_val o) (be_val n)).

Inductive TerminalKind : Type := Complete | Failed | TCancelled | Interrupted.
#[export] Instance TerminalKind_eq_dec : EqDecision TerminalKind.
Proof. solve_decision. Defined.
Definition terminal_code (k : TerminalKind) : Z :=
  match k with Complete => 1 | Failed => 2 | TCancelled => 3 | Interrupted => 4 end.
Definition terminal_from_code (code : Z) : option TerminalKind :=
  if code =? 1 then Some Complete
  else if code =? 2 then Some Failed
  else if code =? 3 then Some TCancelled
  else if code =? 4 then Some Interrupted
  else None.

Inductive Cause : Type :=
| CNone | UserCancel | Deadline | OutputLimit | ServiceShutdown | ProviderFailure
| ProtocolFailure | Restart | AuthorityFailure | InputLimit | Steering.
#[export] Instance Cause_eq_dec : EqDecision Cause.
Proof. solve_decision. Defined.
Definition cause_code (c : Cause) : Z :=
  match c with
  | CNone => 0 | UserCancel => 1 | Deadline => 2 | OutputLimit => 3
  | ServiceShutdown => 4 | ProviderFailure => 5 | ProtocolFailure => 6
  | Restart => 7 | AuthorityFailure => 8 | InputLimit => 9 | Steering => 10
  end.
Definition cause_from_code (code : Z) : option Cause :=
  if code =? 0 then Some CNone
  else if code =? 1 then Some UserCancel
  else if code =? 2 then Some Deadline
  else if code =? 3 then Some OutputLimit
  else if code =? 4 then Some ServiceShutdown
  else if code =? 5 then Some ProviderFailure
  else if code =? 6 then Some ProtocolFailure
  else if code =? 7 then Some Restart
  else if code =? 8 then Some AuthorityFailure
  else if code =? 9 then Some InputLimit
  else if code =? 10 then Some Steering
  else None.

Lemma terminal_from_code_Some k c : terminal_from_code c = Some k <-> c = terminal_code k.
Proof.
  unfold terminal_from_code.
  split; [|by intros ->; destruct k]. intros. repeat case_match; simplify_eq; simpl; lia.
Qed.
Lemma cause_from_code_Some k c : cause_from_code c = Some k <-> c = cause_code k.
Proof.
  unfold cause_from_code.
  split; [|by intros ->; destruct k]. intros. repeat case_match; simplify_eq; simpl; lia.
Qed.

Lemma be_val8 v : u64 v -> be_val (be_bytes 8 v) = v.
Proof. intros. by apply be_val_small. Qed.
Lemma be_val4 v : u32 v -> be_val (be_bytes 4 v) = v.
Proof. intros. by apply be_val_small. Qed.
Lemma be_val2 v : u16 v -> be_val (be_bytes 2 v) = v.
Proof. intros. by apply be_val_small. Qed.
Lemma be_bytes_eq n l : zlen l = Z.of_nat n -> bytes_ok l -> be_bytes n (be_val l) = l.
Proof. intros Hl ?. assert (n = length l) as -> by (unfold zlen in Hl; lia). by apply be_bytes_val. Qed.
Lemma be_val_uint n l : zlen l = Z.of_nat n -> bytes_ok l -> uint (8 * Z.of_nat n) (be_val l).
Proof.
  intros Hl Hb. pose proof (be_val_bound l Hb) as Hv. unfold uint.
  rewrite Z.pow_mul_r by lia. change (2 ^ 8) with 256. unfold zlen in Hl. by rewrite <- Hl.
Qed.

Lemma array_locator l : array 24 (locator_encode l).
Proof.
  split; [unfold locator_encode; len|]. unfold locator_encode.
  rewrite !bytes_ok_app. eauto using be_bytes_ok.
Qed.
Lemma locator_roundtrip {E} l : locator_ok l -> locator_decode (locator_encode l) = @Ok E _ l.
Proof.
  intros (?&?&?&?). unfold locator_decode, locator_encode. subs.
  rewrite !be_val8, !be_val4 by done. by destruct l.
Qed.
Lemma locator_decode_sound {E} b l :
  array 24 b -> locator_decode b = @Ok E _ l -> locator_ok l /\ locator_encode l = b.
Proof.
  intros Hb. chop_field Hb 8. chop_field Hb 8. chop_field Hb 4.
  unfold locator_decode. subs. intros [= <-].
  unfold locator_encode, locator_ok. cbn [l_sequence l_segment l_offset l_length].
  destruct Hf, Hf0, Hf1, Hb.
  rewrite !be_bytes_eq by done. split; [|done].
  refine (conj _ (conj _ (conj _ _)));
    [by apply (be_val_uint 8) .. | by apply (be_val_uint 4) | by apply (be_val_uint 4)].
Qed.

(** ** The converse of [reads]: whatever a reader returns is the reading of
    exactly the bytes it consumed, and it does not panic. *)
Definition parses {A} (p : reader A) (Q : A -> bytes -> Prop) : Prop :=
  forall bs o, bytes_ok bs -> 0 <= o <= zlen bs ->
  match p (mkReader bs o) with
  | Ok (a, r) =>
      exists e, Q a e /\ o + zlen e <= zlen bs /\ r = mkReader bs (o + zlen e) /\
                zdrop o bs = e ++ zdrop (o + zlen e) bs
  | Err _ => True
  | Panic => False
  end.
Lemma parses_ret {A} (a : A) (Q : A -> bytes -> Prop) : Q a [] -> parses (rret a) Q.
Proof. intros ? bs o ??. exists []. rewrite zlen_nil, Z.add_0_r. split_and!; try done. lia. Qed.
Lemma parses_err {A} e (Q : A -> bytes -> Prop) : parses (rlift (Err e)) Q.
Proof. by intros bs o. Qed.
Lemma parses_bind {A B} (p : reader A) (k : A -> reader B) (P : A -> bytes -> Prop) Q :
  parses p P -> (forall a e, P a e -> parses (k a) (fun b e' => Q b (e ++ e'))) ->
  parses (rbind p k) Q.
Proof.
  intros Hp Hk bs o Hb Ho. unfold rbind. specialize (Hp bs o Hb Ho).
  destruct (p _) as [[a r]|e|]; [|done|done]. destruct Hp as (e & HP & He & -> & Hd). cbn [obind].
  pose proof (zlen_nonneg e). specialize (Hk a e HP bs (o + zlen e) Hb ltac:(lia)).
  destruct (k a _) as [[b r]|e'|]; [|done|done]. destruct Hk as (e' & HQ & He' & -> & Hd').
  exists (e ++ e'). rewrite zlen_app, Z.add_assoc, <- app_assoc, <- Hd', <- Hd. by split_and!.
Qed.
Lemma parses_weaken {A} (p : reader A) (P Q : A -> bytes -> Prop) :
  parses p P -> (forall a e, P a e -> Q a e) -> parses p Q.
Proof.
  intros Hp HPQ bs o Hb Ho. specialize (Hp bs o Hb Ho).
  destruct (p _) as [[a r]|e|]; [|done|done]. destruct Hp as (e & HP & Hp). eauto.
Qed.
Lemma parses_require {B} b (k : unit -> reader B) Q :
  (b = true -> parses (k tt) Q) -> parses (rbind (rlift (require b)) k) Q.
Proof.
  intros Hk. destruct b; [|by intros bs o]. eapply parses_bind.
  - by apply (parses_ret tt (fun _ e => e = [])).
  - intros [] e ->. by apply Hk.
Qed.
Lemma parses_take n : 0 <= n -> parses (r_take n) (fun a e => a = e /\ array n e).
Proof.
  intros Hn bs o Hb Ho. unfold r_take. cbn [rd_offset rd_bytes]. unfold get_range.
  destruct (decide _) as [Hr|]; [|done]. cbn [ok_or obind]. replace (o + n - o) with n by lia.
  assert (zlen (ztake n (zdrop o bs)) = n) as Hz by (rewrite zlen_ztake; rewrite ?zlen_zdrop; lia).
  exists (ztake n (zdrop o bs)). rewrite Hz.
  refine (conj (conj eq_refl (conj Hz _)) (conj _ (conj eq_refl _))); [|lia|].
  - by apply bytes_ok_ztake, bytes_ok_zdrop.
  - rewrite (Z.add_comm o), <- zdrop_zdrop by lia. by rewrite ztake_zdrop.
Qed.
Lemma parses_array n : 0 <= n -> parses (r_array n) (fun a e => a = e /\ array n e).
Proof. apply parses_take. Qed.
Lemma parses_be (m : nat) n :
  n = Z.of_nat m ->
  parses (read a := r_array n in rret (be_val a)) (fun v e => uint (8 * n) v /\ e = be_bytes m v).
Proof.
  intros ->. eapply parses_bind; [apply parses_array; lia|].
  intros a e [-> [Hl Hb]]. apply parses_ret. rewrite app_nil_r, be_bytes_eq by done.
  split; [by apply be_val_uint|done].
Qed.
Lemma parses_u64 : parses r_u64 (fun v e => u64 v /\ e = be_bytes 8 v).
Proof. by apply (parses_be 8 8). Qed.
Lemma parses_u32 : parses r_u32 (fun v e => u32 v /\ e = be_bytes 4 v).
Proof. by apply (parses_be 4 4). Qed.
Lemma parses_u16 : parses r_u16 (fun v e => u16 v /\ e = be_bytes 2 v).
Proof. by apply (parses_be 2 2). Qed.
Lemma parses_byte : parses r_byte (fun v e => u8 v /\ e = [v]).
Proof.
  intros bs o Hb Ho. pose proof (parses_take 1 ltac:(lia) bs o Hb Ho) as H.
  unfold r_byte. destruct (r_take 1 _) as [[a r]|e|]; [|done|done]. cbn [obind].
  destruct H as (e & [-> [Hz Hok]] & H).
  destruct e as [|x [|y e]]; [done| |rewrite !zlen_cons in Hz; pose proof (zlen_nonneg e); lia].
  apply Forall_cons in Hok as [Hx _]. by exists [x].
Qed.
Lemma parses_flag : parses r_flag (fun b e => e = [Z.b2z b]).
Proof.
  eapply parses_bind; [apply parses_byte|]. intros v e [Hv ->].
  destruct (Z.eqb_spec v 0) as [->|]; [by apply parses_ret|].
  destruct (Z.eqb_spec v 1) as [->|]; [by apply parses_ret|apply parses_err].
Qed.
Lemma parses_bounded_string limit :
  parses (r_bounded_string limit) (fun s e => str_ok s /\ zlen s <= limit /\ e = string_field s).
Proof.
  eapply parses_bind; [apply parses_u32|]. intros n e [Hn ->]. destruct (decide _); [apply parses_err|].
  eapply parses_bind; [apply parses_take; unfold uint in Hn; lia|]. intros s e [-> [Hl Hb]].
  unfold from_utf8. destruct (Utf8.valid e) eqn:Hu; [|apply parses_err].
  apply (parses_ret e). unfold string_field. rewrite app_nil_r, Hl. split_and!; [by split|lia|done].
Qed.
Lemma parses_option n :
  0 <= n ->
  parses (read f := r_flag in
          if f then read a := r_array n in rret (Some a) else rret None)
    (fun o e => (forall a, o = Some a -> array n a) /\ e = option_field o).
Proof.
  intros Hn. eapply parses_bind; [apply parses_flag|]. intros f e ->. destruct f.
  - eapply parses_bind; [by apply parses_array|]. intros a e [-> Ha]. apply parses_ret.
    rewrite app_nil_r. split; [by intros ? [= <-]|done].
  - apply parses_ret. by split.
Qed.

(** A list of [n] fields. *)
Fixpoint r_many {A} (n : nat) (p : reader A) : reader (list A) :=
  match n with
  | O => rret []
  | S n' => read a := p in read l := r_many n' p in rret (a :: l)
  end.
Lemma parses_many {A} n (p : reader A) (ok : A -> Prop) (enc : A -> bytes) :
  parses p (fun a e => ok a /\ e = enc a) ->
  parses (r_many n p) (fun l e => length l = n /\ Forall ok l /\ e = concat (enc <$> l)).
Proof.
  intros Hp. induction n as [|n IH]; cbn [r_many].
  { apply parses_ret. by repeat constructor. }
  eapply parses_bind; [exact Hp|]. intros a e [Ha ->].
  eapply parses_bind; [exact IH|]. intros l e (Hl & Hok & ->). apply parses_ret.
  rewrite app_nil_r. split_and!; [simpl; lia|by constructor|done].
Qed.
Lemma reads_many {A} n (p : reader A) (enc : A -> bytes) l :
  n = length l -> Forall (fun a => reads p (enc a) a) l -> reads (r_many n p) (concat (enc <$> l)) l.
Proof.
  intros -> Hl. induction Hl as [|a l Ha _ IH]; cbn [r_many length fmap list_fmap concat]; [apply reads_ret|].
  eapply reads_bind; [exact Ha|]. eapply reads_eq; [|apply app_nil_r].
  eapply reads_bind; [exact IH|apply reads_ret].
Qed.
