(* ===== verification/Fields.v ===== *)
(** * Record fields: shared tools of the record codecs.

    Repeated fields and validated values for the writers and readers of
    Codec.v, the bounded payload decoder of [decode_record]'s arms, and the
    tactics that step through a reader in both directions: [parses_next] from
    the bytes to the value, [reads_next] from the value to the bytes. *)
From stdpp Require Import prelude list.
From Stdlib Require Import ZArith Lia.
From S2P Require Import Prelude Codec.

Definition in_range (lo hi v : Z) : bool := (lo <=? v) && (v <=? hi).
Definition nonzero_id (id : bytes) : bool := bool_decide (id <> zeros 16).
(** [for s in l { f(w, s)?; }]. *)
Definition w_each {A} (f : Writer -> A -> Result Writer) (w : Writer) (l : list A) : Result Writer :=
  foldl (fun c a => let? w := c in f w a) (Ok w) l.
Definition decode_bounded {A} (bound : Z) (p : reader A) (payload : bytes) : Result A :=
  if decide (zlen payload > bound) then Err Limit else
  let? (value, r) := p (mkReader payload 0) in
  if decide (rd_offset r <> zlen payload) then Err Corrupt else Ok value.

(** ** Writers. *)
Lemma require_Ok b u : require b = Ok u <-> b = true.
Proof. destruct b, u; done. Qed.
Lemma w_string_Ok w s limit w' :
  limit < 2 ^ 32 -> w_string w s limit = Ok w' <-> zlen s <= limit /\ w' = w ++ string_field s.
Proof.
  intros Hl. destruct (decide (zlen s <= limit)) as [Hs|Hs].
  - rewrite w_string_field by lia. naive_solver.
  - unfold w_string. rewrite decide_True by lia. naive_solver.
Qed.
Lemma w_each_Ok {A} (f : Writer -> A -> Result Writer) (fit : A -> Prop) (enc : A -> bytes) w l w' :
  Forall (fun a => forall w w', f w a = Ok w' <-> fit a /\ w' = w ++ enc a) l ->
  w_each f w l = Ok w' <-> Forall fit l /\ w' = w ++ concat (enc <$> l).
Proof.
  intros Hf. unfold w_each. revert w. induction Hf as [|a l Ha _ IH]; intros w; cbn [foldl fmap list_fmap concat].
  { rewrite app_nil_r. split; [intros [= <-]; by split|by intros [_ ->]]. }
  cbn [obind]. destruct (f w a) as [w1|e|] eqn:Hw.
  - apply Ha in Hw as [Hfit ->]. rewrite IH, Forall_cons, app_assoc. naive_solver.
  - assert (forall l, foldl (fun c a => let? w := c in f w a) (Err e) l = Err e) as ->
      by (clear; by induction l). split; [done|]. intros [[Hfit _]%Forall_cons ->].
    assert (f w a = Ok (w ++ enc a)) by by apply Ha. congruence.
  - assert (forall l, foldl (fun c a => let? w := c in f w a) Panic l = Panic) as ->
      by (clear; by induction l). split; [done|]. intros [[Hfit _]%Forall_cons ->].
    assert (f w a = Ok (w ++ enc a)) by by apply Ha. congruence.
Qed.
Lemma w_each_sound {A} (f : Writer -> A -> Result Writer) (fit : A -> Prop) (enc : A -> bytes) w l w' :
  Forall (fun a => forall w w', f w a = Ok w' -> fit a /\ w' = w ++ enc a) l ->
  w_each f w l = Ok w' -> Forall fit l /\ w' = w ++ concat (enc <$> l).
Proof.
  intros Hf. unfold w_each. revert w. induction Hf as [|a l Ha _ IH]; intros w; cbn [foldl fmap list_fmap concat obind].
  { rewrite app_nil_r. by intros [= <-]. }
  intros Hw. destruct (f w a) as [w1|e|] eqn:Hw1.
  - apply Ha in Hw1 as [Hfit ->]. apply IH in Hw as [Hl ->]. rewrite <- app_assoc. split; [by constructor|done].
  - exfalso. revert Hw. clear. by induction l.
  - exfalso. revert Hw. clear. by induction l.
Qed.
Lemma w_each_complete {A} (f : Writer -> A -> Result Writer) (bound : Z) (enc : A -> bytes) w l :
  Forall (fun a => forall w, zlen (w ++ enc a) <= bound -> f w a = Ok (w ++ enc a)) l ->
  zlen (w ++ concat (enc <$> l)) <= bound -> w_each f w l = Ok (w ++ concat (enc <$> l)).
Proof.
  intros Hf. unfold w_each. revert w. induction Hf as [|a l Ha _ IH]; intros w; cbn [foldl fmap list_fmap concat obind].
  { by rewrite app_nil_r. }
  rewrite app_assoc. intros Hb. rewrite Ha.
  - by apply IH.
  - rewrite zlen_app in Hb. pose proof (zlen_nonneg (concat (enc <$> l))). lia.
Qed.
Definition rules_fit (limit : Z) (l : list bytes) : Prop := Forall (fun s => zlen s <= limit) l.
Lemma w_strings_Ok limit w l w' :
  limit < 2 ^ 32 ->
  w_each (fun w s => w_string w s limit) w l = Ok w' <->
  rules_fit limit l /\ w' = w ++ concat (string_field <$> l).
Proof.
  intros Hl. apply (w_each_Ok _ (fun s => zlen s <= limit) string_field).
  apply Forall_forall. intros s _ w0 w1. by apply w_string_Ok.
Qed.

(** ** From bytes to values. *)
(** [parses_next] reads one more field; the conditions it establishes stay in
    the context. *)
Ltac parses_next :=
  match goal with
  | |- parses (rret _) _ => apply parses_ret
  | |- parses (rlift (Err _)) _ => apply parses_err
  | |- parses (rbind (rlift (require _)) _) _ => apply parses_require; intro
  | |- parses (rbind r_u64 _) _ => eapply parses_bind; [apply parses_u64|intros ? ? [? ->]]
  | |- parses (rbind r_u32 _) _ => eapply parses_bind; [apply parses_u32|intros ? ? [? ->]]
  | |- parses (rbind r_u16 _) _ => eapply parses_bind; [apply parses_u16|intros ? ? [? ->]]
  | |- parses (rbind r_byte _) _ => eapply parses_bind; [apply parses_byte|intros ? ? [? ->]]
  | |- parses (rbind r_flag _) _ => eapply parses_bind; [apply parses_flag|intros ? ? ->]
  | |- parses (rbind (r_array _) _) _ => eapply parses_bind; [apply parses_array; lia|intros ? ? [-> ?]]
  | |- parses (rbind (r_bounded_string _) _) _ =>
      eapply parses_bind; [apply parses_bounded_string|intros ? ? (? & ? & ->)]
  | |- parses (rbind r_optional _) _ => eapply parses_bind; [by apply (parses_option 16)|intros ? ? [? ->]]
  end.
Lemma parses_from_code {A B} (from_code : Z -> option A) code c (k : A -> reader B) Q :
  (forall a, from_code c = Some a -> c = code a) ->
  (forall a, c = code a -> parses (k a) Q) ->
  parses (rbind (rlift (ok_or Corrupt (from_code c))) k) Q.
Proof.
  intros Hc Hk. destruct (from_code c) as [a|]; [|by intros bs o]. eapply parses_bind.
  - by apply (parses_ret a (fun b e => b = a /\ e = [])).
  - intros b e [-> ->]. apply Hk. by apply Hc.
Qed.
Lemma parses_validate {A B} (v : Result unit) (a : A) (k : unit -> reader B) Q :
  v <> Panic -> (v = Ok tt -> parses (k tt) Q) -> parses (rbind (rlift v) k) Q.
Proof.
  intros Hv Hk. destruct v as [[]|e|]; [|by intros bs o|done]. eapply parses_bind.
  - by apply (parses_ret tt (fun _ e => e = [])).
  - intros [] e ->. by apply Hk.
Qed.
Lemma require_not_panic b : require b <> Panic.
Proof. by destruct b. Qed.
Lemma read_strings_parses n limit :
  parses (r_many n (r_bounded_string limit))
    (fun l e => length l = n /\ Forall (fun s => str_ok s /\ zlen s <= limit) l /\ e = concat (string_field <$> l)).
Proof.
  apply parses_many. eapply parses_weaken; [apply parses_bounded_string|]. intros s e (? & ? & ->). by split.
Qed.
Lemma zlen_to_nat {A} (l : list A) n : 0 <= n -> length l = Z.to_nat n -> zlen l = n.
Proof. unfold zlen. lia. Qed.

(** ** From values to bytes. *)
Lemma reads_last {A B} (p : reader A) (k : A -> reader B) e a b :
  reads p e a -> reads (k a) [] b -> reads (rbind p k) e b.
Proof. intros Hp Hk. eapply reads_eq; [|apply app_nil_r]. by eapply reads_bind. Qed.
Ltac reads_next :=
  match goal with
  | |- reads (rret _) [] _ => apply reads_ret
  | |- reads (rbind (rlift (require _)) _) _ _ =>
      eapply (reads_bind _ _ [] _); [apply reads_require; try done|cbv beta]
  | |- reads (rbind r_byte _) (?x :: ?l) _ => eapply (reads_bind _ _ [x] l); [apply reads_byte|cbv beta]
  | |- reads (rbind r_flag _) (?x :: ?l) _ => eapply (reads_bind _ _ [x] l); [apply reads_flag|cbv beta]
  | |- reads (rbind (rlift ?c) _) ?l _ => eapply (reads_bind _ _ [] l)
  | |- reads (rbind _ _) (_ ++ _) _ =>
      eapply reads_bind;
      [first [by apply reads_u64|by apply reads_u32|by apply reads_u16|by apply reads_array
             |by apply reads_bounded_string|by apply (reads_option 32)|by apply (reads_option 16)|idtac]|cbv beta]
  end.
Lemma reads_strings limit l n :
  limit < 2 ^ 32 -> n = length l -> Forall str_ok l -> rules_fit limit l ->
  reads (r_many n (r_bounded_string limit)) (concat (string_field <$> l)) l.
Proof.
  intros Hl -> Hs Hf. apply reads_many; [done|]. apply Forall_forall. intros s Hin.
  rewrite Forall_forall in Hs. unfold rules_fit in Hf. rewrite Forall_forall in Hf.
  apply reads_bounded_string; auto.
Qed.

(** ** Payloads. *)
Lemma decode_bounded_Ok {A} bound (p : reader A) (ok : A -> Prop) (enc : A -> bytes) payload a :
  bytes_ok payload ->
  parses p (fun a e => ok a /\ e = enc a) ->
  (zlen payload <= bound -> ok a -> payload = enc a -> reads p payload a) ->
  decode_bounded bound p payload = Ok a <-> ok a /\ zlen payload <= bound /\ payload = enc a.
Proof.
  intros Hb Hp Hr. unfold decode_bounded. destruct (decide (zlen payload > bound)); [split; [done|lia]|].
  split.
  - specialize (Hp payload 0 Hb ltac:(pose proof (zlen_nonneg payload); lia)).
    destruct (p _) as [[x r]|e|]; cbn [obind]; [|done..]. destruct Hp as (e & [Hok ->] & Hle & -> & Hd).
    cbn [rd_offset]. destruct (decide _) as [|Hn]; [done|]. intros [= ->]. split; [done|]. split; [lia|].
    apply dec_stable in Hn. rewrite Z.add_0_l in Hd, Hn. rewrite Hn in Hd.
    unfold zdrop, zlen in Hd. rewrite Nat2Z.id, (drop_ge payload (length payload)), app_nil_r in Hd by lia. done.
  - intros (Hok & Hl & He). specialize (Hr Hl Hok He [] []). rewrite app_nil_r in Hr. cbn [app] in Hr.
    rewrite zlen_nil in Hr. rewrite Hr. cbn [obind rd_offset]. by rewrite decide_False by lia.
Qed.
Lemma decode_bounded_no_panic {A} bound (p : reader A) Q payload :
  bytes_ok payload -> parses p Q -> decode_bounded bound p payload <> Panic.
Proof.
  intros Hb Hp. unfold decode_bounded. destruct (decide _); [done|].
  specialize (Hp payload 0 Hb ltac:(pose proof (zlen_nonneg payload); lia)).
  destruct (p _) as [[x r]|e|]; cbn [obind]; [by destruct (decide _)|done..].
Qed.
Lemma bytes_ok_concat {A} (enc : A -> bytes) l : Forall (fun a => bytes_ok (enc a)) l -> bytes_ok (concat (enc <$> l)).
Proof. induction 1; [constructor|]. cbn [fmap list_fmap concat]. by apply bytes_ok_app. Qed.
Lemma bytes_ok_string s : str_ok s -> bytes_ok (string_field s).
Proof. intros [Hs _]. apply bytes_ok_app. split; [apply be_bytes_ok|done]. Qed.
Lemma bytes_ok_option n o : (forall a, o = Some a -> array n a) -> bytes_ok (option_field o).
Proof.
  intros Ho. destruct o as [a|]; [|by repeat constructor]. destruct (Ho a eq_refl) as [_ Ha].
  constructor; [by_decide|done].
Qed.
Lemma bytes_ok_strings l : Forall str_ok l -> bytes_ok (concat (string_field <$> l)).
Proof. intros Hl. apply bytes_ok_concat. eapply Forall_impl; [exact Hl|]. apply bytes_ok_string. Qed.
Lemma bytes_ok_cons b l : u8 b -> bytes_ok l -> bytes_ok (b :: l).
Proof. by constructor. Qed.
Ltac bytes_solve :=
  first [apply be_bytes_ok|assumption|by apply bytes_ok_string|by apply (bytes_ok_option 32)|by apply (bytes_ok_option 16)
        |match goal with H : array _ ?b |- bytes_ok ?b => apply H end
        |solve [repeat (apply Forall_cons_2; [assumption|]); apply Forall_nil_2]
        |match goal with |- bytes_ok (_ ++ _) => apply bytes_ok_app; split; bytes_solve end|idtac].
