(* ===== verification/Envelope.v ===== *)
(** * Journal frames: [encode_frame] (conversation/codec.rs) and the strict
    format-1 parser [envelope], [verified_frame] (authority.rs).

    The record codec is an interface ([RecordCodec], [RecordCodecOk]): the
    theorems here hold for any record codec that keeps its laws. *)
From stdpp Require Import prelude list.
From Stdlib Require Import ZArith Lia.
From S2P Require Import Prelude Codec.

Definition MAX_FRAME : Z := 64 * 1024.
Definition HEADER : Z := 144.
Definition TRAILER : Z := 40.
Definition SEGMENT_BYTES : Z := 8 * 1024 * 1024.
Definition SEGMENT_FRAMES : Z := 32768.
(** b"ASURAJ01" and b"ASURAC01". *)
Definition FRAME_MAGIC : bytes := [65; 83; 85; 82; 65; 74; 48; 49].
Definition FRAME_COMMIT : bytes := [65; 83; 85; 82; 65; 67; 48; 49].

Record FrameContext : Type := mkContext {
  installation_id : bytes;
  transition_id : bytes;
  sequence : Z;
  prior_digest : bytes;
  expected_revision : Z;
  owner_generation : Z;
}.
Definition context_ok (c : FrameContext) : Prop :=
  Id_ok (installation_id c) /\ Id_ok (transition_id c) /\ u64 (sequence c) /\
  Hash_ok (prior_digest c) /\ u64 (expected_revision c) /\ u64 (owner_generation c).
Record Envelope : Type := mkEnvelope {
  e_context : FrameContext;
  e_kind : Z;
  e_payload : bytes;
  e_digest : bytes;
  e_length : Z;
}.

(** What the frame code needs of [Record]: its kind, payload and decoder. *)
Class RecordCodec (R : Type) := {
  record_kind : R -> Z;
  record_payload : R -> Result bytes;
  decode_record : Z -> bytes -> Result R;
}.
Class RecordCodecOk (R : Type) `{RecordCodec R} (wf : R -> Prop) : Prop := {
  kind_u16 (r : R) : u16 (record_kind r);
  payload_bytes (r : R) p : wf r -> record_payload r = Ok p -> bytes_ok p;
  decode_payload (r : R) p :
    wf r -> record_payload r = Ok p -> HEADER + zlen p + TRAILER <= MAX_FRAME -> decode_record (record_kind r) p = Ok r;
}.

Definition u64_at (b : bytes) (offset : Z) : Result Z :=
  let? f := sub offset (offset + 8) b in Ok (be_val f).
Definition id_at (b : bytes) (offset : Z) : Result bytes := sub offset (offset + 16) b.

Section Frame.
Context `{Hasher}.

Definition envelope (b : bytes) : Result Envelope :=
  if decide (zlen b < HEADER) then Err IncompleteTail else
  let? magic := sub 0 8 b in
  if decide (magic <> FRAME_MAGIC) then Err Corrupt else
  let? version := sub 8 10 b in
  if decide (version <> be_bytes 2 1) then Err UnsupportedFormat else
  let? size := sub 12 16 b in
  let length := be_val size in
  if decide (length > MAX_FRAME) then Err Limit else
  if decide (length < HEADER + TRAILER) then Err Corrupt else
  if decide (zlen b < length) then Err IncompleteTail else
  let? frame := sub 0 length b in
  let hash_end := length - TRAILER in
  let? hashed := sub 0 hash_end frame in
  let digest := sha256 hashed in
  let? stored := sub hash_end (hash_end + 32) frame in
  let? commit := sub (length - 8) length frame in
  if decide (stored <> digest \/ commit <> FRAME_COMMIT) then Err Corrupt else
  let? kind := sub 10 12 frame in
  let? payload := sub HEADER hash_end frame in
  let? command := sub 88 120 frame in
  if decide (command <> sha256 (kind ++ payload)) then Err Corrupt else
  let? expected := u64_at frame 120 in
  let? installation := id_at frame 56 in
  let? transition := id_at frame 72 in
  let? owner := u64_at frame 136 in
  let? resulting := u64_at frame 128 in
  if decide (installation = zeros 16 \/ transition = zeros 16 \/ owner = 0) then Err Corrupt else
  let? next := ok_or Corrupt (checked_add64 expected 1) in
  if decide (resulting <> next) then Err Corrupt else
  let? seq := u64_at frame 16 in
  let? prior := sub 24 56 frame in
  Ok (mkEnvelope (mkContext installation transition seq prior expected owner)
        (be_val kind) payload digest length).

Context {R : Type} `{RecordCodec R}.

Definition encode_frame (context : FrameContext) (record : R) : Result bytes :=
  if decide (installation_id context = zeros 16 \/ transition_id context = zeros 16 \/
             sequence context = 0 \/ owner_generation context = 0) then Err Corrupt else
  let? p := record_payload record in
  let size := HEADER + zlen p + TRAILER in
  if decide (size > MAX_FRAME) then Err Limit else
  let? resulting := ok_or Limit (checked_add64 (expected_revision context) 1) in
  let w := w_bytes [] FRAME_MAGIC in
  let w := w_bytes w (be_bytes 2 1) in
  let w := w_bytes w (be_bytes 2 (record_kind record)) in
  let w := w_u32 w size in
  let w := w_u64 w (sequence context) in
  let w := w_bytes w (prior_digest context) in
  let w := w_bytes w (installation_id context) in
  let w := w_bytes w (transition_id context) in
  let w := w_bytes w (sha256 (be_bytes 2 (record_kind record) ++ p)) in
  let w := w_u64 w (expected_revision context) in
  let w := w_u64 w resulting in
  let w := w_u64 w (owner_generation context) in
  let w := w_bytes w p in
  let w := w_bytes w (sha256 w) in
  let w := w_bytes w FRAME_COMMIT in
  Ok w.

Definition verified_frame (b : bytes) (locator : Locator) :
    Result (FrameContext * R * bytes) :=
  let? e := map_err (fun e => match e with UnsupportedFormat => e | _ => Corrupt end)
              (envelope b) in
  if decide (e_length e <> zlen b \/ e_length e <> l_length locator \/
             sequence (e_context e) <> l_sequence locator) then Err Corrupt else
  let? record := decode_record (e_kind e) (e_payload e) in
  Ok (e_context e, record, e_digest e).
Definition verified_command (b : bytes) (locator : Locator) : Result (bytes * R) :=
  let? (_, record, _) := verified_frame b locator in
  let? command := sub 88 120 b in
  Ok (command, record).
Definition verified_record (b : bytes) (locator : Locator) : Result R :=
  let? (_, record, _) := verified_frame b locator in Ok record.

(** ** The bytes of a frame. *)
Definition frame_header (c : FrameContext) (kind : Z) (p : bytes) : bytes :=
  FRAME_MAGIC ++ be_bytes 2 1 ++ be_bytes 2 kind ++ be_bytes 4 (HEADER + zlen p + TRAILER) ++
  be_bytes 8 (sequence c) ++ prior_digest c ++ installation_id c ++ transition_id c ++
  sha256 (be_bytes 2 kind ++ p) ++ be_bytes 8 (expected_revision c) ++
  be_bytes 8 (expected_revision c + 1) ++ be_bytes 8 (owner_generation c).
Definition frame_body (c : FrameContext) (kind : Z) (p : bytes) : bytes :=
  frame_header c kind p ++ p.
Definition frame_bytes (c : FrameContext) (kind : Z) (p : bytes) : bytes :=
  frame_body c kind p ++ sha256 (frame_body c kind p) ++ FRAME_COMMIT.

Lemma encode_frame_Ok c r f :
  encode_frame c r = Ok f <->
  exists p, record_payload r = Ok p /\ f = frame_bytes c (record_kind r) p /\
    (installation_id c <> zeros 16 /\ transition_id c <> zeros 16 /\
     sequence c <> 0 /\ owner_generation c <> 0) /\
    HEADER + zlen p + TRAILER <= MAX_FRAME /\ expected_revision c + 1 <= U64_MAX.
Proof.
  unfold encode_frame. split.
  - intros Hf. case_decide as Hz; [done|]. inv_ok. case_decide; [done|]. inv_ok.
    destruct (checked_add64 _ _) as [n|] eqn:Hn; [|done]. simplify_eq/=.
    apply checked_add64_Some in Hn as [-> ?]. eexists. split; [done|]. split; [|naive_solver lia].
    unfold frame_bytes, frame_body, frame_header, w_u32, w_u64, w_bytes.
    cbn [app]. by rewrite <- !app_assoc.
  - intros (p & -> & -> & (?&?&?&?) & ? & Hrev). rewrite decide_False by naive_solver. cbn [obind].
    rewrite decide_False by lia.
    rewrite (proj2 (checked_add64_Some _ _ _) (conj eq_refl Hrev)). cbn [ok_or obind].
    unfold frame_bytes, frame_body, frame_header, w_u32, w_u64, w_bytes.
    cbn [app]. by rewrite <- !app_assoc.
Qed.

Context `{!HasherOk}.

Lemma zlen_magic : zlen FRAME_MAGIC = 8.
Proof. done. Qed.
Lemma zlen_commit : zlen FRAME_COMMIT = 8.
Proof. done. Qed.

Lemma frame_header_len c kind p : context_ok c -> zlen (frame_header c kind p) = HEADER.
Proof.
  intros (?&?&?&?&?&?). pose proof (sha256_array (be_bytes 2 kind ++ p)).
  unfold frame_header, HEADER. rewrite !zlen_app, zlen_magic. len.
Qed.
Lemma frame_body_len c kind p : context_ok c -> zlen (frame_body c kind p) = HEADER + zlen p.
Proof. intros. unfold frame_body. by rewrite zlen_app, frame_header_len. Qed.
Lemma frame_bytes_len c kind p :
  context_ok c -> zlen (frame_bytes c kind p) = HEADER + zlen p + TRAILER.
Proof.
  intros Hc. unfold frame_bytes. pose proof (sha256_array (frame_body c kind p)).
  rewrite !zlen_app, frame_body_len, zlen_commit by done. pose_lens. unfold TRAILER. lia.
Qed.

(** The header fields at their fixed offsets. *)
Lemma header_fields {E} magic ver kind size seq prior inst trans cmd expd res own k :
  array 8 magic -> array 2 ver -> array 2 kind -> array 4 size -> array 8 seq ->
  array 32 prior -> array 16 inst -> array 16 trans -> array 32 cmd -> array 8 expd ->
  array 8 res -> array 8 own ->
  let F := (magic ++ ver ++ kind ++ size ++ seq ++ prior ++ inst ++ trans ++ cmd ++
            expd ++ res ++ own) ++ k in
  @sub E _ 0 8 F = Ok magic /\ @sub E _ 8 10 F = Ok ver /\ @sub E _ 10 12 F = Ok kind /\
  @sub E _ 12 16 F = Ok size /\ @sub E _ 16 (16 + 8) F = Ok seq /\
  @sub E _ 24 56 F = Ok prior /\ @sub E _ 56 (56 + 16) F = Ok inst /\
  @sub E _ 72 (72 + 16) F = Ok trans /\ @sub E _ 88 120 F = Ok cmd /\
  @sub E _ 120 (120 + 8) F = Ok expd /\ @sub E _ 128 (128 + 8) F = Ok res /\
  @sub E _ 136 (136 + 8) F = Ok own.
Proof.
  do 12 intro. cbv zeta. rewrite <- !app_assoc.
  repeat (split; [subs; done|]). subs. done.
Qed.

(** The parser accepts a written frame, wherever the file continues. *)
Lemma envelope_frame c kind p tail :
  context_ok c -> u16 kind ->
  HEADER + zlen p + TRAILER <= MAX_FRAME -> expected_revision c + 1 <= U64_MAX ->
  installation_id c <> zeros 16 -> transition_id c <> zeros 16 -> owner_generation c <> 0 ->
  envelope (frame_bytes c kind p ++ tail) =
  Ok (mkEnvelope c kind p (sha256 (frame_body c kind p)) (HEADER + zlen p + TRAILER)).
Proof.
  intros Hc Hk Hsz Hrev Hi Ht Ho.
  pose proof (frame_body_len c kind p Hc) as Lb. pose proof (frame_bytes_len c kind p Hc) as Lf.
  pose proof (frame_header_len c kind p Hc) as Lh.
  pose proof (sha256_array (frame_body c kind p)) as Hsha. pose_lens.
  pose proof (zlen_nonneg p). pose proof (zlen_nonneg tail).
  unfold envelope. rewrite decide_False by (rewrite zlen_app, Lf; unfold TRAILER; lia).
  assert (Hm : array 8 FRAME_MAGIC) by (split; [done|]; repeat constructor; done).
  destruct Hc as (Hci & Hct & Hcs & Hcp & Hce & Hco).
  pose proof (fun k => @header_fields ReplayError FRAME_MAGIC (be_bytes 2 1) (be_bytes 2 kind)
    (be_bytes 4 (HEADER + zlen p + TRAILER)) (be_bytes 8 (sequence c)) (prior_digest c)
    (installation_id c) (transition_id c) (sha256 (be_bytes 2 kind ++ p))
    (be_bytes 8 (expected_revision c)) (be_bytes 8 (expected_revision c + 1))
    (be_bytes 8 (owner_generation c)) k Hm (array_be_bytes 2 _) (array_be_bytes 2 _)
    (array_be_bytes 4 _) (array_be_bytes 8 _) Hcp Hci Hct (sha256_array _) (array_be_bytes 8 _)
    (array_be_bytes 8 _) (array_be_bytes 8 _)) as HH.
  cbv zeta in HH. fold (frame_header c kind p) in HH.
  assert (Ef : frame_bytes c kind p = frame_header c kind p ++ p ++ sha256 (frame_body c kind p) ++ FRAME_COMMIT)
    by (unfold frame_bytes, frame_body; by rewrite <- app_assoc).
  destruct (HH ((p ++ sha256 (frame_body c kind p) ++ FRAME_COMMIT) ++ tail)) as (F1&F2&_&F4&_).
  rewrite app_assoc, <- Ef in F1, F2, F4.
  rewrite F1. cbn [obind]. rewrite decide_False by naive_solver.
  rewrite F2. cbn [obind]. rewrite decide_False by naive_solver.
  rewrite F4. cbn [obind]. unfold HEADER, TRAILER, MAX_FRAME in *.
  rewrite be_val4 by (unfold uint; lia). rewrite !decide_False by (rewrite ?zlen_app; lia).
  rewrite sub_here by lia. cbn [obind].
  destruct (HH (p ++ sha256 (frame_body c kind p) ++ FRAME_COMMIT))
    as (_&_&F3&_&F5&F6&F7&F8&F9&F10&F11&F12).
  rewrite <- Ef in F3, F5, F6, F7, F8, F9, F10, F11, F12.
  unfold frame_bytes at 1. rewrite sub_here by lia. cbn [obind].
  unfold frame_bytes at 1. rewrite sub_mid by lia. cbn [obind].
  assert (Hcm : @sub ReplayError _ (144 + zlen p + 40 - 8) (144 + zlen p + 40)
                  (frame_bytes c kind p) = Ok FRAME_COMMIT).
  { unfold frame_bytes. rewrite app_assoc. apply sub_end; rewrite ?zlen_app, ?zlen_commit; lia. }
  rewrite Hcm. cbn [obind]. rewrite decide_False by naive_solver.
  rewrite F3. cbn [obind]. rewrite Ef at 1. rewrite sub_mid by lia.
  cbn [obind]. rewrite F9. cbn [obind]. rewrite decide_False by naive_solver.
  unfold u64_at, id_at. rewrite F10, F7, F8, F12, F11. cbn [obind].
  unfold U64_MAX, uint in *.
  rewrite !be_val8, be_val2 by (unfold uint; lia).
  rewrite decide_False by naive_solver.
  rewrite (proj2 (checked_add64_Some _ _ _) (conj eq_refl Hrev)). cbn [ok_or obind].
  rewrite decide_False by naive_solver. rewrite F5, F6. cbn [obind].
  rewrite be_val8 by (unfold uint; lia). by destruct c.
Qed.

(** Splits a frame of [L] bytes into its fields. *)
Lemma frame_split L F :
  array L F -> HEADER + TRAILER <= L ->
  exists magic ver kind size seq prior inst trans cmd expd res own p dig com,
    F = ((magic ++ ver ++ kind ++ size ++ seq ++ prior ++ inst ++ trans ++ cmd ++
          expd ++ res ++ own) ++ p) ++ dig ++ com /\
    array 8 magic /\ array 2 ver /\ array 2 kind /\ array 4 size /\ array 8 seq /\
    array 32 prior /\ array 16 inst /\ array 16 trans /\ array 32 cmd /\ array 8 expd /\
    array 8 res /\ array 8 own /\ array (L - HEADER - TRAILER) p /\ array 32 dig /\ array 8 com.
Proof.
  unfold HEADER, TRAILER. intros HF HL.
  replace L with ((144 + (L - 184)) + 40) in HF by lia.
  apply chop in HF as (h & t & -> & Hh & Ht); [|lia..].
  apply chop in Hh as (g & p & -> & Hg & Hp); [|lia..].
  replace (L - 144 - 40) with (L - 184) by lia.
  chop_field Ht 32. chop_field Hg 8. chop_field Hg 2. chop_field Hg 2. chop_field Hg 4.
  chop_field Hg 8. chop_field Hg 32. chop_field Hg 16. chop_field Hg 16. chop_field Hg 32.
  chop_field Hg 8. chop_field Hg 8.
  do 15 eexists. split; [reflexivity|]. by repeat (split; [eassumption|]).
Qed.

(** Fields that agree with the parser's checks are a written header. *)
Lemma frame_header_of_fields kind size seq prior inst trans expd res own p :
  array 2 kind -> array 4 size -> array 8 seq -> array 8 expd -> array 8 res -> array 8 own ->
  be_val size = HEADER + zlen p + TRAILER -> be_val res = be_val expd + 1 ->
  FRAME_MAGIC ++ be_bytes 2 1 ++ kind ++ size ++ seq ++ prior ++ inst ++ trans ++
    sha256 (kind ++ p) ++ expd ++ res ++ own =
  frame_header (mkContext inst trans (be_val seq) prior (be_val expd) (be_val own)) (be_val kind) p.
Proof.
  intros [??] [??] [??] [??] [??] [??] Hs Hr. unfold frame_header.
  cbn [sequence prior_digest installation_id transition_id expected_revision owner_generation].
  rewrite <- Hs, <- Hr. by rewrite !be_bytes_eq by done.
Qed.

(** Every accepted frame is the frame its envelope encodes to. *)
Lemma envelope_sound b e :
  bytes_ok b -> envelope b = Ok e ->
  ztake (e_length e) b = frame_bytes (e_context e) (e_kind e) (e_payload e) /\
  e_length e <= zlen b /\
  context_ok (e_context e) /\ u16 (e_kind e) /\ bytes_ok (e_payload e) /\
  e_digest e = sha256 (frame_body (e_context e) (e_kind e) (e_payload e)) /\
  e_length e = HEADER + zlen (e_payload e) + TRAILER /\ e_length e <= MAX_FRAME /\
  expected_revision (e_context e) + 1 <= U64_MAX /\
  installation_id (e_context e) <> zeros 16 /\ transition_id (e_context e) <> zeros 16 /\
  owner_generation (e_context e) <> 0.
Proof.
  intros Hb H2. unfold envelope in H2. inv_res H2.
  repeat match goal with H : ~ (_ <> _) |- _ => apply dec_stable in H end.
  remember (be_val a1) as L eqn:HL. pose proof (sub_array 0 L b a2 L Ha2 Hb ltac:(lia)) as HF.
  apply sub_Ok in Ha2 as [HLb Ea2]. rewrite Z.sub_0_r in Ea2. change (zdrop 0 b) with b in Ea2.
  assert (Eb : b = a2 ++ zdrop L b) by (rewrite Ea2; symmetry; apply ztake_zdrop).
  rewrite Eb in Ha, Ha0, Ha1. assert (HL184 : 184 <= L) by (unfold HEADER, TRAILER in *; lia).
  rewrite sub_prefix in Ha, Ha0, Ha1 by (destruct HF; lia).
  apply frame_split in HF as (magic & ver & kind & size & seq & prior & inst & trans & cmd &
    expd & res & own & p & dig & com & EF & ? & ? & ? & ? & ? & ? & ? & ? & ? & ? & ? & ? & ? & ? & ?);
    [|done].
  remember (magic ++ ver ++ kind ++ size ++ seq ++ prior ++ inst ++ trans ++ cmd ++ expd ++ res ++ own)
    as hdr eqn:Ehdr.
  assert (Lh : zlen hdr = 144) by (rewrite Ehdr; len).
  unfold HEADER, TRAILER in *. pose_lens. rewrite EF in Ha3, Ha4, Ha5, Ha7.
  rewrite sub_here in Ha3 by (rewrite zlen_app; lia).
  rewrite sub_mid in Ha4 by (rewrite ?zlen_app; lia).
  rewrite app_assoc, sub_end in Ha5 by (rewrite ?zlen_app; lia).
  rewrite <- app_assoc, sub_mid in Ha7 by (rewrite ?zlen_app; lia).
  unfold u64_at, id_at in *. rewrite <- app_assoc in EF.
  destruct (@header_fields ReplayError magic ver kind size seq prior inst trans cmd expd res own
    (p ++ dig ++ com)) as (F1&F2&F3&F4&F5&F6&F7&F8&F9&F10&F11&F12); try done.
  rewrite <- Ehdr, <- EF in F1, F2, F3, F4, F5, F6, F7, F8, F9, F10, F11, F12.
  rewrite F1 in Ha. rewrite F2 in Ha0. rewrite F3 in Ha6. rewrite F4 in Ha1. rewrite F9 in Ha8.
  rewrite F10 in Ha9. rewrite F7 in Ha10. rewrite F8 in Ha11. rewrite F12 in Ha12.
  rewrite F11 in Ha13. rewrite F5 in Ha15. rewrite F6 in Ha16. cbn [obind] in *.
  clear F1 F2 F3 F4 F5 F6 F7 F8 F9 F10 F11 F12.
  destruct (checked_add64 a9 1) as [n|] eqn:Hn; [|done]. apply checked_add64_Some in Hn as [-> Hn].
  assert (Hst : a4 = sha256 a3 /\ a5 = FRAME_COMMIT) by (split; apply dec_stable; tauto).
  destruct Hst as [-> ->]. cbn [ok_or] in Ha14.
  injection Ha as ->; injection Ha0 as ->; injection Ha1 as ->; injection Ha3 as <-;
  injection Ha4 as ->; injection Ha5 as ->; injection Ha6 as ->; injection Ha7 as ->;
  injection Ha8 as ->; injection Ha9 as <-; injection Ha10 as ->; injection Ha11 as ->;
  injection Ha12 as <-; injection Ha13 as Er; injection Ha14 as <-; injection Ha15 as <-;
  injection Ha16 as ->; injection H2 as <-.
  rewrite <- Er in Hd8. subst a a0 a8.
  rewrite (frame_header_of_fields a6 a1 seq a16 a10 a11 expd res own a7) in Ehdr
    by (try done; unfold HEADER, TRAILER; lia).
  set (c := mkContext _ _ _ _ _ _) in *.
  cbn [e_context e_kind e_payload e_digest e_length].
  rewrite <- Ea2, EF, Ehdr. split; [unfold frame_bytes, frame_body; by rewrite <- app_assoc|].
  split; [lia|]. split.
  { unfold context_ok, c; cbn. destruct H7, H12, H14.
    refine (conj _ (conj _ (conj _ (conj _ (conj _ _))))); try done; by apply (be_val_uint 8). }
  split; [destruct H5; by apply (be_val_uint 2)|]. split; [by eapply array_bytes|].
  split; [done|]. split; [unfold HEADER, TRAILER; lia|]. split; [lia|]. cbn. split; [done|].
  tauto.
Qed.

(** ** Frame properties. *)

Lemma frame_roundtrip (wf : R -> Prop) `{!RecordCodecOk R wf} c r f loc :
  context_ok c -> wf r -> encode_frame c r = Ok f ->
  l_length loc = zlen f -> l_sequence loc = sequence c ->
  exists digest, verified_frame f loc = Ok (c, r, digest) /\
    sub (zlen f - 40) (zlen f - 8) f = @Ok ReplayError _ digest.
Proof.
  intros Hc Hr Hf Hl Hs. apply encode_frame_Ok in Hf as (p & Hp & -> & (?&?&?&?) & Hsz & Hrev).
  exists (sha256 (frame_body c (record_kind r) p)). unfold verified_frame.
  rewrite <- (app_nil_r (frame_bytes _ _ _)) at 1. rewrite envelope_frame by (done || apply kind_u16).
  cbn [map_err obind e_length e_context e_kind e_payload e_digest].
  rewrite frame_bytes_len in * by done. rewrite decide_False by naive_solver.
  rewrite (decode_payload r p) by done. split; [done|]. unfold frame_bytes.
  pose proof (sha256_array (frame_body c (record_kind r) p)).
  apply sub_mid; rewrite ?frame_body_len by done; unfold HEADER, TRAILER; len.
Qed.
(** Every proper prefix of a frame. *)
Lemma torn_frame (wf : R -> Prop) `{!RecordCodecOk R wf} c r f n :
  context_ok c -> wf r -> encode_frame c r = Ok f -> 0 <= n < zlen f ->
  envelope (ztake n f) = Err IncompleteTail.
Proof.
  intros Hc Hr Hf Hn. apply encode_frame_Ok in Hf as (p & Hp & -> & (?&?&?&?) & Hsz & Hrev).
  unfold envelope. rewrite zlen_ztake by lia. case_decide; [done|].
  assert (Hpre : forall a b, b <= 16 -> @sub ReplayError _ a b (ztake n (frame_bytes c (record_kind r) p)) =
     sub a b (frame_bytes c (record_kind r) p)).
  { intros a b Hb. rewrite <- (ztake_zdrop n (frame_bytes c (record_kind r) p)) at 2.
    rewrite sub_prefix; [done|]. rewrite zlen_ztake; unfold HEADER in *; lia. }
  pose proof (envelope_frame c (record_kind r) p [] Hc (kind_u16 r) Hsz Hrev) as He.
  rewrite app_nil_r in He. specialize (He ltac:(done) ltac:(done) ltac:(done)).
  unfold envelope in He. rewrite decide_False in He by (unfold HEADER in *; lia).
  apply obind_Ok in He as (m & Hm & He). rewrite Hpre, Hm by lia. cbn [obind].
  case_decide; [done|]. apply obind_Ok in He as (v & Hv & He). rewrite Hpre, Hv by lia. cbn [obind].
  case_decide; [done|]. apply obind_Ok in He as (z & Hz & He). rewrite Hpre, Hz by lia. cbn [obind].
  do 2 (case_decide; [done|]). inv_res He. injection He as Elen. rewrite decide_True; [done|].
  rewrite frame_bytes_len in Hn by done. lia.
Qed.

(** C15: A frame the parser accepts is, byte for byte, the frame that its
    context, kind and payload encode to, and its digest is the SHA-256 of
    everything before the trailer: no two byte strings parse to one envelope. *)
Theorem envelope_canonical b e :
  bytes_ok b -> envelope b = Ok e ->
  ztake (e_length e) b = frame_bytes (e_context e) (e_kind e) (e_payload e) /\
  e_digest e = sha256 (frame_body (e_context e) (e_kind e) (e_payload e)) /\
  e_length e = HEADER + zlen (e_payload e) + TRAILER /\ e_length e <= MAX_FRAME /\
  context_ok (e_context e) /\ owner_generation (e_context e) <> 0.
Proof.
  intros Hb He. destruct (envelope_sound b e Hb He) as (?&?&?&?&?&?&?&?&?&?&?&?).
  by split_and!; [..|assumption|].
Qed.

(** A torn append is told apart from damage: every proper prefix of a
    written frame is [IncompleteTail]. *)
Theorem torn_frame_incomplete (wf : R -> Prop) `{!RecordCodecOk R wf} c r f n :
  context_ok c -> wf r -> encode_frame c r = Ok f -> 0 <= n < zlen f ->
  envelope (ztake n f) = Err IncompleteTail.
Proof. apply (torn_frame wf). Qed.

(** The frame parser is total on arbitrary input: no byte string makes it
    index out of range or overflow. *)
Theorem envelope_never_panics b : envelope b <> Panic.
Proof.
  unfold envelope, u64_at, id_at, HEADER, TRAILER.
  repeat first
    [ progress cbv zeta
    | match goal with
      | |- obind (sub _ _ _) _ <> Panic =>
          apply obind_not_panic; [apply sub_no_panic; lia|];
          let m := fresh "m" in let Hm := fresh "Hm" in
          intros m Hm; apply sub_len in Hm
      | |- obind (obind (sub _ _ _) _) _ <> Panic =>
          apply obind_not_panic; [apply obind_not_panic; [apply sub_no_panic; lia|done]|intros ? _]
      end
    | no_panic_step ].
Qed.
End Frame.

(** ** Executable instances of the frame theorems. *)
Module Demo.
(** A codec of raw payloads of kind 3. *)
Definition raw_codec : RecordCodec bytes :=
  {| record_kind := fun _ => 3; record_payload := fun p => Ok p; decode_record := fun _ p => Ok p |}.
#[export] Instance raw_codec_ok : @RecordCodecOk bytes raw_codec bytes_ok.
Proof. split; simpl; intros; [done | naive_solver | naive_solver]. Qed.
Definition context : FrameContext :=
  mkContext (replicate 16 1) (replicate 16 2) 1 (zeros 32) 0 1.
Definition frame : bytes :=
  match @encode_frame poly_hasher bytes raw_codec context [7; 8; 9] with Ok f => f | _ => [] end.
Definition locator : Locator := mkLocator 1 1 0 187.
Lemma context_wf : context_ok context.
Proof. unfold context_ok. refine (conj _ (conj _ (conj _ (conj _ (conj _ _))))); by_decide. Qed.

Lemma envelope_canonical_witness :
  exists e, @envelope poly_hasher (frame ++ [1; 2]) = Ok e /\
    ztake (e_length e) (frame ++ [1; 2]) =
      @frame_bytes poly_hasher (e_context e) (e_kind e) (e_payload e).
Proof.
  eexists. split; [vm_compute; reflexivity|].
  apply (@envelope_canonical poly_hasher (frame ++ [1; 2])); [by_decide | by vm_compute].
Defined.
Lemma torn_frame_incomplete_witness :
  @envelope poly_hasher (ztake 150 frame) = Err IncompleteTail.
Proof.
  apply (@torn_frame_incomplete poly_hasher bytes raw_codec poly_hasher_ok bytes_ok raw_codec_ok
           context [7; 8; 9]);
    [apply context_wf | by_decide | by vm_compute | vm_compute; split; congruence].
Defined.
End Demo.
