(* ===== verification/Index.v ===== *)
(** * Index keys and entries of the segmented journal (authority/index.rs).

    Fixed 32-byte keys and 96-byte values that address settled history by
    frame locator: [Tag], [Key], [Entry] with their encoders and decoders.
    [Out] and [In], the private cursors of the source, are [out_put] and the
    [i_] readers, which panic where the source indexes out of range. *)
From stdpp Require Import prelude list.
From Stdlib Require Import ZArith Lia.
From S2P Require Import Prelude Codec.

Definition KEY_BYTES : Z := 32.
Definition VALUE_BYTES : Z := 96.
Definition ENTRY_BYTES : Z := KEY_BYTES + VALUE_BYTES.

(** ** Tags and keys. *)
Inductive Tag : Type :=
| TActivity
| TPathChange
| TCall
| TIdentity
| TRetention
| TPathAck
| TGenerated
| TThinking
| TInput
| TProject
| TProjectConversation
| TConversationJob
| TProjectJob
| TName
| TOperation
| TPiece
| TPathApproval
| TRequest
| TSegment
| TTurn
| TSettlement
| TConversation
| TJob
| TPayload
| TAllJobs
| TPathReference
| TPersonCommand.
Definition tag_byte (t : Tag) : Z :=
  match t with
  | TActivity => 65
  | TPathChange => 66
  | TCall => 67
  | TIdentity => 68
  | TRetention => 69
  | TPathAck => 70
  | TGenerated => 71
  | TThinking => 72
  | TInput => 73
  | TProject => 74
  | TProjectConversation => 75
  | TConversationJob => 76
  | TProjectJob => 77
  | TName => 78
  | TOperation => 79
  | TPiece => 80
  | TPathApproval => 81
  | TRequest => 82
  | TSegment => 83
  | TTurn => 84
  | TSettlement => 85
  | TConversation => 86
  | TJob => 87
  | TPayload => 88
  | TAllJobs => 89
  | TPathReference => 90
  | TPersonCommand => 112
  end.
Definition tag_all : list Tag :=
  [TActivity; TPathChange; TCall; TIdentity; TRetention; TPathAck; TGenerated; TThinking; TInput; TProject; TProjectConversation; TConversationJob; TProjectJob; TName; TOperation; TPiece; TPathApproval; TRequest; TSegment; TTurn; TSettlement; TConversation; TJob; TPayload; TAllJobs; TPathReference; TPersonCommand].
#[export] Instance Tag_eq_dec : EqDecision Tag.
Proof. solve_decision. Defined.
Definition tag_from_byte (b : Z) : option Tag :=
  snd <$> list_find (fun t => tag_byte t = b) tag_all.
(** The derived order of an enum is the order of its discriminants. *)
#[export] Instance tag_cmp : Cmp Tag := fun x y => cmp (tag_byte x) (tag_byte y).

Record Key : Type := mkKey { k_tag : Tag; k_id : bytes; k_disc : Z }.
#[export] Instance Key_eq_dec : EqDecision Key.
Proof. solve_decision. Defined.
Definition key_ok (k : Key) : Prop := Id_ok (k_id k) /\ u64 (k_disc k).
(** The derived order: tag, then ID, then discriminator. *)
#[export] Instance key_cmp : Cmp Key := fun x y =>
  cmp_then (cmp (k_tag x) (k_tag y))
    (cmp_then (cmp (k_id x) (k_id y)) (cmp (k_disc x) (k_disc y))).
Definition key_first (t : Tag) : Key := mkKey t (zeros 16) 0.
Definition key_last (t : Tag) : Key := mkKey t (replicate 16 0xff) U64_MAX.
Definition key_encode (k : Key) : bytes :=
  [tag_byte (k_tag k)] ++ k_id k ++ be_bytes 8 (k_disc k) ++ zeros 7.
Definition key_decode (b : bytes) : Result Key :=
  if decide (zlen b <> KEY_BYTES) then Err Corrupt else
  let? pad := sub 25 (zlen b) b in
  if any_nonzero pad then Err Corrupt else
  let? t := sub 0 1 b in
  let? tag := match t with [x] => ok_or Corrupt (tag_from_byte x) | _ => Panic end in
  let? id := sub 1 17 b in
  let? disc := sub 17 25 b in
  Ok (mkKey tag id (be_val disc)).
Definition sequence_id (sequence : Z) : bytes := zeros 8 ++ be_bytes 8 sequence.
Definition identity_id (device inode : Z) : bytes := be_bytes 8 device ++ be_bytes 8 inode.

(** ** Entries. *)
Inductive Generated : Type :=
| GInstallation | GGraph | GTask | GOperation | GInput | GDispatch.
#[export] Instance Generated_eq_dec : EqDecision Generated.
Proof. solve_decision. Defined.
Definition generated_code (g : Generated) : Z :=
  match g with
  | GInstallation => 1 | GGraph => 2 | GTask => 3 | GOperation => 4 | GInput => 5 | GDispatch => 6
  end.
Definition generated_from_code (code : Z) : option Generated :=
  if code =? 1 then Some GInstallation
  else if code =? 2 then Some GGraph
  else if code =? 3 then Some GTask
  else if code =? 4 then Some GOperation
  else if code =? 5 then Some GInput
  else if code =? 6 then Some GDispatch
  else None.
Record OperationFacts : Type := mkFacts {
  o_conversation : bytes; o_generation : Z; o_terminal : TerminalKind; o_cause : Cause;
  o_response_len : Z; o_pieces : Z; o_calls : Z;
  o_accepted : Locator; o_terminal_frame : Locator;
}.
#[export] Instance OperationFacts_eq_dec : EqDecision OperationFacts.
Proof. solve_decision. Defined.

Inductive Entry : Type :=
| ERequest (kind : Z) (digest : bytes) (frame : Locator)
| EGenerated (entity : Generated) (frame : Locator)
| EOperation (facts : OperationFacts)
| EPiece (kept : Z) (frame : Locator)
| EThinking (kept : Z) (frame : Locator)
| ECall (decision : Z) (intent : Locator) (result : Locator)
| ETurn (operation : bytes) (terminal : TerminalKind) (accepted : Locator) (completed : Z)
      (notice_through : Z)
| EInput (status : Z) (queued : Locator) (promoted : Locator) (operation : bytes)
| EJobPayload (job : bytes) (intent : Locator) (settled : Locator) (last_use : Z)
| EJob (conversation : bytes) (origin : Z) (intent : Locator) (cancel : Locator) (settled :
      Locator)
| EConversationJob (job : bytes)
| EProjectJob (job : bytes) (conversation : bytes)
| EAllJobs (job : bytes) (project : bytes)
| ESettlement (job : bytes)
| ERetention (action : Z) (author : Z) (frame : Locator)
| EPathChange (job : bytes) (number : Z) (frame : Locator)
| EPathAck (input : bytes) (through : Z) (covered : Z) (frame : Locator)
| EPathApproval (action : Z) (path_key : bytes) (digest : bytes) (frame : Locator)
| EPathReference (action : Z) (project : bytes) (frame : Locator)
| ESegment (last : Z) (bytes_ : Z) (digest : bytes)
| EProject (device : Z) (inode : Z) (visibility : Z) (frame : Locator)
| EName (frame : Locator)
| EIdentity (project : bytes)
| EConversation (project : bytes) (frame : Locator)
| EProjectConversation (conversation : bytes)
| EActivity (conversation : bytes) (operation : bytes) (generation : Z)
| EPersonCommand (input : bytes) (job : bytes) (expected_generation : Z) (queued : Locator).

Definition entry_tag (e : Entry) : Tag :=
  match e with
  | ERequest _ _ _ => TRequest
  | EGenerated _ _ => TGenerated
  | EOperation _ => TOperation
  | EPiece _ _ => TPiece
  | EThinking _ _ => TThinking
  | ECall _ _ _ => TCall
  | ETurn _ _ _ _ _ => TTurn
  | EInput _ _ _ _ => TInput
  | EJobPayload _ _ _ _ => TPayload
  | EJob _ _ _ _ _ => TJob
  | EConversationJob _ => TConversationJob
  | EProjectJob _ _ => TProjectJob
  | EAllJobs _ _ => TAllJobs
  | ESettlement _ => TSettlement
  | ERetention _ _ _ => TRetention
  | EPathChange _ _ _ => TPathChange
  | EPathAck _ _ _ _ => TPathAck
  | EPathApproval _ _ _ _ => TPathApproval
  | EPathReference _ _ _ => TPathReference
  | ESegment _ _ _ => TSegment
  | EProject _ _ _ _ => TProject
  | EName _ => TName
  | EIdentity _ => TIdentity
  | EConversation _ _ => TConversation
  | EProjectConversation _ => TProjectConversation
  | EActivity _ _ _ => TActivity
  | EPersonCommand _ _ _ _ => TPersonCommand
  end.

(** The pieces [Entry::encode] puts, in order. *)
Definition entry_fields (e : Entry) : list bytes :=
  match e with
  | ERequest kind digest frame =>
      [be_bytes 2 kind; digest; locator_encode frame]
  | EGenerated entity frame =>
      [[generated_code entity]; locator_encode frame]
  | EOperation o =>
      [o_conversation o; be_bytes 8 (o_generation o);
       [terminal_code (o_terminal o); cause_code (o_cause o)];
       be_bytes 8 (o_response_len o); be_bytes 4 (o_pieces o); be_bytes 4 (o_calls o);
       locator_encode (o_accepted o); locator_encode (o_terminal_frame o)]
  | EPiece kept frame =>
      [be_bytes 8 kept; locator_encode frame]
  | EThinking kept frame =>
      [be_bytes 8 kept; locator_encode frame]
  | ECall decision intent result =>
      [[decision]; locator_encode intent; locator_encode result]
  | ETurn operation terminal accepted completed notice_through =>
[operation; [terminal_code terminal]; locator_encode accepted; be_bytes 8 completed; be_bytes 8
      notice_through]
  | EInput status queued promoted operation =>
      [[status]; locator_encode queued; locator_encode promoted; operation]
  | EJobPayload job intent settled last_use =>
      [[2]; job; locator_encode intent; locator_encode settled; be_bytes 8 last_use]
  | EJob conversation origin intent cancel settled =>
[conversation; [origin]; locator_encode intent; locator_encode cancel; locator_encode settled]
  | EConversationJob job =>
      [job]
  | EProjectJob job conversation =>
      [job; conversation]
  | EAllJobs job project =>
      [job; project]
  | ESettlement job =>
      [job]
  | ERetention action author frame =>
      [[action; author]; locator_encode frame]
  | EPathChange job number frame =>
      [job; be_bytes 8 number; locator_encode frame]
  | EPathAck input through covered frame =>
      [input; be_bytes 8 through; be_bytes 8 covered; locator_encode frame]
  | EPathApproval action path_key digest frame =>
      [[action]; path_key; digest; locator_encode frame]
  | EPathReference action project frame =>
      [[action]; project; locator_encode frame]
  | ESegment last bytes_ digest =>
      [be_bytes 8 last; be_bytes 8 bytes_; digest]
  | EProject device inode visibility frame =>
      [be_bytes 8 device; be_bytes 8 inode; [visibility]; locator_encode frame]
  | EName frame =>
      [locator_encode frame]
  | EIdentity project =>
      [project]
  | EConversation project frame =>
      [project; locator_encode frame]
  | EProjectConversation conversation =>
      [conversation]
  | EActivity conversation operation generation =>
      [conversation; operation; be_bytes 8 generation]
  | EPersonCommand input job expected_generation queued =>
      [input; job; be_bytes 8 expected_generation; locator_encode queued]
  end.

(** The widths of an entry's fields. *)
Definition entry_ok (e : Entry) : Prop :=
  match e with
  | ERequest kind digest frame => u16 kind /\ Hash_ok digest /\ locator_ok frame
  | EGenerated _ frame => locator_ok frame
| EOperation o => Id_ok (o_conversation o) /\ u64 (o_generation o) /\ u64 (o_response_len o) /\
      u32 (o_pieces o) /\ u32 (o_calls o) /\ locator_ok (o_accepted o) /\ locator_ok
      (o_terminal_frame o)
  | EPiece kept frame => u64 kept /\ locator_ok frame
  | EThinking kept frame => u64 kept /\ locator_ok frame
  | ECall decision intent result => u8 decision /\ locator_ok intent /\ locator_ok result
| ETurn operation _ accepted completed notice_through => Id_ok operation /\ locator_ok accepted
      /\ u64 completed /\ u64 notice_through
| EInput status queued promoted operation => u8 status /\ locator_ok queued /\ locator_ok
      promoted /\ Id_ok operation
| EJobPayload job intent settled last_use => Id_ok job /\ locator_ok intent /\ locator_ok
      settled /\ u64 last_use
| EJob conversation origin intent cancel settled => Id_ok conversation /\ u8 origin /\
      locator_ok intent /\ locator_ok cancel /\ locator_ok settled
  | EConversationJob job => Id_ok job
  | EProjectJob job conversation => Id_ok job /\ Id_ok conversation
  | EAllJobs job project => Id_ok job /\ Id_ok project
  | ESettlement job => Id_ok job
  | ERetention action author frame => u8 action /\ u8 author /\ locator_ok frame
  | EPathChange job number frame => Id_ok job /\ u64 number /\ locator_ok frame
| EPathAck input through covered frame => Id_ok input /\ u64 through /\ u64 covered /\
      locator_ok frame
| EPathApproval action path_key digest frame => u8 action /\ Hash_ok path_key /\ Hash_ok digest
      /\ locator_ok frame
  | EPathReference action project frame => u8 action /\ Id_ok project /\ locator_ok frame
  | ESegment last bytes_ digest => u64 last /\ u64 bytes_ /\ Hash_ok digest
| EProject device inode visibility frame => u64 device /\ u64 inode /\ u8 visibility /\
      locator_ok frame
  | EName frame => locator_ok frame
  | EIdentity project => Id_ok project
  | EConversation project frame => Id_ok project /\ locator_ok frame
  | EProjectConversation conversation => Id_ok conversation
| EActivity conversation operation generation => Id_ok conversation /\ Id_ok operation /\ u64
      generation
| EPersonCommand input job expected_generation queued => Id_ok input /\ Id_ok job /\ u64
      expected_generation /\ locator_ok queued
  end.

(** [Out::put]: copies at the cursor of a 96-byte array of zeros. The state
    is the bytes before the cursor; the rest of the array is still zero. *)
Definition out_put (out : bytes) (data : bytes) : Result bytes :=
  if decide (zlen out + zlen data <= VALUE_BYTES) then Ok (out ++ data) else Panic.
Definition out_bytes (out : bytes) : bytes := out ++ zeros (VALUE_BYTES - zlen out).
Definition out_all (pieces : list bytes) : Result bytes :=
  foldl (fun c d => let? out := c in out_put out d) (Ok []) pieces.
Definition entry_encode (e : Entry) : Result bytes :=
  let? out := out_all (entry_fields e) in Ok (out_bytes out).

(** [In]: the value's bytes and a cursor; [take] panics past the end. *)
Definition i_take (n : Z) : reader bytes := fun r =>
  let? out := sub (rd_offset r) (rd_offset r + n) (rd_bytes r) in
  Ok (out, mkReader (rd_bytes r) (rd_offset r + n)).
Definition i_byte : reader Z := fun r =>
  let? (b, r) := i_take 1 r in
  match b with [x] => Ok (x, r) | _ => Panic end.
Definition i_u64 : reader Z := read a := i_take 8 in rret (be_val a).
Definition i_u32 : reader Z := read a := i_take 4 in rret (be_val a).
Definition i_u16 : reader Z := read a := i_take 2 in rret (be_val a).
Definition i_id : reader bytes := i_take 16.
Definition i_hash : reader bytes := i_take 32.
Definition i_locator : reader Locator := read a := i_take 24 in rlift (locator_decode a).
(** A one-byte code read through a [from_code] table. *)
Definition i_code {A} (from_code : Z -> option A) : reader A :=
  read b := i_byte in rlift (ok_or Corrupt (from_code b)).
(** [In::finish]: unused value bytes must be zero. *)
Definition i_finish : reader unit := fun r =>
  let? rest := sub (rd_offset r) (zlen (rd_bytes r)) (rd_bytes r) in
  if any_nonzero rest then Err Corrupt else Ok (tt, r).

Definition entry_read (tag : Tag) : reader Entry :=
  match tag with
  | TActivity =>
      read conversation := i_id in
      read operation := i_id in
      read generation := i_u64 in
      rret (EActivity conversation operation generation)
  | TPathChange =>
      read job := i_id in
      read number := i_u64 in
      read frame := i_locator in
      rret (EPathChange job number frame)
  | TCall =>
      read decision := i_byte in
      read intent := i_locator in
      read result := i_locator in
      rret (ECall decision intent result)
  | TIdentity =>
      read project := i_id in
      rret (EIdentity project)
  | TRetention =>
      read action := i_byte in
      read author := i_byte in
      read frame := i_locator in
      rret (ERetention action author frame)
  | TPathAck =>
      read input := i_id in
      read through := i_u64 in
      read covered := i_u64 in
      read frame := i_locator in
      rret (EPathAck input through covered frame)
  | TGenerated =>
      read entity := i_code generated_from_code in
      read frame := i_locator in
      rret (EGenerated entity frame)
  | TThinking =>
      read kept := i_u64 in
      read frame := i_locator in
      rret (EThinking kept frame)
  | TInput =>
      read status := i_byte in
      read queued := i_locator in
      read promoted := i_locator in
      read operation := i_id in
      rret (EInput status queued promoted operation)
  | TProject =>
      read device := i_u64 in
      read inode := i_u64 in
      read visibility := i_byte in
      read frame := i_locator in
      rret (EProject device inode visibility frame)
  | TProjectConversation =>
      read conversation := i_id in
      rret (EProjectConversation conversation)
  | TConversationJob =>
      read job := i_id in
      rret (EConversationJob job)
  | TProjectJob =>
      read job := i_id in
      read conversation := i_id in
      rret (EProjectJob job conversation)
  | TName =>
      read frame := i_locator in
      rret (EName frame)
  | TOperation =>
      read conversation := i_id in
      read generation := i_u64 in
      read terminal := i_code terminal_from_code in
      read cause := i_code cause_from_code in
      read response_len := i_u64 in
      read pieces := i_u32 in
      read calls := i_u32 in
      read accepted := i_locator in
      read terminal_frame := i_locator in
rret (EOperation (mkFacts conversation generation terminal cause response_len pieces calls
      accepted terminal_frame))
  | TPiece =>
      read kept := i_u64 in
      read frame := i_locator in
      rret (EPiece kept frame)
  | TPathApproval =>
      read action := i_byte in
      read path_key := i_hash in
      read digest := i_hash in
      read frame := i_locator in
      rret (EPathApproval action path_key digest frame)
  | TRequest =>
      read kind := i_u16 in
      read digest := i_hash in
      read frame := i_locator in
      rret (ERequest kind digest frame)
  | TSegment =>
      read last := i_u64 in
      read bytes_ := i_u64 in
      read digest := i_hash in
      rret (ESegment last bytes_ digest)
  | TTurn =>
      read operation := i_id in
      read terminal := i_code terminal_from_code in
      read accepted := i_locator in
      read completed := i_u64 in
      read notice_through := i_u64 in
      rret (ETurn operation terminal accepted completed notice_through)
  | TSettlement =>
      read job := i_id in
      rret (ESettlement job)
  | TConversation =>
      read project := i_id in
      read frame := i_locator in
      rret (EConversation project frame)
  | TJob =>
      read conversation := i_id in
      read origin := i_byte in
      read intent := i_locator in
      read cancel := i_locator in
      read settled := i_locator in
      rret (EJob conversation origin intent cancel settled)
  | TPayload =>
      read form := i_byte in
      if form =? 2 then
        read job := i_id in
        read intent := i_locator in
        read settled := i_locator in
        read last_use := i_u64 in
        rret (EJobPayload job intent settled last_use)
      else rlift (Err Corrupt)
  | TAllJobs =>
      read job := i_id in
      read project := i_id in
      rret (EAllJobs job project)
  | TPathReference =>
      read action := i_byte in
      read project := i_id in
      read frame := i_locator in
      rret (EPathReference action project frame)
  | TPersonCommand =>
      read input := i_id in
      read job := i_id in
      read expected_generation := i_u64 in
      read queued := i_locator in
      rret (EPersonCommand input job expected_generation queued)
  end.
Definition entry_decode (tag : Tag) (value : bytes) : Result Entry :=
  if decide (zlen value <> VALUE_BYTES) then Err Corrupt else
  let? (entry, r) := entry_read tag (mkReader value 0) in
  let? _ := i_finish r in
  Ok entry.

(** ** Keys: round trip, canonical form and order. *)
Lemma tag_from_byte_Some b t : tag_from_byte b = Some t <-> b = tag_byte t.
Proof.
  unfold tag_from_byte. split.
  - intros H. apply fmap_Some in H as ([i u] & Hf & ->). by apply list_find_Some in Hf as (_ & <- & _).
  - intros ->. by destruct t.
Qed.
Lemma tag_byte_inj t u : tag_byte t = tag_byte u -> t = u.
Proof.
  intros H. apply tag_from_byte_Some in H.
  pose proof (proj2 (tag_from_byte_Some (tag_byte t) t) eq_refl). congruence.
Qed.
Lemma tag_byte_u8 t : u8 (tag_byte t).
Proof. destruct t; by_decide. Qed.
#[export] Instance tag_cmp_ok : CmpOk Tag.
Proof. apply (cmp_by_injection tag_byte); [apply tag_byte_inj | done]. Qed.
#[export] Instance key_cmp_ok : CmpOk Key.
Proof.
  apply (cmp_by_injection (fun k => (k_tag k, (k_id k, k_disc k)))); [|done].
  intros [] []; naive_solver.
Qed.

Lemma key_encode_array k : key_ok k -> array KEY_BYTES (key_encode k).
Proof.
  intros [Hid Hd]. unfold key_encode, KEY_BYTES. split; [len|]. destruct Hid.
  rewrite !bytes_ok_app. split_and!; [|done|apply be_bytes_ok|apply bytes_ok_zeros].
  constructor; [apply tag_byte_u8|constructor].
Qed.
Lemma key_roundtrip k : key_ok k -> key_decode (key_encode k) = Ok k.
Proof.
  intros Hk. pose proof (array_len _ _ (key_encode_array k Hk)) as Hl. destruct Hk as [Hid Hd].
  unfold key_decode. rewrite decide_False by naive_solver. rewrite Hl. unfold key_encode, KEY_BYTES.
  assert (zlen [tag_byte (k_tag k)] = 1) by done.
  subs. rewrite any_nonzero_zeros. cbn [ok_or].
  rewrite (proj2 (tag_from_byte_Some _ _) eq_refl). cbn [obind]. rewrite be_val8 by done. by destruct k.
Qed.
Lemma key_decode_sound b k : bytes_ok b -> key_decode b = Ok k -> key_ok k /\ key_encode k = b.
Proof.
  intros Hb H. unfold key_decode in H. case_decide as Hl; [done|].
  assert (Ha : array 32 b) by (split; done). rewrite Hl in H. revert H. clear Hl Hb. unfold KEY_BYTES.
  chop_field Ha 1. chop_field Ha 16. chop_field Ha 8. subs.
  destruct (any_nonzero _) eqn:Hz; [done|]. destruct f as [|c [|]]; try done. intros H.
  inv_res H. injection H as <-.
  destruct (tag_from_byte c) as [t|] eqn:Ht; [|done]. apply tag_from_byte_Some in Ht as ->.
  simplify_eq/=. destruct Hf0, Hf1, Ha as [Ha1 Ha2].
  apply any_nonzero_false in Hz. rewrite Ha1 in Hz.
  split; [split; [by split|by apply (be_val_uint 8)]|].
  unfold key_encode. cbn [k_tag k_id k_disc]. by rewrite be_bytes_eq, Hz by done.
Qed.
Lemma key_cmp_encode k1 k2 :
  key_ok k1 -> key_ok k2 -> cmp (key_encode k1) (key_encode k2) = cmp k1 k2.
Proof.
  intros [[Hi1 _] Hd1] [[Hi2 _] Hd2]. unfold key_encode.
  assert (length (k_id k1) = length (k_id k2)) by (unfold zlen in *; lia).
  rewrite !list_cmp_app by (rewrite ?length_be_bytes; done).
  rewrite be_bytes_cmp by done. rewrite (cmp_refl (zeros 7)).
  change (cmp k1 k2) with (key_cmp k1 k2). unfold key_cmp.
  change (cmp [tag_byte (k_tag k1)] [tag_byte (k_tag k2)]) with
    (cmp_then (cmp (tag_byte (k_tag k1)) (tag_byte (k_tag k2))) Eq).
  change (cmp (k_tag k1) (k_tag k2)) with (cmp (tag_byte (k_tag k1)) (tag_byte (k_tag k2))).
  destruct (cmp (tag_byte (k_tag k1)) _), (cmp (k_id k1) _), (cmp (k_disc k1) _); done.
Qed.

(** ** Values: what the readers of [In] promise.
    [reads] gives the round trip; [takes n p Q] the converse: with [n] bytes
    left the reader [p] does not panic, and a value it returns is the reading
    of exactly the bytes it consumed. *)
Definition takes {A} (n : Z) (p : reader A) (Q : A -> bytes -> Prop) : Prop :=
  forall bs o, bytes_ok bs -> 0 <= o -> o + n <= zlen bs ->
  match p (mkReader bs o) with
  | Ok (a, r) =>
      exists e, Q a e /\ zlen e <= n /\ r = mkReader bs (o + zlen e) /\
                zdrop o bs = e ++ zdrop (o + zlen e) bs
  | Err _ => True
  | Panic => False
  end.

Lemma takes_ret {A} n (a : A) (Q : A -> bytes -> Prop) : 0 <= n -> Q a [] -> takes n (rret a) Q.
Proof. intros ?? bs o ???. exists []. rewrite zlen_nil, Z.add_0_r. by split_and!. Qed.
Lemma takes_err {A} n e (Q : A -> bytes -> Prop) : takes n (rlift (Err e)) Q.
Proof. by intros bs o. Qed.
Lemma takes_bind {A B} n m (p : reader A) (k : A -> reader B) (P : A -> bytes -> Prop) Q :
  takes m p P -> m <= n -> 0 <= n ->
  (forall a e, P a e -> zlen e <= m -> takes (n - zlen e) (k a) (fun b e' => Q b (e ++ e'))) ->
  takes n (rbind p k) Q.
Proof.
  intros Hp Hm Hn Hk bs o Hb Ho Hl. unfold rbind.
  specialize (Hp bs o Hb Ho ltac:(lia)). destruct (p _) as [[a r]|e|]; [|done|done].
  destruct Hp as (e & HP & He & -> & Hd). cbn [obind]. pose proof (zlen_nonneg e).
  specialize (Hk a e HP He bs (o + zlen e) Hb ltac:(lia) ltac:(lia)).
  destruct (k a _) as [[b r]|e'|]; [|done|done].
  destruct Hk as (e' & HQ & He' & -> & Hd'). exists (e ++ e').
  rewrite zlen_app, Z.add_assoc, <- app_assoc, <- Hd', <- Hd. split_and!; [done|lia|done|done].
Qed.

Lemma takes_i_take n : 0 <= n -> takes n (i_take n) (fun a e => a = e /\ array n e).
Proof.
  intros Hn bs o Hb Ho Hl. unfold i_take. cbn [rd_offset rd_bytes].
  rewrite sub_in by lia. cbn [obind]. replace (o + n - o) with n by lia.
  assert (zlen (ztake n (zdrop o bs)) = n) as Hz by (rewrite zlen_ztake; rewrite ?zlen_zdrop; lia).
  exists (ztake n (zdrop o bs)). rewrite Hz.
  refine (conj (conj eq_refl (conj Hz _)) (conj _ (conj eq_refl _))).
  - by apply bytes_ok_ztake, bytes_ok_zdrop.
  - done.
  - rewrite (Z.add_comm o), <- zdrop_zdrop by lia. by rewrite ztake_zdrop.
Qed.
Lemma takes_weaken {A} n (p : reader A) (P Q : A -> bytes -> Prop) :
  takes n p P -> (forall a e, P a e -> Q a e) -> takes n p Q.
Proof.
  intros Hp HPQ bs o Hb Ho Hl. specialize (Hp bs o Hb Ho Hl).
  destruct (p _) as [[a r]|e|]; [|done|done]. destruct Hp as (e & HP & Hp). eauto.
Qed.
Lemma takes_i_be (m : nat) n :
  n = Z.of_nat m ->
  takes n (read a := i_take n in rret (be_val a))
    (fun v e => uint (8 * n) v /\ e = be_bytes m v).
Proof.
  intros ->. eapply takes_bind; [apply takes_i_take; lia|lia|lia|].
  intros a e [-> [Hl Hb]] _. apply takes_ret; [lia|].
  rewrite app_nil_r, be_bytes_eq by done. split; [by apply be_val_uint|done].
Qed.
Lemma takes_u64 : takes 8 i_u64 (fun v e => u64 v /\ e = be_bytes 8 v).
Proof. by apply (takes_i_be 8 8). Qed.
Lemma takes_u32 : takes 4 i_u32 (fun v e => u32 v /\ e = be_bytes 4 v).
Proof. by apply (takes_i_be 4 4). Qed.
Lemma takes_u16 : takes 2 i_u16 (fun v e => u16 v /\ e = be_bytes 2 v).
Proof. by apply (takes_i_be 2 2). Qed.
Lemma takes_id : takes 16 i_id (fun v e => v = e /\ Id_ok e).
Proof. by apply takes_i_take. Qed.
Lemma takes_hash : takes 32 i_hash (fun v e => v = e /\ Hash_ok e).
Proof. by apply takes_i_take. Qed.
Lemma takes_byte : takes 1 i_byte (fun v e => u8 v /\ e = [v]).
Proof.
  intros bs o Hb Ho Hl. pose proof (takes_i_take 1 ltac:(lia) bs o Hb Ho Hl) as H.
  unfold i_byte. destruct (i_take 1 _) as [[a r]|e|]; [|done|done]. cbn [obind].
  destruct H as (e & [-> [Hz Hok]] & H).
  destruct e as [|x [|y e]]; [done| |unfold zlen in Hz; simpl in Hz; lia].
  apply Forall_cons in Hok as [Hx _]. by exists [x].
Qed.
Lemma takes_code {A} (from_code : Z -> option A) (code : A -> Z) :
  (forall b a, from_code b = Some a -> b = code a) ->
  takes 1 (i_code from_code) (fun a e => e = [code a]).
Proof.
  intros Hc. eapply takes_bind; [apply takes_byte|lia|lia|].
  intros b e [_ ->] He. destruct (from_code b) as [a|] eqn:Hb; [|apply takes_err].
  apply Hc in Hb as ->. by apply takes_ret; [len|].
Qed.
Lemma takes_locator : takes 24 i_locator (fun l e => locator_ok l /\ e = locator_encode l).
Proof.
  eapply takes_bind; [by apply takes_i_take|lia|lia|]. intros a e [-> Ha] He.
  destruct (locator_decode e) as [l|x|] eqn:Hl; [|apply takes_err|].
  - apply locator_decode_sound in Hl as [? <-]; [|done]. apply takes_ret; [lia|].
    by rewrite app_nil_r.
  - exfalso. revert Hl. chop_field Ha 8. chop_field Ha 8. chop_field Ha 4.
    unfold locator_decode. by subs.
Qed.
Lemma generated_from_code_Some k c : generated_from_code c = Some k <-> c = generated_code k.
Proof.
  unfold generated_from_code.
  split; [|by intros ->; destruct k]. intros. repeat case_match; simplify_eq; simpl; lia.
Qed.

(** The widths at which the readers are used add up to at most 96 bytes. *)
Ltac takes_step :=
  match goal with
  | |- takes _ (rret _) _ => apply takes_ret; [len|]
  | |- takes _ (rlift (Err _)) _ => apply takes_err
  | |- takes _ (rbind i_u64 _) _ => eapply takes_bind; [apply takes_u64|..]
  | |- takes _ (rbind i_u32 _) _ => eapply takes_bind; [apply takes_u32|..]
  | |- takes _ (rbind i_u16 _) _ => eapply takes_bind; [apply takes_u16|..]
  | |- takes _ (rbind i_id _) _ => eapply takes_bind; [apply takes_id|..]
  | |- takes _ (rbind i_hash _) _ => eapply takes_bind; [apply takes_hash|..]
  | |- takes _ (rbind i_byte _) _ => eapply takes_bind; [apply takes_byte|..]
  | |- takes _ (rbind i_locator _) _ => eapply takes_bind; [apply takes_locator|..]
  | |- takes _ (rbind (i_code generated_from_code) _) _ =>
      eapply takes_bind; [apply (takes_code _ generated_code); intros ??; apply generated_from_code_Some|..]
  | |- takes _ (rbind (i_code terminal_from_code) _) _ =>
      eapply takes_bind; [apply (takes_code _ terminal_code); intros ??; apply terminal_from_code_Some|..]
  | |- takes _ (rbind (i_code cause_from_code) _) _ =>
      eapply takes_bind; [apply (takes_code _ cause_code); intros ??; apply cause_from_code_Some|..]
  | |- takes _ (if (?b =? ?c) then _ else _) _ => destruct (Z.eqb_spec b c); [subst|]
  | |- forall a e, _ -> zlen e <= _ -> _ =>
      let a := fresh "a" in let e := fresh "e" in let H := fresh "H" in let Hl := fresh "Hl" in
      intros a e H Hl; cbv beta in H;
      first [ subst e | destruct H as [-> H] | destruct H as [H ->] ]
  | |- _ <= _ => len
  end.
Lemma zlen_locator l : zlen (locator_encode l) = 24.
Proof. apply array_locator. Qed.
#[export] Hint Rewrite zlen_locator : len.
Lemma takes_entry tag :
  takes VALUE_BYTES (entry_read tag)
    (fun en e => entry_tag en = tag /\ entry_ok en /\ e = concat (entry_fields en)).
Proof.
  unfold VALUE_BYTES. destruct tag; unfold entry_read; repeat takes_step; cbn; rewrite ?app_nil_r; split_and?; try done.
Qed.

(** ** Entries: the round trip. *)
Lemma reads_i_take n e : zlen e = n -> reads (i_take n) e e.
Proof.
  intros <- pre post. unfold i_take. cbn [rd_offset rd_bytes]. by rewrite sub_mid.
Qed.
Lemma reads_i_be (m : nat) n v :
  n = Z.of_nat m -> uint (8 * n) v ->
  reads (read a := i_take n in rret (be_val a)) (be_bytes m v) v.
Proof.
  intros -> Hv. unfold uint in Hv. rewrite Z.pow_mul_r in Hv by lia. change (2 ^ 8) with 256 in Hv.
  eapply reads_eq; [|apply app_nil_r].
  eapply reads_bind; [apply reads_i_take, zlen_be_bytes|].
  rewrite be_val_small by done. apply reads_ret.
Qed.
Lemma reads_i_u64 v : u64 v -> reads i_u64 (be_bytes 8 v) v.
Proof. by apply (reads_i_be 8 8 v). Qed.
Lemma reads_i_u32 v : u32 v -> reads i_u32 (be_bytes 4 v) v.
Proof. by apply (reads_i_be 4 4 v). Qed.
Lemma reads_i_u16 v : u16 v -> reads i_u16 (be_bytes 2 v) v.
Proof. by apply (reads_i_be 2 2 v). Qed.
Lemma reads_i_id v : Id_ok v -> reads i_id v v.
Proof. intros []. by apply reads_i_take. Qed.
Lemma reads_i_hash v : Hash_ok v -> reads i_hash v v.
Proof. intros []. by apply reads_i_take. Qed.
Lemma reads_i_byte v : reads i_byte [v] v.
Proof. intros pre post. unfold i_byte. by rewrite (reads_i_take 1 [v]). Qed.
Lemma reads_i_code {A} (from_code : Z -> option A) b a :
  from_code b = Some a -> reads (i_code from_code) [b] a.
Proof.
  intros Hb. eapply reads_eq; [|apply app_nil_r].
  eapply reads_bind; [apply reads_i_byte|]. rewrite Hb. apply reads_lift.
Qed.
Lemma reads_i_locator l : locator_ok l -> reads i_locator (locator_encode l) l.
Proof.
  intros Hl. eapply reads_eq; [|apply app_nil_r].
  eapply reads_bind; [apply reads_i_take, zlen_locator|].
  rewrite locator_roundtrip by done. apply reads_lift.
Qed.
Lemma reads_generated g : reads (i_code generated_from_code) [generated_code g] g.
Proof. by apply reads_i_code, generated_from_code_Some. Qed.
Lemma reads_terminal g : reads (i_code terminal_from_code) [terminal_code g] g.
Proof. by apply reads_i_code, terminal_from_code_Some. Qed.
Lemma reads_cause g : reads (i_code cause_from_code) [cause_code g] g.
Proof. by apply reads_i_code, cause_from_code_Some. Qed.
Create HintDb entry_reads discriminated.
#[export] Hint Resolve reads_i_u64 reads_i_u32 reads_i_u16 reads_i_id reads_i_hash reads_i_byte
  reads_i_locator reads_generated reads_terminal reads_cause : entry_reads.
Lemma reads_bind_cons {A B} (p : reader A) (k : A -> reader B) x l e a b :
  reads p [x] a -> reads (k a) (l ++ e) b -> reads (rbind p k) ((x :: l) ++ e) b.
Proof. apply (reads_bind p k [x]). Qed.
Ltac reads_entry :=
  repeat first [ apply reads_ret
               | eapply reads_bind_cons; [solve [eauto with entry_reads]|cbn [app]]
               | eapply reads_bind; [solve [eauto with entry_reads]|cbv beta] ].
Lemma reads_entry_fields e :
  entry_ok e -> reads (entry_read (entry_tag e)) (concat (entry_fields e)) e.
Proof.
  destruct e as [| |[]| | | | | | | | | | | | | | | | | | | | | | | |];
    cbn [entry_ok entry_tag entry_fields concat entry_read]; intros Hok;
    repeat match goal with H : _ /\ _ |- _ => destruct H end; reads_entry.
Qed.
Lemma entry_fields_fit e : entry_ok e -> zlen (concat (entry_fields e)) <= VALUE_BYTES.
Proof.
  unfold VALUE_BYTES. destruct e; cbn [entry_ok entry_fields concat]; intros Hok;
    repeat match goal with H : _ /\ _ |- _ => destruct H end; len.
Qed.
Lemma locator_bytes l : bytes_ok (locator_encode l).
Proof. apply array_locator. Qed.
Lemma generated_code_u8 g : u8 (generated_code g).
Proof. destruct g; by_decide. Qed.
Lemma terminal_code_u8 g : u8 (terminal_code g).
Proof. destruct g; by_decide. Qed.
Lemma cause_code_u8 g : u8 (cause_code g).
Proof. destruct g; by_decide. Qed.
Create HintDb byte_fields discriminated.
#[export] Hint Resolve array_bytes be_bytes_ok locator_bytes generated_code_u8 terminal_code_u8
  cause_code_u8 : byte_fields.
Lemma entry_fields_bytes e : entry_ok e -> bytes_ok (concat (entry_fields e)).
Proof.
  destruct e; cbn [entry_ok entry_fields concat]; intros Hok;
    repeat match goal with H : _ /\ _ |- _ => destruct H end;
    repeat match goal with
    | |- bytes_ok (_ ++ _) => apply bytes_ok_app; split
    | |- bytes_ok (_ :: _) => apply Forall_cons; split
    | |- bytes_ok [] => apply Forall_nil; exact I
    | |- Forall (uint 8) ?l => change (bytes_ok l)
    end; eauto with byte_fields.
  by_decide.
Qed.
Lemma out_all_Ok pieces out :
  zlen out + zlen (concat pieces) <= VALUE_BYTES ->
  foldl (fun c d => let? out := c in out_put out d) (Ok out) pieces = Ok (out ++ concat pieces).
Proof.
  revert out. induction pieces as [|d pieces IH]; intros out Hl; cbn [concat foldl] in *.
  { by rewrite app_nil_r. }
  rewrite zlen_app in Hl. pose proof (zlen_nonneg (concat pieces)). cbn [obind]. unfold out_put.
  rewrite decide_True by lia. rewrite IH by (rewrite zlen_app; lia). by rewrite app_assoc.
Qed.
Lemma entry_encode_Ok e :
  entry_ok e -> entry_encode e = Ok (out_bytes (concat (entry_fields e))).
Proof.
  intros Hok. unfold entry_encode, out_all. rewrite out_all_Ok; [done|].
  rewrite zlen_nil. by apply entry_fields_fit.
Qed.
Lemma entry_value_array e :
  entry_ok e -> array VALUE_BYTES (out_bytes (concat (entry_fields e))).
Proof.
  intros Hok. pose proof (entry_fields_fit e Hok). unfold out_bytes. split.
  - rewrite zlen_app, zlen_zeros; lia.
  - apply bytes_ok_app. split; [by apply entry_fields_bytes|apply bytes_ok_zeros].
Qed.
Lemma finish_zeros e n :
  0 <= n ->
  i_finish (mkReader (e ++ zeros n) (zlen e)) = Ok (tt, mkReader (e ++ zeros n) (zlen e)).
Proof.
  intros Hn. unfold i_finish. cbn [rd_offset rd_bytes]. rewrite sub_end by (try done; len).
  cbn [obind]. by rewrite any_nonzero_zeros.
Qed.

Lemma finish_sound bs o u r :
  i_finish (mkReader bs o) = Ok (u, r) -> zdrop o bs = zeros (zlen bs - o).
Proof.
  unfold i_finish. cbn [rd_offset rd_bytes]. intros H.
  apply obind_Ok in H as (rest & Hs & H). apply sub_Ok in Hs as [Hr ->].
  rewrite ztake_all in H by (rewrite zlen_zdrop; lia).
  destruct (any_nonzero _) eqn:Hz; [done|]. apply any_nonzero_false in Hz. rewrite Hz.
  f_equal. rewrite zlen_zdrop; lia.
Qed.

Lemma entry_encodes e :
  entry_ok e ->
  exists value, entry_encode e = Ok value /\ array VALUE_BYTES value /\
                entry_decode (entry_tag e) value = Ok e.
Proof.
  intros Hok. exists (out_bytes (concat (entry_fields e))).
  pose proof (entry_value_array e Hok) as Ha. pose proof (entry_fields_fit e Hok).
  split_and!; [by apply entry_encode_Ok|done..|].
  unfold entry_decode. rewrite decide_False by (destruct Ha; naive_solver).
  pose proof (reads_entry_fields e Hok [] (zeros (VALUE_BYTES - zlen (concat (entry_fields e))))) as Hr.
  rewrite zlen_nil, Z.add_0_l in Hr. cbn [app] in Hr. unfold out_bytes.
  rewrite Hr. cbn [obind]. by rewrite finish_zeros by lia.
Qed.
(** C23: an index entry whose fields fit their widths encodes, without a panic,
    into exactly one 96-byte value, and decoding that value under the entry's
    tag returns the entry itself. *)
Theorem entry_roundtrip e :
  entry_ok e ->
  exists value, entry_encode e = Ok value /\ array VALUE_BYTES value /\
                entry_decode (entry_tag e) value = Ok e.
Proof. apply entry_encodes. Qed.

Lemma entry_read_spec tag value :
  array VALUE_BYTES value ->
  match entry_read tag (mkReader value 0) with
  | Ok (e, r) =>
      entry_tag e = tag /\ entry_ok e /\ r = mkReader value (zlen (concat (entry_fields e))) /\
      value = concat (entry_fields e) ++ zdrop (zlen (concat (entry_fields e))) value
  | Err _ => True
  | Panic => False
  end.
Proof.
  intros [Hl Hb]. pose proof (takes_entry tag value 0 Hb ltac:(lia) ltac:(lia)) as H.
  destruct (entry_read _ _) as [[e r]|x|]; [|done|done].
  destruct H as (? & (? & ? & ->) & _ & -> & Hd). by rewrite Z.add_0_l in *.
Qed.

(** the value form is canonical: whatever 96 bytes decode under a tag is
    an entry of that tag whose fields fit their widths, and encoding it again
    gives the same bytes; no two values stand for one entry. *)
Theorem entry_canonical tag value e :
  bytes_ok value -> entry_decode tag value = Ok e ->
  entry_tag e = tag /\ entry_ok e /\ entry_encode e = Ok value.
Proof.
  intros Hb H. unfold entry_decode in H. inv_res H. apply dec_stable in Hd.
  pose proof (entry_read_spec tag value (conj Hd Hb)) as Hs. rewrite Ha in Hs.
  destruct Hs as (Ht & Hok & -> & Hv). injection H as ->.
  split_and!; [done|done|]. rewrite entry_encode_Ok by done. f_equal. unfold out_bytes.
  destruct a as [u r]. apply finish_sound in Ha0. rewrite Hd in Ha0. rewrite <- Ha0. by symmetry.
Qed.

Lemma key_decode_no_panic key : key_decode key <> Panic.
Proof.
  unfold key_decode. destruct (decide _) as [|Hl]; [done|]. apply dec_stable in Hl.
  unfold KEY_BYTES in Hl.
  repeat (rewrite sub_in by lia; cbn [obind]).
  destruct (any_nonzero _); [done|].
  destruct (ztake (1 - 0) (zdrop 0 key)) as [|x [|y l]] eqn:Hx;
    [| by destruct (tag_from_byte x) |];
    apply (f_equal zlen) in Hx; rewrite zlen_ztake in Hx by (rewrite zlen_zdrop; lia);
    rewrite ?zlen_cons in Hx; [done|]; pose proof (zlen_nonneg l); lia.
Qed.

(** Decoding never panics on any bytes of any length: [Key::decode] and
    [Entry::decode] answer with a value or with [Corrupt], whatever an index
    page holds. *)
Theorem index_decode_never_panics tag value key :
  bytes_ok value -> key_decode key <> Panic /\ entry_decode tag value <> Panic.
Proof.
  intros Hb. split.
  - apply key_decode_no_panic.
  - unfold entry_decode. destruct (decide _) as [|Hl]; [done|]. apply dec_stable in Hl.
    pose proof (entry_read_spec tag value (conj Hl Hb)) as Hs.
    destruct (entry_read _ _) as [[e r]|x|]; [|done|done]. destruct Hs as (_ & Hok & -> & _).
    cbn [obind]. unfold i_finish. cbn [rd_offset rd_bytes].
    pose proof (entry_fields_fit e Hok). pose proof (zlen_nonneg (concat (entry_fields e))).
    rewrite sub_in by lia. cbn [obind]. by destruct (any_nonzero _).
Qed.

(** [Key]'s derived order is the byte order of its encoding, and the
    encoding is a canonical 32-byte form: it round-trips, and any 32 bytes that
    decode are the encoding of the key they decode to. The page and run search
    may therefore compare keys where the file holds bytes. *)
Theorem key_order_is_byte_order k1 k2 :
  key_ok k1 -> key_ok k2 ->
  cmp (key_encode k1) (key_encode k2) = cmp k1 k2 /\
  array KEY_BYTES (key_encode k1) /\ key_decode (key_encode k1) = Ok k1 /\
  (forall b, bytes_ok b -> key_decode b = Ok k1 -> b = key_encode k1).
Proof.
  intros H1 H2. split_and!; [by apply key_cmp_encode|by apply key_encode_array|by apply key_roundtrip|].
  intros b Hb Hd. by apply key_decode_sound in Hd as [_ <-].
Qed.

(** ** Witnesses on concrete entries. *)
Definition demo_locator : Locator := mkLocator 7 2 4096 512.
Definition demo_entry : Entry :=
  EOperation (mkFacts (replicate 16 3) 9 Failed Deadline 65536 2 1 demo_locator locator_none).
Definition demo_value : bytes := out_bytes (concat (entry_fields demo_entry)).
Lemma demo_entry_ok : entry_ok demo_entry.
Proof. unfold demo_entry, entry_ok, locator_ok. split_and!; by_decide. Qed.
Lemma entry_roundtrip_witness :
  exists value, entry_encode demo_entry = Ok value /\ array VALUE_BYTES value /\
                entry_decode TOperation value = Ok demo_entry.
Proof. apply (entry_roundtrip demo_entry), demo_entry_ok. Defined.
Lemma entry_canonical_witness :
  entry_tag demo_entry = TOperation /\ entry_ok demo_entry /\ entry_encode demo_entry = Ok demo_value.
Proof. apply (entry_canonical TOperation demo_value demo_entry); [by_decide|by vm_compute]. Defined.
Definition demo_key : Key := mkKey TPiece (replicate 16 3) 255.
Lemma key_order_is_byte_order_witness :
  cmp (key_encode demo_key) (key_encode (mkKey TPiece (replicate 16 3) 256)) = Lt /\
  key_decode (key_encode demo_key) = Ok demo_key.
Proof.
  destruct (key_order_is_byte_order demo_key (mkKey TPiece (replicate 16 3) 256)) as (-> & _ & -> & _);
    [split; by_decide|split; by_decide|]. by vm_compute.
Defined.
