(* ===== verification/Run.v ===== *)
(** * Index run files (authority/index/run.rs).

    A run is a 64-byte header, 4,096-byte checksummed pages of at most 31
    sorted 128-byte entries, and a 40-byte trailer. [RunHeader], the page
    codec, [RunWriter] over a [RunSink] and [encode_run] over a byte vector.
    A streaming [Sha256] value is the bytes it has received; [finalize] is
    [sha256] of them. The theorems: the header and the page codec round-trip
    and are canonical, and [encode_run] accepts exactly the strictly ascending
    entry lists and writes exactly the run the format describes. *)
From stdpp Require Import prelude list.
From Stdlib Require Import ZArith Lia.
From S2P Require Import Prelude Codec Index.

Definition HEADER_BYTES : Z := 64.
Definition PAGE_BYTES : Z := 4096.
Definition PAGE_ENTRIES : Z := 31.
Definition TRAILER_BYTES : Z := 40.
Definition MAGIC : bytes := [65; 83; 85; 82; 65; 88; 48; 49].
Definition COMMIT : bytes := [65; 83; 85; 82; 65; 67; 48; 49].
Definition MERGE_STEP_PAGES : Z := 256.

(** ** Byte sources and sinks. *)
Definition ISIZE_MAX : Z := 2 ^ 63 - 1.
(** [RunSource]: [read_exact_at(offset, buffer)] fills a buffer of the given
    length or fails. A run file is immutable, so a read leaves the source as
    it was. *)
Definition RunSource : Type := Z -> Z -> Result bytes.
(** The implementation for [&[u8]]. *)
Definition slice_source (data : bytes) : RunSource := fun offset n =>
  ok_or Corrupt (get_range offset (wrap 64 (offset + n)) data).
(** [RunSink]: [write_all_at] on a sink of type [S]. *)
Class RunSink (S : Type) := write_all_at : S -> Z -> bytes -> Result S.
(** [out[at..at + data.len()].copy_from_slice(data)]. *)
Definition put (at_ : Z) (data out : bytes) : Result bytes :=
  if decide (0 <= at_ /\ at_ + zlen data <= zlen out)
  then Ok (ztake at_ out ++ data ++ zdrop (at_ + zlen data) out)
  else Panic.
(** The implementation for [Vec<u8>]: grows with zeros ([Vec::resize] panics
    past [isize::MAX]), then copies. *)
#[export] Instance vec_sink : RunSink bytes := fun v offset data =>
  let e := wrap 64 (offset + zlen data) in
  let? v := if decide (zlen v < e)
            then if decide (e > ISIZE_MAX) then Panic else Ok (v ++ zeros (e - zlen v))
            else Ok v in
  put offset data v.

(** ** Header. *)
Record RunHeader : Type := mkHeader {
  h_level : Z; h_installation_id : bytes; h_first : Z; h_last : Z; h_entries : Z; h_pages : Z;
}.
#[export] Instance RunHeader_eq_dec : EqDecision RunHeader.
Proof. solve_decision. Defined.
Definition header_new (level : Z) (installation_id : bytes) (first last entries : Z) : RunHeader :=
  mkHeader level installation_id first last entries (div_ceil entries PAGE_ENTRIES).
Definition file_bytes (h : RunHeader) : Z :=
  wrap 64 (HEADER_BYTES + h_pages h * PAGE_BYTES + TRAILER_BYTES).
Definition header_encode (h : RunHeader) : bytes :=
  MAGIC ++ be_bytes 2 1 ++ [h_level h] ++ h_installation_id h ++ be_bytes 8 (h_first h) ++
  be_bytes 8 (h_last h) ++ be_bytes 8 (h_entries h) ++ be_bytes 8 (h_pages h) ++ zeros 5.
Definition header_decode (b : bytes) : Result RunHeader :=
  if decide (zlen b <> HEADER_BYTES) then Err Corrupt else
  let? magic := sub 0 8 b in
  if decide (magic <> MAGIC) then Err Corrupt else
  let? version := sub 8 10 b in
  if decide (version <> be_bytes 2 1) then Err UnsupportedFormat else
  let? level := sub 10 11 b in
  let? installation_id := sub 11 27 b in
  let? first := sub 27 35 b in
  let? last := sub 35 43 b in
  let? entries := sub 43 51 b in
  let? pages := sub 51 59 b in
  let header := mkHeader (be_val level) installation_id (be_val first) (be_val last)
                  (be_val entries) (be_val pages) in
  let? reserved := sub 59 (zlen b) b in
  if any_nonzero reserved then Err Corrupt else
  if decide (h_first header = 0) then Err Corrupt else
  if decide (h_last header < h_first header) then Err Corrupt else
  if decide (h_entries header = 0) then Err Corrupt else
  if decide (h_pages header <> div_ceil (h_entries header) PAGE_ENTRIES) then Err Corrupt else
  Ok header.
Definition header_read (source : RunSource) : Result RunHeader :=
  let? b := source 0 HEADER_BYTES in header_decode b.

(** What a decoded header satisfies. *)
Definition header_ok (h : RunHeader) : Prop :=
  u8 (h_level h) /\ Id_ok (h_installation_id h) /\ u64 (h_first h) /\ u64 (h_last h) /\
  u64 (h_entries h) /\ 0 < h_first h <= h_last h /\ 0 < h_entries h /\
  h_pages h = div_ceil (h_entries h) PAGE_ENTRIES.

(** ** Pages. *)
Abbreviation Value := bytes.
Abbreviation Page := (list (Key * Value)).
Definition slot_ok (kv : Key * Value) : Prop := key_ok kv.1 /\ array VALUE_BYTES kv.2.

(** [prior.is_some_and(|prior| prior >= key)]. *)
Definition at_or_above (prior : option Key) (key : Key) : bool :=
  is_some_and (fun prior => geb prior key) prior.

Section Hash.
Context `{Hasher}.

Definition page_digest (entries : bytes) (count page first : Z) : bytes :=
  sha256 (entries ++ be_bytes 2 count ++ be_bytes 8 page ++ be_bytes 8 first).
Fixpoint put_entries (index : Z) (entries : Page) (out : bytes) : Result bytes :=
  match entries with
  | [] => Ok out
  | (key, value) :: entries =>
      let at_ := index * ENTRY_BYTES in
      let? out := put at_ (key_encode key) out in
      let? out := put (at_ + 32) value out in
      put_entries (index + 1) entries out
  end.
Definition encode_page (entries : Page) (page first : Z) : Result bytes :=
  let? out := put_entries 0 entries (zeros PAGE_BYTES) in
  let body := PAGE_ENTRIES * ENTRY_BYTES in
  let count := wrap 16 (zlen entries) in
  let? b := sub 0 body out in
  let digest := page_digest b count page first in
  let? out := put body (be_bytes 2 count) out in
  let? out := put (body + 2) (be_bytes 8 page) out in
  let? out := put (body + 10) (be_bytes 8 first) out in
  put (body + 18) digest out.
(** The loop of [decode_page], from [index] on, [n] rounds. *)
Fixpoint decode_entries (n : nat) (index : Z) (b : bytes) (entries : Page) : Result Page :=
  match n with
  | O => Ok entries
  | S n' =>
      let at_ := index * ENTRY_BYTES in
      let? k := sub at_ (at_ + 32) b in
      let? key := key_decode k in
      if at_or_above (fst <$> last entries) key then Err Corrupt else
      let? value := sub (at_ + 32) (at_ + ENTRY_BYTES) b in
      decode_entries n' (index + 1) b (entries ++ [(key, value)])
  end.
Definition expected_count (header : RunHeader) (page : Z) : Z :=
  if decide (wrap 64 (page + 1) = h_pages header)
  then wrap 64 (h_entries header - wrap 64 (page * PAGE_ENTRIES))
  else PAGE_ENTRIES.
Definition decode_page (b : bytes) (header : RunHeader) (page : Z) : Result Page :=
  if decide (zlen b <> PAGE_BYTES \/ page >= h_pages header) then Err Corrupt else
  let body := PAGE_ENTRIES * ENTRY_BYTES in
  let? c := sub body (body + 2) b in
  let count := be_val c in
  let? n := sub (body + 2) (body + 10) b in
  let? f := sub (body + 10) (body + 18) b in
  let first := be_val f in
  if decide (count <> expected_count header page) then Err Corrupt else
  if decide (be_val n <> page) then Err Corrupt else
  if decide (first <> h_first header) then Err Corrupt else
  let? stored := sub (body + 18) (body + 50) b in
  let? covered := sub 0 body b in
  if decide (stored <> page_digest covered count page first) then Err Corrupt else
  let? tail := sub (body + 50) (zlen b) b in
  if any_nonzero tail then Err Corrupt else
  let? unused := sub (count * ENTRY_BYTES) body b in
  if any_nonzero unused then Err Corrupt else
  decode_entries (Z.to_nat count) 0 b [].
Definition page_offset (page : Z) : Z := wrap 64 (HEADER_BYTES + page * PAGE_BYTES).
Definition read_page (source : RunSource) (header : RunHeader) (page : Z) : Result Page :=
  let? b := source (page_offset page) PAGE_BYTES in
  decode_page b header page.

(** ** The writer. *)
Record RunWriter : Type := mkWriter {
  w_header : RunHeader; w_digest : bytes; w_page : Page;
  w_written_pages : Z; w_written_entries : Z; w_last : option Key;
}.

Section Writer.
Context {Sink : Type} `{RunSink Sink}.

Definition writer_new (header : RunHeader) (sink : Sink) : Result (RunWriter * Sink) :=
  let b := header_encode header in
  let? sink := write_all_at sink 0 b in
  Ok (mkWriter header b [] 0 0 None, sink).
Definition flush (w : RunWriter) (sink : Sink) : Result (RunWriter * Sink) :=
  let? b := encode_page (w_page w) (w_written_pages w) (h_first (w_header w)) in
  let? sink := write_all_at sink (page_offset (w_written_pages w)) b in
  Ok (mkWriter (w_header w) (w_digest w ++ b) [] (wrap 64 (w_written_pages w + 1))
        (wrap 64 (w_written_entries w + zlen (w_page w))) (w_last w), sink).
Definition push (w : RunWriter) (key : Key) (value : Value) (sink : Sink) : Result (RunWriter * Sink) :=
  if at_or_above (w_last w) key then Err Corrupt else
  if decide (wrap 64 (w_written_entries w + zlen (w_page w)) >= h_entries (w_header w))
  then Err Corrupt else
  let w := mkWriter (w_header w) (w_digest w) (w_page w ++ [(key, value)])
             (w_written_pages w) (w_written_entries w) (Some key) in
  if decide (zlen (w_page w) = PAGE_ENTRIES) then flush w sink else Ok (w, sink).
Definition finish (w : RunWriter) (sink : Sink) : Result (bytes * Sink) :=
  let? (w, sink) := if decide (w_page w = []) then Ok (w, sink) else flush w sink in
  if decide (w_written_entries w <> h_entries (w_header w) \/
             w_written_pages w <> h_pages (w_header w)) then Err Corrupt else
  let digest := sha256 (w_digest w) in
  let trailer := digest ++ COMMIT in
  let? sink := write_all_at sink (wrap 64 (file_bytes (w_header w) - TRAILER_BYTES)) trailer in
  Ok (digest, sink).
Fixpoint push_all (entries : Page) (w : RunWriter) (sink : Sink) : Result (RunWriter * Sink) :=
  match entries with
  | [] => Ok (w, sink)
  | (key, value) :: entries =>
      let? (w, sink) := push w key value sink in
      push_all entries w sink
  end.
End Writer.

Definition encode_run (level : Z) (installation_id : bytes) (first last : Z) (entries : Page)
  : Result (bytes * bytes) :=
  let header := header_new level installation_id first last (zlen entries) in
  let? (writer, sink) := writer_new header ([] : bytes) in
  let? (writer, sink) := push_all entries writer sink in
  let? (digest, sink) := finish writer sink in
  Ok (sink, digest).
Definition trailer (source : RunSource) (header : RunHeader) : Result bytes :=
  let? b := source (wrap 64 (file_bytes header - TRAILER_BYTES)) TRAILER_BYTES in
  let? commit := sub 32 (zlen b) b in
  if decide (commit <> COMMIT) then Err Corrupt else
  sub 0 32 b.
End Hash.

(** ** Header: round trip and canonical form. *)
Lemma pages_u64 n : u64 n -> u64 (div_ceil n PAGE_ENTRIES).
Proof.
  unfold uint, PAGE_ENTRIES. intros. pose proof (div_ceil_spec n 31). lia.
Qed.
Lemma header_encode_array h : header_ok h -> array HEADER_BYTES (header_encode h).
Proof.
  intros (Hl & Hi & _). unfold header_encode, HEADER_BYTES.
  assert (zlen MAGIC = 8) by done. split; [len|].
  rewrite !bytes_ok_app. destruct Hi.
  split_and!; eauto using be_bytes_ok, bytes_ok_zeros; [by_decide|].
  by apply Forall_cons.
Qed.
Lemma header_decode_encode h : header_ok h -> header_decode (header_encode h) = Ok h.
Proof.
  intros Hok. pose proof (array_len _ _ (header_encode_array h Hok)) as Hl.
  destruct Hok as (Hv & Hi & Hf & Hla & He & Hfl & He0 & Hp).
  unfold header_decode. rewrite decide_False by naive_solver. rewrite Hl.
  unfold header_encode, HEADER_BYTES. assert (zlen [h_level h] = 1) by done.
  assert (zlen MAGIC = 8) by done. subs.
  rewrite decide_False by naive_solver. subs. rewrite decide_False by naive_solver. subs.
  rewrite any_nonzero_zeros. cbn [h_first h_last h_entries h_pages].
  pose proof (pages_u64 _ He) as Hpu. rewrite <- Hp in Hpu.
  rewrite !be_val8 by done. rewrite !decide_False by lia.
  unfold be_val. simpl foldl. by destruct h.
Qed.
Lemma header_decode_sound b h :
  bytes_ok b -> header_decode b = Ok h -> header_ok h /\ header_encode h = b.
Proof.
  intros Hb H. unfold header_decode in H. destruct (decide _) as [|Hl]; [done|].
  apply dec_stable in Hl. rewrite Hl in H. assert (Ha : array 64 b) by (split; done).
  revert H. clear Hl Hb. unfold HEADER_BYTES.
  chop_field Ha 8. chop_field Ha 2. chop_field Ha 1. chop_field Ha 16. chop_field Ha 8.
  chop_field Ha 8. chop_field Ha 8. chop_field Ha 8. subs.
  destruct (decide (f <> MAGIC)) as [|Hm]; [done|]. apply dec_stable in Hm. subst f. subs.
  destruct (decide (f0 <> _)) as [|Hm]; [done|]. apply dec_stable in Hm. subst f0. subs.
  destruct (any_nonzero _) eqn:Hz; [done|]. cbn [h_first h_last h_entries h_pages].
  intros H. inv_res H. injection H as <-. apply dec_stable in Hd2.
  apply any_nonzero_false in Hz. destruct Hf1 as [L1 B1], Hf2, Hf3 as [L3 B3], Hf4 as [L4 B4],
    Hf5 as [L5 B5], Hf6 as [L6 B6], Ha as [La Ba]. rewrite La in Hz.
  pose proof (be_val_uint 8 f3 L3 B3) as U3. pose proof (be_val_uint 8 f4 L4 B4) as U4.
  pose proof (be_val_uint 8 f5 L5 B5) as U5. pose proof (be_val_uint 1 f1 L1 B1) as U1.
  unfold header_ok, header_encode. cbn [h_level h_installation_id h_first h_last h_entries h_pages].
  split.
  - refine (conj U1 (conj (conj _ _) (conj U3 (conj U4 (conj U5 _))))); [done|done|].
    unfold uint in *. split_and!; [lia|lia|lia|done].
  - rewrite !be_bytes_eq by done. rewrite Hz.
    assert ([be_val f1] = f1) as ->; [|done].
    destruct f1 as [|x [|y l]]; [done|done|]. rewrite !zlen_cons in L1. pose proof (zlen_nonneg l). lia.
Qed.

(** ** Page layout. *)
Lemma put_mid at_ d a b c :
  zlen a = at_ -> zlen b = zlen d -> put at_ d (a ++ b ++ c) = Ok (a ++ d ++ c).
Proof.
  intros <- Hb. unfold put. pose proof (zlen_nonneg a). pose proof (zlen_nonneg c).
  rewrite decide_True by (rewrite !zlen_app; lia).
  rewrite ztake_app_l by done. pose proof (zlen_nonneg d).
  rewrite (Z.add_comm (zlen a)), <- (zdrop_zdrop (zlen d)) by lia.
  by rewrite (zdrop_app_l _ a), zdrop_app_l by done.
Qed.
Lemma put_zeros at_ d a n :
  zlen a = at_ -> zlen d <= n -> put at_ d (a ++ zeros n) = Ok (a ++ d ++ zeros (n - zlen d)).
Proof.
  intros Ha Hn. pose proof (zlen_nonneg d).
  assert (zeros n = zeros (zlen d) ++ zeros (n - zlen d)) as ->.
  { unfold zeros. rewrite <- replicate_add. f_equal. lia. }
  apply put_mid; [done|by apply zlen_zeros].
Qed.
Definition slot_bytes (kv : Key * Value) : bytes := key_encode kv.1 ++ kv.2.
Definition slots_bytes (entries : Page) : bytes := concat (slot_bytes <$> entries).
Lemma slot_array kv : slot_ok kv -> array ENTRY_BYTES (slot_bytes kv).
Proof.
  intros [Hk [Hv Hb]]. apply key_encode_array in Hk as [Hk Hkb]. unfold slot_bytes. split.
  - rewrite zlen_app. unfold ENTRY_BYTES. lia.
  - by apply bytes_ok_app.
Qed.
Lemma slots_array entries :
  Forall slot_ok entries -> array (zlen entries * ENTRY_BYTES) (slots_bytes entries).
Proof.
  unfold slots_bytes. induction 1 as [|kv entries Hk _ [IHl IHb]]; [by_decide|].
  apply slot_array in Hk as [Hl Hb]. cbn [fmap list_fmap concat]. split.
  - rewrite zlen_app, zlen_cons. lia.
  - by apply bytes_ok_app.
Qed.
Lemma slots_app l k : slots_bytes (l ++ k) = slots_bytes l ++ slots_bytes k.
Proof. unfold slots_bytes. by rewrite fmap_app, concat_app. Qed.

Lemma put_entries_Ok entries index pre n :
  Forall slot_ok entries -> zlen pre = index * ENTRY_BYTES ->
  zlen entries * ENTRY_BYTES <= n ->
  put_entries index entries (pre ++ zeros n) =
  Ok (pre ++ slots_bytes entries ++ zeros (n - zlen entries * ENTRY_BYTES)).
Proof.
  intros Hs. revert index pre n. induction Hs as [|[k v] entries [Hk [Hv _]] _ IH]; intros index pre n Hp Hn.
  { cbn. unfold zlen. simpl. by rewrite Z.sub_0_r. }
  apply key_encode_array in Hk as [Hk _]. cbn [fst snd] in *.
  rewrite zlen_cons in Hn. pose proof (zlen_nonneg entries). unfold ENTRY_BYTES, KEY_BYTES, VALUE_BYTES in *.
  cbn [put_entries]. unfold ENTRY_BYTES, KEY_BYTES, VALUE_BYTES.
  rewrite put_zeros by lia. cbn [obind]. rewrite app_assoc, put_zeros by (rewrite ?zlen_app; lia).
  cbn [obind]. rewrite app_assoc, IH by (rewrite ?zlen_app; lia).
  unfold slots_bytes, slot_bytes. cbn [fmap list_fmap concat fst snd]. rewrite <- !app_assoc.
  rewrite zlen_cons. do 6 f_equal. lia.
Qed.

Definition page_body (entries : Page) : bytes :=
  slots_bytes entries ++ zeros ((PAGE_ENTRIES - zlen entries) * ENTRY_BYTES).
Lemma page_body_array entries :
  Forall slot_ok entries -> zlen entries <= PAGE_ENTRIES -> array 3968 (page_body entries).
Proof.
  intros Hs Hl. apply slots_array in Hs as [Hsl Hsb]. unfold page_body, PAGE_ENTRIES, ENTRY_BYTES in *.
  unfold KEY_BYTES, VALUE_BYTES in *. split.
  - rewrite zlen_app, zlen_zeros; lia.
  - apply bytes_ok_app. split; [done|apply bytes_ok_zeros].
Qed.

Section Pages.
Context `{HasherOk}.

Definition page_bytes (entries : Page) (page first : Z) : bytes :=
  page_body entries ++ be_bytes 2 (zlen entries) ++ be_bytes 8 page ++ be_bytes 8 first ++
  page_digest (page_body entries) (zlen entries) page first ++ zeros 78.
Lemma page_digest_array b c p f : Hash_ok (page_digest b c p f).
Proof. apply sha256_array. Qed.
Lemma page_bytes_array entries page first :
  Forall slot_ok entries -> zlen entries <= PAGE_ENTRIES ->
  array PAGE_BYTES (page_bytes entries page first).
Proof.
  intros Hs Hl. destruct (page_body_array entries Hs Hl) as [Hbl Hbb].
  destruct (page_digest_array (page_body entries) (zlen entries) page first) as [Hdl Hdb].
  unfold page_bytes, PAGE_BYTES. split; [len|]. rewrite !bytes_ok_app.
  split_and!; eauto using be_bytes_ok, bytes_ok_zeros.
Qed.
Lemma encode_page_Ok entries page first :
  Forall slot_ok entries -> zlen entries <= PAGE_ENTRIES ->
  encode_page entries page first = Ok (page_bytes entries page first).
Proof.
  intros Hs Hl. pose proof (array_len _ _ (page_body_array entries Hs Hl)) as Hb.
  pose proof (zlen_nonneg entries). pose proof (array_len _ _ (slots_array entries Hs)) as Hsl.
  unfold PAGE_ENTRIES in Hl. unfold encode_page. unfold ENTRY_BYTES, KEY_BYTES, VALUE_BYTES in *.
  change (zeros PAGE_BYTES) with ([] ++ zeros PAGE_BYTES).
  rewrite put_entries_Ok by (done || (unfold PAGE_BYTES, ENTRY_BYTES, KEY_BYTES, VALUE_BYTES; lia)).
  cbn [obind app]. rewrite wrap_small by (unfold uint; lia).
  assert (slots_bytes entries ++ zeros (PAGE_BYTES - zlen entries * ENTRY_BYTES) =
          page_body entries ++ zeros 128) as ->.
  { unfold page_body, zeros. rewrite <- app_assoc, <- replicate_add. do 2 f_equal.
    unfold PAGE_BYTES, PAGE_ENTRIES, ENTRY_BYTES, KEY_BYTES, VALUE_BYTES. lia. }
  unfold PAGE_ENTRIES, ENTRY_BYTES, KEY_BYTES, VALUE_BYTES. rewrite sub_here by done. cbn [obind].
  pose proof (array_len _ _ (page_digest_array (page_body entries) (zlen entries) page first)) as Hd.
  rewrite put_zeros by len. cbn [obind]. rewrite app_assoc, put_zeros by len. cbn [obind].
  rewrite app_assoc, put_zeros by len. cbn [obind]. rewrite app_assoc, put_zeros by len.
  unfold page_bytes. rewrite <- !app_assoc. rewrite Hd, !zlen_be_bytes. done.
Qed.

(** ** Page decoding. *)
Lemma expected_count_bounds h page :
  header_ok h -> 0 <= page < h_pages h ->
  1 <= expected_count h page <= PAGE_ENTRIES /\
  expected_count h page = Z.min PAGE_ENTRIES (h_entries h - page * PAGE_ENTRIES).
Proof.
  intros (_ & _ & _ & _ & He & _ & Hp & Hpages) Hpage. unfold expected_count, PAGE_ENTRIES, uint in *.
  pose proof (div_ceil_spec (h_entries h) 31 ltac:(lia) ltac:(lia)) as Hs. rewrite <- Hpages in Hs.
  rewrite !wrap_small by (unfold uint; rewrite ?wrap_small; unfold uint; lia).
  destruct (decide _); lia.
Qed.
Lemma ascending_prior (l : Page) k :
  at_or_above (fst <$> last l) k = false <-> (forall b, last l = Some b -> b.1 ≺ k).
Proof.
  unfold at_or_above, is_some_and. destruct (last l) as [[p w]|]; cbn; [|naive_solver].
  rewrite geb_nlt. naive_solver.
Qed.
Lemma decode_entries_Ok entries index pre post acc :
  Forall slot_ok entries -> zlen pre = index * ENTRY_BYTES -> ascending (acc ++ entries) ->
  decode_entries (length entries) index (pre ++ slots_bytes entries ++ post) acc =
  Ok (acc ++ entries).
Proof.
  intros Hs. revert index pre acc.
  induction Hs as [|[k v] entries [Hk [Hv Hvb]] _ IH]; intros index pre acc Hp Hasc.
  { by rewrite app_nil_r. }
  cbn [length decode_entries]. unfold slots_bytes, slot_bytes. cbn [fmap list_fmap concat fst snd] in *.
  pose proof (array_len _ _ (key_encode_array k Hk)) as Hkl.
  unfold ENTRY_BYTES, KEY_BYTES, VALUE_BYTES in *. rewrite <- !app_assoc.
  rewrite sub_mid by lia. cbn [obind]. rewrite key_roundtrip by done. cbn [obind].
  assert (ascending (acc ++ [(k, v)])) as Hak.
  { change ((k, v) :: entries) with ([(k, v)] ++ entries) in Hasc.
    rewrite app_assoc, ascending_app in Hasc. tauto. }
  rewrite (proj2 (ascending_prior acc k)) by by apply ascending_snoc in Hak as [_ Hak].
  rewrite app_assoc, sub_mid by (rewrite ?zlen_app; lia).
  cbn [obind]. rewrite app_assoc.
  unfold slots_bytes, slot_bytes in IH.
  rewrite IH, <- app_assoc; [done| |by rewrite <- app_assoc].
  rewrite !zlen_app. lia.
Qed.
Lemma decode_entries_sound n index b acc res :
  bytes_ok b -> 0 <= index -> decode_entries n index b acc = Ok res -> ascending acc ->
  exists es, res = acc ++ es /\ length es = n /\ Forall slot_ok es /\ ascending res /\
    ztake (Z.of_nat n * ENTRY_BYTES) (zdrop (index * ENTRY_BYTES) b) = slots_bytes es.
Proof.
  intros Hb. revert index acc. induction n as [|n IH]; intros index acc Hi HD Ha; cbn [decode_entries] in HD.
  { injection HD as <-. exists []. rewrite app_nil_r. split_and!; try done; constructor. }
  apply obind_Ok in HD as (kb & Hkb & HD). apply obind_Ok in HD as (k & Hk & HD).
  destruct (at_or_above _ _) eqn:Hprior; [done|].
  apply obind_Ok in HD as (v & Hv & HD).
  pose proof (sub_array _ _ _ _ VALUE_BYTES Hv Hb ltac:(unfold ENTRY_BYTES, KEY_BYTES; lia)) as Hva.
  apply key_decode_sound in Hk as [Hkok Hke]; [|by eapply sub_bytes].
  apply IH in HD as (es & -> & Hl & Hf & Hasc & Hs); [|lia|].
  2:{ apply ascending_snoc. split; [done|]. by apply (ascending_prior acc k). }
  exists ((k, v) :: es). rewrite <- app_assoc in *. split_and!; [done|simpl; lia|by constructor|done|].
  apply sub_Ok in Hkb as [Hr1 ->], Hv as [Hr2 ->].
  unfold slots_bytes at 1. cbn [fmap list_fmap concat]. fold (slots_bytes es). unfold slot_bytes at 1. cbn [fst snd].
  rewrite Hke, <- Hs. unfold ENTRY_BYTES, KEY_BYTES, VALUE_BYTES in *.
  replace (Z.of_nat (S n) * (32 + 96)) with (32 + (96 + Z.of_nat n * 128)) by lia.
  rewrite !ztake_add, !zdrop_zdrop by lia. rewrite <- app_assoc. f_equal; [f_equal; lia|].
  f_equal; f_equal; try lia; f_equal; lia.
Qed.
Lemma expected_bytes h page entries :
  header_ok h -> 0 <= page < h_pages h -> zlen entries = expected_count h page ->
  1 <= zlen (entries : Page) <= 31 /\ u64 page /\ u64 (h_first h) /\ u16 (zlen entries).
Proof.
  intros Hh Hp Hc. pose proof (expected_count_bounds h page Hh Hp) as [Hb _].
  destruct Hh as (_ & _ & Hf & _ & He & _ & Hp0 & Hpages).
  pose proof (pages_u64 _ He) as Hpu. rewrite <- Hpages in Hpu.
  unfold uint, PAGE_ENTRIES in *. lia.
Qed.
Lemma decode_page_Ok h page entries :
  header_ok h -> 0 <= page < h_pages h -> Forall slot_ok entries -> ascending entries ->
  zlen entries = expected_count h page ->
  decode_page (page_bytes entries page (h_first h)) h page = Ok entries.
Proof.
  intros Hh Hp Hs Hasc Hc. destruct (expected_bytes h page entries Hh Hp Hc) as (Hn & Hpu & Hfu & Hcu).
  pose proof (array_len _ _ (page_bytes_array entries page (h_first h) Hs ltac:(unfold PAGE_ENTRIES; lia))) as Hl.
  pose proof (array_len _ _ (page_body_array entries Hs ltac:(unfold PAGE_ENTRIES; lia))) as Hbl.
  pose proof (array_len _ _ (page_digest_array (page_body entries) (zlen entries) page (h_first h))) as Hdl.
  unfold decode_page. rewrite decide_False by naive_solver lia. rewrite Hl.
  unfold PAGE_ENTRIES, ENTRY_BYTES, KEY_BYTES, VALUE_BYTES, PAGE_BYTES.
  change (31 * (32 + 96)) with 3968.
  change (3968 + 2) with 3970. change (3968 + 10) with 3978. change (3968 + 18) with 3986.
  change (3968 + 50) with 4018.
  unfold page_bytes at 1 2 3. subs.
  rewrite be_val2, !be_val8 by done. rewrite !decide_False by naive_solver.
  unfold page_bytes at 1 2. subs. rewrite decide_False by naive_solver.
  unfold page_bytes at 1. subs. rewrite any_nonzero_zeros.
  pose proof (slots_array entries Hs) as Hsa. unfold ENTRY_BYTES, KEY_BYTES, VALUE_BYTES in Hsa.
  unfold page_bytes at 1. unfold page_body at 1.
  rewrite <- app_assoc, sub_mid.
  2:{ destruct Hsa as [Hsl _]. lia. }
  2:{ unfold PAGE_ENTRIES, ENTRY_BYTES, KEY_BYTES, VALUE_BYTES. rewrite zlen_zeros; lia. }
  cbn [obind]. rewrite any_nonzero_zeros. unfold page_bytes, page_body at 1. rewrite <- app_assoc.
  unfold zlen at 1. rewrite Nat2Z.id.
  apply (decode_entries_Ok entries 0 []); done.
Qed.
Lemma page_body_split f entries :
  array 3968 f -> zlen entries <= 31 ->
  ztake (zlen entries * ENTRY_BYTES) f = slots_bytes entries ->
  any_nonzero (zdrop (zlen entries * ENTRY_BYTES) f) = false -> f = page_body entries.
Proof.
  intros [Hl _] Hn Ht Hz. apply any_nonzero_false in Hz. pose proof (zlen_nonneg entries).
  unfold page_body, PAGE_ENTRIES, ENTRY_BYTES, KEY_BYTES, VALUE_BYTES in *.
  rewrite zlen_zdrop in Hz by lia. rewrite <- Ht.
  replace ((31 - zlen entries) * (32 + 96)) with (zlen f - zlen entries * (32 + 96)) by lia.
  rewrite <- Hz. by rewrite ztake_zdrop.
Qed.
Lemma decode_page_sound h page b entries :
  header_ok h -> 0 <= page -> bytes_ok b -> decode_page b h page = Ok entries ->
  Forall slot_ok entries /\ ascending entries /\ zlen entries = expected_count h page /\
  page < h_pages h /\ b = page_bytes entries page (h_first h).
Proof.
  intros Hh Hp Hb HD. unfold decode_page in HD.
  destruct (decide _) as [|Hlp]; [done|]. assert (zlen b = PAGE_BYTES /\ page < h_pages h) as [Hl Hpages] by lia.
  destruct (expected_count_bounds h page Hh ltac:(lia)) as [Hcb _].
  rewrite Hl in HD. assert (Ha : array 4096 b) by (split; done). revert HD. clear Hl.
  unfold PAGE_ENTRIES, ENTRY_BYTES, KEY_BYTES, VALUE_BYTES, PAGE_BYTES in *.
  change (31 * (32 + 96)) with 3968.
  change (3968 + 2) with 3970. change (3968 + 10) with 3978. change (3968 + 18) with 3986.
  change (3968 + 50) with 4018.
  chop_field Ha 3968. chop_field Ha 2. chop_field Ha 8. chop_field Ha 8. chop_field Ha 32. subs.
  destruct Hf0 as [L0 B0], Hf1 as [L1 B1], Hf2 as [L2 B2], Ha as [La Ba]. intros HD.
  destruct (decide _) as [|Hcount]; [done|]. apply dec_stable in Hcount.
  destruct (decide _) as [|Hnum]; [done|]. apply dec_stable in Hnum.
  destruct (decide _) as [|Hfirst]; [done|]. apply dec_stable in Hfirst.
  destruct (decide _) as [|Hdig]; [done|]. apply dec_stable in Hdig.
  destruct (any_nonzero x) eqn:Hz; [done|]. apply any_nonzero_false in Hz. rewrite La in Hz.
  apply obind_Ok in HD as (unused & Hu & HD).
  rewrite sub_prefix in Hu by (destruct Hf; lia).
  destruct (any_nonzero unused) eqn:Hzu; [done|]. apply sub_Ok in Hu as [Hur ->].
  rewrite ztake_all in Hzu by (rewrite zlen_zdrop; destruct Hf; lia).
  apply decode_entries_sound in HD as (es & Hres & Hn & Hs & Hasc & Hslots); [|done|lia|by constructor].
  cbn [app] in Hres. subst es.
  assert (zlen entries = be_val f0) as Hzn by (unfold zlen; lia).
  rewrite Z2Nat.id in Hslots by lia. rewrite <- Hzn in *.
  change (zdrop (0 * ENTRY_BYTES) ?l) with l in Hslots.
  rewrite ztake_app_le in Hslots by (destruct Hf; unfold ENTRY_BYTES, KEY_BYTES, VALUE_BYTES; lia).
  apply page_body_split in Hzu; [|done|lia|done].
  split_and!; [done..|]. unfold page_bytes. rewrite <- Hzu, <- Hfirst. rewrite <- Hnum in Hdig |- *.
  rewrite <- Hdig, Hzn. rewrite !be_bytes_eq by done. by rewrite <- Hz.
Qed.
Lemma decode_entries_no_panic n index b acc :
  0 <= index -> (index + Z.of_nat n) * ENTRY_BYTES <= zlen b -> decode_entries n index b acc <> Panic.
Proof.
  unfold ENTRY_BYTES, KEY_BYTES, VALUE_BYTES.
  revert index acc. induction n as [|n IH]; intros index acc Hi Hn; cbn [decode_entries]; [done|].
  unfold ENTRY_BYTES, KEY_BYTES, VALUE_BYTES. rewrite !sub_in by lia. cbn [obind].
  repeat no_panic_step; [apply key_decode_no_panic|]. apply IH; lia.
Qed.
Lemma decode_page_no_panic h page b :
  header_ok h -> 0 <= page -> bytes_ok b -> decode_page b h page <> Panic.
Proof.
  intros Hh Hp Hb. unfold decode_page.
  destruct (decide _) as [|Hlp]; [done|].
  assert (zlen b = PAGE_BYTES /\ page < h_pages h) as [Hl Hpages] by lia.
  destruct (expected_count_bounds h page Hh ltac:(lia)) as [Hcb _].
  unfold PAGE_ENTRIES, ENTRY_BYTES, KEY_BYTES, VALUE_BYTES, PAGE_BYTES in *.
  rewrite !sub_in by lia. cbn [obind].
  set (count := be_val (ztake (31 * (32 + 96) + 2 - 31 * (32 + 96)) _)). clearbody count.
  destruct (decide (count <> _)) as [|Hc]; [done|]. apply dec_stable in Hc.
  repeat no_panic_step; [apply sub_no_panic; lia|].
  apply decode_entries_no_panic; unfold ENTRY_BYTES, KEY_BYTES, VALUE_BYTES; lia.
Qed.

(** ** The run as the format describes it: page [i] holds entries
    [31 i, 31 i + 31). *)
Definition page_of (entries : Page) (i : Z) : Page :=
  ztake PAGE_ENTRIES (zdrop (i * PAGE_ENTRIES) entries).
Definition pages_bytes (entries : Page) (pages : nat) (first : Z) : bytes :=
  concat ((fun i => page_bytes (page_of entries (Z.of_nat i)) (Z.of_nat i) first) <$> seq 0 pages).
Definition run_body (h : RunHeader) (entries : Page) : bytes :=
  header_encode h ++ pages_bytes entries (Z.to_nat (h_pages h)) (h_first h).
Definition run_bytes (h : RunHeader) (entries : Page) : bytes :=
  run_body h entries ++ sha256 (run_body h entries) ++ COMMIT.

Lemma page_of_len entries i : zlen (page_of entries i) <= PAGE_ENTRIES.
Proof. unfold page_of, ztake, zlen, PAGE_ENTRIES. rewrite length_take. lia. Qed.
Lemma page_of_slots entries i : Forall slot_ok entries -> Forall slot_ok (page_of entries i).
Proof. intros. by apply Forall_take, Forall_drop. Qed.
Lemma page_of_app entries k i :
  0 <= i -> (i + 1) * PAGE_ENTRIES <= zlen entries -> page_of (entries ++ k) i = page_of entries i.
Proof.
  unfold page_of, PAGE_ENTRIES, ztake, zdrop, zlen. intros. rewrite drop_app_le by lia.
  apply take_app_le. rewrite length_drop. lia.
Qed.
Lemma pages_bytes_S entries n first :
  pages_bytes entries (S n) first =
  pages_bytes entries n first ++ page_bytes (page_of entries (Z.of_nat n)) (Z.of_nat n) first.
Proof.
  unfold pages_bytes. rewrite seq_S, fmap_app, concat_app. cbn. by rewrite app_nil_r.
Qed.
Lemma pages_bytes_app entries k n first :
  Z.of_nat n * PAGE_ENTRIES <= zlen entries ->
  pages_bytes (entries ++ k) n first = pages_bytes entries n first.
Proof.
  induction n as [|n IH]; intros Hn; [done|].
  rewrite !pages_bytes_S, IH, page_of_app by (unfold PAGE_ENTRIES in *; lia). done.
Qed.
Lemma pages_bytes_array entries n first :
  Forall slot_ok entries -> array (Z.of_nat n * PAGE_BYTES) (pages_bytes entries n first).
Proof.
  intros Hs. induction n as [|n [IHl IHb]]; [by_decide|]. rewrite pages_bytes_S.
  destruct (page_bytes_array (page_of entries (Z.of_nat n)) (Z.of_nat n) first)
    as [Hl Hb]; [by apply page_of_slots|apply page_of_len|].
  split; [rewrite zlen_app; lia|by apply bytes_ok_app].
Qed.

(** ** The writer over a byte vector. *)
Lemma write_end v d :
  zlen v + zlen d <= ISIZE_MAX -> write_all_at v (zlen v) d = Ok (v ++ d).
Proof.
  intros Hl. unfold write_all_at, vec_sink, ISIZE_MAX in *. pose proof (zlen_nonneg v). pose proof (zlen_nonneg d).
  rewrite wrap_small by (unfold uint; lia). destruct (decide _) as [|Hd].
  - rewrite decide_False by lia. cbn [obind].
    rewrite put_zeros by lia. rewrite Z.add_simpl_l, Z.sub_diag. change (zeros 0) with (@nil Z).
    by rewrite app_nil_r.
  - assert (d = []) as -> by (apply nil_length_inv; unfold zlen in *; lia). cbn [obind].
    rewrite app_nil_r. pose proof (put_mid (zlen v) [] v [] []) as Hp. rewrite !app_nil_r in Hp.
    by apply Hp.
Qed.
Definition run_fits (h : RunHeader) : Prop :=
  HEADER_BYTES + h_pages h * PAGE_BYTES + TRAILER_BYTES <= ISIZE_MAX.
#[export] Instance run_fits_dec h : Decision (run_fits h).
Proof. unfold run_fits. apply _. Defined.
(** What a writer has done after the entries [pushed]. *)
Record writer_inv (h : RunHeader) (pushed : Page) (w : RunWriter) (v : bytes) : Prop := {
  wi_header : w_header w = h;
  wi_pages : 0 <= w_written_pages w;
  wi_entries : w_written_entries w = w_written_pages w * PAGE_ENTRIES;
  wi_full : w_written_pages w * PAGE_ENTRIES <= zlen pushed;
  wi_page : w_page w = zdrop (w_written_pages w * PAGE_ENTRIES) pushed;
  wi_short : zlen (w_page w) < PAGE_ENTRIES;
  wi_last : w_last w = fst <$> last pushed;
  wi_digest : w_digest w = v;
  wi_bytes : v = header_encode h ++ pages_bytes pushed (Z.to_nat (w_written_pages w)) (h_first h);
  wi_slots : Forall slot_ok pushed;
}.
Definition writable (h : RunHeader) : Prop :=
  u8 (h_level h) /\ Id_ok (h_installation_id h) /\ u64 (h_entries h) /\
  h_pages h = div_ceil (h_entries h) PAGE_ENTRIES /\ run_fits h.
Lemma header_array_writable h : writable h -> array HEADER_BYTES (header_encode h).
Proof.
  intros (Hl & Hi & _). unfold header_encode, HEADER_BYTES.
  assert (zlen MAGIC = 8) by done. split; [len|].
  rewrite !bytes_ok_app. destruct Hi.
  split_and!; eauto using be_bytes_ok, bytes_ok_zeros; [by_decide|].
  by apply Forall_cons.
Qed.
Lemma writer_new_inv h :
  writable h ->
  exists w v, writer_new h ([] : bytes) = Ok (w, v) /\ writer_inv h [] w v.
Proof.
  intros Hw. pose proof (array_len _ _ (header_array_writable h Hw)) as Hl.
  unfold writer_new. change 0 with (zlen (@nil Z)).
  rewrite write_end by (rewrite Hl; done). do 2 eexists. split; [done|].
  split; cbn; try done. by rewrite app_nil_r.
Qed.
Lemma pages_bound h entries :
  writable h -> zlen entries <= h_entries h ->
  forall p, p * PAGE_ENTRIES < zlen (entries : Page) -> p < h_pages h.
Proof.
  intros (_ & _ & He & Hp & _) Hl p Hlt. unfold PAGE_ENTRIES, uint in *.
  pose proof (div_ceil_spec (h_entries h) 31). lia.
Qed.
(** A flush of the entries after the full pages: [pushed] now ends a page. *)
Lemma flush_spec h pushed w v p :
  writable h -> w_header w = h -> w_written_pages w = p -> 0 <= p ->
  w_written_entries w = p * PAGE_ENTRIES -> w_page w = page_of pushed p -> p * PAGE_ENTRIES < zlen pushed ->
  w_digest w = v -> v = header_encode h ++ pages_bytes pushed (Z.to_nat p) (h_first h) ->
  Forall slot_ok pushed -> zlen pushed <= h_entries h ->
  exists v', v' = header_encode h ++ pages_bytes pushed (Z.to_nat (p + 1)) (h_first h) /\
    flush w v = Ok (mkWriter h v' [] (p + 1) (p * PAGE_ENTRIES + zlen (page_of pushed p)) (w_last w), v').
Proof.
  intros Hw Hh Hp Hp0 He Hpage Hlt Hd Hv Hs Hle.
  pose proof (pages_bound h pushed Hw Hle p Hlt) as Hpb.
  pose proof (array_len _ _ (header_array_writable h Hw)) as Hhl.
  pose proof (array_len _ _ (pages_bytes_array pushed (Z.to_nat p) (h_first h) Hs)) as Hpl.
  pose proof (page_of_len pushed p) as Hpol. pose proof (page_of_slots pushed p Hs) as Hpos.
  pose proof (array_len _ _ (page_bytes_array _ p (h_first h) Hpos Hpol)) as Hpbl.
  destruct Hw as (_ & _ & Heu & _ & Hfit). unfold run_fits, ISIZE_MAX, HEADER_BYTES, PAGE_BYTES, TRAILER_BYTES, uint in *.
  pose proof (zlen_nonneg (page_of pushed p)).
  assert (zlen v = 64 + p * 4096) as Hvl by (rewrite Hv, zlen_app; lia).
  exists (header_encode h ++ pages_bytes pushed (Z.to_nat (p + 1)) (h_first h)). split; [done|].
  replace (Z.to_nat (p + 1)) with (S (Z.to_nat p)) by lia. rewrite pages_bytes_S, Z2Nat.id by lia.
  rewrite app_assoc, <- Hv.
  unfold flush. rewrite Hpage, Hp, Hh, Hd. rewrite encode_page_Ok by done. cbn [obind].
  unfold page_offset, HEADER_BYTES, PAGE_BYTES. rewrite wrap_small by (unfold uint; lia).
  rewrite <- Hvl, write_end by (unfold ISIZE_MAX; lia). cbn [obind].
  unfold PAGE_ENTRIES in *. rewrite !wrap_small by (unfold uint; lia). by rewrite He.
Qed.
Lemma pushed_page pushed p :
  0 <= p -> p * PAGE_ENTRIES <= zlen pushed <= p * PAGE_ENTRIES + PAGE_ENTRIES ->
  page_of pushed p = zdrop (p * PAGE_ENTRIES) pushed.
Proof.
  intros. unfold page_of. unfold PAGE_ENTRIES in *. apply ztake_all. rewrite zlen_zdrop; lia.
Qed.
Lemma push_spec h pushed w v key value :
  writable h -> writer_inv h pushed w v -> slot_ok (key, value) ->
  at_or_above (fst <$> last pushed) key = false -> zlen pushed < h_entries h ->
  exists w' v', push w key value v = Ok (w', v') /\ writer_inv h (pushed ++ [(key, value)]) w' v'.
Proof.
  intros Hw [Hh Hp0 He Hfull Hpage Hshort Hlast Hd Hv Hs] Hslot Hprior Hlt.
  set (p := w_written_pages w) in *. set (pushed' := pushed ++ [(key, value)]).
  assert (zlen (w_page w) = zlen pushed - p * PAGE_ENTRIES) as Hpl
    by (rewrite Hpage, zlen_zdrop; unfold PAGE_ENTRIES in *; lia).
  assert (zlen pushed' = zlen pushed + 1) as Hl' by (unfold pushed'; len).
  assert (Forall slot_ok pushed') as Hs' by (apply Forall_app; split; [done|by constructor]).
  assert (w_page w ++ [(key, value)] = zdrop (p * PAGE_ENTRIES) pushed') as Hpage'
    by (unfold pushed'; rewrite zdrop_app_le, Hpage; [done|unfold PAGE_ENTRIES in *; lia]).
  assert (Hb' : v = header_encode h ++ pages_bytes pushed' (Z.to_nat p) (h_first h))
    by (unfold pushed'; rewrite pages_bytes_app by (rewrite Z2Nat.id; lia); done).
  assert (Some key = fst <$> last pushed') as Hlast' by (unfold pushed'; by rewrite last_snoc).
  unfold push. rewrite Hlast, Hprior, Hh. rewrite He, wrap_small by (destruct Hw as (_&_&Hu&_);
    unfold uint, PAGE_ENTRIES in *; lia).
  rewrite decide_False by lia. cbn [w_page]. fold p. rewrite Hpage', zlen_zdrop
    by (unfold PAGE_ENTRIES in *; lia).
  destruct (decide _) as [Hfl|Hfl].
  - destruct (flush_spec h pushed' (mkWriter h (w_digest w) (zdrop (p * PAGE_ENTRIES) pushed') p
      (p * PAGE_ENTRIES) (Some key)) v p) as (v' & Hv' & ->); try done;
      [by rewrite pushed_page by lia|unfold PAGE_ENTRIES in *; lia|lia|].
    do 2 eexists. split; [done|]. rewrite pushed_page, zlen_zdrop by lia.
    split; cbn [w_header w_written_pages w_written_entries w_page w_last w_digest]; try done;
      unfold PAGE_ENTRIES in *; try lia.
    unfold zdrop, zlen in *. rewrite drop_ge; [done|lia].
  - do 2 eexists. split; [done|].
    split; cbn [w_header w_written_pages w_written_entries w_page w_last w_digest]; try done; try lia.
    rewrite zlen_zdrop; unfold PAGE_ENTRIES in *; lia.
Qed.
Lemma push_rejects h pushed w (v : bytes) key value :
  writer_inv h pushed w v -> at_or_above (fst <$> last pushed) key = true ->
  push w key value v = Err Corrupt.
Proof. intros [? ? ? ? ? ? Hlast ? ? ?] Hp. unfold push. by rewrite Hlast, Hp. Qed.
(** The last page is written when it holds anything. *)
Lemma finish_flush h pushed w v :
  writable h -> writer_inv h pushed w v -> zlen pushed = h_entries h ->
  exists w', (if decide (w_page w = []) then Ok (w, v) else flush w v) =
             @Ok ReplayError _ (w', run_body h pushed) /\ w_header w' = h /\
             w_written_entries w' = h_entries h /\ w_written_pages w' = h_pages h /\
             w_digest w' = run_body h pushed.
Proof.
  intros Hw [Hh Hp0 He Hfull Hpage Hshort Hlast Hd Hv Hs] Hn.
  pose proof Hw as (_ & _ & Hu & Hpages & _). unfold uint, PAGE_ENTRIES in *.
  set (p := w_written_pages w) in *.
  assert (zlen (w_page w) = zlen pushed - p * 31) as Hpl by (rewrite Hpage, zlen_zdrop; lia).
  destruct (decide (w_page w = [])) as [Hnil|Hne].
  - rewrite Hnil, zlen_nil in Hpl. assert (p = h_pages h) as Hpp
      by (rewrite Hpages; symmetry; apply div_ceil_unique; lia).
    exists w. unfold run_body. rewrite <- Hpp. split_and!; try done; [by rewrite <- Hv|lia|congruence].
  - apply zlen_pos in Hne.
    assert (p + 1 = h_pages h) as Hpp by (rewrite Hpages; symmetry; apply div_ceil_unique; lia).
    assert (page_of pushed p = zdrop (p * 31) pushed) as Hpo
      by (apply pushed_page; unfold PAGE_ENTRIES; lia).
    destruct (flush_spec h pushed w v p) as (v' & Hv' & ->); try done; unfold PAGE_ENTRIES; try lia;
      [congruence|].
    unfold run_body. rewrite <- Hpp, <- Hv'. eexists. split; [done|].
    cbn [w_header w_written_pages w_written_entries w_digest]. split_and!; try done.
    rewrite Hpo, zlen_zdrop by lia. lia.
Qed.
Lemma run_body_len h entries :
  writable h -> 0 <= h_pages h -> Forall slot_ok entries ->
  zlen (run_body h entries) = HEADER_BYTES + h_pages h * PAGE_BYTES.
Proof.
  intros Hw Hp Hs. unfold run_body. rewrite zlen_app.
  rewrite (array_len _ _ (header_array_writable h Hw)).
  rewrite (array_len _ _ (pages_bytes_array entries (Z.to_nat (h_pages h)) (h_first h) Hs)).
  by rewrite Z2Nat.id.
Qed.
Lemma writable_pages h : writable h -> 0 <= h_pages h.
Proof.
  intros (_ & _ & Hu & -> & _). unfold uint, PAGE_ENTRIES in *.
  pose proof (div_ceil_spec (h_entries h) 31). lia.
Qed.
Lemma trailer_offset h :
  writable h -> wrap 64 (file_bytes h - TRAILER_BYTES) = HEADER_BYTES + h_pages h * PAGE_BYTES.
Proof.
  intros Hw. pose proof (writable_pages h Hw). destruct Hw as (_ & _ & _ & _ & Hf).
  unfold run_fits, ISIZE_MAX, file_bytes, HEADER_BYTES, PAGE_BYTES, TRAILER_BYTES in *.
  rewrite (wrap_small 64 (64 + _ + 40)) by (unfold uint; lia). rewrite wrap_small by (unfold uint; lia). lia.
Qed.
Lemma finish_spec h pushed w v :
  writable h -> writer_inv h pushed w v -> zlen pushed = h_entries h ->
  finish w v = Ok (sha256 (run_body h pushed), run_bytes h pushed).
Proof.
  intros Hw Hi Hn. unfold finish.
  destruct (finish_flush h pushed w v Hw Hi Hn) as (w' & -> & Hh & He & Hp & Hd).
  pose proof (wi_slots _ _ _ _ Hi) as Hs. pose proof (writable_pages h Hw) as Hp0.
  cbn [obind]. rewrite Hh, He, Hp, Hd. rewrite decide_False by naive_solver.
  rewrite trailer_offset by done.
  pose proof (run_body_len h pushed Hw Hp0 Hs) as Hl. rewrite <- Hl.
  destruct Hw as (_ & _ & _ & _ & Hf). unfold run_fits in Hf.
  rewrite write_end; [done|]. rewrite zlen_app, (array_len _ _ (sha256_array _)), Hl.
  change (zlen COMMIT) with 8. unfold TRAILER_BYTES in Hf. lia.
Qed.

(** Strictly ascending keys, as [RunWriter::push] checks them. *)
Fixpoint ascendingb (prior : option Key) (entries : Page) : bool :=
  match entries with
  | [] => true
  | (key, _) :: entries => negb (at_or_above prior key) && ascendingb (Some key) entries
  end.
Lemma ascendingb_spec pushed entries :
  ascending pushed -> ascendingb (fst <$> last pushed) entries = true <-> ascending (pushed ++ entries).
Proof.
  revert pushed. induction entries as [|[k v] entries IH]; intros pushed Hp; cbn [ascendingb].
  { by rewrite app_nil_r. }
  rewrite andb_true_iff, negb_true_iff, ascending_prior.
  change ((k, v) :: entries) with ([(k, v)] ++ entries). rewrite app_assoc.
  split.
  - intros [Hk Hr]. apply IH; [by apply ascending_snoc|]. by rewrite last_snoc.
  - intros Ha. assert (ascending (pushed ++ [(k, v)])) as Hs
      by (by apply ascending_app in Ha as (? & _)).
    split; [by apply ascending_snoc in Hs as [_ ?]|].
    apply (IH _ Hs) in Ha. by rewrite last_snoc in Ha.
Qed.
Lemma push_all_spec h pushed entries w v :
  writable h -> writer_inv h pushed w v -> Forall slot_ok entries ->
  zlen pushed + zlen entries <= h_entries h ->
  if ascendingb (fst <$> last pushed) entries
  then exists w' v', push_all entries w v = Ok (w', v') /\ writer_inv h (pushed ++ entries) w' v'
  else push_all entries w v = Err Corrupt.
Proof.
  intros Hw Hi Hs. revert pushed w v Hi.
  induction Hs as [|[k x] entries Hk _ IH]; intros pushed w v Hi Hn; cbn [ascendingb push_all].
  { exists w, v. by rewrite app_nil_r. }
  rewrite zlen_cons in Hn. pose proof (zlen_nonneg entries).
  destruct (at_or_above _ k) eqn:Hp; cbn [negb andb].
  { by rewrite (push_rejects h pushed). }
  destruct (push_spec h pushed w v k x) as (w' & v' & -> & Hi'); try done; [lia|]. cbn [obind].
  specialize (IH (pushed ++ [(k, x)]) w' v' Hi' ltac:(rewrite zlen_app, zlen_cons, zlen_nil; lia)).
  rewrite last_snoc, <- app_assoc in IH. exact IH.
Qed.

Lemma encode_run_cases level installation_id first last entries :
  let h := header_new level installation_id first last (zlen entries) in
  writable h -> Forall slot_ok entries ->
  (ascending entries ->
     encode_run level installation_id first last entries =
     Ok (run_bytes h entries, sha256 (run_body h entries))) /\
  (~ ascending entries -> encode_run level installation_id first last entries = Err Corrupt).
Proof.
  intros h Hw Hs. unfold encode_run. fold h.
  destruct (writer_new_inv h Hw) as (w & v & -> & Hi). cbn [obind].
  pose proof (push_all_spec h [] entries w v Hw Hi Hs ltac:(done)) as Hp.
  pose proof (ascendingb_spec [] entries ltac:(constructor)) as Ha. cbn [app] in *.
  destruct (ascendingb _ _).
  - destruct Hp as (w' & v' & -> & Hi'). cbn [obind]. rewrite (finish_spec h entries) by done.
    split; [done|]. intros []. by apply Ha.
  - rewrite Hp. cbn [obind]. split; [|done]. intros Hasc. by apply Ha in Hasc.
Qed.
(** [encode_run] accepts exactly the strictly ascending entry lists. On
    one it returns the run of the format: header, the entries cut into pages
    of 31, the SHA-256 of all that, and the commit marker, together with that
    digest; on any other list it fails with [Corrupt]. It never panics while
    the file fits in memory. *)
Theorem encode_run_spec level installation_id first last entries :
  let h := header_new level installation_id first last (zlen entries) in
  writable h -> Forall slot_ok entries ->
  (ascending entries ->
     encode_run level installation_id first last entries =
     Ok (run_bytes h entries, sha256 (run_body h entries))) /\
  (~ ascending entries -> encode_run level installation_id first last entries = Err Corrupt).
Proof. apply encode_run_cases. Qed.


(** the run header is a canonical 64-byte form: 64 bytes decode to [h]
    exactly when [h] is well formed (a non-empty ascending sequence range, at
    least one entry, the page count the entry count demands) and they are its
    encoding. *)
Theorem run_header_canonical b h :
  bytes_ok b -> header_decode b = Ok h <-> header_ok h /\ header_encode h = b.
Proof.
  intros Hb. split; [by apply header_decode_sound|].
  intros [Hh <-]. by apply header_decode_encode.
Qed.

(** What a page of a run must hold. *)
Definition valid_page (h : RunHeader) (page : Z) (entries : Page) : Prop :=
  page < h_pages h /\ Forall slot_ok entries /\ ascending entries /\
  zlen entries = expected_count h page.

(** page verification is exact: [decode_page] accepts 4,096 bytes as page
    [page] of a run exactly when they are the encoding, under that page number
    and that run, of strictly ascending entries in the number the header
    demands; the result is those entries. It never panics on corrupt bytes. *)
Theorem page_canonical h page b entries :
  header_ok h -> 0 <= page -> bytes_ok b ->
  (decode_page b h page = Ok entries <->
     valid_page h page entries /\ encode_page entries page (h_first h) = Ok b) /\
  decode_page b h page <> Panic.
Proof.
  intros Hh Hp Hb. split; [|by apply decode_page_no_panic]. split.
  - intros HD. apply decode_page_sound in HD as (Hs & Ha & Hn & Hlt & ->); try done.
    split; [done|]. apply encode_page_Ok; [done|].
    destruct (expected_count_bounds h page Hh ltac:(lia)). lia.
  - intros [(Hlt & Hs & Ha & Hn) HE].
    rewrite encode_page_Ok in HE; [|done|destruct (expected_count_bounds h page Hh ltac:(lia)); lia].
    injection HE as <-. by apply decode_page_Ok.
Qed.
End Pages.

(** ** Witnesses on a run of two pages. *)
Module RunDemo.
#[export] Existing Instance poly_hasher.
#[export] Existing Instance poly_hasher_ok.
Definition entry_at (i : nat) : Key * Value :=
  (mkKey TPiece (replicate 16 3) (Z.of_nat i), zeros 88 ++ be_bytes 8 (Z.of_nat i * 7)).
Definition entries : Page := entry_at <$> seq 1 40.
Definition header : RunHeader := header_new 0 (replicate 16 9) 5 44 40.
Definition page1 : bytes := page_bytes (page_of entries 1) 1 5.

Lemma value_array i : array VALUE_BYTES (entry_at i).2.
Proof.
  unfold entry_at, VALUE_BYTES. cbn [snd]. split; [len|].
  apply bytes_ok_app. split; [apply bytes_ok_zeros|apply be_bytes_ok].
Qed.
Lemma slots : Forall slot_ok entries.
Proof.
  unfold entries. apply Forall_fmap, Forall_forall. intros i Hi%elem_of_seq.
  split; [split; [by_decide|cbn; unfold uint; lia]|apply value_array].
Qed.
Lemma entries_ascending : ascending entries.
Proof. apply (ascendingb_spec []); [constructor|]. by vm_compute. Qed.
Lemma encode_run_spec_witness :
  encode_run 0 (replicate 16 9) 5 44 entries =
    Ok (run_bytes header entries, sha256 (run_body header entries)) /\
  encode_run 0 (replicate 16 9) 5 44 [entry_at 2; entry_at 1] = Err Corrupt.
Proof.
  split.
  - apply (encode_run_spec 0 (replicate 16 9) 5 44 entries); [|apply slots|apply entries_ascending].
    unfold writable, run_fits. split_and!; by_decide || by vm_compute.
  - apply (encode_run_spec 0 (replicate 16 9) 5 44 [entry_at 2; entry_at 1]).
    + unfold writable, run_fits. split_and!; by_decide || by vm_compute.
    + repeat constructor; try by_decide; apply value_array.
    + intros Ha. apply (ascendingb_spec []) in Ha; [|constructor]. by vm_compute in Ha.
Defined.
Lemma header_is_ok : header_ok header.
Proof. unfold header_ok. split_and!; by_decide || by vm_compute. Qed.
Lemma run_header_canonical_witness :
  header_ok header /\ header_encode header = header_encode header.
Proof. apply (run_header_canonical (header_encode header) header); [by_decide|by vm_compute]. Defined.
Lemma page_canonical_witness :
  valid_page header 1 (page_of entries 1) /\
  encode_page (page_of entries 1) 1 5 = Ok page1 /\ decode_page page1 header 1 <> Panic.
Proof.
  destruct (page_canonical header 1 page1 (page_of entries 1)) as [[Hd _] Hp];
    [apply header_is_ok|lia|by_decide|].
  destruct Hd as [Hv He]; [by vm_compute|]. exact (conj Hv (conj He Hp)).
Defined.
End RunDemo.
