(* ===== verification/RunSearch.v ===== *)
(** * Searching a run (authority/index/run.rs: lower_bound, get, range).

    The searches read pages through [read_page]. They are proved against the
    interface [ServesRun]: a source that returns page [i] of a sorted entry
    list. A byte slice that holds an encoded run implements it. The binary
    search is given [log2 pages + 1] rounds, one page read each; the theorems
    show that this is enough. *)
From stdpp Require Import prelude list sorting.
From Stdlib Require Import ZArith Lia.
From S2P Require Import Prelude Codec Index Run.

Section Search.
Context `{Hasher}.

(** [while lo < hi]: binary search over the pages, keeping the last page read
    at [hi]. Each round reads one page. *)
Fixpoint lower_bound_loop (rounds : nat) (source : RunSource) (header : RunHeader) (key : Key)
    (lo hi : Z) (cached : option (Z * Page)) : Result (Z * option (Z * Page)) :=
  if decide (lo < hi) then
    match rounds with
    | O => Panic
    | S rounds =>
        let mid := lo + (hi - lo) / 2 in
        let? page := read_page source header mid in
        let? last := ok_or Corrupt (fst <$> last page) in
        if ltb last key
        then lower_bound_loop rounds source header key (wrap 64 (mid + 1)) hi cached
        else lower_bound_loop rounds source header key lo mid (Some (mid, page))
    end
  else Ok (lo, cached).
Definition search_rounds (header : RunHeader) : nat := Z.to_nat (Z.log2 (h_pages header) + 1).
Definition lower_bound (source : RunSource) (header : RunHeader) (key : Key)
  : Result (option (Z * Page * Z)) :=
  let? (lo, cached) :=
    lower_bound_loop (search_rounds header) source header key 0 (h_pages header) None in
  if decide (lo = h_pages header) then Ok None else
  let? page := match cached with
               | Some (number, page) =>
                   if decide (number = lo) then Ok page else read_page source header lo
               | None => read_page source header lo
               end in
  let index := Z.of_nat (partition_point (fun kv => ltb kv.1 key) page) in
  Ok (Some (lo, page, index)).
Definition get (source : RunSource) (header : RunHeader) (key : Key) : Result (option Value) :=
  let? found := lower_bound source header key in
  Ok (match found with
      | None => None
      | Some (_, page, index) =>
          match page !! Z.to_nat index with
          | Some (k, value) => if decide (k = key) then Some value else None
          | None => None
          end
      end).

(** The inner [while] of [range] over the entries of one page, in the order
    they are visited: [true] when the search returns from inside it. *)
Fixpoint scan (stop : Key -> bool) (disorder : Key -> Key -> bool) (limit : Z)
    (visit : Page) (out : Page) : Result (bool * Page) :=
  match visit with
  | [] => Ok (false, out)
  | (key, value) :: visit =>
      if stop key then Ok (true, out) else
      if is_some_and (fun prior => disorder prior.1 key) (last out) then Err Corrupt else
      let out := out ++ [(key, value)] in
      if decide (zlen out = limit) then Ok (true, out)
      else scan stop disorder limit visit out
  end.
(** [loop] of the ascending branch; a round per page. *)
Fixpoint range_up (rounds : nat) (source : RunSource) (header : RunHeader) (hi : Key) (limit : Z)
    (number : Z) (page : Page) (index : Z) (out : Page) : Result Page :=
  match rounds with
  | O => Panic
  | S rounds =>
      let? (returned, out) := scan (fun key => geb key hi) geb limit (zdrop index page) out in
      if (returned : bool) then Ok out else
      let number := wrap 64 (number + 1) in
      if decide (number = h_pages header) then Ok out else
      let? page := read_page source header number in
      range_up rounds source header hi limit number page 0 out
  end.
(** [loop] of the descending branch. *)
Fixpoint range_down (rounds : nat) (source : RunSource) (header : RunHeader) (lo : Key) (limit : Z)
    (number : Z) (page : Page) (index : Z) (out : Page) : Result Page :=
  match rounds with
  | O => Panic
  | S rounds =>
      let? (returned, out) :=
        scan (fun key => ltb key lo) (fun prior key => geb key prior) limit
          (reverse (ztake index page)) out in
      if (returned : bool) then Ok out else
      if decide (number = 0) then Ok out else
      let number := number - 1 in
      let? page := read_page source header number in
      range_down rounds source header lo limit number page (zlen page) out
  end.
Definition range (source : RunSource) (header : RunHeader) (lo hi : Key) (descending : bool)
    (limit : Z) : Result Page :=
  if decide (limit = 0) then Ok [] else
  if geb lo hi then Ok [] else
  if negb descending then
    let? start := lower_bound source header lo in
    match start with
    | None => Ok []
    | Some (number, page, index) =>
        range_up (Z.to_nat (h_pages header)) source header hi limit number page index []
    end
  else
    let? found := lower_bound source header hi in
    let? (number, page, index) :=
      match found with
      | Some position => Ok position
      | None =>
          let last := wrap 64 (h_pages header - 1) in
          let? page := read_page source header last in
          Ok (last, page, zlen page)
      end in
    range_down (Z.to_nat (h_pages header)) source header lo limit number page index [].
End Search.

(** ** The interface the searches rely on. *)
Class ServesRun `{Hasher} (source : RunSource) (h : RunHeader) (entries : Page) : Prop := {
  serves_header : header_ok h;
  serves_count : zlen entries = h_entries h;
  serves_sorted : ascending entries;
  serves_page i : 0 <= i < h_pages h -> read_page source h i = Ok (page_of entries i);
}.

(** The number of keys below [key]. *)
Definition rank (key : Key) (entries : Page) : Z :=
  Z.of_nat (partition_point (fun kv => ltb kv.1 key) entries).

(** ** [scan] collects until it stops or fills up. *)
Section Scan.
Context (stop : Key -> bool) (disorder : Key -> Key -> bool) (limit : Z).

Lemma scan_app l1 l2 out :
  scan stop disorder limit (l1 ++ l2) out =
  let? (returned, out) := scan stop disorder limit l1 out in
  if (returned : bool) then Ok (true, out) else scan stop disorder limit l2 out.
Proof.
  revert out. induction l1 as [|[k v] l1 IH]; intros out; [done|]. cbn [app scan].
  destruct (stop k); [done|]. destruct (is_some_and _ _); [done|].
  by destruct (decide _).
Qed.
Definition in_order (l : Page) : Prop := StronglySorted (fun a b => disorder a.1 b.1 = false) l.
Lemma in_order_last out k v l :
  in_order (out ++ (k, v) :: l) ->
  is_some_and (fun prior => disorder prior.1 k) (last out) = false.
Proof.
  unfold is_some_and. destruct (last out) as [[p w]|] eqn:Hl; [|done]. apply last_Some in Hl as [out' ->].
  unfold in_order. rewrite <- app_assoc. intros Hs. apply StronglySorted_app_1_r in Hs.
  apply StronglySorted_inv in Hs as [_ Hf]. by apply Forall_cons in Hf as [? _].
Qed.
Lemma scan_spec m rest out :
  Forall (fun kv => stop kv.1 = false) m -> Forall (fun kv => stop kv.1 = true) rest ->
  in_order (out ++ m) -> zlen out < limit ->
  exists returned, scan stop disorder limit (m ++ rest) out =
                   Ok (returned, out ++ ztake (limit - zlen out) m).
Proof.
  intros Hm Hr. revert out. induction Hm as [|[k v] m Hk _ IH]; intros out Ho Hl; cbn [app scan].
  { unfold ztake. rewrite take_nil, app_nil_r. destruct Hr as [|[k v] rest Hk _]; cbn [scan]; [by exists false|].
    cbn [fst] in Hk. rewrite Hk. by exists true. }
  cbn [fst] in Hk. rewrite Hk, (in_order_last out k v m Ho).
  assert (zlen (out ++ [(k, v)]) = zlen out + 1) as Hz by len.
  replace (ztake (limit - zlen out) ((k, v) :: m)) with ([(k, v)] ++ ztake (limit - (zlen out + 1)) m)
    by (unfold ztake; replace (Z.to_nat (limit - zlen out)) with (S (Z.to_nat (limit - (zlen out + 1)))) by lia; done).
  rewrite app_assoc. destruct (decide _) as [He|Hne].
  - exists true. rewrite Hz in He. unfold ztake. replace (Z.to_nat _) with 0%nat by lia.
    by rewrite app_nil_r.
  - rewrite <- Hz. apply IH; [|lia]. by rewrite <- app_assoc.
Qed.
End Scan.

Section Correct.
Context `{HasherOk} (source : RunSource) (h : RunHeader) (entries : Page).
Context `{!ServesRun source h entries}.

Lemma serves_pages :
  0 < h_pages h < 2 ^ 64 /\ zlen entries <= h_pages h * 31 < zlen entries + 31 /\ 0 < zlen entries.
Proof.
  destruct serves_header as (_ & _ & _ & _ & He & _ & He0 & Hp). rewrite serves_count.
  pose proof (pages_u64 _ He) as Hpu. rewrite <- Hp in Hpu. unfold uint in *.
  pose proof (div_ceil_spec (h_entries h) 31 ltac:(lia) ltac:(lia)) as Hs.
  unfold PAGE_ENTRIES in Hp. rewrite <- Hp in Hs. lia.
Qed.
Lemma rank_bounds key : 0 <= rank key entries <= zlen entries.
Proof.
  unfold rank, zlen. set (f := fun _ => _). pose proof (partition_point_le f entries). lia.
Qed.
Lemma rank_lookup key i kv :
  0 <= i -> entries !! Z.to_nat i = Some kv -> ltb kv.1 key = true <-> i < rank key entries.
Proof.
  intros Hi Hk. rewrite (partition_point_lookup entries key (Z.to_nat i) kv serves_sorted Hk).
  unfold rank. lia.
Qed.
Lemma page_of_lookup i j :
  0 <= i -> 0 <= j < 31 -> page_of entries i !! Z.to_nat j = entries !! Z.to_nat (i * 31 + j).
Proof.
  intros. unfold page_of, ztake, zdrop, PAGE_ENTRIES. rewrite lookup_take_lt by lia.
  rewrite lookup_drop. f_equal. lia.
Qed.
Lemma page_of_zlen i :
  0 <= i < h_pages h -> zlen (page_of entries i) = Z.min 31 (zlen entries - i * 31).
Proof.
  intros Hi. pose proof serves_pages. unfold page_of, PAGE_ENTRIES, zlen, ztake, zdrop in *.
  rewrite length_take, length_drop. lia.
Qed.
(** The last key of page [i] is below [key] exactly when the rank is past the page. *)
Lemma page_last i :
  0 <= i < h_pages h ->
  exists kv, last (page_of entries i) = Some kv /\
    forall key, ltb kv.1 key = true <-> Z.min ((i + 1) * 31) (zlen entries) <= rank key entries.
Proof.
  intros Hi. pose proof serves_pages as (_ & Hn & Hn0). pose proof (page_of_zlen i Hi) as Hl.
  rewrite last_lookup.
  destruct (page_of entries i !! pred (length (page_of entries i))) as [kv|] eqn:Hkv.
  - exists kv. split; [done|]. intros key.
    replace (pred _) with (Z.to_nat (zlen (page_of entries i) - 1)) in Hkv by (unfold zlen; lia).
    rewrite page_of_lookup in Hkv by lia. 
    rewrite (rank_lookup key (i * 31 + (zlen (page_of entries i) - 1)) kv); [lia|lia|done].
  - apply lookup_ge_None in Hkv. unfold zlen in *. lia.
Qed.

(** [found] describes where the binary search stands once [lo] meets [hi]. *)
Definition found (key : Key) (p : Z) (cached : option (Z * Page)) : Prop :=
  Z.min (p * 31) (zlen entries) <= rank key entries /\
  (p = h_pages h /\ cached = None \/
   p < h_pages h /\ rank key entries < Z.min ((p + 1) * 31) (zlen entries) /\
   cached = Some (p, page_of entries p)).
Lemma lower_bound_loop_spec key rounds lo hi cached :
  0 <= lo <= hi -> hi <= h_pages h -> hi - lo < 2 ^ Z.of_nat rounds ->
  Z.min (lo * 31) (zlen entries) <= rank key entries ->
  (hi = h_pages h /\ cached = None \/
   hi < h_pages h /\ rank key entries < Z.min ((hi + 1) * 31) (zlen entries) /\
   cached = Some (hi, page_of entries hi)) ->
  exists p cached', lower_bound_loop rounds source h key lo hi cached = Ok (p, cached') /\
    0 <= p <= h_pages h /\ found key p cached'.
Proof.
  revert lo hi cached. induction rounds as [|rounds IH]; intros lo hi cached Hlo Hhi Hr Hlow Hhigh;
    cbn [lower_bound_loop].
  { rewrite decide_False by lia. exists lo, cached. assert (lo = hi) as -> by lia.
    unfold found. split_and!; done || lia. }
  destruct (decide (lo < hi)) as [Hlt|Hge].
  2:{ exists lo, cached. assert (lo = hi) as -> by lia. unfold found. split_and!; done || lia. }
  rewrite Nat2Z.inj_succ, Z.pow_succ_r in Hr by lia.
  pose proof (Z.div_mod (hi - lo) 2 ltac:(lia)). pose proof (Z.mod_pos_bound (hi - lo) 2).
  set (mid := lo + (hi - lo) / 2) in *. pose proof serves_pages.
  rewrite serves_page by lia. cbn [obind].
  destruct (page_last mid ltac:(lia)) as (kv & Hlast & Hrank). rewrite Hlast. cbn [fmap option_fmap option_map ok_or obind].
  specialize (Hrank key). rewrite wrap_small by (unfold uint; lia).
  destruct (ltb kv.1 key).
  - apply IH; [lia|lia|lia|by apply Hrank|done].
  - apply IH; [lia|lia|lia|done|]. right. split_and!; [lia| |done].
    destruct (Z.lt_ge_cases (rank key entries) (Z.min ((mid + 1) * 31) (zlen entries)))
      as [|Hge]; [done|]. by apply Hrank in Hge.
Qed.
Lemma lower_bound_spec key :
  lower_bound source h key =
  Ok (if decide (rank key entries = zlen entries) then None
      else Some (rank key entries / 31, page_of entries (rank key entries / 31),
                 rank key entries mod 31)).
Proof.
  pose proof serves_pages as (Hp & Hn & Hn0). pose proof (rank_bounds key) as Hrk.
  destruct (lower_bound_loop_spec key (search_rounds h) 0 (h_pages h) None)
    as (p & cached & Hloop & Hpb & Hlow & Hf); [lia|lia| |lia|by left|].
  { unfold search_rounds. rewrite Z2Nat.id by (pose proof (Z.log2_nonneg (h_pages h)); lia).
    pose proof (Z.log2_spec (h_pages h)). replace (Z.log2 _ + 1) with (Z.succ (Z.log2 (h_pages h))) by lia. lia. }
  unfold lower_bound. rewrite Hloop. cbn [obind].
  destruct Hf as [[-> ->]|(Hlt & Hhigh & ->)].
  { rewrite decide_True by done. rewrite decide_True by lia. done. }
  rewrite (decide_False (P := p = h_pages h)) by lia. rewrite decide_True by done. cbn [obind].
  rewrite (decide_False (P := rank key entries = zlen entries)) by lia.
  assert (rank key entries / 31 = p) as -> by (symmetry; apply (Z.div_unique _ _ _ (rank key entries - p * 31)); lia).
  assert (rank key entries mod 31 = rank key entries - p * 31) as -> by (symmetry; apply (Z.mod_unique _ _ p); lia).
  do 3 f_equal. unfold page_of, ztake, zdrop, PAGE_ENTRIES.
  unfold rank in *. rewrite partition_point_take, partition_point_drop by lia. lia.
Qed.
Lemma get_spec key : get source h key = Ok (assoc key entries).
Proof.
  unfold get. rewrite lower_bound_spec. cbn [obind]. f_equal.
  rewrite (assoc_partition_point entries key serves_sorted).
  pose proof (rank_bounds key) as Hr. pose proof serves_pages.
  pose proof (Z.div_mod (rank key entries) 31 ltac:(lia)) as Hdm.
  pose proof (Z.mod_pos_bound (rank key entries) 31 ltac:(lia)) as Hm.
  destruct (decide _) as [He|Hne].
  - rewrite lookup_ge_None_2; [done|]. unfold rank, zlen in He. lia.
  - rewrite page_of_lookup by (pose proof (Z.div_pos (rank key entries) 31); lia).
    replace (Z.to_nat _) with (partition_point (fun kv : Key * Value => ltb kv.1 key) entries)
      by (unfold rank in *; lia).
    destruct (entries !! _) as [[k v]|]; [|done].
    destruct (decide (k = key)) as [->|Hk]; [by rewrite cmp_refl|].
    destruct (cmp k key) eqn:Hc; [|done..]. by apply cmp_eq in Hc.
Qed.

(** ** Ranges. *)
Lemma drop_page i index :
  0 <= i -> 0 <= index <= 31 ->
  zdrop (i * 31 + index) entries = zdrop index (page_of entries i) ++ zdrop ((i + 1) * 31) entries.
Proof.
  intros. unfold page_of, PAGE_ENTRIES, zdrop, ztake.
  rewrite skipn_firstn_comm, drop_drop.
  replace (Z.to_nat ((i + 1) * 31)) with (Z.to_nat (i * 31 + index) + (Z.to_nat 31 - Z.to_nat index))%nat by lia.
  replace (Z.to_nat (i * 31) + Z.to_nat index)%nat with (Z.to_nat (i * 31 + index)) by lia.
  rewrite <- drop_drop. by rewrite take_drop.
Qed.
Lemma take_page i index :
  0 <= i -> 0 <= index <= 31 ->
  ztake (i * 31 + index) entries = ztake (i * 31) entries ++ ztake index (page_of entries i).
Proof.
  intros. rewrite ztake_add by lia. f_equal. unfold page_of, PAGE_ENTRIES, ztake.
  rewrite take_take. f_equal. lia.
Qed.
Lemma range_up_scan hi limit rounds number index out :
  0 <= number < h_pages h -> 0 <= index <= 31 -> h_pages h - number <= Z.of_nat rounds ->
  range_up rounds source h hi limit number (page_of entries number) index out =
  let? (_, out) := scan (fun key => geb key hi) geb limit (zdrop (number * 31 + index) entries) out in
  Ok out.
Proof.
  pose proof serves_pages as (Hp & Hn & _).
  revert number index out. induction rounds as [|rounds IH]; intros number index out Hnum Hi Hr; [lia|].
  cbn [range_up]. rewrite drop_page, scan_app by lia.
  destruct (scan _ _ _ (zdrop index _) out) as [[[] o]|e|]; cbn [obind]; try done.
  rewrite wrap_small by (unfold uint; lia). destruct (decide _) as [He|Hne].
  - assert (zdrop ((number + 1) * 31) entries = []) as -> by
      (unfold zdrop; apply drop_ge; unfold zlen in Hn; lia). done.
  - rewrite serves_page by lia. cbn [obind]. rewrite IH by lia. by rewrite Z.add_0_r.
Qed.
Lemma range_down_scan lo limit rounds number index out :
  0 <= number < h_pages h -> 0 <= index <= 31 -> number < Z.of_nat rounds ->
  range_down rounds source h lo limit number (page_of entries number) index out =
  let? (_, out) := scan (fun key => ltb key lo) (fun prior key => geb key prior) limit
                     (reverse (ztake (number * 31 + index) entries)) out in
  Ok out.
Proof.
  pose proof serves_pages as (Hp & Hn & _).
  revert number index out. induction rounds as [|rounds IH]; intros number index out Hnum Hi Hr; [lia|].
  cbn [range_down]. rewrite take_page, reverse_app, scan_app by lia.
  destruct (scan _ _ _ (reverse (ztake index _)) out) as [[[] o]|e|]; cbn [obind]; try done.
  destruct (decide _) as [->|Hne]; [done|].
  rewrite serves_page by lia. cbn [obind].
  assert (zlen (page_of entries (number - 1)) = 31) as Hl by (rewrite page_of_zlen; lia).
  rewrite IH by lia. rewrite Hl. do 3 f_equal. f_equal. lia.
Qed.
Lemma below_rank key : Forall (fun kv => ltb kv.1 key = true) (ztake (rank key entries) entries).
Proof.
  apply Forall_lookup. intros i kv Hi. unfold ztake in Hi. apply lookup_take_Some in Hi as [Hi Hlt].
  apply (proj2 (rank_lookup key (Z.of_nat i) kv ltac:(lia) ltac:(by rewrite Nat2Z.id))). lia.
Qed.
Lemma from_rank key : Forall (fun kv => ltb kv.1 key = false) (zdrop (rank key entries) entries).
Proof.
  pose proof (rank_bounds key). apply Forall_lookup. intros i kv Hi. unfold zdrop in Hi. rewrite lookup_drop in Hi.
  destruct (ltb kv.1 key) eqn:Hl; [|done]. exfalso.
  apply (rank_lookup key (rank key entries + Z.of_nat i)) in Hl; [lia|lia|].
  by replace (Z.to_nat _) with (Z.to_nat (rank key entries) + i)%nat by lia.
Qed.
Lemma rank_mono lo hi : lo ≺ hi -> rank lo entries <= rank hi entries.
Proof.
  intros Hlt. destruct (Z.lt_ge_cases (rank hi entries) (rank lo entries)) as [Hr|]; [|done].
  pose proof (rank_bounds lo). pose proof (rank_bounds hi).
  destruct (entries !! Z.to_nat (rank hi entries)) as [kv|] eqn:Hk.
  2:{ apply lookup_ge_None in Hk. unfold zlen in *. lia. }
  assert (ltb kv.1 lo = true) as Hl by (apply (rank_lookup lo (rank hi entries)); [lia|done|lia]).
  assert (ltb kv.1 hi = true) as Hh by (apply ltb_lt; apply ltb_lt in Hl; by eapply cmp_trans).
  apply (rank_lookup hi (rank hi entries)) in Hh; [lia|lia|done].
Qed.
(** The entries with [lo <= key < hi]. *)
Definition between (lo hi : Key) (l : Page) : Page :=
  filter (fun kv => geb kv.1 lo && ltb kv.1 hi = true) l.
Lemma between_split lo hi :
  lo ≺ hi ->
  entries = ztake (rank lo entries) entries ++ between lo hi entries ++ zdrop (rank hi entries) entries /\
  between lo hi entries = zdrop (rank lo entries) (ztake (rank hi entries) entries) /\
  Forall (fun kv => geb kv.1 lo = true /\ ltb kv.1 hi = true) (between lo hi entries).
Proof.
  intros Hlt. pose proof (rank_mono lo hi Hlt). pose proof (rank_bounds lo). pose proof (rank_bounds hi).
  set (m := zdrop (rank lo entries) (ztake (rank hi entries) entries)).
  assert (entries = ztake (rank lo entries) entries ++ m ++ zdrop (rank hi entries) entries) as Hsplit.
  { rewrite <- (ztake_zdrop (rank hi entries) entries) at 1.
    rewrite <- (ztake_zdrop (rank lo entries) (ztake (rank hi entries) entries)) at 1. fold m.
    rewrite <- app_assoc. f_equal. unfold ztake. rewrite take_take. f_equal. lia. }
  assert (Forall (fun kv => geb kv.1 lo = true /\ ltb kv.1 hi = true) m) as Hm.
  { apply Forall_and. split.
    - unfold m, zdrop, ztake. rewrite skipn_firstn_comm. apply Forall_take.
      eapply Forall_impl; [apply (from_rank lo)|]. intros kv Hkv. unfold geb. by rewrite Hkv.
    - apply Forall_drop, below_rank. }
  assert (between lo hi entries = m) as Hb.
  { unfold between. rewrite Hsplit at 1. rewrite !filter_app.
    rewrite (filter_Forall _ m), (filter_Forall_not _ (ztake _ _)), (filter_Forall_not _ (zdrop _ _)), app_nil_r; [done|..].
    all: eapply Forall_impl; [first [apply from_rank|apply below_rank|exact Hm]|]; cbn beta; unfold geb; intros kv.
    - intros ->. by rewrite andb_false_r.
    - by intros ->.
    - by intros [-> ->]. }
  rewrite Hb. done.
Qed.

Lemma in_order_up l : ascending l -> in_order geb l.
Proof.
  unfold ascending, in_order. induction 1 as [|a l _ IH Hf]; constructor; [done|].
  eapply Forall_impl; [exact Hf|]. intros b Hb. by apply geb_nlt.
Qed.
Lemma in_order_down l : ascending l -> in_order (fun prior key => geb key prior) (reverse l).
Proof.
  unfold ascending, in_order. induction 1 as [|a l _ IH Hf]; [constructor|].
  rewrite reverse_cons. apply StronglySorted_app_2; [|done|repeat constructor].
  intros b c Hb ->%list_elem_of_singleton. rewrite elem_of_reverse in Hb.
  rewrite Forall_forall in Hf. apply geb_nlt. by apply Hf.
Qed.
Lemma between_ascending lo hi : lo ≺ hi -> ascending (between lo hi entries).
Proof.
  intros Hlt. destruct (between_split lo hi Hlt) as [He _]. pose proof serves_sorted as Hs.
  rewrite He in Hs. apply ascending_app in Hs as (_ & Hs & _). by apply ascending_app in Hs as (? & _).
Qed.
Lemma range_up_spec lo hi limit :
  lo ≺ hi -> 0 < limit -> range source h lo hi false limit = Ok (ztake limit (between lo hi entries)).
Proof.
  intros Hlt Hl. unfold range. rewrite decide_False by lia. rewrite (proj2 (geb_nlt lo hi) Hlt). cbn [negb].
  rewrite lower_bound_spec. cbn [obind]. pose proof (rank_bounds lo) as Hr. pose proof serves_pages as Hp.
  destruct (between_split lo hi Hlt) as (He & Hb & Hf).
  pose proof (rank_mono lo hi Hlt). pose proof (rank_bounds hi).
  destruct (decide _) as [Hend|Hne].
  - rewrite Hb. unfold zdrop, ztake. rewrite (drop_ge (take _ _)), take_nil; [done|].
    rewrite length_take. unfold zlen in *. lia.
  - pose proof (Z.div_mod (rank lo entries) 31 ltac:(lia)). pose proof (Z.mod_pos_bound (rank lo entries) 31).
    pose proof (Z.div_pos (rank lo entries) 31).
    rewrite range_up_scan by lia. replace (rank lo entries / 31 * 31 + _) with (rank lo entries) by lia.
    assert (zdrop (rank lo entries) entries = between lo hi entries ++ zdrop (rank hi entries) entries) as ->
      by (rewrite He at 2; rewrite zdrop_app_l; [done|rewrite zlen_ztake; lia]).
    destruct (scan_spec (fun key => geb key hi) geb limit (between lo hi entries)
                (zdrop (rank hi entries) entries) []) as [r ->]; [| | |done|].
    + eapply Forall_impl; [exact Hf|]. intros kv [_ Hk]. unfold geb. by rewrite Hk.
    + eapply Forall_impl; [apply from_rank|]. intros kv Hk. unfold geb. by rewrite Hk.
    + by apply in_order_up, between_ascending.
    + cbn [obind app]. by rewrite zlen_nil, Z.sub_0_r.
Qed.
Lemma range_down_spec lo hi limit :
  lo ≺ hi -> 0 < limit ->
  range source h lo hi true limit = Ok (ztake limit (reverse (between lo hi entries))).
Proof.
  intros Hlt Hl. unfold range. rewrite decide_False by lia. rewrite (proj2 (geb_nlt lo hi) Hlt). cbn [negb].
  rewrite lower_bound_spec. cbn [obind]. pose proof (rank_bounds hi) as Hr. pose proof serves_pages as Hp.
  destruct (between_split lo hi Hlt) as (He & Hb & Hf).
  pose proof (rank_mono lo hi Hlt). pose proof (rank_bounds lo).
  assert (forall number index, 0 <= number < h_pages h -> 0 <= index <= 31 ->
            ztake (number * 31 + index) entries = ztake (rank hi entries) entries ->
            range_down (Z.to_nat (h_pages h)) source h lo limit number (page_of entries number) index [] =
            Ok (ztake limit (reverse (between lo hi entries)))) as Hdown.
  { intros number index Hnum Hi Heq. rewrite range_down_scan, Heq by lia.
    assert (ztake (rank hi entries) entries = ztake (rank lo entries) entries ++ between lo hi entries) as ->.
    { rewrite Hb. rewrite <- (ztake_zdrop (rank lo entries) (ztake (rank hi entries) entries)) at 1.
      f_equal. unfold ztake. rewrite take_take. f_equal. lia. }
    rewrite reverse_app.
    destruct (scan_spec (fun key => ltb key lo) (fun prior key => geb key prior) limit
                (reverse (between lo hi entries)) (reverse (ztake (rank lo entries) entries)) []) as [r ->]; [| | |done|].
    - apply Forall_reverse. eapply Forall_impl; [exact Hf|]. intros kv [Hk _]. unfold geb in Hk. by destruct (ltb _ _).
    - apply Forall_reverse, below_rank.
    - by apply in_order_down, between_ascending.
    - cbn [obind app]. by rewrite zlen_nil, Z.sub_0_r. }
  destruct (decide _) as [Hend|Hne].
  - rewrite wrap_small by (unfold uint; lia). rewrite serves_page by lia. cbn [obind].
    rewrite page_of_zlen by lia. apply Hdown; [lia|lia|]. f_equal. lia.
  - pose proof (Z.div_mod (rank hi entries) 31 ltac:(lia)). pose proof (Z.mod_pos_bound (rank hi entries) 31).
    pose proof (Z.div_pos (rank hi entries) 31). apply Hdown; [lia|lia|]. f_equal. lia.
Qed.
(** Any bounds, direction and limit. *)
Lemma range_spec lo hi (descending : bool) limit :
  0 <= limit ->
  range source h lo hi descending limit = Ok (ztake limit ((if descending then reverse else id) (between lo hi entries))).
Proof.
  intros Hl.
  destruct (decide (limit = 0)) as [->|Hl0]; [done|].
  destruct (geb lo hi) eqn:Hg.
  - unfold range. rewrite decide_False, Hg by done.
    assert (between lo hi entries = []) as ->; [|by destruct descending; unfold id, ztake; rewrite ?reverse_nil, take_nil].
    apply filter_Forall_not, Forall_forall. intros kv _ [Hlo Hhi]%andb_prop.
    apply ltb_lt in Hhi. assert (kv.1 ≺ lo) as Hkl
      by (apply geb_true in Hg as [->|Hg]; [done|by eapply cmp_trans]).
    unfold geb in Hlo. by rewrite (proj2 (ltb_lt _ _) Hkl) in Hlo.
  - apply geb_nlt in Hg. destruct descending; [apply range_down_spec|apply range_up_spec]; done || lia.
Qed.
End Correct.

(** ** A byte slice that holds an encoded run serves it. *)
Section Slice.
Context `{HasherOk}.

Lemma slice_read pre e post n :
  zlen e = n -> zlen pre + n < 2 ^ 64 ->
  slice_source (pre ++ e ++ post) (zlen pre) n = Ok e.
Proof.
  intros Hn Hl. pose proof (zlen_nonneg pre). pose proof (zlen_nonneg e). unfold slice_source.
  rewrite wrap_small by (unfold uint; lia). by rewrite get_range_app.
Qed.
Lemma pages_bytes_split entries n first i :
  (i < n)%nat -> exists rest,
    pages_bytes entries n first =
    pages_bytes entries i first ++ page_bytes (page_of entries (Z.of_nat i)) (Z.of_nat i) first ++ rest.
Proof.
  intros Hi. induction n as [|n IH]; [lia|]. destruct (decide (i = n)) as [->|Hne].
  - exists []. by rewrite pages_bytes_S, app_nil_r.
  - destruct IH as [rest Hr]; [lia|]. rewrite pages_bytes_S, Hr. eexists. by rewrite <- !app_assoc.
Qed.
Lemma header_ok_writable h : header_ok h -> run_fits h -> writable h.
Proof. intros (? & ? & ? & ? & ? & ? & ? & ?) ?. by refine (conj _ (conj _ (conj _ (conj _ _)))). Qed.
Lemma page_of_ascending (entries : Page) i : ascending entries -> ascending (page_of entries i).
Proof.
  unfold page_of, ztake, zdrop. intros Ha.
  rewrite <- (take_drop (Z.to_nat (i * PAGE_ENTRIES)) entries) in Ha.
  apply ascending_app in Ha as (_ & Ha & _).
  rewrite <- (take_drop (Z.to_nat PAGE_ENTRIES)) in Ha. by apply ascending_app in Ha as (? & _).
Qed.
Lemma page_of_count h entries i :
  header_ok h -> 0 <= i < h_pages h -> zlen entries = h_entries h ->
  zlen (page_of entries i) = expected_count h i.
Proof.
  intros Hh Hi Hn. destruct (expected_count_bounds h i Hh Hi) as [Hb He]. rewrite He in *.
  unfold page_of, zlen, ztake, zdrop, PAGE_ENTRIES in *. rewrite length_take, length_drop. lia.
Qed.
Lemma slice_page h entries :
  header_ok h -> run_fits h -> Forall slot_ok entries ->
  forall i, 0 <= i < h_pages h ->
  slice_source (run_bytes h entries) (page_offset i) PAGE_BYTES =
  Ok (page_bytes (page_of entries i) i (h_first h)).
Proof.
  intros Hh Hf Hs i Hi. pose proof (header_ok_writable h Hh Hf) as Hw.
  destruct (pages_bytes_split entries (Z.to_nat (h_pages h)) (h_first h) (Z.to_nat i) ltac:(lia)) as [rest Hr].
  rewrite Z2Nat.id in Hr by lia.
  pose proof (array_len _ _ (header_array_writable h Hw)) as Hhl.
  pose proof (array_len _ _ (pages_bytes_array entries (Z.to_nat i) (h_first h) Hs)) as Hpl.
  rewrite Z2Nat.id in Hpl by lia.
  unfold run_fits, ISIZE_MAX, HEADER_BYTES, PAGE_BYTES, TRAILER_BYTES in *.
  unfold page_offset, HEADER_BYTES, PAGE_BYTES. rewrite wrap_small by (unfold uint; lia).
  unfold run_bytes, run_body. rewrite Hr, <- !app_assoc, (app_assoc (header_encode h)).
  replace (64 + i * 4096) with (zlen (header_encode h ++ pages_bytes entries (Z.to_nat i) (h_first h)))
    by (rewrite zlen_app; lia).
  apply slice_read.
  - apply page_bytes_array; [by apply page_of_slots|apply page_of_len].
  - rewrite zlen_app. lia.
Qed.
#[export] Instance run_serves h entries :
  header_ok h -> run_fits h -> zlen entries = h_entries h -> Forall slot_ok entries ->
  ascending entries -> ServesRun (slice_source (run_bytes h entries)) h entries.
Proof.
  intros Hh Hf Hn Hs Ha. split; [done..|]. intros i Hi. unfold read_page.
  rewrite slice_page by done. cbn [obind].
  apply decode_page_Ok; auto using page_of_slots, page_of_ascending, page_of_count.
Qed.
Lemma run_header h entries :
  header_ok h -> run_fits h -> header_read (slice_source (run_bytes h entries)) = Ok h.
Proof.
  intros Hh Hf. unfold header_read, run_bytes, run_body. rewrite <- app_assoc.
  pose proof (array_len _ _ (header_encode_array h Hh)) as Hl.
  change 0 with (zlen (@nil Z)).
  pose proof (slice_read [] (header_encode h) (pages_bytes entries (Z.to_nat (h_pages h)) (h_first h) ++
     sha256 (header_encode h ++ pages_bytes entries (Z.to_nat (h_pages h)) (h_first h)) ++ COMMIT) HEADER_BYTES Hl ltac:(done)) as Hr.
  cbn [app] in Hr. rewrite Hr. cbn [obind]. by apply header_decode_encode.
Qed.
Lemma run_trailer h entries :
  header_ok h -> run_fits h -> Forall slot_ok entries ->
  trailer (slice_source (run_bytes h entries)) h = Ok (sha256 (run_body h entries)).
Proof.
  intros Hh Hf Hs. pose proof (header_ok_writable h Hh Hf) as Hw. unfold trailer.
  rewrite trailer_offset by done. pose proof (writable_pages h Hw) as Hp.
  rewrite <- (run_body_len h entries Hw Hp Hs). unfold run_bytes.
  pose proof (sha256_array (run_body h entries)) as Hd.
  rewrite <- (app_nil_r (sha256 (run_body h entries) ++ COMMIT)).
  rewrite slice_read; [|rewrite zlen_app, (array_len _ _ Hd); done|].
  - cbn [obind]. rewrite zlen_app, (array_len _ _ Hd). change (zlen COMMIT) with 8.
    assert (zlen COMMIT = 8) by done. change (32 + 8) with 40. subs.
    rewrite decide_False by naive_solver. by subs.
  - rewrite run_body_len by done. unfold run_fits, ISIZE_MAX, TRAILER_BYTES in *. lia.
Qed.

(** The inputs of [encode_run] from which a readable run file results. *)
Definition run_input (h : RunHeader) (entries : Page) : Prop :=
  header_ok h /\ run_fits h /\ zlen entries = h_entries h /\ Forall slot_ok entries.
Lemma encode_run_inv level installation_id first last entries file digest :
  let h := header_new level installation_id first last (zlen entries) in
  run_input h entries ->
  encode_run level installation_id first last entries = Ok (file, digest) ->
  file = run_bytes h entries /\ digest = sha256 (run_body h entries) /\ ascending entries.
Proof.
  intros h (Hh & Hf & Hn & Hs) HE.
  destruct (encode_run_cases level installation_id first last entries) as [Ho He]; [by apply header_ok_writable|done|].
  destruct (ascendingb None entries) eqn:Ha.
  - apply (ascendingb_spec []) in Ha; [|constructor]. rewrite (Ho Ha) in HE. by injection HE as <- <-.
  - rewrite He in HE; [done|]. intros Hasc. apply (ascendingb_spec []) in Hasc; [|constructor]. cbn in Hasc. congruence.
Qed.


(** a range query on a run file returns exactly the written entries with
    [lo <= key < hi], in ascending or descending key order, cut to the first
    [limit]; bounds out of order give none. *)
Theorem run_range_correct level installation_id first last entries file digest lo hi descending limit :
  let h := header_new level installation_id first last (zlen entries) in
  run_input h entries -> 0 <= limit ->
  encode_run level installation_id first last entries = Ok (file, digest) ->
  range (slice_source file) h lo hi descending limit =
  Ok (ztake limit ((if descending : bool then reverse else id) (between lo hi entries))).
Proof.
  intros h Hi Hl HE. destruct (encode_run_inv _ _ _ _ _ _ _ Hi HE) as (-> & -> & Ha). fold h.
  destruct Hi as (Hh & Hf & Hn & Hs). apply range_spec; [by apply run_serves|done].
Qed.
End Slice.

(** ** Witnesses on the two-page run. *)
Module SearchDemo.
Export RunDemo.
Definition file : bytes := run_bytes header entries.
Lemma demo_input : run_input header entries.
Proof. split_and!; [apply header_is_ok|by vm_compute|done|apply slots]. Qed.
Lemma demo_encode :
  encode_run 0 (replicate 16 9) 5 44 entries = Ok (file, sha256 (run_body header entries)).
Proof. by vm_compute. Qed.
Lemma run_range_correct_witness :
  range (slice_source file) header (entry_at 30).1 (entry_at 34).1 true 3 =
  Ok [entry_at 33; entry_at 32; entry_at 31].
Proof.
  pose proof (run_range_correct 0 (replicate 16 9) 5 44 entries file _ (entry_at 30).1 (entry_at 34).1
    true 3 demo_input ltac:(lia) demo_encode) as Hr.
  etransitivity; [exact Hr|]. clear. vm_compute. reflexivity.
Defined.
End SearchDemo.
