(* ===== verification/RunMerge.v ===== *)
(** * Merging runs (authority/index/run.rs: MergeInput, MergeIo, Merge).

    A merge reads several runs page by page, verifies every page and at the end
    each whole file, and writes one run of the next level in steps of a bounded
    number of output pages. The theorems: on readable inputs with distinct keys
    a sequence of steps ends, with exactly the run that [encode_run] writes for
    the sorted union; a key in two inputs ends it with [Corrupt]; one step
    writes no more pages than asked. *)
From stdpp Require Import prelude list sorting.
From Stdlib Require Import ZArith Lia.
From S2P Require Import Prelude Codec Index Run RunSearch.

(** ** Inputs. A streaming [Sha256] is the bytes it received. *)
Record MergeInput : Type := mkInput {
  mi_header : RunHeader; mi_expected_digest : bytes; mi_digest : bytes;
  mi_next_page : Z; mi_page : Page; mi_index : Z; mi_done : bool;
}.
Definition merge_input_new (header : RunHeader) (expected_digest : bytes) : MergeInput :=
  mkInput header expected_digest (header_encode header) 0 [] 0 false.

Section Merge.
Context `{Hasher}.

(** [self.page[self.index]]. *)
Definition current (m : MergeInput) : Result (option (Key * Value)) :=
  match mi_page m !! Z.to_nat (mi_index m) with Some kv => Ok (Some kv) | None => Panic end.
Definition peek (m : MergeInput) (source : RunSource) : Result (option (Key * Value) * MergeInput) :=
  if mi_done m then Ok (None, m) else
  if decide (mi_index m = zlen (mi_page m)) then
    if decide (mi_next_page m = h_pages (mi_header m)) then
      let? recorded := trailer source (mi_header m) in
      let actual := sha256 (mi_digest m) in
      if decide (recorded <> actual \/ actual <> mi_expected_digest m) then Err Corrupt else
      Ok (None, mkInput (mi_header m) (mi_expected_digest m) [] (mi_next_page m) (mi_page m)
                  (mi_index m) true)
    else
      let? b := source (page_offset (mi_next_page m)) PAGE_BYTES in
      let? page := decode_page b (mi_header m) (mi_next_page m) in
      if match last (mi_page m), head page with
         | Some prior, Some first => geb prior.1 first.1
         | _, _ => false
         end then Err Corrupt else
      let m := mkInput (mi_header m) (mi_expected_digest m) (mi_digest m ++ b)
                 (wrap 64 (mi_next_page m + 1)) page 0 (mi_done m) in
      let? kv := current m in Ok (kv, m)
  else let? kv := current m in Ok (kv, m).

(** ** The merge. [reads i] is [InputSource] of input [i]; the sink is
    [OutputSink]. *)
Context {Sink : Type} `{RunSink Sink}.
Record Merge : Type := mkMerge { m_inputs : list MergeInput; m_writer : option RunWriter }.

Definition minimum (l : list Z) : option Z :=
  match l with [] => None | x :: l => Some (foldl Z.min x l) end.
Definition maximum (l : list Z) : option Z :=
  match l with [] => None | x :: l => Some (foldl Z.max x l) end.
Definition merge_new (inputs : list MergeInput) (level : Z) (installation_id : bytes) (sink : Sink)
  : Result (Merge * Sink) :=
  let? first := ok_or Corrupt (minimum ((fun i => h_first (mi_header i)) <$> inputs)) in
  let? last := ok_or Corrupt (maximum ((fun i => h_last (mi_header i)) <$> inputs)) in
  let entries := foldl (fun a i => wrap 64 (a + h_entries (mi_header i))) 0 inputs in
  let header := header_new level installation_id first last entries in
  let? (writer, sink) := writer_new header sink in
  Ok (mkMerge inputs (Some writer), sink).

(** The [match best] of the inner loop. *)
Definition choose (best : option (nat * Key * Value)) (index : nat) (key : Key) (value : Value)
  : Result (option (nat * Key * Value)) :=
  match best with
  | Some (_, current, _) =>
      if decide (current = key) then Err Corrupt
      else if ltb current key then Ok best
      else Ok (Some (index, key, value))
  | None => Ok (Some (index, key, value))
  end.
(** [if let Some((key, value)) = input.peek(..)? { match best .. }]. *)
Definition offer (best : option (nat * Key * Value)) (index : nat) (kv : option (Key * Value))
  : Result (option (nat * Key * Value)) :=
  match kv with
  | Some (key, value) => choose best index key value
  | None => Ok best
  end.
(** The [for] loop: the smallest current entry of all inputs. *)
Fixpoint best_of (reads : nat -> RunSource) (index : nat) (inputs : list MergeInput)
    (best : option (nat * Key * Value)) : Result (list MergeInput * option (nat * Key * Value)) :=
  match inputs with
  | [] => Ok ([], best)
  | input :: inputs =>
      let? (kv, input) := peek input (reads index) in
      let? best := offer best index kv in
      let? (inputs, best) := best_of reads (S index) inputs best in
      Ok (input :: inputs, best)
  end.
(** [self.inputs[index].index += 1]. *)
Definition advance (m : MergeInput) : MergeInput :=
  mkInput (mi_header m) (mi_expected_digest m) (mi_digest m) (mi_next_page m) (mi_page m)
    (mi_index m + 1) (mi_done m).
(** [while writer.pages_written() < target]. *)
Fixpoint step_loop (rounds : nat) (reads : nat -> RunSource) (target : Z)
    (inputs : list MergeInput) (writer : RunWriter) (sink : Sink)
  : Result (option bytes * Merge * Sink) :=
  if decide (w_written_pages writer < target) then
    match rounds with
    | O => Panic
    | S rounds =>
        let? (inputs, best) := best_of reads 0 inputs None in
        match best with
        | None =>
            let? (digest, sink) := finish writer sink in
            Ok (Some digest, mkMerge inputs None, sink)
        | Some (index, key, value) =>
            let inputs := alter advance index inputs in
            let? (writer, sink) := push writer key value sink in
            step_loop rounds reads target inputs writer sink
        end
    end
  else Ok (None, mkMerge inputs (Some writer), sink).
Definition step (reads : nat -> RunSource) (m : Merge) (sink : Sink) (pages : Z)
  : Result (option bytes * Merge * Sink) :=
  let? writer := ok_or Corrupt (m_writer m) in
  let target := wrap 64 (w_written_pages writer + pages) in
  step_loop (Z.to_nat (pages * PAGE_ENTRIES)) reads target (m_inputs m) writer sink.
(** Steps of [pages] output pages until the digest is returned, at most [n]. *)
Fixpoint run_steps (n : nat) (reads : nat -> RunSource) (m : Merge) (sink : Sink) (pages : Z)
  : Result (option (bytes * Sink)) :=
  match n with
  | O => Ok None
  | S n =>
      let? (digest, m, sink) := step reads m sink pages in
      match digest with
      | Some digest => Ok (Some (digest, sink))
      | None => run_steps n reads m sink pages
      end
  end.
End Merge.
Arguments Merge : clear implicits.

(** ** What an input's source holds. *)
Class HoldsRun `{Hasher} (source : RunSource) (h : RunHeader) (entries : Page) : Prop := {
  holds_input : run_input h entries;
  holds_sorted : ascending entries;
  holds_page i : 0 <= i < h_pages h ->
    source (page_offset i) PAGE_BYTES = Ok (page_bytes (page_of entries i) i (h_first h));
  holds_trailer : trailer source h = Ok (sha256 (run_body h entries));
}.

(** One input of the abstract merge: its run and how much of it was taken. *)
Record Feed : Type := mkFeed { f_header : RunHeader; f_entries : Page; f_taken : Z }.
Definition remaining (f : Feed) : Page := zdrop (f_taken f) (f_entries f).

Section Correct.
Context `{HasherOk}.

(** Where a [MergeInput] stands when [f_taken] entries were taken from it. *)
Record input_inv (f : Feed) (m : MergeInput) : Prop := {
  ii_header : mi_header m = f_header f;
  ii_expected : mi_expected_digest m = sha256 (run_body (f_header f) (f_entries f));
  ii_taken : 0 <= f_taken f <= zlen (f_entries f);
  ii_done : mi_done m = true -> f_taken f = zlen (f_entries f);
  ii_place : mi_done m = false ->
    0 <= mi_next_page m <= h_pages (f_header f) /\ 0 <= mi_index m <= zlen (mi_page m) /\
    mi_digest m = header_encode (f_header f) ++
      pages_bytes (f_entries f) (Z.to_nat (mi_next_page m)) (h_first (f_header f)) /\
    (mi_next_page m = 0 /\ mi_page m = [] /\ f_taken f = 0 \/
     0 < mi_next_page m /\ mi_page m = page_of (f_entries f) (mi_next_page m - 1) /\
     f_taken f = (mi_next_page m - 1) * 31 + mi_index m);
}.
(** The current entry is in memory, so that [advance] takes it. *)
Definition loaded (m : MergeInput) : Prop := mi_done m = false /\ mi_index m < zlen (mi_page m).

Lemma input_new_inv h entries :
  0 <= h_pages h -> input_inv (mkFeed h entries 0) (merge_input_new h (sha256 (run_body h entries))).
Proof.
  intros. pose proof (zlen_nonneg entries). split; cbn; try done; try lia. intros _.
  rewrite app_nil_r. split_and!; try done. by left.
Qed.

Section Input.
Context (source : RunSource) (f : Feed) `{!HoldsRun source (f_header f) (f_entries f)}.
Let n := zlen (f_entries f).
Let pages := h_pages (f_header f).

Lemma holds_pages : 0 < pages < 2 ^ 64 /\ n <= pages * 31 < n + 31 /\ 0 < n.
Proof.
  destruct holds_input as ((_ & _ & _ & _ & He & _ & He0 & Hp) & _ & Hn & _).
  unfold n, pages. rewrite Hn. pose proof (pages_u64 _ He) as Hpu. rewrite <- Hp in Hpu. unfold uint in *.
  pose proof (div_ceil_spec (h_entries (f_header f)) 31 ltac:(lia) ltac:(lia)) as Hs.
  unfold PAGE_ENTRIES in Hp. rewrite <- Hp in Hs. lia.
Qed.
Lemma page_zlen i : 0 <= i < pages -> zlen (page_of (f_entries f) i) = Z.min 31 (n - i * 31).
Proof.
  intros Hi. pose proof holds_pages. unfold n, page_of, PAGE_ENTRIES, zlen, ztake, zdrop in *.
  rewrite length_take, length_drop. lia.
Qed.
Lemma page_lookup i j :
  0 <= i -> 0 <= j < 31 ->
  page_of (f_entries f) i !! Z.to_nat j = f_entries f !! Z.to_nat (i * 31 + j).
Proof.
  intros. unfold page_of, ztake, zdrop, PAGE_ENTRIES. rewrite lookup_take_lt by lia.
  rewrite lookup_drop. f_equal. lia.
Qed.
Lemma advance_inv m :
  input_inv f m -> loaded m ->
  input_inv (mkFeed (f_header f) (f_entries f) (f_taken f + 1)) (advance m).
Proof.
  intros [Hh He Ht Hd Hp] [Hnd Hi]. destruct (Hp Hnd) as (Hn & Hix & Hdig & Hpos).
  destruct Hpos as [(_ & Hnil & _)|(Hn0 & Hpage & Hta)]; [rewrite Hnil, zlen_nil in Hi; lia|].
  pose proof (page_zlen (mi_next_page m - 1) ltac:(unfold pages; lia)) as Hl. rewrite <- Hpage in Hl.
  unfold n in *. split; cbn; try done; try lia; [congruence|].
  intros _. split_and!; try done; try lia. right. split_and!; [done|done|lia].
Qed.
(** A page that is in memory holds the next entry. *)
Lemma current_spec m :
  input_inv f m -> loaded m -> exists kv, current m = Ok (Some kv) /\ head (remaining f) = Some kv.
Proof.
  intros [Hh He Ht Hd Hp] [Hnd Hi]. destruct (Hp Hnd) as (Hn & Hix & Hdig & Hpos).
  destruct Hpos as [(_ & Hnil & _)|(Hn0 & Hpage & Hta)]; [rewrite Hnil, zlen_nil in Hi; lia|].
  pose proof (page_zlen (mi_next_page m - 1) ltac:(unfold pages; lia)) as Hl. rewrite <- Hpage in Hl.
  unfold current, remaining, zdrop. rewrite head_lookup, lookup_drop, Nat.add_0_r.
  rewrite Hpage, page_lookup, <- Hta by lia.
  destruct (f_entries f !! Z.to_nat (f_taken f)) as [kv|] eqn:Hk; [by exists kv|].
  apply lookup_ge_None in Hk. unfold n, zlen in *. lia.
Qed.
Lemma page_break i :
  0 < i < pages ->
  match last (page_of (f_entries f) (i - 1)), head (page_of (f_entries f) i) with
  | Some prior, Some first => geb prior.1 first.1
  | _, _ => false
  end = false.
Proof.
  intros Hi. destruct (last _) as [a|] eqn:Ha; [|done]. destruct (head _) as [b|] eqn:Hb; [|done].
  apply geb_nlt. pose proof holds_sorted as Hs.
  rewrite <- (ztake_zdrop (i * 31) (f_entries f)) in Hs. apply ascending_app in Hs as (_ & _ & Hs).
  apply Hs.
  - replace (i * 31) with ((i - 1) * 31 + 31) by lia. rewrite take_page by lia. apply elem_of_app. right.
    unfold ztake. rewrite take_ge by (pose proof (page_of_len (f_entries f) (i - 1)); unfold zlen, PAGE_ENTRIES in *; lia).
    apply last_Some in Ha as [l ->]. apply elem_of_app. right. by apply list_elem_of_singleton.
  - unfold page_of, ztake in Hb. rewrite head_lookup in Hb. apply lookup_take_Some in Hb as [Hb _].
    by eapply list_elem_of_lookup_2.
Qed.
Lemma remaining_nil : n <= f_taken f -> remaining f = [].
Proof. unfold n, remaining, zdrop, zlen. intros. apply drop_ge. lia. Qed.
(** At the end of the pages every entry was taken and the digests agree. *)
Lemma peek_end m :
  input_inv f m -> mi_done m = false -> mi_index m = zlen (mi_page m) -> mi_next_page m = pages ->
  exists m', peek m source = Ok (None, m') /\ input_inv f m' /\ remaining f = [].
Proof.
  intros [Hh He Ht Hd Hp] Hnd Hi Hnp. destruct (Hp Hnd) as (Hn & Hix & Hdig & Hpos).
  pose proof holds_pages as (Hpg & Hnn & _).
  assert (f_taken f = n) as Htn.
  { destruct Hpos as [(? & ? & ?)|(_ & Hpage & Hta)]; [unfold pages in *; lia|].
    rewrite Hi, Hpage, page_zlen in Hta by (unfold pages in *; lia). lia. }
  unfold peek. rewrite Hnd, Hh, Hnp. rewrite !decide_True by done.
  rewrite holds_trailer. cbn [obind]. rewrite Hdig, He, Hnp. fold (run_body (f_header f) (f_entries f)).
  rewrite decide_False by (intros [[]|[]]; done).
  eexists. split; [done|]. split; [|apply remaining_nil; lia].
  by split; cbn; try done.
Qed.
(** Otherwise the next page is read, verified and made current. *)
Lemma peek_load m :
  input_inv f m -> mi_done m = false -> mi_index m = zlen (mi_page m) -> mi_next_page m <> pages ->
  exists m', input_inv f m' /\ loaded m' /\
    peek m source = let? kv := current m' in Ok (kv, m').
Proof.
  intros [Hh He Ht Hd Hp] Hnd Hi Hnp. destruct (Hp Hnd) as (Hn & Hix & Hdig & Hpos).
  pose proof holds_pages as (Hpg & Hnn & _). destruct holds_input as (Hhok & Hfit & Hcount & Hslots).
  set (i := mi_next_page m) in *. fold pages in Hn.
  assert (f_taken f = i * 31) as Htn.
  { destruct Hpos as [(? & ? & ?)|(Hn0 & Hpage & Hta)]; [lia|].
    rewrite Hi, Hpage, page_zlen in Hta by lia. lia. }
  assert (match last (mi_page m), head (page_of (f_entries f) i) with
          | Some prior, Some first => geb prior.1 first.1 | _, _ => false end = false) as Hbreak.
  { destruct Hpos as [(? & -> & ?)|(? & -> & ?)]; [done|]. apply page_break. lia. }
  pose proof (page_zlen i ltac:(lia)) as Hl.
  unfold peek. rewrite Hnd. rewrite decide_True by done. fold i. rewrite Hh, decide_False by done.
  rewrite holds_page by (fold pages; lia). cbn [obind].
  rewrite decode_page_Ok; [|done|fold pages; lia|by apply page_of_slots|apply page_of_ascending, holds_sorted|
    apply page_of_count; [done|fold pages; lia|done]].
  cbn [obind]. rewrite Hbreak. rewrite wrap_small by (unfold uint; lia).
  eexists. split_and!; [| |done].
  - split; cbn; try done; try congruence. intros _. fold pages. split_and!; try lia.
    + rewrite Hdig. replace (Z.to_nat (i + 1)) with (S (Z.to_nat i)) by lia.
      by rewrite pages_bytes_S, Z2Nat.id, app_assoc by lia.
    + right. rewrite Z.add_simpl_r. split_and!; [lia|done|lia].
  - split; cbn; [done|]. lia.
Qed.
Lemma peek_spec m :
  input_inv f m ->
  exists m', peek m source = Ok (head (remaining f), m') /\ input_inv f m' /\
             (remaining f <> [] -> loaded m').
Proof.
  intros Hinv. pose proof Hinv as [Hh He Ht Hd Hp].
  destruct (mi_done m) eqn:Hdone.
  { specialize (Hd eq_refl). assert (remaining f = []) as Hr by (apply remaining_nil; unfold n; lia).
    exists m. unfold peek. rewrite Hdone, Hr. by split_and!. }
  destruct (decide (mi_index m = zlen (mi_page m))) as [Hi|Hi].
  - destruct (decide (mi_next_page m = pages)) as [Hnp|Hnp].
    + destruct (peek_end m Hinv Hdone Hi Hnp) as (m' & -> & Hinv' & ->). by exists m'.
    + destruct (peek_load m Hinv Hdone Hi Hnp) as (m' & Hinv' & Hl & ->).
      destruct (current_spec m' Hinv' Hl) as (kv & -> & ->). by exists m'.
  - destruct (Hp eq_refl) as (_ & Hix & _). assert (loaded m) as Hl by (split; [done|lia]).
    destruct (current_spec m Hinv Hl) as (kv & Hc & ->). exists m.
    unfold peek. rewrite Hdone, decide_False, Hc by done. by split_and!.
Qed.
End Input.

(** ** Choosing the smallest current entry. *)
Fixpoint best_head (index : nat) (heads : list (option (Key * Value)))
    (best : option (nat * Key * Value)) : Result (option (nat * Key * Value)) :=
  match heads with
  | [] => Ok best
  | kv :: heads =>
      let? best := offer best index kv in
      best_head (S index) heads best
  end.
(** [best] is the unique smallest of the heads seen. *)
Definition smallest (heads : list (option (Key * Value))) (best : option (nat * Key * Value)) : Prop :=
  match best with
  | None => forall j kv, heads !! j = Some kv -> kv = None
  | Some (i, k, v) =>
      heads !! i = Some (Some (k, v)) /\
      forall j k' v', heads !! j = Some (Some (k', v')) -> j <> i -> k ≺ k'
  end.
Definition clash (heads : list (option (Key * Value))) : Prop :=
  exists i j k v v', i <> j /\ heads !! i = Some (Some (k, v)) /\ heads !! j = Some (Some (k, v')).
Lemma offer_spec seen best kv :
  smallest seen best ->
  match offer best (length seen) kv with
  | Ok best => smallest (seen ++ [kv]) best
  | Err e => e = Corrupt /\ clash (seen ++ [kv])
  | Panic => False
  end.
Proof.
  assert (forall j x, (seen ++ [kv]) !! j = Some x -> seen !! j = Some x \/ j = length seen /\ x = kv) as Hsnoc.
  { intros j x Hj. apply lookup_app_Some in Hj as [Hj|[Hj Hx]]; [by left|right].
    apply list_lookup_singleton_Some in Hx as [? ->]. split; [lia|done]. }
  intros Hs. destruct kv as [[k v]|].
  2:{ destruct best as [[[i k] v]|]; simpl in *.
      - destruct Hs as [Hi Hmin]. split; [by apply lookup_app_l_Some|].
        intros j k' v' Hj Hne. apply Hsnoc in Hj as [?|[_ ?]]; [eauto|done].
      - intros j x Hj. apply Hsnoc in Hj as [?|[_ ?]]; eauto. }
  assert (forall x, (seen ++ [x]) !! length seen = Some x) as Hend by (intros; apply list_lookup_middle; done).
  destruct best as [[[i c] w]|]; simpl in *.
  - destruct Hs as [Hi Hmin]. pose proof (lookup_lt_Some _ _ _ Hi).
    destruct (decide (c = k)) as [->|Hne].
    { split; [done|]. exists i, (length seen), k, w, v. split_and!; [lia|by apply lookup_app_l_Some|apply Hend]. }
    destruct (ltb c k) eqn:Hck; simpl.
    + apply ltb_lt in Hck. split; [by apply lookup_app_l_Some|].
      intros j k' v' Hj Hji. apply Hsnoc in Hj as [?|[_ [= -> ->]]]; eauto.
    + apply ltb_false in Hck as [?|Hck]; [done|]. split; [apply Hend|].
      intros j k' v' Hj Hji. apply Hsnoc in Hj as [Hj|[? _]]; [|done].
      destruct (decide (j = i)) as [->|Hj']; [rewrite Hi in Hj; by injection Hj as <- <-|].
      eapply cmp_trans; [done|]. eauto.
  - split; [apply Hend|]. intros j k' v' Hj Hne. apply Hsnoc in Hj as [Hj|[? _]]; [|done].
    by apply Hs in Hj.
Qed.
Lemma best_head_spec heads seen best :
  smallest seen best ->
  match best_head (length seen) heads best with
  | Ok best => smallest (seen ++ heads) best
  | Err e => e = Corrupt /\ clash (seen ++ heads)
  | Panic => False
  end.
Proof.
  revert seen best. induction heads as [|kv heads IH]; intros seen best Hs; cbn [best_head].
  { by rewrite app_nil_r. }
  pose proof (offer_spec seen best kv Hs) as Hc.
  destruct (offer _ _ _) as [best'|e|]; [|destruct Hc as [-> Hc]|done]; cbn [obind].
  - specialize (IH (seen ++ [kv]) best' Hc). rewrite length_app, Nat.add_1_r, <- app_assoc in IH. exact IH.
  - split; [done|]. destruct Hc as (i & j & k & v & v' & Hne & Hi & Hj).
    exists i, j, k, v, v'. change (kv :: heads) with ([kv] ++ heads). rewrite app_assoc.
    split_and!; [done|by apply lookup_app_l_Some..].
Qed.

Definition heads (fs : list Feed) : list (option (Key * Value)) := (fun f => head (remaining f)) <$> fs.
Definition serving (reads : nat -> RunSource) (off : nat) (fs : list Feed) : Prop :=
  forall i f, fs !! i = Some f -> HoldsRun (reads (off + i)%nat) (f_header f) (f_entries f).
Lemma best_of_spec reads off inputs fs best :
  Forall2 input_inv fs inputs -> serving reads off fs ->
  exists inputs',
    Forall2 (fun f m => input_inv f m /\ (remaining f <> [] -> loaded m)) fs inputs' /\
    best_of reads off inputs best = let? b := best_head off (heads fs) best in Ok (inputs', b).
Proof.
  intros Hi. revert off best.
  assert (forall fs off f, serving reads off (f :: fs) -> serving reads (S off) fs) as Htail.
  { intros fs' off f Hs i g Hg. specialize (Hs (S i) g Hg). by rewrite Nat.add_succ_r in Hs. }
  induction Hi as [|f m fs inputs Hm _ IH]; intros off best Hs; cbn [best_of heads fmap list_fmap best_head].
  { exists []. by split. }
  pose proof (Hs 0%nat f eq_refl) as Hf. rewrite Nat.add_0_r in Hf.
  destruct (peek_spec (reads off) f m Hm) as (m' & -> & Hm' & Hl). cbn [obind].
  destruct (offer best off (head (remaining f))) as [best'|e|] eqn:Ho; cbn [obind].
  - destruct (IH (S off) best' (Htail _ _ _ Hs)) as (inputs' & Hf2 & ->).
    exists (m' :: inputs'). split; [by constructor|]. by destruct (best_head _ _ _).
  - destruct (IH (S off) None (Htail _ _ _ Hs)) as (inputs' & Hf2 & _). exists (m' :: inputs'). split; [by constructor|done].
  - destruct (IH (S off) None (Htail _ _ _ Hs)) as (inputs' & Hf2 & _). exists (m' :: inputs'). split; [by constructor|done].
Qed.

(** ** The merge of the lists. *)
Definition all_entries (fs : list Feed) : Page := concat (f_entries <$> fs).
Definition taken_one (f : Feed) : Feed := mkFeed (f_header f) (f_entries f) (f_taken f + 1).
Record merge_inv (out : Page) (fs : list Feed) : Prop := {
  mg_sorted : ascending out;
  mg_below a f b : a ∈ out -> f ∈ fs -> b ∈ remaining f -> a.1 ≺ b.1;
  mg_all : out ++ concat (remaining <$> fs) ≡ₚ all_entries fs;
  mg_feeds : Forall (fun f => ascending (f_entries f) /\ 0 <= f_taken f) fs;
}.
Lemma remaining_cons f kv :
  0 <= f_taken f -> head (remaining f) = Some kv -> remaining f = kv :: remaining (taken_one f).
Proof.
  unfold remaining, taken_one. cbn. intros Ht Hh. rewrite (Z.add_comm (f_taken f)), <- zdrop_zdrop by lia.
  destruct (zdrop (f_taken f) (f_entries f)) as [|x l]; [done|]. by injection Hh as ->.
Qed.
Lemma concat_alter fs i f kv :
  fs !! i = Some f -> remaining f = kv :: remaining (taken_one f) ->
  concat (remaining <$> fs) ≡ₚ kv :: concat (remaining <$> alter taken_one i fs).
Proof.
  revert i. induction fs as [|g fs IH]; intros [|i] Hi Hr; try done; cbn [lookup list_lookup alter list_alter fmap list_fmap concat] in *.
  - injection Hi as ->. by rewrite Hr.
  - rewrite (IH i Hi Hr). by rewrite Permutation_middle.
Qed.
Lemma entries_alter (fs : list Feed) i : f_entries <$> alter taken_one i fs = f_entries <$> fs.
Proof. revert i. induction fs as [|g fs IH]; intros [|i]; [done|done|done|]. cbn. f_equal. apply IH. Qed.
Lemma remaining_sorted f : ascending (f_entries f) -> ascending (remaining f).
Proof.
  unfold remaining. intros Ha. rewrite <- (ztake_zdrop (f_taken f)) in Ha. by apply ascending_app in Ha as (_ & ? & _).
Qed.
Lemma head_least (l : Page) a b : ascending l -> head l = Some a -> b ∈ l -> b = a \/ a.1 ≺ b.1.
Proof.
  destruct l as [|x l]; [done|]. intros Ha [= ->] [->|Hb]%elem_of_cons; [by left|right].
  apply StronglySorted_inv in Ha as [_ Hf]. rewrite Forall_forall in Hf. by apply Hf.
Qed.
Lemma elem_of_alter (fs : list Feed) i f g :
  fs !! i = Some f -> g ∈ alter taken_one i fs ->
  g = taken_one f \/ exists j, j <> i /\ fs !! j = Some g.
Proof.
  intros Hi [j Hj]%list_elem_of_lookup. destruct (decide (j = i)) as [->|Hji].
  - rewrite list_lookup_alter_eq, Hi in Hj. left. cbn in Hj. congruence.
  - rewrite list_lookup_alter_ne in Hj by done. right. eauto.
Qed.
(** Everything that remains after the smallest head is above it. *)
Lemma smallest_below fs i f k v g b :
  Forall (fun f => ascending (f_entries f) /\ 0 <= f_taken f) fs ->
  smallest (heads fs) (Some (i, k, v)) -> fs !! i = Some f -> remaining f = (k, v) :: remaining (taken_one f) ->
  g ∈ alter taken_one i fs -> b ∈ remaining g ->
  k ≺ b.1 /\ exists g', g' ∈ fs /\ b ∈ remaining g'.
Proof.
  rewrite Forall_forall. intros Hf [_ Hmin] Hfi Hr Hg Hbg.
  pose proof (list_elem_of_lookup_2 _ _ _ Hfi) as Hfin.
  destruct (elem_of_alter fs i f g Hfi Hg) as [->|(j & Hji & Hj)].
  - pose proof (remaining_sorted f (proj1 (Hf f Hfin))) as Hrs. rewrite Hr in Hrs.
    apply StronglySorted_inv in Hrs as [_ Hrf]. rewrite Forall_forall in Hrf. split; [by apply (Hrf b)|].
    exists f. split; [done|]. rewrite Hr. by constructor.
  - pose proof (list_elem_of_lookup_2 _ _ _ Hj) as Hgin. split; [|by exists g].
    destruct (head (remaining g)) as [[k' v']|] eqn:Hgh;
      [|destruct (remaining g); [by apply not_elem_of_nil in Hbg|done]].
    assert (k ≺ k') by (apply (Hmin j k' v'); [unfold heads; by rewrite list_lookup_fmap, Hj, <- Hgh|done]).
    destruct (head_least (remaining g) (k', v') b (remaining_sorted g (proj1 (Hf g Hgin))) Hgh Hbg) as [->|?]; [done|].
    by eapply cmp_trans.
Qed.
(** Taking the smallest head keeps the output sorted and below the rest. *)
Lemma merge_take out fs i k v :
  merge_inv out fs -> smallest (heads fs) (Some (i, k, v)) ->
  exists f, fs !! i = Some f /\ head (remaining f) = Some (k, v) /\
    merge_inv (out ++ [(k, v)]) (alter taken_one i fs) /\
    at_or_above (fst <$> last out) k = false.
Proof.
  intros [Hs Hb Ha Hf] Hsm. pose proof Hsm as [Hi _]. unfold heads in Hi. rewrite list_lookup_fmap in Hi.
  destruct (fs !! i) as [f|] eqn:Hfi; [|done]. injection Hi as Hh.
  pose proof (list_elem_of_lookup_2 _ _ _ Hfi) as Hfin. pose proof Hf as Hf'.
  rewrite Forall_forall in Hf. destruct (Hf f Hfin) as [Hfs Hft].
  pose proof (remaining_cons f (k, v) Hft Hh) as Hr.
  exists f. assert ((k, v) ∈ remaining f) as Hkv by (rewrite Hr; constructor).
  assert (forall b, last out = Some b -> b.1 ≺ k) as Hlast.
  { intros b Hlb. apply (Hb b f (k, v)); [|done|done]. apply last_Some in Hlb as [l ->].
    apply elem_of_app. right. by apply list_elem_of_singleton. }
  split; [done|]. split; [done|]. split; [|by apply ascending_prior]. split.
  - by apply ascending_snoc.
  - intros a g b [Ha'| ->%list_elem_of_singleton]%elem_of_app Hg Hbg;
      destruct (smallest_below fs i f k v g b Hf' Hsm Hfi Hr Hg Hbg) as [? (g' & Hg' & Hbg')]; [|done].
    by apply (Hb a g' b).
  - unfold all_entries. rewrite entries_alter. rewrite <- app_assoc. cbn [app].
    rewrite <- (concat_alter fs i f (k, v) Hfi Hr). done.
  - apply Forall_forall. intros g Hg. destruct (elem_of_alter fs i f g Hfi Hg) as [->|(j & _ & Hj)].
    + cbn. split; [done|lia].
    + apply Hf. by eapply list_elem_of_lookup_2.
Qed.

(** ** The whole state of a merge under way. *)
Record merging (h : RunHeader) (reads : nat -> RunSource) (out : Page) (fs : list Feed)
    (inputs : list MergeInput) (w : RunWriter) (v : bytes) : Prop := {
  mr_writable : writable h;
  mr_count : h_entries h = zlen (all_entries fs);
  mr_serving : serving reads 0 fs;
  mr_inputs : Forall2 input_inv fs inputs;
  mr_merge : merge_inv out fs;
  mr_writer : writer_inv h out w v;
}.
Definition distinct_keys (l : Page) : Prop := NoDup (fst <$> l).

Lemma ascending_distinct (l : Page) : ascending l -> distinct_keys l.
Proof.
  unfold distinct_keys. induction 1 as [|a l _ IH Hf]; [constructor|]. cbn. constructor; [|done].
  rewrite list_elem_of_fmap. intros (b & Hab & Hb). rewrite Forall_forall in Hf.
  specialize (Hf b Hb). apply lt_ne in Hf. done.
Qed.
Lemma distinct_perm l k : l ≡ₚ k -> distinct_keys l -> distinct_keys k.
Proof. unfold distinct_keys. by intros ->. Qed.
Lemma concat_overlap (ls : list Page) i j l l' a b :
  i <> j -> ls !! i = Some l -> ls !! j = Some l' -> a ∈ l -> b ∈ l' -> a.1 = b.1 ->
  ~ distinct_keys (concat ls).
Proof.
  unfold distinct_keys. revert i j. induction ls as [|x ls IH]; intros i j Hij Hi Hj Ha Hb Hab Hnd; [done|].
  assert (forall j l a, ls !! j = Some l -> a ∈ l -> a.1 ∈ fst <$> concat ls) as Hin.
  { intros j' m c Hm Hc. apply list_elem_of_fmap. exists c. split; [done|].
    apply list_elem_of_In, in_concat. exists m. rewrite <- !list_elem_of_In.
    split; [|done]. by eapply list_elem_of_lookup_2. }
  cbn [concat] in Hnd. rewrite fmap_app in Hnd. apply NoDup_app in Hnd as (_ & Hx & Hnd).
  destruct i as [|i], j as [|j]; cbn in Hi, Hj; simplify_eq.
  - apply (Hx a.1); [by apply list_elem_of_fmap_2|]. rewrite Hab. by eapply Hin.
  - apply (Hx b.1); [by apply list_elem_of_fmap_2|]. rewrite <- Hab. by eapply Hin.
  - eapply (IH i j); eauto.
Qed.
Lemma clash_overlap out fs : merge_inv out fs -> clash (heads fs) -> ~ distinct_keys (all_entries fs).
Proof.
  intros [_ _ Hall _] (i & j & k & v & v' & Hij & Hi & Hj) Hd. symmetry in Hall. apply (distinct_perm _ _ Hall) in Hd.
  unfold distinct_keys in Hd. rewrite fmap_app in Hd. apply NoDup_app in Hd as (_ & _ & Hd).
  unfold heads in *. rewrite list_lookup_fmap in Hi, Hj.
  destruct (fs !! i) as [f|] eqn:Hf; [|done]. destruct (fs !! j) as [g|] eqn:Hg; [|done].
  injection Hi as Hi. injection Hj as Hj.
  eapply (concat_overlap (remaining <$> fs) i j (remaining f) (remaining g) (k, v) (k, v')); try done.
  - by rewrite list_lookup_fmap, Hf.
  - by rewrite list_lookup_fmap, Hg.
  - destruct (remaining f); [done|]. injection Hi as ->. constructor.
  - destruct (remaining g); [done|]. injection Hj as ->. constructor.
Qed.
Lemma advance_all fs inputs i f :
  Forall2 (fun f m => input_inv f m /\ (remaining f <> [] -> loaded m)) fs inputs ->
  fs !! i = Some f -> remaining f <> [] ->
  (exists source, HoldsRun source (f_header f) (f_entries f)) ->
  Forall2 input_inv (alter taken_one i fs) (alter advance i inputs).
Proof.
  intros Hf Hi Hr [source Hs]. revert i Hi. induction Hf as [|g m fs inputs [Hg Hl] Hf IH]; intros [|i] Hi; try done.
  - injection Hi as ->. cbn. constructor; [|by eapply Forall2_impl; [exact Hf|intros ?? [? _]]].
    apply (advance_inv source f m Hg (Hl Hr)).
  - cbn. constructor; [done|]. by apply IH.
Qed.
Lemma serving_alter reads fs i :
  serving reads 0 fs -> serving reads 0 (alter taken_one i fs).
Proof.
  intros Hs j g Hj. destruct (decide (j = i)) as [->|Hne].
  - rewrite list_lookup_alter_eq in Hj. destruct (fs !! i) as [f|] eqn:Hf; [|done].
    cbn in Hj. injection Hj as <-. by apply (Hs i f).
  - rewrite list_lookup_alter_ne in Hj by done. by apply Hs.
Qed.
Lemma merging_room h reads out fs inputs w v i f kv :
  merging h reads out fs inputs w v -> fs !! i = Some f -> head (remaining f) = Some kv ->
  zlen out < h_entries h /\ slot_ok kv.
Proof.
  intros [Hw Hc Hs Hi Hm Hwr] Hf Hh. destruct (remaining f) as [|x l] eqn:Hr; [done|]. injection Hh as ->.
  assert (kv ∈ remaining f) as Hin by (rewrite Hr; constructor). split.
  - rewrite Hc. destruct Hm as [_ _ Hall _]. unfold zlen. rewrite <- Hall, length_app.
    assert (kv ∈ concat (remaining <$> fs)) as Hk.
    { apply list_elem_of_In, in_concat. exists (remaining f). rewrite <- !list_elem_of_In. split; [|done].
      apply list_elem_of_fmap. exists f. split; [done|]. by eapply list_elem_of_lookup_2. }
    destruct (concat _); [by apply not_elem_of_nil in Hk|]. cbn. lia.
  - destruct (Hs i f Hf) as [(_ & _ & _ & Hslots) _ _ _]. rewrite Forall_forall in Hslots. apply Hslots.
    unfold remaining, zdrop in Hin. rewrite <- (take_drop (Z.to_nat (f_taken f))). apply elem_of_app. by right.
Qed.
(** One round of the loop: the smallest entry moves to the output, or the
    inputs are exhausted, or two inputs share a key. *)
Lemma merging_round h reads out fs inputs w v :
  merging h reads out fs inputs w v ->
  match best_of reads 0 inputs None with
  | Ok (inputs', Some (i, key, value)) =>
      exists w' v', push w key value v = Ok (w', v') /\
        merging h reads (out ++ [(key, value)]) (alter taken_one i fs) (alter advance i inputs') w' v'
  | Ok (_, None) => out ≡ₚ all_entries fs
  | Err e => e = Corrupt /\ ~ distinct_keys (all_entries fs)
  | Panic => False
  end.
Proof.
  intros Hmg. pose proof Hmg as [Hw Hc Hs Hi Hm Hwr].
  destruct (best_of_spec reads 0 inputs fs None Hi Hs) as (inputs' & Hi' & ->).
  pose proof (best_head_spec (heads fs) [] None ltac:(done)) as Hb. cbn [length app] in Hb.
  destruct (best_head 0 (heads fs) None) as [[[[i k] x]|]|e|]; cbn [obind]; [| | |done].
  - destruct (merge_take out fs i k x Hm Hb) as (f & Hf & Hh & Hm' & Hprior).
    destruct (merging_room _ _ _ _ _ _ _ i f (k, x) Hmg Hf Hh) as [Hroom Hslot].
    destruct (push_spec h out w v k x Hw Hwr Hslot Hprior Hroom) as (w' & v' & Hp & Hwr').
    exists w', v'. split; [done|]. split; try done.
    + rewrite Hc. unfold all_entries. by rewrite entries_alter.
    + by apply serving_alter.
    + apply (advance_all fs inputs' i f); [done|done| |by eexists; apply (Hs i f)].
      intros Hn. by rewrite Hn in Hh.
  - destruct Hm as [_ _ Hall _]. assert (concat (remaining <$> fs) = []) as Hnil; [|by rewrite Hnil, app_nil_r in Hall].
    apply concat_nil_Forall, Forall_fmap, Forall_forall. intros f [j Hj]%list_elem_of_lookup. cbn.
    assert (head (remaining f) = None) as Hn; [|by destruct (remaining f)].
    apply (Hb j). unfold heads. by rewrite list_lookup_fmap, Hj.
  - destruct Hb as [-> Hcl]. split; [done|]. by eapply clash_overlap.
Qed.
Lemma push_pages h out w v k x w' v' :
  writer_inv h out w v -> writer_inv h (out ++ [(k, x)]) w' v' ->
  w_written_pages w <= w_written_pages w' <= w_written_pages w + 1.
Proof.
  intros Ha Hb.
  pose proof (wi_full _ _ _ _ Ha). pose proof (wi_full _ _ _ _ Hb).
  pose proof (wi_short _ _ _ _ Ha) as Hsa. pose proof (wi_short _ _ _ _ Hb) as Hsb.
  pose proof (wi_pages _ _ _ _ Ha). pose proof (wi_pages _ _ _ _ Hb).
  rewrite (wi_page _ _ _ _ Ha), zlen_zdrop in Hsa by (unfold PAGE_ENTRIES in *; lia).
  rewrite (wi_page _ _ _ _ Hb), zlen_zdrop in Hsb by (unfold PAGE_ENTRIES in *; lia).
  rewrite zlen_app, zlen_cons, zlen_nil in *. unfold PAGE_ENTRIES in *. lia.
Qed.
(** What a finished merge has written. *)
Definition merged (h : RunHeader) (fs : list Feed) (digest file : bytes) : Prop :=
  exists out, ascending out /\ out ≡ₚ all_entries fs /\ Forall slot_ok out /\
    digest = sha256 (run_body h out) /\ file = run_bytes h out.
Lemma step_loop_spec h reads target rounds out fs inputs w v :
  merging h reads out fs inputs w v ->
  w_written_pages w <= target -> target * 31 - zlen out <= Z.of_nat rounds ->
  match step_loop rounds reads target inputs w v with
  | Ok (Some digest, _, file) => merged h fs digest file
  | Ok (None, m, v') =>
      exists out' fs' inputs' w', m = mkMerge inputs' (Some w') /\ merging h reads out' fs' inputs' w' v' /\
        f_entries <$> fs' = f_entries <$> fs /\ w_written_pages w' = target
  | Err e => e = Corrupt /\ ~ distinct_keys (all_entries fs)
  | Panic => False
  end.
Proof.
  revert out fs inputs w v. induction rounds as [|rounds IH]; intros out fs inputs w v Hmg Ht Hr; cbn [step_loop].
  - pose proof (mr_writer _ _ _ _ _ _ _ Hmg) as Hwr. pose proof (wi_full _ _ _ _ Hwr) as Hfull.
    pose proof (wi_short _ _ _ _ Hwr) as Hshort. pose proof (wi_pages _ _ _ _ Hwr).
    rewrite (wi_page _ _ _ _ Hwr), zlen_zdrop in Hshort by (unfold PAGE_ENTRIES in *; lia).
    unfold PAGE_ENTRIES in *. rewrite decide_False by lia.
    exists out, fs, inputs, w. split_and!; [done|done|done|lia].
  - destruct (decide (w_written_pages w < target)) as [Hlt|Hge].
    2:{ exists out, fs, inputs, w. split_and!; [done|done|done|lia]. }
    pose proof (merging_round h reads out fs inputs w v Hmg) as Hround.
    destruct (best_of reads 0 inputs None) as [[inputs' [[[i k] x]|]]|e|]; cbn [obind]; [| |done|done].
    + destruct Hround as (w' & v' & -> & Hmg'). cbn [obind].
      pose proof (push_pages _ _ _ _ _ _ _ _ (mr_writer _ _ _ _ _ _ _ Hmg) (mr_writer _ _ _ _ _ _ _ Hmg')).
      specialize (IH _ _ _ _ _ Hmg' ltac:(lia) ltac:(rewrite zlen_app, zlen_cons, zlen_nil; lia)).
      unfold merged, all_entries in IH |- *. rewrite entries_alter in IH. exact IH.
    + destruct Hmg as [Hw Hc Hs Hi Hm Hwr]. rewrite (finish_spec h out); [|done|done|].
      * cbn [obind]. exists out. split_and!; try done; [apply Hm|apply Hwr].
      * rewrite Hc. unfold zlen. by rewrite Hround.
Qed.
Lemma merging_pages h reads out fs inputs w v :
  merging h reads out fs inputs w v -> 0 <= w_written_pages w <= h_pages h.
Proof.
  intros [(_ & _ & Hu & Hp & _) Hc Hs Hi Hm Hwr]. pose proof (wi_full _ _ _ _ Hwr) as Hfull.
  pose proof (wi_pages _ _ _ _ Hwr). unfold uint, PAGE_ENTRIES in *.
  pose proof (div_ceil_spec (h_entries h) 31 ltac:(lia) ltac:(lia)) as Hd. rewrite <- Hp in Hd.
  assert (zlen out <= h_entries h); [|lia].
  rewrite Hc. destruct Hm as [_ _ Hall _]. unfold zlen. rewrite <- Hall, length_app. lia.
Qed.
Lemma step_spec h reads out fs inputs w v pages :
  merging h reads out fs inputs w v -> 0 <= pages -> h_pages h + pages < 2 ^ 64 ->
  match step reads (mkMerge inputs (Some w)) v pages with
  | Ok (Some digest, _, file) => merged h fs digest file
  | Ok (None, m, v') =>
      exists out' fs' inputs' w', m = mkMerge inputs' (Some w') /\ merging h reads out' fs' inputs' w' v' /\
        f_entries <$> fs' = f_entries <$> fs /\ w_written_pages w' = w_written_pages w + pages
  | Err e => e = Corrupt /\ ~ distinct_keys (all_entries fs)
  | Panic => False
  end.
Proof.
  intros Hmg Hp Hb. pose proof (merging_pages _ _ _ _ _ _ _ Hmg).
  pose proof (wi_full _ _ _ _ (mr_writer _ _ _ _ _ _ _ Hmg)). unfold PAGE_ENTRIES in *.
  unfold step. cbn [ok_or m_writer m_inputs obind]. rewrite wrap_small by (unfold uint; lia).
  apply (step_loop_spec h reads _ _ out fs inputs w v Hmg); unfold PAGE_ENTRIES; lia.
Qed.
Lemma run_steps_spec h reads pages n out fs inputs w v :
  merging h reads out fs inputs w v -> 0 < pages -> h_pages h + pages < 2 ^ 64 ->
  h_pages h - w_written_pages w < Z.of_nat n * pages ->
  match run_steps n reads (mkMerge inputs (Some w)) v pages with
  | Ok (Some (digest, file)) => merged h fs digest file
  | Err e => e = Corrupt /\ ~ distinct_keys (all_entries fs)
  | _ => False
  end.
Proof.
  intros Hmg Hp Hb. revert out fs inputs w v Hmg.
  induction n as [|n IH]; intros out fs inputs w v Hmg Hn; cbn [run_steps].
  { pose proof (merging_pages _ _ _ _ _ _ _ Hmg). lia. }
  pose proof (step_spec h reads out fs inputs w v pages Hmg ltac:(lia) Hb) as Hs.
  destruct (step _ _ _ _) as [[[[digest|] m] v']|e|]; cbn [obind]; [done| |done|done].
  destruct Hs as (out' & fs' & inputs' & w' & -> & Hmg' & He & Hw').
  specialize (IH _ _ _ _ _ Hmg' ltac:(rewrite Hw'; lia)).
  unfold merged, all_entries in *. by rewrite He in IH.
Qed.
End Correct.

(** ** Merging run files in memory. *)
Definition memory_reads (files : list bytes) (i : nat) : RunSource :=
  match files !! i with Some file => slice_source file | None => fun _ _ => Panic end.

Section Files.
Context `{HasherOk}.
Implicit Types runs : list (RunHeader * Page).

Definition run_files runs : list bytes := (fun r => run_bytes r.1 r.2) <$> runs.
Definition run_inputs runs : list MergeInput :=
  (fun r => merge_input_new r.1 (sha256 (run_body r.1 r.2))) <$> runs.
Definition runs_entries runs : Page := concat (snd <$> runs).
(** The header of the merged run. *)
Definition merged_header (level : Z) (installation_id : bytes) runs (first last : Z) : RunHeader :=
  header_new level installation_id first last (zlen (runs_entries runs)).
Definition feeds runs : list Feed := (fun r => mkFeed r.1 r.2 0) <$> runs.

Lemma slice_holds h entries :
  run_input h entries -> ascending entries -> HoldsRun (slice_source (run_bytes h entries)) h entries.
Proof.
  intros (Hh & Hf & Hn & Hs) Ha. split; [done|done| |by apply run_trailer].
  by apply slice_page.
Qed.
(** The readable, sorted run files a merge starts from. *)
Definition sound_runs runs : Prop := Forall (fun r => run_input r.1 r.2 /\ ascending r.2) runs.
Lemma sum_entries runs (acc : Z) :
  sound_runs runs -> 0 <= acc -> acc + zlen (runs_entries runs) < 2 ^ 64 ->
  foldl (fun a i => wrap 64 (a + h_entries (mi_header i))) acc (run_inputs runs) =
  acc + zlen (runs_entries runs).
Proof.
  unfold runs_entries. intros Hs. revert acc.
  induction Hs as [|[h es] runs [(_ & _ & Hn & _) _] _ IH]; intros acc Ha Hl; cbn [run_inputs fmap list_fmap foldl concat fst snd mi_header merge_input_new] in *.
  { rewrite zlen_nil. lia. }
  rewrite zlen_app in *. pose proof (zlen_nonneg es).
  pose proof (zlen_nonneg (concat (snd <$> runs))).
  rewrite <- Hn, wrap_small by (unfold uint; lia). rewrite IH; lia.
Qed.
Lemma merging_start level installation_id runs first last :
  sound_runs runs ->
  minimum ((fun r => h_first r.1) <$> runs) = Some first ->
  maximum ((fun r => h_last r.1) <$> runs) = Some last ->
  let h := merged_header level installation_id runs first last in
  writable h ->
  exists w v, merge_new (run_inputs runs) level installation_id ([] : bytes) =
      Ok (mkMerge (run_inputs runs) (Some w), v) /\
    w_written_pages w = 0 /\
    merging h (memory_reads (run_files runs)) [] (feeds runs) (run_inputs runs) w v.
Proof.
  intros Hs Hmin Hmax h Hw. unfold merge_new.
  assert (forall f : RunHeader -> Z, (fun i => f (mi_header i)) <$> run_inputs runs = (fun r => f r.1) <$> runs) as Hf
    by (intros f; unfold run_inputs; by rewrite <- list_fmap_compose).
  rewrite !Hf, Hmin, Hmax. cbn [ok_or obind].
  assert (zlen (runs_entries runs) < 2 ^ 64) as Hsum by (destruct Hw as (_ & _ & [_ Hu] & _); done).
  rewrite (sum_entries runs 0 Hs) by (done || lia). rewrite Z.add_0_l. fold (merged_header level installation_id runs first last).
  destruct (writer_new_inv h Hw) as (w & v & Hn & Hwi). unfold h in Hn. rewrite Hn. cbn [obind].
  exists w, v. split; [done|]. split.
  { unfold writer_new in Hn. inv_ok. by subst w. }
  split; [done| | | | |done].
  - unfold all_entries, feeds, h, merged_header, runs_entries. cbn. do 2 f_equal.
    by rewrite <- list_fmap_compose.
  - intros i f Hi. unfold feeds in Hi. rewrite list_lookup_fmap in Hi. cbn [Nat.add].
    destruct (runs !! i) as [r|] eqn:Hr; [|done]. cbn in Hi. injection Hi as <-. cbn.
    unfold memory_reads, run_files. rewrite list_lookup_fmap, Hr. cbn.
    unfold sound_runs in Hs. rewrite Forall_forall in Hs.
    destruct (Hs r (list_elem_of_lookup_2 _ _ _ Hr)). by apply slice_holds.
  - unfold feeds, run_inputs. apply Forall2_fmap, Forall_Forall2_diag.
    eapply Forall_impl; [exact Hs|]. intros r [(Hh & Hfit & _) _].
    apply input_new_inv. by apply writable_pages, header_ok_writable.
  - split; [constructor|intros ??? []%not_elem_of_nil| |].
    + unfold all_entries, feeds. cbn [app]. rewrite <- !list_fmap_compose. done.
    + unfold feeds. apply Forall_fmap. eapply Forall_impl; [exact Hs|]. intros r [_ Ha]. by split.
Qed.

(** C16: merging readable run files with distinct keys succeeds in any step
    size: after enough steps (one more than the output pages over the step
    size) it returns, and the output file and digest are exactly what
    [encode_run] writes for the sorted union of all entries, under the
    smallest first and the largest last sequence of the inputs. *)
Theorem merge_is_sorted_union level installation_id runs first last n pages :
  let h := merged_header level installation_id runs first last in
  sound_runs runs -> writable h -> distinct_keys (runs_entries runs) ->
  minimum ((fun r => h_first r.1) <$> runs) = Some first ->
  maximum ((fun r => h_last r.1) <$> runs) = Some last ->
  0 < pages -> h_pages h + pages < 2 ^ 64 -> h_pages h < Z.of_nat n * pages ->
  exists m v out file digest,
    merge_new (run_inputs runs) level installation_id [] = Ok (m, v) /\
    run_steps n (memory_reads (run_files runs)) m v pages = Ok (Some (digest, file)) /\
    ascending out /\ out ≡ₚ runs_entries runs /\
    encode_run level installation_id first last out = Ok (file, digest).
Proof.
  intros h Hs Hw Hd Hmin Hmax Hp Hb Hn. subst h.
  destruct (merging_start level installation_id runs first last Hs Hmin Hmax Hw) as (w & v & Hnew & Hw0 & Hmg).
  pose proof (run_steps_spec _ _ pages n _ _ _ _ _ Hmg Hp Hb ltac:(rewrite Hw0; lia)) as Hr.
  assert (all_entries (feeds runs) = runs_entries runs) as Hall
    by (unfold all_entries, feeds, runs_entries; by rewrite <- list_fmap_compose).
  destruct (run_steps _ _ _ _ _) as [[[digest file]|]|e|] eqn:Hrun; [|done| |done].
  2:{ destruct Hr as [_ []]. by rewrite Hall. }
  destruct Hr as (out & Ho & Hperm & Hslots & -> & ->). rewrite Hall in Hperm.
  eexists _, _, out, _, _. split; [exact Hnew|]. split; [exact Hrun|]. split; [done|]. split; [done|].
  assert (zlen out = zlen (runs_entries runs)) as Hlen by (unfold zlen; by rewrite Hperm).
  unfold merged_header. rewrite <- Hlen.
  apply encode_run_cases; [|done|done]. rewrite Hlen. exact Hw.
Qed.

(** a key that two input runs share, or one run twice, ends the merge with
    [Corrupt]: no step size, and no order of the inputs, lets a duplicate key
    through. *)
Theorem merge_rejects_duplicates level installation_id runs first last n pages :
  let h := merged_header level installation_id runs first last in
  sound_runs runs -> writable h -> ~ distinct_keys (runs_entries runs) ->
  minimum ((fun r => h_first r.1) <$> runs) = Some first ->
  maximum ((fun r => h_last r.1) <$> runs) = Some last ->
  0 < pages -> h_pages h + pages < 2 ^ 64 -> h_pages h < Z.of_nat n * pages ->
  exists m v,
    merge_new (run_inputs runs) level installation_id [] = Ok (m, v) /\
    run_steps n (memory_reads (run_files runs)) m v pages = Err Corrupt.
Proof.
  intros h Hs Hw Hd Hmin Hmax Hp Hb Hn. subst h.
  destruct (merging_start level installation_id runs first last Hs Hmin Hmax Hw) as (w & v & Hnew & Hw0 & Hmg).
  pose proof (run_steps_spec _ _ pages n _ _ _ _ _ Hmg Hp Hb ltac:(rewrite Hw0; lia)) as Hr.
  assert (all_entries (feeds runs) = runs_entries runs) as Hall
    by (unfold all_entries, feeds, runs_entries; by rewrite <- list_fmap_compose).
  eexists _, _. split; [done|].
  destruct (run_steps _ _ _ _ _) as [[[digest file]|]|e|]; [|done| |done].
  - destruct Hr as (out & Ho & Hperm & _). destruct Hd. rewrite <- Hall.
    eapply distinct_perm; [exact Hperm|]. by apply ascending_distinct.
  - by destruct Hr as [-> _].
Qed.

(** one step is bounded work: it either completes the merge, or stops with
    exactly [pages] more output pages written, or reports [Corrupt]; it never
    panics and its loop needs at most 31 rounds a page. *)
Theorem merge_step_bounded h reads out fs inputs w v pages :
  merging h reads out fs inputs w v -> 0 <= pages -> h_pages h + pages < 2 ^ 64 ->
  match step reads (mkMerge inputs (Some w)) v pages with
  | Ok (Some digest, _, file) => merged h fs digest file
  | Ok (None, m, _) =>
      exists w', m_writer m = Some w' /\ w_written_pages w' = w_written_pages w + pages
  | Err e => e = Corrupt
  | Panic => False
  end.
Proof.
  intros Hmg Hp Hb. pose proof (step_spec h reads out fs inputs w v pages Hmg Hp Hb) as Hs.
  destruct (step _ _ _ _) as [[[[digest|] m] v']|e|]; [done| | |done].
  - destruct Hs as (out' & fs' & inputs' & w' & -> & _ & _ & Hw). by exists w'.
  - by destruct Hs.
Qed.
End Files.

(** ** Witnesses: a two-page run and a short run that interleave. *)
Module MergeDemo.
Export RunDemo.
Definition short : Page := [entry_at 0; entry_at 100].
Definition short_header : RunHeader := header_new 0 (replicate 16 9) 45 50 2.
Definition runs : list (RunHeader * Page) := [(header, entries); (short_header, short)].
Definition twice : list (RunHeader * Page) := [(header, entries); (header, entries)].
Lemma short_slots : Forall slot_ok short.
Proof. repeat constructor; try by_decide; apply value_array. Qed.
Lemma long_input : run_input header entries.
Proof. refine (conj header_is_ok (conj _ (conj _ slots))); [by_decide|reflexivity]. Qed.
Lemma short_input : run_input short_header short.
Proof.
  refine (conj _ (conj _ (conj _ short_slots))); [|by_decide|reflexivity].
  unfold header_ok. split_and!; by_decide || by vm_compute.
Qed.
Lemma short_ascending : ascending short.
Proof. apply (ascendingb_spec []); [constructor|]. by vm_compute. Qed.
Lemma runs_sound : sound_runs runs.
Proof.
  apply Forall_cons. split; [exact (conj long_input entries_ascending)|].
  apply Forall_singleton. exact (conj short_input short_ascending).
Qed.
Lemma twice_sound : sound_runs twice.
Proof.
  apply Forall_cons. split; [exact (conj long_input entries_ascending)|].
  apply Forall_singleton. exact (conj long_input entries_ascending).
Qed.
Lemma runs_writable : writable (merged_header 1 (replicate 16 9) runs 5 50).
Proof. unfold writable, run_fits. split_and!; by_decide || by vm_compute. Qed.
Lemma twice_writable : writable (merged_header 1 (replicate 16 9) twice 5 44).
Proof. unfold writable, run_fits. split_and!; by_decide || by vm_compute. Qed.
Lemma merge_is_sorted_union_witness :
  exists m v out file digest,
    merge_new (run_inputs runs) 1 (replicate 16 9) [] = Ok (m, v) /\
    run_steps 3 (memory_reads (run_files runs)) m v 1 = Ok (Some (digest, file)) /\
    ascending out /\ out ≡ₚ runs_entries runs /\
    encode_run 1 (replicate 16 9) 5 50 out = Ok (file, digest).
Proof.
  apply (merge_is_sorted_union 1 (replicate 16 9) runs 5 50 3 1 runs_sound runs_writable);
    [by_decide|done|done|done|by vm_compute|by vm_compute].
Defined.
Lemma merge_rejects_duplicates_witness :
  exists m v,
    merge_new (run_inputs twice) 1 (replicate 16 9) [] = Ok (m, v) /\
    run_steps 4 (memory_reads (run_files twice)) m v 1 = Err Corrupt.
Proof.
  apply (merge_rejects_duplicates 1 (replicate 16 9) twice 5 44 4 1 twice_sound twice_writable);
    [by_decide|done|done|done|by vm_compute|by vm_compute].
Defined.
Lemma merge_step_bounded_witness :
  exists w v, w_written_pages w = 0 /\
  match step (memory_reads (run_files runs)) (mkMerge (run_inputs runs) (Some w)) v 1 with
  | Ok (Some digest, _, file) =>
      merged (merged_header 1 (replicate 16 9) runs 5 50) (feeds runs) digest file
  | Ok (None, m, _) => exists w', m_writer m = Some w' /\ w_written_pages w' = w_written_pages w + 1
  | Err e => e = Corrupt
  | Panic => False
  end.
Proof.
  destruct (merging_start 1 (replicate 16 9) runs 5 50 runs_sound eq_refl eq_refl runs_writable)
    as (w & v & _ & Hw & Hm).
  exists w, v. split; [exact Hw|].
  apply (merge_step_bounded _ _ _ _ _ w v 1 Hm); [lia|by vm_compute].
Defined.
End MergeDemo.
