(* ===== verification/Ledger.v ===== *)
(** * The payload quota ledger (asura-storage/src/payload/store.rs).

    [State] is the value behind the ledger's mutex; every method of [Ledger]
    is one atomic function on it. [BTreeMap] is a [gmap] iterated in key order
    ([btree_iter]); [Arc<AtomicU64>] is an address into a heap of counters that
    the capture workers write. Listeners are left out: a space event wakes
    paused captures and changes no ledger field. The theorems: the accounting
    identity of [used] over every sequence of operations in the order their
    callers keep, the quota bound of admission, which jobs may be expired, and
    the lifetime of model reference holds. *)
From stdpp Require Import prelude list gmap sorting.
From Stdlib Require Import ZArith Lia.
From S2P Require Import Prelude Collections PayloadId Codec.

Definition MIB : Z := 1024 * 1024.
Definition RESERVATION_STEP : Z := MIB.
Definition RECOVERY_RESERVE : Z := 16 * MIB.
Definition MAX_EXPIRY_PER_ATTEMPT : nat := 128.
Definition MAX_MODEL_HOLD_JOBS : nat := 256.
Definition MAX_MODEL_HOLD_CONVERSATIONS : nat := 64.

Abbreviation PayloadId := bytes.

Definition effective_quota (configured retained free : Z) : Z :=
  Z.min configured (saturating_sub (saturating_add64 retained free) RECOVERY_RESERVE).

(** ** Entries. *)
Inductive CaptureState : Type := CapComplete | CapIncomplete | CapUnconfirmed | CapNotStarted.
#[export] Instance CaptureState_eq_dec : EqDecision CaptureState.
Proof. solve_decision. Defined.
Inductive PayloadState : Type :=
| PLive | PComplete | PIncomplete | PUnverifiedPrefix | PCorrupt | PMissing.
Definition from_capture (state : CaptureState) : PayloadState :=
  match state with
  | CapComplete => PComplete
  | CapIncomplete => PIncomplete
  | CapUnconfirmed | CapNotStarted => PUnverifiedPrefix
  end.
Inductive Location : Type := LStaging | LObjects | LNone.
(** [Arc<AtomicU64>]: the address of a shared counter. *)
Abbreviation Arc := nat.
Abbreviation Heap := (gmap nat Z).
Record PayloadEntry : Type := mkPayload {
  p_call : Id; p_operation : Id; p_state : PayloadState; p_location : Location; p_total : Z;
  p_digest : option bytes; p_watermark : option Arc;
}.
Record CallEntry : Type := mkCall {
  c_payloads : PayloadId * PayloadId; c_reservation : Z; c_retained : Z; c_last_use : Z;
  c_settled : bool; c_expirable : bool; c_ended : bool; c_holds : Z; c_deleting : bool;
}.
Record Victim : Type := mkVictim { v_call : Id; v_payloads : PayloadId * PayloadId }.
Inductive Short : Type := ShortQuota.

(** ** Model reference holds. *)
Record TurnHolds : Type := mkHolds {
  t_operation : Id; t_current : gset Id; t_previous : gset Id; t_moved : Z;
}.
Definition holds_default : TurnHolds := mkHolds (zeros 16) ∅ ∅ 0.
Record ModelRefs : Type := mkRefs { r_conversations : gmap Id TurnHolds; r_clock : Z }.

Definition insert_jobs (current : gset Id) (jobs : list Id) : gset Id :=
  foldl (fun s job => if decide (MAX_MODEL_HOLD_JOBS <= size s)%nat then s else s ∪ {[job]}) current jobs.
(** The first part of [ModelRefs::add]: a new conversation past the bound
    releases the one that moved to a new turn longest ago. *)
Definition refs_evict (refs : ModelRefs) (conversation : Id) : gmap Id TurnHolds * bool :=
  if decide (r_conversations refs !! conversation = None /\
             (MAX_MODEL_HOLD_CONVERSATIONS <= size (r_conversations refs))%nat)
  then match min_by_key (fun e : Id * TurnHolds => (t_moved e.2, e.1)) (btree_iter (r_conversations refs)) with
       | Some oldest => (delete oldest.1 (r_conversations refs), true)
       | None => (r_conversations refs, false)
       end
  else (r_conversations refs, false).
(** The second part: the turn of [operation] and its jobs. *)
Definition refs_enter (conversations : gmap Id TurnHolds) (clock : Z) (conversation operation : Id)
    (jobs : list Id) : ModelRefs :=
  let holds := default holds_default (conversations !! conversation) in
  let holds := if decide (t_operation holds <> operation)
               then mkHolds operation ∅ (t_current holds) clock
               else holds in
  let holds := mkHolds (t_operation holds) (insert_jobs (t_current holds) jobs)
                 (t_previous holds) (t_moved holds) in
  mkRefs (<[conversation := holds]> conversations) clock.
Definition refs_add (refs : ModelRefs) (conversation operation : Id) (jobs : list Id) : ModelRefs * bool :=
  let '(conversations, evicted) := refs_evict refs conversation in
  (refs_enter conversations (wrap 64 (r_clock refs + 1)) conversation operation jobs, evicted).
Definition refs_held (refs : ModelRefs) (job : Id) : bool :=
  existsb (fun e : Id * TurnHolds => bool_decide (job ∈ t_current e.2) || bool_decide (job ∈ t_previous e.2))
    (map_to_list (r_conversations refs)).

(** ** State. *)
Record State : Type := mkState {
  s_quota : Z; s_used : Z; s_calls : gmap Id CallEntry; s_payloads : gmap PayloadId PayloadEntry;
  s_expired : gset PayloadId; s_deleted : gset PayloadId; s_pinned : gset Id; s_refs : ModelRefs;
}.
Definition state_default : State := mkState 0 0 ∅ ∅ ∅ ∅ ∅ (mkRefs ∅ 0).
Definition with_used (used : Z) (s : State) : State :=
  mkState (s_quota s) used (s_calls s) (s_payloads s) (s_expired s) (s_deleted s) (s_pinned s) (s_refs s).
Definition with_calls (calls : gmap Id CallEntry) (s : State) : State :=
  mkState (s_quota s) (s_used s) calls (s_payloads s) (s_expired s) (s_deleted s) (s_pinned s) (s_refs s).
Definition with_payloads (payloads : gmap PayloadId PayloadEntry) (s : State) : State :=
  mkState (s_quota s) (s_used s) (s_calls s) payloads (s_expired s) (s_deleted s) (s_pinned s) (s_refs s).
Definition with_expired (expired : gset PayloadId) (s : State) : State :=
  mkState (s_quota s) (s_used s) (s_calls s) (s_payloads s) expired (s_deleted s) (s_pinned s) (s_refs s).
Definition with_deleted (deleted : gset PayloadId) (s : State) : State :=
  mkState (s_quota s) (s_used s) (s_calls s) (s_payloads s) (s_expired s) deleted (s_pinned s) (s_refs s).
Definition with_deleting (b : bool) (c : CallEntry) : CallEntry :=
  mkCall (c_payloads c) (c_reservation c) (c_retained c) (c_last_use c) (c_settled c) (c_expirable c)
    (c_ended c) (c_holds c) b.
Definition with_holds (holds : Z) (c : CallEntry) : CallEntry :=
  mkCall (c_payloads c) (c_reservation c) (c_retained c) (c_last_use c) (c_settled c) (c_expirable c)
    (c_ended c) holds (c_deleting c).

Definition available (s : State) : Z := saturating_sub (s_quota s) (s_used s).
(** The filter of [State::select]. *)
Definition candidate (s : State) (e : Id * CallEntry) : bool :=
  let '(id, c) := e in
  c_settled c && c_expirable c && (c_holds c =? 0) && negb (c_deleting c) &&
  bool_decide (id ∉ s_pinned s) && negb (refs_held (s_refs s) id).
Definition victim_order (a b : Id * CallEntry) : comparison :=
  cmp_then (cmp (c_last_use a.2) (c_last_use b.2))
    (cmp_then (cmp (c_retained b.2) (c_retained a.2))
       (cmp (c_payloads a.2).1 (c_payloads b.2).1)).
Definition candidates (s : State) : list (Id * CallEntry) :=
  sort_by victim_order (filter (fun e => candidate s e = true) (btree_iter (s_calls s))).
Fixpoint cover (need available : Z) (l : list (Id * CallEntry)) (chosen : list Id) : option (list Id) :=
  match l with
  | [] => None
  | (id, call) :: l =>
      let chosen := chosen ++ [id] in
      let available := saturating_add64 available (c_retained call) in
      if decide (available >= need) then Some chosen else cover need available l chosen
  end.
Definition select (s : State) (need : Z) : option (list Id) :=
  if decide (available s >= need) then Some []
  else cover need (available s) (take MAX_EXPIRY_PER_ATTEMPT (candidates s)) [].
Fixpoint take_victims (s : State) (chosen : list Id) : outcome Short (State * list Victim) :=
  match chosen with
  | [] => Ok (s, [])
  | id :: chosen =>
      match s_calls s !! id with
      | None => Panic
      | Some call =>
          let s := with_calls (<[id := with_deleting true call]> (s_calls s)) s in
          let s := with_used (saturating_sub (s_used s) (c_retained call)) s in
          let? (s, victims) := take_victims s chosen in
          Ok (s, mkVictim id (c_payloads call) :: victims)
      end
  end.

(** ** [Ledger]'s operations. *)
Definition set_effective_quota (s : State) (configured free : Z) : State * Z :=
  let retained := foldl (fun a e => wrap 64 (a + c_retained e.2)) 0 (btree_iter (s_calls s)) in
  let quota := effective_quota configured retained free in
  (mkState quota (s_used s) (s_calls s) (s_payloads s) (s_expired s) (s_deleted s) (s_pinned s) (s_refs s),
   quota).
(** Two payload entries inserted in stream order. *)
Definition insert_payloads (ids : PayloadId * PayloadId) (a b : PayloadEntry) (s : State) : State :=
  with_payloads (<[ids.2 := b]> (<[ids.1 := a]> (s_payloads s))) s.
Definition remove_payloads (ids : PayloadId * PayloadId) (s : State) : State :=
  with_payloads (delete ids.2 (delete ids.1 (s_payloads s))) s.
(** [arcs]: the addresses of the two new watermarks. *)
Definition admit_job `{Hasher} (s : State) (installation job operation : Id) (arcs : Arc * Arc)
  : outcome Short (State * list Victim) :=
  let? chosen := ok_or ShortQuota (select s RESERVATION_STEP) in
  let? (s, victims) := take_victims s chosen in
  let s := with_used (wrap 64 (s_used s + RESERVATION_STEP)) s in
  let payloads := job_payloads installation job in
  let s := with_calls (<[job := mkCall payloads RESERVATION_STEP 0 0 false false false 0 false]> (s_calls s)) s in
  let entry arc := mkPayload job operation PLive LNone 0 None (Some arc) in
  Ok (insert_payloads payloads (entry arcs.1) (entry arcs.2) s, victims).
Definition grow (s : State) (call : Id) : outcome Short (State * list Victim) :=
  match s_calls s !! call with
  | None => Err ShortQuota
  | Some entry =>
      if c_settled entry then Err ShortQuota else
      let? chosen := ok_or ShortQuota (select s RESERVATION_STEP) in
      let? (s, victims) := take_victims s chosen in
      let s := with_used (wrap 64 (s_used s + RESERVATION_STEP)) s in
      let grown c := mkCall (c_payloads c) (wrap 64 (c_reservation c + RESERVATION_STEP)) (c_retained c)
                       (c_last_use c) (c_settled c) (c_expirable c) (c_ended c) (c_holds c) (c_deleting c) in
      Ok (with_calls (alter grown call (s_calls s)) s, victims)
  end.
Definition victim_deleted (s : State) (victim : Victim) (deleted : bool) : State :=
  if deleted then
    let s := with_calls (delete (v_call victim) (s_calls s)) s in
    let s := remove_payloads (v_payloads victim) s in
    with_expired (s_expired s ∪ {[(v_payloads victim).1; (v_payloads victim).2]}) s
  else
    match s_calls s !! v_call victim with
    | None => s
    | Some call =>
        let call' := mkCall (c_payloads call) (c_reservation call) (c_retained call) (c_last_use call)
                       (c_settled call) false (c_ended call) (c_holds call) false in
        let s := with_calls (<[v_call victim := call']> (s_calls s)) s in
        with_used (saturating_add64 (s_used s) (c_retained call)) s
    end.
Definition restore_victim (s : State) (victim : Victim) : State :=
  match s_calls s !! v_call victim with
  | Some call =>
      if c_deleting call then
        let s := with_calls (<[v_call victim := with_deleting false call]> (s_calls s)) s in
        with_used (saturating_add64 (s_used s) (c_retained call)) s
      else s
  | None => s
  end.
Definition restore_victims (s : State) (victims : list Victim) : State := foldl restore_victim s victims.
Definition release (s : State) (call : Id) : State :=
  match s_calls s !! call with
  | None => s
  | Some entry =>
      let s := with_calls (delete call (s_calls s)) s in
      let s := with_used (saturating_sub (s_used s) (wrap 64 (c_reservation entry + c_retained entry))) s in
      remove_payloads (c_payloads entry) s
  end.
Definition settle_payload (capture : CaptureState) (stream : Z * option bytes) (p : PayloadEntry) : PayloadEntry :=
  mkPayload (p_call p) (p_operation p) (from_capture capture) (p_location p) stream.1 stream.2
    (if decide (capture <> CapUnconfirmed) then None else p_watermark p).
Definition settle (s : State) (call : Id) (capture : CaptureState)
    (streams : (Z * option bytes) * (Z * option bytes)) (last_use : Z) (held : bool) : State :=
  match s_calls s !! call with
  | None => s
  | Some entry =>
      let reservation := c_reservation entry in
      let retained := wrap 64 (streams.1.1 + streams.2.1) in
      let entry' := mkCall (c_payloads entry) 0 retained last_use true
                      (bool_decide (capture <> CapUnconfirmed) || c_ended entry) (c_ended entry)
                      (if held then wrap 32 (c_holds entry + 1) else c_holds entry) (c_deleting entry) in
      let s := with_calls (<[call := entry']> (s_calls s)) s in
      let s := with_used (saturating_add64 (saturating_sub (s_used s) reservation) retained) s in
      with_payloads (alter (settle_payload capture streams.2) (c_payloads entry).2
        (alter (settle_payload capture streams.1) (c_payloads entry).1 (s_payloads s))) s
  end.
(** [watermark.load(Acquire)]; an address is live while an [Arc] holds it. *)
Definition load (heap : Heap) (arc : Arc) : Z := default 0 (heap !! arc).
Definition abandon_payload (heap : Heap) (call : Id) (p : PayloadEntry) : PayloadEntry :=
  if decide (p_call p = call) then
    mkPayload (p_call p) (p_operation p) (p_state p) (p_location p)
      (match p_watermark p with Some w => load heap w | None => p_total p end) (p_digest p) None
  else p.
Definition abandoned (heap : Heap) (s : State) (call : Id) (stored : Z) : State :=
  let s := match s_calls s !! call with
           | None => s
           | Some entry =>
               let entry' := mkCall (c_payloads entry) (c_reservation entry) stored (c_last_use entry)
                               (c_settled entry) (c_expirable entry) (c_ended entry) (c_holds entry)
                               (c_deleting entry) in
               let s := with_calls (<[call := entry']> (s_calls s)) s in
               with_used (saturating_add64 (saturating_sub (s_used s) (c_retained entry)) stored) s
           end in
  with_payloads (abandon_payload heap call <$> s_payloads s) s.
Definition end_call (c : CallEntry) : CallEntry :=
  mkCall (c_payloads c) (c_reservation c) (c_retained c) (c_last_use c) (c_settled c)
    (if c_settled c then true else c_expirable c) true (c_holds c) (c_deleting c).
Definition operation_ended (s : State) (operation : Id) : State :=
  let calls : gset Id :=
    list_to_set (p_call ∘ snd <$> filter (fun e => p_operation e.2 = operation) (map_to_list (s_payloads s))) in
  with_calls (map_imap (fun id c => Some (if decide (id ∈ calls) then end_call c else c)) (s_calls s)) s.
Definition unhold (s : State) (call : Id) : State :=
  with_calls (alter (fun c => with_holds (saturating_sub (c_holds c) 1) c) call (s_calls s)) s.
Definition hold_payload (s : State) (id : PayloadId) : State * option PayloadEntry :=
  match s_payloads s !! id with
  | None => (s, None)
  | Some entry =>
      match s_calls s !! p_call entry with
      | None => (s, None)
      | Some call =>
          if c_deleting call then (s, None)
          else (with_calls (<[p_call entry := with_holds (wrap 32 (c_holds call + 1)) call]> (s_calls s)) s,
                Some entry)
      end
  end.
Definition release_payload (s : State) (id : PayloadId) : State :=
  match s_payloads s !! id with Some p => unhold s (p_call p) | None => s end.
Definition set_location (s : State) (ids : list PayloadId) (location : Location) : State :=
  with_payloads (foldl (fun m id => alter (fun p => mkPayload (p_call p) (p_operation p) (p_state p) location
    (p_total p) (p_digest p) (p_watermark p)) id m) (s_payloads s) ids) s.
Definition recovered (s : State) (call operation : Id)
    (a b : PayloadId * PayloadState * Location * Z * option bytes) (last_use bytes_on_disk : Z)
    (expirable : bool) : State :=
  let ids := (a.1.1.1.1, b.1.1.1.1) in
  let s := with_calls (<[call := mkCall ids 0 bytes_on_disk last_use true expirable true 0 false]> (s_calls s)) s in
  let s := with_used (wrap 64 (s_used s + bytes_on_disk)) s in
  let entry p := mkPayload call operation p.1.1.1.2 p.1.1.2 p.1.2 p.2 None in
  insert_payloads ids (entry a) (entry b) s.
Definition set_pinned (s : State) (job : Id) (pinned : bool) : State :=
  mkState (s_quota s) (s_used s) (s_calls s) (s_payloads s) (s_expired s) (s_deleted s)
    (if pinned then s_pinned s ∪ {[job]} else s_pinned s ∖ {[job]}) (s_refs s).
Definition hold_model_refs (s : State) (conversation operation : Id) (jobs : list Id) : State * bool :=
  let '(refs, evicted) := refs_add (s_refs s) conversation operation jobs in
  (mkState (s_quota s) (s_used s) (s_calls s) (s_payloads s) (s_expired s) (s_deleted s) (s_pinned s) refs,
   evicted).
Definition begin_delete (s : State) (payloads : PayloadId * PayloadId) (job : Id)
  : outcome unit (State * option Victim) :=
  if is_some_and (fun entry => negb (c_settled entry)) (s_calls s !! job) then Err tt else
  let s := with_deleted (s_deleted s ∪ {[payloads.1; payloads.2]}) s in
  match s_calls s !! job with
  | None => Ok (s, None)
  | Some entry =>
      if c_deleting entry then Ok (s, None) else
      let s := with_calls (<[job := with_deleting true entry]> (s_calls s)) s in
      let s := with_used (saturating_sub (s_used s) (c_retained entry)) s in
      Ok (s, Some (mkVictim job (c_payloads entry)))
  end.
Definition recovered_deleted (s : State) (payloads : PayloadId * PayloadId) : State :=
  with_deleted (s_deleted s ∪ {[payloads.1; payloads.2]}) s.
Definition stored (heap : Heap) (s : State) (job : Id) : option (Z * Z) :=
  match s_calls s !! job with
  | None => None
  | Some c =>
      let bytes_of id := match s_payloads s !! id with
                         | None => 0
                         | Some p => match p_watermark p with Some w => load heap w | None => p_total p end
                         end in
      Some (bytes_of (c_payloads c).1, bytes_of (c_payloads c).2)
  end.

(** ** Deleting files (PayloadStore::delete_victim, delete_job).
    The files are outside the ledger: [remove object id] is what removing the
    object or the staging file of a payload answers. *)
Inductive PayloadError : Type := NoSpace | Exists | Absent | Unsafe | Unsupported | Io (code : Z).
Definition remove_files (remove : bool -> PayloadId -> outcome PayloadError unit) (ids : PayloadId * PayloadId)
  : outcome PayloadError unit :=
  foldl (fun result r => match r with Ok _ | Err Absent => result | Err error => Err error | Panic => Panic end)
    (Ok tt) [remove true ids.1; remove false ids.1; remove true ids.2; remove false ids.2].
Definition is_ok {E A} (r : outcome E A) : bool := match r with Ok _ => true | _ => false end.
Definition delete_victim (remove : bool -> PayloadId -> outcome PayloadError unit) (s : State) (victim : Victim)
  : State * outcome PayloadError unit :=
  let result := remove_files remove (v_payloads victim) in
  (victim_deleted s victim (is_ok result), result).
Inductive DeleteError : Type := NotSettled | Payload (e : PayloadError).
Definition delete_job `{Hasher} (remove : bool -> PayloadId -> outcome PayloadError unit) (s : State)
    (installation job : Id) : State * outcome DeleteError unit :=
  let payloads := job_payloads installation job in
  match begin_delete s payloads job with
  | Ok (s, victim) =>
      let result := remove_files remove payloads in
      let s := match victim with Some victim => victim_deleted s victim (is_ok result) | None => s end in
      (s, map_err Payload result)
  | Err _ => (s, Err NotSettled)
  | Panic => (s, Panic)
  end.

(** ** Accounting.
    A call counts its reservation, and its retained bytes unless its files are
    being deleted. *)
Definition counted (c : CallEntry) : Z :=
  c_reservation c + (if c_deleting c then 0 else c_retained c).
Definition total (m : gmap Id CallEntry) : Z := map_fold (fun _ c acc => counted c + acc) 0 m.

Lemma total_empty : total ∅ = 0.
Proof. apply map_fold_empty. Qed.
Lemma total_new m id c : m !! id = None -> total (<[id := c]> m) = counted c + total m.
Proof.
  intros. unfold total. rewrite (map_fold_insert_L (fun _ c acc => counted c + acc)); [done|intros; lia|done].
Qed.
Lemma total_delete m id c : m !! id = Some c -> total m = counted c + total (delete id m).
Proof.
  intros. unfold total. rewrite (map_fold_delete_L (fun _ c acc => counted c + acc) 0 id c m); [done|intros; lia|done].
Qed.
Lemma total_update m id c c' :
  m !! id = Some c -> total (<[id := c']> m) = total m - counted c + counted c'.
Proof.
  intros Hc. rewrite (total_delete m id c Hc), <- insert_delete_eq.
  rewrite total_new by apply lookup_delete_eq. lia.
Qed.
Lemma total_map f m :
  (forall id c, m !! id = Some c -> counted (f id c) = counted c) ->
  total (map_imap (fun id c => Some (f id c)) m) = total m.
Proof.
  induction m as [|id c m Hid IH] using map_ind; intros Hf.
  { by rewrite map_imap_empty. }
  rewrite map_imap_insert_Some with (y := f id c) by done.
  rewrite !total_new, IH, Hf; [done|by rewrite lookup_insert_eq| |done|].
  - intros j d Hj. apply Hf. rewrite lookup_insert_ne; [done|]. intros ->. congruence.
  - by rewrite map_lookup_imap, Hid.
Qed.

Definition call_ok (c : CallEntry) : Prop :=
  0 <= c_reservation c /\ 0 <= c_retained c /\
  (c_settled c = true -> c_reservation c = 0) /\ (c_deleting c = true -> c_settled c = true).
Record ledger_inv (s : State) : Prop := {
  li_used : s_used s = total (s_calls s);
  li_max : s_used s <= U64_MAX;
  li_calls : map_Forall (fun _ c => call_ok c) (s_calls s);
}.
Lemma counted_nonneg c : call_ok c -> 0 <= counted c.
Proof. intros (? & ? & _). unfold counted. destruct (c_deleting c); lia. Qed.
Lemma total_nonneg m : map_Forall (fun _ c => call_ok c) m -> 0 <= total m.
Proof.
  induction m as [|id c m Hid IH] using map_ind; intros Hm; [by rewrite total_empty|].
  rewrite total_new by done. rewrite map_Forall_insert in Hm by done. destruct Hm as [Hc Hm].
  pose proof (counted_nonneg c Hc). specialize (IH Hm). lia.
Qed.
Lemma counted_le s id c :
  ledger_inv s -> s_calls s !! id = Some c -> 0 <= counted c <= s_used s.
Proof.
  intros [-> _ Hm] Hc. rewrite (total_delete _ _ _ Hc).
  pose proof (total_nonneg (delete id (s_calls s)) ltac:(by apply map_Forall_delete)).
  pose proof (counted_nonneg c (Hm id c Hc)). lia.
Qed.
(** The ledger after one call changed and [used] with it. *)
Lemma ledger_inv_update s s' id c c' :
  ledger_inv s -> s_calls s !! id = Some c -> s_calls s' = <[id := c']> (s_calls s) -> call_ok c' ->
  s_used s' = s_used s - counted c + counted c' -> s_used s' <= U64_MAX -> ledger_inv s'.
Proof.
  intros [Hu Hm Hf] Hc Hcalls Hok Hused Hle. split; [|done|].
  - rewrite Hcalls, (total_update _ _ c c') by done. lia.
  - rewrite Hcalls. by apply map_Forall_insert_2.
Qed.
Lemma ledger_inv_same s s' :
  ledger_inv s -> s_calls s' = s_calls s -> s_used s' = s_used s -> ledger_inv s'.
Proof. intros [Hu Hm Hf] Hc He. split; rewrite ?Hc, ?He; done. Qed.
Lemma ledger_inv_remove s s' id c :
  ledger_inv s -> s_calls s !! id = Some c -> s_calls s' = delete id (s_calls s) ->
  s_used s' = s_used s - counted c -> ledger_inv s'.
Proof.
  intros Hi Hc Hcalls Hused. pose proof (counted_le s id c Hi Hc). destruct Hi as [Hu Hm Hf]. split.
  - rewrite Hcalls. rewrite (total_delete _ _ _ Hc) in Hu. lia.
  - lia.
  - rewrite Hcalls. by apply map_Forall_delete.
Qed.
Lemma ledger_inv_add s s' id c :
  ledger_inv s -> s_calls s !! id = None -> s_calls s' = <[id := c]> (s_calls s) -> call_ok c ->
  s_used s' = s_used s + counted c -> s_used s' <= U64_MAX -> ledger_inv s'.
Proof.
  intros [Hu Hm Hf] Hc Hcalls Hok Hused Hle. split; [|done|].
  - rewrite Hcalls, total_new by done. lia.
  - rewrite Hcalls. by apply map_Forall_insert_2.
Qed.
Lemma saturating_sub_le a b : b <= a -> saturating_sub a b = a - b.
Proof. unfold saturating_sub. lia. Qed.
Lemma saturating_add_le a b : a + b <= U64_MAX -> saturating_add64 a b = a + b.
Proof. unfold saturating_add64. lia. Qed.

(** ** Victims. *)
Lemma alter_insert_eq {V} (f : V -> V) (m : gmap Id V) id c :
  m !! id = Some c -> <[id := f c]> m = alter f id m.
Proof.
  intros Hc. apply map_eq. intros j. destruct (decide (j = id)) as [->|Hne].
  - by rewrite lookup_insert_eq, lookup_alter_eq, Hc.
  - by rewrite lookup_insert_ne, lookup_alter_ne by done.
Qed.
Definition retained_of (s : State) (id : Id) : Z :=
  match s_calls s !! id with Some c => c_retained c | None => 0 end.
Definition retained_sum (s : State) (ids : list Id) : Z := foldr (fun id a => retained_of s id + a) 0 ids.
Definition idle (s : State) (id : Id) : Prop :=
  exists c, s_calls s !! id = Some c /\ c_deleting c = false /\ c_settled c = true.
(** The state after marking the chosen calls. *)
Definition marked (s : State) (chosen : list Id) : State :=
  with_used (s_used s - retained_sum s chosen)
    (with_calls (foldl (fun m id => alter (with_deleting true) id m) (s_calls s) chosen) s).
Lemma take_victims_spec s chosen :
  ledger_inv s -> NoDup chosen -> Forall (idle s) chosen ->
  exists victims, take_victims s chosen = Ok (marked s chosen, victims) /\
    v_call <$> victims = chosen /\ ledger_inv (marked s chosen).
Proof.
  revert s. induction chosen as [|id chosen IH]; intros s Hi Hnd Hidle; cbn [take_victims].
  { exists []. unfold marked. cbn. rewrite Z.sub_0_r. by destruct s. }
  apply NoDup_cons in Hnd as [Hid Hnd]. apply Forall_cons in Hidle as [(c & Hc & Hdel & Hset) Hidle].
  rewrite Hc. set (s1 := with_used _ _).
  destruct (li_calls s Hi id c Hc) as (Hr0 & Hret & Hset0 & _). specialize (Hset0 Hset).
  pose proof (counted_le s id c Hi Hc) as Hle. unfold counted in Hle. rewrite Hdel in Hle.
  assert (s_used s1 = s_used s - c_retained c) as Hu1 by (cbn; rewrite saturating_sub_le; lia).
  assert (s_calls s1 = <[id := with_deleting true c]> (s_calls s)) as Hc1 by done.
  assert (ledger_inv s1) as Hi1.
  { eapply (ledger_inv_update s s1 id c (with_deleting true c)); try done.
    - rewrite Hu1. unfold counted. rewrite Hdel. cbn. lia.
    - rewrite Hu1. destruct Hi. lia. }
  assert (forall j, j ∈ chosen -> s_calls s1 !! j = s_calls s !! j) as Hsame.
  { intros j Hj. rewrite Hc1, lookup_insert_ne; [done|]. intros ->. done. }
  destruct (IH s1 Hi1 Hnd) as (victims & -> & Hv & Hm).
  { apply Forall_forall. intros j Hj. rewrite Forall_forall in Hidle. destruct (Hidle j Hj) as (d & Hd & Hrest).
    exists d. by rewrite Hsame. }
  cbn [obind].
  assert (retained_sum s1 chosen = retained_sum s chosen) as Hsum.
  { clear -Hsame. induction chosen as [|j chosen IH]; [done|]. cbn. unfold retained_of at 1 3.
    rewrite Hsame by constructor. f_equal. apply IH. intros. apply Hsame. by constructor. }
  assert (marked s1 chosen = marked s (id :: chosen)) as Hmk.
  { unfold marked. cbn [retained_sum foldr foldl]. fold (retained_sum s chosen).
    unfold retained_of. rewrite Hc, Hsum, Hu1, Hc1, (alter_insert_eq _ _ id c Hc).
    unfold with_used, with_calls, s1. cbn [s_quota s_used s_calls s_payloads s_expired s_deleted s_pinned s_refs].
    f_equal. lia. }
  rewrite Hmk in *. eexists. split; [done|]. split; [by cbn; rewrite Hv|done].
Qed.

(** ** Selection. *)
Definition list_retained (l : list (Id * CallEntry)) : Z := foldr (fun e a => c_retained e.2 + a) 0 l.
Lemma list_retained_cons e l : list_retained (e :: l) = c_retained e.2 + list_retained l.
Proof. done. Qed.
#[global] Arguments list_retained : simpl never.
Lemma list_retained_nonneg l : Forall (fun e => 0 <= c_retained e.2) l -> 0 <= list_retained l.
Proof. induction 1; [done|]. rewrite list_retained_cons. lia. Qed.
Lemma cover_spec need avail l chosen :
  need <= U64_MAX -> avail < need -> Forall (fun e => 0 <= c_retained e.2) l ->
  match cover need avail l chosen with
  | Some r =>
      exists k, (k <= length l)%nat /\ r = chosen ++ (take k l).*1 /\
        need <= avail + list_retained (take k l) /\
        (forall j, (j < k)%nat -> avail + list_retained (take j l) < need)
  | None => avail + list_retained l < need
  end.
Proof.
  intros Hneed Hav Hl. revert avail chosen Hav.
  induction Hl as [|[id c] l Hc _ IH]; intros avail chosen Hav; cbn [cover snd] in *.
  { change (list_retained []) with 0. lia. }
  rewrite list_retained_cons. cbn [snd]. destruct (decide _) as [Hge|Hlt].
  - exists 1%nat. cbn [take length]. rewrite list_retained_cons, take_0.
    change (list_retained []) with 0.     unfold saturating_add64 in Hge. cbn [snd]. split_and!; [lia|done|lia|].
    intros j Hj. replace j with 0%nat by lia. change (list_retained (take 0 _)) with 0. lia.
  - assert (saturating_add64 avail (c_retained c) = avail + c_retained c) as Hs
      by (unfold saturating_add64 in *; lia).
    rewrite Hs in *. specialize (IH (avail + c_retained c) (chosen ++ [id]) ltac:(lia)).
    destruct (cover _ _ _ _) as [r|]; [|lia].
    destruct IH as (k & Hk & -> & Hge & Hmin). exists (S k). cbn [take length fmap list_fmap fst].
    rewrite <- app_assoc, list_retained_cons. cbn [snd].
    split_and!; [lia|done|lia|]. intros [|j] Hj; cbn [take].
    { change (list_retained []) with 0. lia. }
    rewrite list_retained_cons. cbn [snd]. specialize (Hmin j ltac:(lia)). lia.
Qed.
Lemma candidates_elem s id c :
  (id, c) ∈ candidates s <-> s_calls s !! id = Some c /\ candidate s (id, c) = true.
Proof.
  unfold candidates. rewrite sort_by_perm, list_elem_of_filter, btree_iter_perm, elem_of_map_to_list. naive_solver.
Qed.
Lemma candidates_nodup s : NoDup (candidates s).*1.
Proof.
  unfold candidates. rewrite sort_by_perm.
  eapply sublist_NoDup; [|apply fmap_sublist, sublist_filter].
  rewrite btree_iter_perm. apply NoDup_fst_map_to_list.
Qed.
Lemma retained_sum_list s l :
  Forall (fun e => s_calls s !! e.1 = Some e.2) l -> retained_sum s l.*1 = list_retained l.
Proof.
  induction 1 as [|[id c] l Hc _ IH]; [done|]. rewrite list_retained_cons, <- IH. cbn in *.
  unfold retained_of at 1. by rewrite Hc.
Qed.
Definition oldest (s : State) (k : nat) : list (Id * CallEntry) := take k (candidates s).
Lemma oldest_elem s k : Forall (fun e => s_calls s !! e.1 = Some e.2 /\ candidate s e = true) (oldest s k).
Proof.
  apply Forall_take, Forall_forall. intros [id c] He. by apply candidates_elem in He.
Qed.
(** What [select] answers: the shortest prefix of the candidates, oldest
    first, that covers the shortfall, among the first 128. *)
Lemma select_spec s need :
  ledger_inv s -> need <= U64_MAX ->
  match select s need with
  | Some chosen =>
      exists k, (k <= MAX_EXPIRY_PER_ATTEMPT)%nat /\ chosen = (oldest s k).*1 /\
        need <= available s + list_retained (oldest s k) /\
        (forall j, (j < k)%nat -> available s + list_retained (oldest s j) < need)
  | None => available s + list_retained (oldest s MAX_EXPIRY_PER_ATTEMPT) < need
  end.
Proof.
  intros Hi Hneed. unfold select. destruct (decide _) as [Hge|Hlt].
  { exists 0%nat. unfold oldest. rewrite take_0. change (list_retained []) with 0.
    split_and!; [lia|done|lia|lia]. }
  pose proof (cover_spec need (available s) (oldest s MAX_EXPIRY_PER_ATTEMPT) [] Hneed ltac:(lia)) as Hc.
  fold (oldest s MAX_EXPIRY_PER_ATTEMPT). destruct (cover _ _ _ _) as [chosen|].
  - destruct Hc as (k & Hk & -> & Hge & Hmin).
    { eapply Forall_impl; [apply oldest_elem|]. intros [id c] [Hl _]. apply (li_calls s Hi _ _ Hl). }
    unfold oldest in *. rewrite length_take in Hk. exists k. rewrite take_take in *.
    replace (k `min` MAX_EXPIRY_PER_ATTEMPT)%nat with k in * by lia. split_and!; [lia|done|done|].
    intros j Hj. specialize (Hmin j Hj). rewrite take_take in Hmin.
    by replace (j `min` MAX_EXPIRY_PER_ATTEMPT)%nat with j in Hmin by lia.
  - apply Hc. eapply Forall_impl; [apply oldest_elem|]. intros [id c] [Hl _]. apply (li_calls s Hi _ _ Hl).
Qed.
Lemma oldest_idle s k : Forall (idle s) (oldest s k).*1.
Proof.
  apply Forall_fmap. eapply Forall_impl; [apply oldest_elem|]. intros [id c] [Hl Hc]. exists c.
  unfold candidate in Hc. rewrite !andb_true_iff in Hc. split_and!; [done| |tauto].
  destruct Hc as [[[_ Hd] _] _]. by apply negb_true_iff in Hd.
Qed.
Lemma oldest_nodup s k : NoDup (oldest s k).*1.
Proof.
  eapply sublist_NoDup; [apply (candidates_nodup s)|]. apply fmap_sublist, sublist_take.
Qed.
(** Reserving one step: the victims are the oldest candidates, the shortest
    prefix that covers it, and [used] moves by exactly the difference. *)
Lemma reserve_spec s :
  ledger_inv s ->
  match select s RESERVATION_STEP with
  | Some chosen =>
      exists k victims, (k <= MAX_EXPIRY_PER_ATTEMPT)%nat /\ chosen = (oldest s k).*1 /\
        take_victims s chosen = Ok (marked s chosen, victims) /\ v_call <$> victims = chosen /\
        ledger_inv (marked s chosen) /\
        s_used (marked s chosen) = s_used s - list_retained (oldest s k) /\
        s_used (marked s chosen) + RESERVATION_STEP <= Z.max (s_quota s) (s_used s) /\
        (forall j, (j < k)%nat -> available s + list_retained (oldest s j) < RESERVATION_STEP)
  | None => available s + list_retained (oldest s MAX_EXPIRY_PER_ATTEMPT) < RESERVATION_STEP
  end.
Proof.
  intros Hi. pose proof (select_spec s RESERVATION_STEP Hi ltac:(by vm_compute)) as Hs.
  destruct (select s RESERVATION_STEP) as [chosen|]; [|done].
  destruct Hs as (k & Hk & -> & Hge & Hmin).
  destruct (take_victims_spec s (oldest s k).*1 Hi (oldest_nodup s k) (oldest_idle s k)) as (victims & Ht & Hv & Hm).
  assert (s_used (marked s (oldest s k).*1) = s_used s - list_retained (oldest s k)) as Hu.
  { cbn. rewrite retained_sum_list; [done|]. eapply Forall_impl; [apply oldest_elem|]. by intros e [? _]. }
  exists k, victims. split_and!; try done. rewrite Hu. unfold available, saturating_sub in Hge. lia.
Qed.

(** ** Operations as steps. A ledger history is a sequence of operations; the
    state after an operation that reports an error is the state before it. *)
Inductive Op : Type :=
| OpQuota (configured free : Z)
| OpAdmit (installation job operation : Id) (arcs : Arc * Arc)
| OpGrow (call : Id)
| OpVictimDeleted (victim : Victim) (deleted : bool)
| OpRestore (victim : Victim)
| OpRelease (call : Id)
| OpSettle (call : Id) (capture : CaptureState) (streams : (Z * option bytes) * (Z * option bytes))
    (last_use : Z) (held : bool)
| OpAbandoned (heap : Heap) (call : Id) (stored : Z)
| OpEnded (operation : Id)
| OpUnhold (call : Id)
| OpHold (id : PayloadId)
| OpReleasePayload (id : PayloadId)
| OpLocation (ids : list PayloadId) (location : Location)
| OpRecovered (call operation : Id) (a b : PayloadId * PayloadState * Location * Z * option bytes)
    (last_use bytes_on_disk : Z) (expirable : bool)
| OpPin (job : Id) (pinned : bool)
| OpHoldRefs (conversation operation : Id) (jobs : list Id)
| OpBeginDelete (payloads : PayloadId * PayloadId) (job : Id)
| OpRecoveredDeleted (payloads : PayloadId * PayloadId).
Definition or_same {E A} (s : State) (r : outcome E (State * A)) : State :=
  match r with Ok (s', _) => s' | _ => s end.
Definition run_op `{Hasher} (s : State) (o : Op) : State :=
  match o with
  | OpQuota configured free => (set_effective_quota s configured free).1
  | OpAdmit installation job operation arcs => or_same s (admit_job s installation job operation arcs)
  | OpGrow call => or_same s (grow s call)
  | OpVictimDeleted victim deleted => victim_deleted s victim deleted
  | OpRestore victim => restore_victim s victim
  | OpRelease call => release s call
  | OpSettle call capture streams last_use held => settle s call capture streams last_use held
  | OpAbandoned heap call stored => abandoned heap s call stored
  | OpEnded operation => operation_ended s operation
  | OpUnhold call => unhold s call
  | OpHold id => (hold_payload s id).1
  | OpReleasePayload id => release_payload s id
  | OpLocation ids location => set_location s ids location
  | OpRecovered call operation a b last_use bytes_on_disk expirable =>
      recovered s call operation a b last_use bytes_on_disk expirable
  | OpPin job pinned => set_pinned s job pinned
  | OpHoldRefs conversation operation jobs => (hold_model_refs s conversation operation jobs).1
  | OpBeginDelete payloads job => or_same s (begin_delete s payloads job)
  | OpRecoveredDeleted payloads => recovered_deleted s payloads
  end.
(** The order the callers keep. A job is admitted or recovered once; a victim
    deletion is reported once, while the victim is marked; a release is of a
    call that is not being deleted; a settlement is the first and comes before
    any abandoned bytes; an abandoned worker reports before its call is deleted.
    Byte counts of files are below 2^64 in total. *)
Definition allowed (s : State) (o : Op) : Prop :=
  match o with
  | OpQuota configured _ => u64 configured
  | OpAdmit _ job _ _ => s_calls s !! job = None
  | OpVictimDeleted victim _ =>
      forall c, s_calls s !! v_call victim = Some c ->
        c_deleting c = true /\ s_used s + c_retained c <= U64_MAX
  | OpRestore victim =>
      forall c, s_calls s !! v_call victim = Some c -> s_used s + c_retained c <= U64_MAX
  | OpRelease call => forall c, s_calls s !! call = Some c -> c_deleting c = false
  | OpSettle call _ streams _ _ =>
      0 <= streams.1.1 /\ 0 <= streams.2.1 /\
      forall c, s_calls s !! call = Some c ->
        c_settled c = false /\ c_retained c = 0 /\
        s_used s - c_reservation c + (streams.1.1 + streams.2.1) <= U64_MAX
  | OpAbandoned _ call stored =>
      0 <= stored /\
      forall c, s_calls s !! call = Some c ->
        c_deleting c = false /\ s_used s - c_retained c + stored <= U64_MAX
  | OpRecovered call _ _ _ _ bytes_on_disk _ =>
      s_calls s !! call = None /\ 0 <= bytes_on_disk /\ s_used s + bytes_on_disk <= U64_MAX
  | _ => True
  end.

Section Preserve.
Context `{Hasher}.
Implicit Types s : State.

Lemma quota_bound s : u64 (s_quota s) -> ledger_inv s -> Z.max (s_quota s) (s_used s) <= U64_MAX.
Proof. intros [_ Hq] [_ Hm _]. unfold U64_MAX in *. lia. Qed.
Lemma marked_lookup s chosen id :
  id ∉ chosen -> s_calls (marked s chosen) !! id = s_calls s !! id.
Proof.
  intros Hn. cbn. generalize (s_calls s) as m. induction chosen as [|j chosen IH]; intros m; [done|].
  apply not_elem_of_cons in Hn as [Hj Hn]. cbn. rewrite IH by done. by apply lookup_alter_ne.
Qed.
Lemma oldest_settled s k id : id ∈ (oldest s k).*1 -> exists c, s_calls s !! id = Some c /\ c_settled c = true.
Proof.
  pose proof (oldest_idle s k) as Hf. rewrite Forall_forall in Hf. intros Hid.
  destruct (Hf id Hid) as (c & Hc & _ & Hs). eauto.
Qed.
Lemma admit_inv s installation job operation arcs :
  ledger_inv s -> u64 (s_quota s) -> s_calls s !! job = None ->
  ledger_inv (or_same s (admit_job s installation job operation arcs)).
Proof.
  intros Hi Hq Hfresh. pose proof (reserve_spec s Hi) as Hr. pose proof (quota_bound s Hq Hi) as Hb.
  unfold admit_job. destruct (select s RESERVATION_STEP) as [chosen|]; [|done]. cbn [ok_or obind].
  destruct Hr as (k & victims & _ & -> & -> & _ & Hm & Hu & Hle & _). cbn [obind or_same].
  set (s1 := marked _ _) in *. pose proof (li_used _ Hm) as Hu1. pose proof (total_nonneg _ (li_calls _ Hm)).
  unfold RESERVATION_STEP, MIB, U64_MAX in *.
  eapply (ledger_inv_add s1); [done| |done|done| |].
  - unfold s1. rewrite marked_lookup; [done|]. intros Hin. destruct (oldest_settled s k job Hin) as (c & Hc & _). congruence.
  - cbn [insert_payloads with_payloads with_used with_calls s_used]. rewrite wrap_small by (unfold uint; lia).
    unfold counted. cbn. lia.
  - cbn [insert_payloads with_payloads with_used with_calls s_used]. rewrite wrap_small by (unfold uint; lia).
    unfold U64_MAX. lia.
Qed.
Lemma grow_inv s call :
  ledger_inv s -> u64 (s_quota s) -> ledger_inv (or_same s (grow s call)).
Proof.
  intros Hi Hq. pose proof (reserve_spec s Hi) as Hr. pose proof (quota_bound s Hq Hi) as Hb.
  unfold grow. destruct (s_calls s !! call) as [c|] eqn:Hc; [|done]. destruct (c_settled c) eqn:Hs; [done|].
  destruct (select s RESERVATION_STEP) as [chosen|]; [|done]. cbn [ok_or obind].
  destruct Hr as (k & victims & _ & -> & -> & _ & Hm & Hu & Hle & _). cbn [obind or_same].
  set (s1 := marked _ _) in *. pose proof (li_used _ Hm) as Hu1. pose proof (total_nonneg _ (li_calls _ Hm)) as Hn.
  assert (s_calls s1 !! call = Some c) as Hc1.
  { unfold s1. rewrite marked_lookup; [done|]. intros Hin. destruct (oldest_settled s k call Hin) as (d & Hd & Hds). congruence. }
  pose proof (counted_le s1 call c Hm Hc1) as Hcl. destruct (li_calls s Hi call c Hc) as (Hr0 & Hret & _ & Hds).
  assert (c_deleting c = false) as Hd by (destruct (c_deleting c); [specialize (Hds eq_refl); congruence|done]).
  unfold counted in Hcl. rewrite Hd in Hcl. unfold RESERVATION_STEP, MIB, U64_MAX in *.
  eapply (ledger_inv_update s1 _ call c (mkCall (c_payloads c) (wrap 64 (c_reservation c + 1024 * 1024)) (c_retained c)
     (c_last_use c) (c_settled c) (c_expirable c) (c_ended c) (c_holds c) (c_deleting c))); try done.
  - cbn [with_used with_calls s_calls]. by rewrite (alter_insert_eq (fun c => mkCall (c_payloads c)
      (wrap 64 (c_reservation c + 1024 * 1024)) (c_retained c) (c_last_use c) (c_settled c) (c_expirable c)
      (c_ended c) (c_holds c) (c_deleting c)) _ call c Hc1).
  - rewrite wrap_small by (unfold uint; lia). unfold call_ok. cbn. rewrite Hs, Hd. split_and!; done || lia.
  - cbn [with_used with_calls s_used]. rewrite !wrap_small by (unfold uint; lia). unfold counted. cbn. rewrite Hd. lia.
  - cbn [with_used with_calls s_used]. rewrite wrap_small by (unfold uint; lia). unfold U64_MAX. lia.
Qed.
Lemma victim_deleted_inv s victim deleted :
  ledger_inv s -> allowed s (OpVictimDeleted victim deleted) -> ledger_inv (victim_deleted s victim deleted).
Proof.
  intros Hi Ha. unfold victim_deleted. destruct (s_calls s !! v_call victim) as [c|] eqn:Hc.
  - destruct (Ha c Hc) as [Hd Hmax]. pose proof (li_calls s Hi _ c Hc) as Hok.
    pose proof Hok as (Hr0 & Hret & Hset & Hds). specialize (Hset (Hds Hd)). specialize (Hds Hd).
    destruct deleted.
    + eapply (ledger_inv_remove s _ (v_call victim) c); try done. unfold counted. rewrite Hd. cbn. lia.
    + eapply (ledger_inv_update s _ (v_call victim) c); try done.
      * cbn. rewrite saturating_add_le by done. unfold counted. rewrite Hd. cbn. lia.
      * cbn. by rewrite saturating_add_le.
  - destruct deleted; [|done]. eapply ledger_inv_same; [done| |done]. cbn. by apply delete_id.
Qed.
Lemma restore_inv s victim :
  ledger_inv s -> allowed s (OpRestore victim) -> ledger_inv (restore_victim s victim).
Proof.
  intros Hi Ha. unfold restore_victim. destruct (s_calls s !! v_call victim) as [c|] eqn:Hc; [|done].
  destruct (c_deleting c) eqn:Hd; [|done]. specialize (Ha c Hc).
  destruct (li_calls s Hi _ c Hc) as (Hr0 & Hret & Hset & Hds). specialize (Hset (Hds Hd)).
  eapply (ledger_inv_update s _ (v_call victim) c); try done.
  - cbn. rewrite saturating_add_le by done. unfold counted. rewrite Hd. cbn. lia.
  - cbn. by rewrite saturating_add_le.
Qed.
Lemma release_inv s call :
  ledger_inv s -> allowed s (OpRelease call) -> ledger_inv (release s call).
Proof.
  intros Hi Ha. unfold release. destruct (s_calls s !! call) as [c|] eqn:Hc; [|done]. specialize (Ha c Hc).
  pose proof (counted_le s call c Hi Hc) as Hle. pose proof (li_max s Hi). unfold counted in Hle. rewrite Ha in Hle.
  eapply (ledger_inv_remove s _ call c); try done.
  cbn. unfold U64_MAX in *. rewrite wrap_small by (unfold uint; lia). rewrite saturating_sub_le by lia.
  unfold counted. rewrite Ha. lia.
Qed.
Lemma settle_inv s call capture streams last_use held :
  ledger_inv s -> allowed s (OpSettle call capture streams last_use held) ->
  ledger_inv (settle s call capture streams last_use held).
Proof.
  intros Hi (Ha0 & Hb0 & Ha). unfold settle. destruct (s_calls s !! call) as [c|] eqn:Hc; [|done].
  destruct (Ha c eq_refl) as (Hs & Hret & Hmax). pose proof (counted_le s call c Hi Hc) as Hle.
  destruct (li_calls s Hi _ c Hc) as (Hr0 & _ & _ & Hds).
  assert (c_deleting c = false) as Hd by (destruct (c_deleting c); [specialize (Hds eq_refl); congruence|done]).
  unfold counted in Hle. rewrite Hd, Hret in Hle. pose proof (li_max s Hi). unfold U64_MAX in *.
  assert (wrap 64 (streams.1.1 + streams.2.1) = streams.1.1 + streams.2.1) as Hw
    by (apply wrap_small; unfold uint; lia).
  eapply (ledger_inv_update s _ call c); try done.
  - unfold call_ok. cbn. rewrite Hw. split_and!; done || lia.
  - cbn. rewrite Hw, saturating_sub_le, saturating_add_le by (unfold U64_MAX; lia). unfold counted. cbn. rewrite Hd, Hret. lia.
  - cbn. rewrite Hw, saturating_sub_le, saturating_add_le by (unfold U64_MAX; lia). unfold U64_MAX. lia.
Qed.
Lemma abandoned_inv heap s call stored_ :
  ledger_inv s -> allowed s (OpAbandoned heap call stored_) -> ledger_inv (abandoned heap s call stored_).
Proof.
  intros Hi [Hs0 Ha]. unfold abandoned. destruct (s_calls s !! call) as [c|] eqn:Hc.
  2:{ by eapply ledger_inv_same. }
  destruct (Ha c eq_refl) as [Hd Hmax]. pose proof (counted_le s call c Hi Hc) as Hle.
  destruct (li_calls s Hi _ c Hc) as (Hr0 & Hret & Hset & Hds). unfold counted in Hle. rewrite Hd in Hle.
  eapply (ledger_inv_update s _ call c); try done.
  - cbn. rewrite saturating_sub_le, saturating_add_le by lia. unfold counted. cbn. rewrite Hd. lia.
  - cbn. rewrite saturating_sub_le, saturating_add_le by lia. lia.
Qed.
(** A change of holds, marks or lifetimes alone. *)
Lemma ledger_inv_relabel s s' id c c' :
  ledger_inv s -> s_calls s !! id = Some c -> s_calls s' = <[id := c']> (s_calls s) -> s_used s' = s_used s ->
  call_ok c' -> counted c' = counted c -> ledger_inv s'.
Proof.
  intros Hi Hc Hcs Hu Hok He. eapply (ledger_inv_update s s' id c c'); try done; [lia|].
  rewrite Hu. apply Hi.
Qed.
Lemma unhold_inv s call : ledger_inv s -> ledger_inv (unhold s call).
Proof.
  intros Hi. unfold unhold. destruct (s_calls s !! call) as [c|] eqn:Hc.
  - eapply (ledger_inv_relabel s _ call c (with_holds (saturating_sub (c_holds c) 1) c)); try done.
    + cbn. by rewrite (alter_insert_eq (fun c => with_holds (saturating_sub (c_holds c) 1) c) _ call c Hc).
    + apply (li_calls s Hi _ c Hc).
  - eapply ledger_inv_same; [done| |done]. cbn. apply map_eq. intros j.
    destruct (decide (j = call)) as [->|Hne]; [by rewrite lookup_alter_eq, Hc|by rewrite lookup_alter_ne].
Qed.
Lemma hold_inv s id : ledger_inv s -> ledger_inv (hold_payload s id).1.
Proof.
  intros Hi. unfold hold_payload. destruct (s_payloads s !! id) as [p|]; [|done].
  destruct (s_calls s !! p_call p) as [c|] eqn:Hc; [|done]. destruct (c_deleting c) eqn:Hd; [done|].
  eapply (ledger_inv_relabel s _ (p_call p) c); try done. apply (li_calls s Hi _ c Hc).
Qed.
Lemma operation_ended_inv s operation : ledger_inv s -> ledger_inv (operation_ended s operation).
Proof.
  intros [Hu Hm Hf]. unfold operation_ended.
  set (calls := list_to_set _). split; cbn; [|done|].
  - rewrite Hu. symmetry. apply (total_map (fun id c => if decide (id ∈ calls) then end_call c else c)).
    intros id c _. by destruct (decide _).
  - intros id c Hc. rewrite map_lookup_imap in Hc. destruct (s_calls s !! id) as [d|] eqn:Hd; [|done].
    cbn in Hc. injection Hc as <-. specialize (Hf id d Hd). by destruct (decide _).
Qed.
Lemma begin_delete_inv s payloads job : ledger_inv s -> ledger_inv (or_same s (begin_delete s payloads job)).
Proof.
  intros Hi. unfold begin_delete. destruct (is_some_and _ _) eqn:Hset; [done|].
  cbn [with_deleted s_calls]. destruct (s_calls s !! job) as [c|] eqn:Hc; [|by eapply ledger_inv_same].
  destruct (c_deleting c) eqn:Hd; [by eapply ledger_inv_same|]. cbn [or_same].
  apply negb_false_iff in Hset. destruct (li_calls s Hi _ c Hc) as (Hr0 & Hret & Hsr & _). specialize (Hsr Hset).
  pose proof (counted_le s job c Hi Hc) as Hle. unfold counted in Hle. rewrite Hd in Hle. pose proof (li_max s Hi).
  eapply (ledger_inv_update s _ job c); try done.
  - cbn. rewrite saturating_sub_le by lia. unfold counted. rewrite Hd. cbn. lia.
  - cbn. rewrite saturating_sub_le by lia. lia.
Qed.
Lemma recovered_inv s call operation a b last_use bytes_on_disk expirable :
  ledger_inv s -> allowed s (OpRecovered call operation a b last_use bytes_on_disk expirable) ->
  ledger_inv (recovered s call operation a b last_use bytes_on_disk expirable).
Proof.
  intros Hi (Hc & Hb & Hmax). pose proof (li_used s Hi). pose proof (total_nonneg _ (li_calls s Hi)).
  eapply (ledger_inv_add s _ call); try done; cbn; rewrite wrap_small by (unfold uint, U64_MAX in *; lia); [|done].
  unfold counted. cbn. lia.
Qed.
Lemma run_op_inv s o : ledger_inv s -> u64 (s_quota s) -> allowed s o -> ledger_inv (run_op s o).
Proof.
  intros Hi Hq Ha. destruct o; cbn [run_op];
    eauto using admit_inv, grow_inv, victim_deleted_inv, restore_inv, release_inv, settle_inv, abandoned_inv,
      operation_ended_inv, unhold_inv, hold_inv, recovered_inv, begin_delete_inv, ledger_inv_same.
  - unfold release_payload. destruct (s_payloads s !! id); [by apply unhold_inv|done].
  - unfold hold_model_refs. destruct (refs_add _ _ _ _). by eapply ledger_inv_same.
Qed.
Lemma take_victims_quota s chosen s' victims :
  take_victims s chosen = Ok (s', victims) -> s_quota s' = s_quota s.
Proof.
  revert s s' victims. induction chosen as [|id chosen IH]; intros s s' victims Ht; cbn [take_victims] in Ht.
  { by injection Ht as <- <-. }
  destruct (s_calls s !! id); [|done]. apply obind_Ok in Ht as ([s1 v] & Ht & Hk).
  apply IH in Ht. injection Hk as <- <-. done.
Qed.
Lemma run_op_quota s o : u64 (s_quota s) -> allowed s o -> u64 (s_quota (run_op s o)).
Proof.
  intros Hq Ha. destruct o; cbn [run_op]; try done.
  - cbn in *. unfold effective_quota, saturating_sub, uint in *. lia.
  - unfold admit_job. destruct (select s RESERVATION_STEP); [|done]. cbn [ok_or obind].
    destruct (take_victims s _) as [[s' v]|e|] eqn:Ht; [|done|done]. by rewrite <- (take_victims_quota _ _ _ _ Ht) in Hq.
  - unfold grow. destruct (s_calls s !! call); [|done]. destruct (c_settled _); [done|].
    destruct (select s RESERVATION_STEP); [|done]. cbn [ok_or obind].
    destruct (take_victims s _) as [[s' v]|e|] eqn:Ht; [|done|done]. by rewrite <- (take_victims_quota _ _ _ _ Ht) in Hq.
  - unfold victim_deleted. destruct deleted; [done|]. by destruct (s_calls s !! _).
  - unfold restore_victim. destruct (s_calls s !! _); [|done]. by destruct (c_deleting _).
  - unfold release. by destruct (s_calls s !! _).
  - unfold settle. by destruct (s_calls s !! _).
  - unfold abandoned. by destruct (s_calls s !! _).
  - unfold hold_payload. destruct (s_payloads s !! _); [|done]. destruct (s_calls s !! _); [|done].
    by destruct (c_deleting _).
  - unfold release_payload. by destruct (s_payloads s !! _).
  - unfold hold_model_refs. by destruct (refs_add _ _ _ _).
  - unfold begin_delete. destruct (is_some_and _ _); [done|]. cbn [with_deleted s_calls].
    destruct (s_calls s !! _); [|done]. by destruct (c_deleting _).
Qed.

(** Ledger histories: from the empty ledger, operations in the callers' order. *)
Inductive reaches : State -> Prop :=
| reach_start : reaches state_default
| reach_step s o : reaches s -> allowed s o -> reaches (run_op s o).
Lemma reaches_inv s : reaches s -> ledger_inv s /\ u64 (s_quota s).
Proof.
  induction 1 as [|s o _ [Hi Hq] Ha].
  - split; [|by_decide]. split; [symmetry; apply total_empty|by vm_compute|apply map_Forall_empty].
  - split; [by apply run_op_inv|by apply run_op_quota].
Qed.

End Preserve.

(** ** The order of expiry. *)
Definition victim_key (e : Id * CallEntry) : Z * (Z * Id) :=
  (c_last_use e.2, (- c_retained e.2, (c_payloads e.2).1)).
Lemma victim_order_key a b : victim_order a b = cmp (victim_key a) (victim_key b).
Proof.
  destruct a as [i [p ? r u ? ? ? ? ?]], b as [j [q ? t w ? ? ? ? ?]].
  change (cmp_then (u ?= w) (cmp_then (t ?= r) (cmp p.1 q.1)) =
          cmp_then (u ?= w) (cmp_then (- r ?= - t) (cmp p.1 q.1))).
  by rewrite Z.compare_opp.
Qed.
Lemma candidates_sorted s : StronglySorted (fun a b => victim_order a b <> Gt) (candidates s).
Proof.
  unfold candidates.
  assert (forall l, sort_by victim_order l = sort_by (fun a b => cmp (victim_key a) (victim_key b)) l) as ->.
  { induction l as [|x l IH]; [done|]. cbn [sort_by foldr]. fold (sort_by victim_order l).
    fold (sort_by (fun a b => cmp (victim_key a) (victim_key b)) l). rewrite IH.
    generalize (sort_by (fun a b => cmp (victim_key a) (victim_key b)) l). clear.
    induction l as [|y l IH]; [done|]. cbn. by rewrite victim_order_key, IH. }
  induction (sort_by_sorted victim_key (filter (fun e => candidate s e = true) (btree_iter (s_calls s))))
    as [|a l _ IH Hf]; constructor; [done|].
  eapply Forall_impl; [exact Hf|]. intros b Hab. by rewrite victim_order_key.
Qed.

Section Admission.
Context `{Hasher}.
Implicit Types s : State.


(** C32: expiry protects what must be kept: every job that admission or growth
    gives up for space is settled and expirable, is held by no page read,
    pending install or abandoned worker, is not pinned by the person, is not
    referenced by a model turn and is not already being deleted; and no
    candidate left in place comes before it in the order of last use, then
    larger size. *)
Theorem victims_are_expendable s installation job operation arcs call s' victims v :
  ledger_inv s ->
  admit_job s installation job operation arcs = Ok (s', victims) \/ grow s call = Ok (s', victims) ->
  v ∈ victims ->
  exists c, s_calls s !! v_call v = Some c /\ c_settled c = true /\ c_expirable c = true /\
    c_holds c = 0 /\ c_deleting c = false /\ v_call v ∉ s_pinned s /\ refs_held (s_refs s) (v_call v) = false /\
    (forall e, e ∈ candidates s -> e.1 ∉ (v_call <$> victims) -> victim_order (v_call v, c) e <> Gt).
Proof.
  intros Hi Ho Hv. pose proof (reserve_spec s Hi) as Hr.
  assert (exists k, v_call <$> victims = (oldest s k).*1) as [k Hk].
  { destruct Ho as [Ho|Ho].
    - unfold admit_job in Ho. destruct (select s RESERVATION_STEP) as [chosen|]; [|done]. cbn [ok_or obind] in Ho.
      destruct Hr as (k & vs & _ & -> & Ht & Hvs & _). rewrite Ht in Ho. cbn [obind] in Ho. injection Ho as _ <-. by exists k.
    - unfold grow in Ho. destruct (s_calls s !! call) as [c|]; [|done]. destruct (c_settled c); [done|].
      destruct (select s RESERVATION_STEP) as [chosen|]; [|done]. cbn [ok_or obind] in Ho.
      destruct Hr as (k & vs & _ & -> & Ht & Hvs & _). rewrite Ht in Ho. cbn [obind] in Ho. injection Ho as _ <-. by exists k. }
  assert (v_call v ∈ (oldest s k).*1) as Hin by (rewrite <- Hk; by apply list_elem_of_fmap_2).
  apply list_elem_of_fmap in Hin as ([id c] & Hid & Hin). cbn in Hid. rewrite Hid.
  pose proof (oldest_elem s k) as He. rewrite Forall_forall in He. destruct (He _ Hin) as [Hc Hcand].
  exists c. unfold candidate in Hcand. rewrite !andb_true_iff, !negb_true_iff, bool_decide_eq_true, Z.eqb_eq in Hcand.
  destruct Hcand as [[[[[? ?] ?] ?] ?] ?]. split_and!; try done.
  intros e Hec Hne. rewrite Hk in Hne. pose proof (candidates_sorted s) as Hs.
  rewrite <- (take_drop k (candidates s)) in Hs, Hec. apply elem_of_app in Hec as [Hec|Hec].
  { destruct Hne. by apply list_elem_of_fmap_2. }
  by apply (StronglySorted_app_1_elem_of _ _ _ _ _ Hs).
Qed.
End Admission.

Section Delete.
Context `{Hasher}.
Implicit Types s : State.

Lemma begin_delete_settled s payloads job c :
  ledger_inv s -> s_calls s !! job = Some c -> c_settled c = true -> c_deleting c = false ->
  exists s', begin_delete s payloads job = Ok (s', Some (mkVictim job (c_payloads c))) /\
    s_calls s' = <[job := with_deleting true c]> (s_calls s) /\
    s_used s' = s_used s - c_retained c /\ s_deleted s' = s_deleted s ∪ {[payloads.1; payloads.2]}.
Proof.
  intros Hi Hc Hs Hd. pose proof (counted_le s job c Hi Hc) as Hle. unfold counted in Hle. rewrite Hd in Hle.
  destruct (li_calls s Hi job c Hc) as (Hr & _). unfold begin_delete, is_some_and. rewrite Hc, Hs. cbn [negb].
  cbn [with_deleted s_calls]. rewrite Hc, Hd. eexists. split; [done|]. cbn.
  split_and!; [done|rewrite saturating_sub_le; lia|done].
Qed.

(** deleting a settled job's output: when every file is gone the entry
    leaves the ledger and exactly its retained bytes are free; when a file
    cannot be removed the error is reported, the bytes count again and expiry
    will not choose the job; either way pages of both payloads answer
    [deleted]. A job that has not settled is refused and nothing changes. *)
Theorem delete_job_spec remove s installation job c :
  ledger_inv s -> s_calls s !! job = Some c -> c_deleting c = false ->
  let '(s', result) := delete_job remove s installation job in
  let payloads := job_payloads installation job in
  if c_settled c then
    payloads.1 ∈ s_deleted s' /\ payloads.2 ∈ s_deleted s' /\
    match remove_files remove payloads with
    | Ok _ => result = Ok tt /\ s_calls s' = delete job (s_calls s) /\ s_used s' = s_used s - c_retained c
    | Err e => result = Err (Payload e) /\ s_used s' = s_used s /\
               exists c', s_calls s' = <[job := c']> (s_calls s) /\ c_expirable c' = false /\
                          c_deleting c' = false /\ c_retained c' = c_retained c
    | Panic => result = Panic
    end
  else s' = s /\ result = Err NotSettled.
Proof.
  intros Hi Hc Hd. unfold delete_job. destruct (c_settled c) eqn:Hs.
  2:{ unfold begin_delete, is_some_and. rewrite Hc, Hs. by split. }
  destruct (begin_delete_settled s (job_payloads installation job) job c Hi Hc Hs Hd) as (s1 & -> & Hc1 & Hu1 & Hd1).
  pose proof (counted_le s job c Hi Hc) as Hle. unfold counted in Hle. rewrite Hd in Hle.
  pose proof (li_max s Hi) as Hmax. destruct (li_calls s Hi job c Hc) as (Hr0 & Hr1 & _).
  destruct (remove_files _ _) as [[]|e|]; cbn [is_ok map_err]; unfold victim_deleted; cbn [v_call v_payloads].
  - cbn. rewrite Hc1, Hd1, Hu1, delete_insert_eq. split_and!; [set_solver|set_solver|done|done|done].
  - rewrite Hc1, lookup_insert_eq. cbn. rewrite Hd1, Hu1, saturating_add_le by lia.
    split_and!; [set_solver|set_solver|done|lia|].
    eexists. rewrite insert_insert_eq. by split_and!.
  - rewrite Hc1, lookup_insert_eq. cbn. rewrite Hd1. split_and!; [set_solver|set_solver|done].
Qed.
End Delete.

(** ** Model reference holds. *)
Lemma refs_held_spec refs job :
  refs_held refs job = true <->
  exists conv holds, r_conversations refs !! conv = Some holds /\ (job ∈ t_current holds \/ job ∈ t_previous holds).
Proof.
  unfold refs_held. rewrite existsb_exists. split.
  - intros ([conv holds] & Hin & Hh). exists conv, holds. apply list_elem_of_In, elem_of_map_to_list in Hin.
    split; [done|]. apply orb_true_iff in Hh as [Hh|Hh]; apply bool_decide_eq_true in Hh; auto.
  - intros (conv & holds & Hc & Hh). exists (conv, holds). rewrite <- list_elem_of_In, elem_of_map_to_list.
    split; [done|]. cbn. rewrite orb_true_iff, !bool_decide_eq_true. done.
Qed.
Lemma insert_jobs_bound current jobs :
  (size current <= MAX_MODEL_HOLD_JOBS)%nat -> (size (insert_jobs current jobs) <= MAX_MODEL_HOLD_JOBS)%nat.
Proof.
  revert current. induction jobs as [|job jobs IH]; intros current Hc; [done|]. cbn. apply IH.
  destruct (decide _); [done|]. pose proof (size_union_alt current {[job]}) as Hu.
  rewrite Hu. assert (size ({[job]} ∖ current : gset Id) <= 1)%nat; [|lia].
  rewrite <- (size_singleton (C := gset Id) job). apply subseteq_size. set_solver.
Qed.
Lemma insert_jobs_mono current jobs : current ⊆ insert_jobs current jobs.
Proof.
  revert current. induction jobs as [|job jobs IH]; intros current; [done|]. cbn.
  destruct (decide _); [apply IH|]. etransitivity; [|apply IH]. set_solver.
Qed.
Lemma insert_jobs_room current jobs :
  (size current + length jobs <= MAX_MODEL_HOLD_JOBS)%nat -> forall job, job ∈ jobs -> job ∈ insert_jobs current jobs.
Proof.
  revert current. induction jobs as [|j jobs IH]; intros current Hl job Hj; [by apply not_elem_of_nil in Hj|].
  cbn [length] in Hl. cbn. rewrite decide_False by lia.
  apply elem_of_cons in Hj as [->|Hj].
  - apply (insert_jobs_mono (current ∪ {[j]})). set_solver.
  - apply IH; [|done]. pose proof (size_union_alt current {[j]}) as Hu. rewrite Hu.
    assert (size ({[j]} ∖ current : gset Id) <= 1)%nat; [|lia].
    rewrite <- (size_singleton (C := gset Id) j). apply subseteq_size. set_solver.
Qed.
(** The holds of a conversation before [jobs] are added in [operation]. *)
Definition turn_holds (refs : ModelRefs) (conversation operation : Id) : TurnHolds :=
  let holds := default holds_default (r_conversations refs !! conversation) in
  if decide (t_operation holds <> operation) then mkHolds operation ∅ (t_current holds) 0 else holds.
Lemma refs_evict_other refs conversation :
  (refs_evict refs conversation).1 !! conversation = r_conversations refs !! conversation.
Proof.
  unfold refs_evict. destruct (decide _) as [[Hnone Hfull]|]; [|done].
  destruct (min_by_key _ _) as [oldest|]; [|done]. cbn [fst].
  destruct (decide (oldest.1 = conversation)) as [->|Hne]; [by rewrite lookup_delete_eq, Hnone|by rewrite lookup_delete_ne].
Qed.
Lemma refs_add_lookup refs conversation operation jobs :
  exists holds, r_conversations (refs_add refs conversation operation jobs).1 !! conversation = Some holds /\
    t_operation holds = operation /\
    t_current holds = insert_jobs (t_current (turn_holds refs conversation operation)) jobs /\
    t_previous holds = t_previous (turn_holds refs conversation operation).
Proof.
  pose proof (refs_evict_other refs conversation) as He. unfold refs_add.
  destruct (refs_evict refs conversation) as [cs evicted]. cbn [fst] in *.
  unfold refs_enter, turn_holds. rewrite He. cbn [r_conversations]. rewrite lookup_insert_eq.
  eexists. split; [done|]. destruct (decide _) as [|Ho]; cbn; [done|]. apply dec_stable in Ho. done.
Qed.

(** a model reference hold lasts for the turn that took it and the next:
    jobs added while there is room are held, and stay held when the same
    conversation adds to the same turn or starts one new turn. *)
Theorem model_refs_hold_two_turns refs conversation operation jobs job later jobs' :
  (size (t_current (turn_holds refs conversation operation)) + length jobs <= MAX_MODEL_HOLD_JOBS)%nat ->
  job ∈ jobs ->
  let refs1 := (refs_add refs conversation operation jobs).1 in
  refs_held refs1 job = true /\ refs_held (refs_add refs1 conversation later jobs').1 job = true.
Proof.
  intros Hroom Hj refs1. destruct (refs_add_lookup refs conversation operation jobs) as (h1 & Hl1 & Ho1 & Hc1 & _).
  fold refs1 in Hl1. pose proof (insert_jobs_room _ _ Hroom job Hj) as Hin. rewrite <- Hc1 in Hin.
  split; [apply refs_held_spec; eauto|].
  destruct (refs_add_lookup refs1 conversation later jobs') as (h2 & Hl2 & _ & Hc2 & Hp2).
  apply refs_held_spec. exists conversation, h2. split; [done|].
  unfold turn_holds in Hc2, Hp2. rewrite Hl1 in Hc2, Hp2. cbn [default from_option id] in Hc2, Hp2.
  destruct (decide (t_operation h1 <> later)); cbn in Hc2, Hp2.
  - right. by rewrite Hp2.
  - left. rewrite Hc2. by apply insert_jobs_mono.
Qed.

Definition refs_ok (refs : ModelRefs) : Prop :=
  (size (r_conversations refs) <= MAX_MODEL_HOLD_CONVERSATIONS)%nat /\
  map_Forall (fun _ h => (size (t_current h) <= MAX_MODEL_HOLD_JOBS)%nat /\
                         (size (t_previous h) <= MAX_MODEL_HOLD_JOBS)%nat) (r_conversations refs).
Definition holds_ok (h : TurnHolds) : Prop :=
  (size (t_current h) <= MAX_MODEL_HOLD_JOBS)%nat /\ (size (t_previous h) <= MAX_MODEL_HOLD_JOBS)%nat.
Lemma refs_enter_ok cs clock conversation operation jobs :
  map_Forall (fun _ h => holds_ok h) cs -> (size (delete conversation cs) < MAX_MODEL_HOLD_CONVERSATIONS)%nat ->
  refs_ok (refs_enter cs clock conversation operation jobs).
Proof.
  intros Hcs Hsz. unfold refs_enter, refs_ok. cbn [r_conversations]. split.
  - rewrite <- insert_delete_eq, map_size_insert_None by apply lookup_delete_eq. lia.
  - apply map_Forall_insert_2; [|done]. set (h := default holds_default (cs !! conversation)).
    assert (holds_ok h) as [Hh1 Hh2].
    { unfold h. destruct (cs !! conversation) as [g|] eqn:Hg; cbn; [by apply (Hcs conversation g)|].
      split; cbn; rewrite size_empty; lia. }
    destruct (decide _); cbn; split; try done; apply insert_jobs_bound; [rewrite size_empty; lia|done].
Qed.
Lemma refs_evict_size refs conversation :
  (size (r_conversations refs) <= MAX_MODEL_HOLD_CONVERSATIONS)%nat ->
  (size (delete conversation (refs_evict refs conversation).1) < MAX_MODEL_HOLD_CONVERSATIONS)%nat.
Proof.
  unfold refs_evict, MAX_MODEL_HOLD_CONVERSATIONS. intros Hn. destruct (decide _) as [[Hnone Hfull]|Hno].
  - destruct (min_by_key _ _) as [[o h]|] eqn:Hmin; cbn [fst].
    + apply min_by_key_elem in Hmin. rewrite btree_iter_perm in Hmin. apply elem_of_map_to_list in Hmin.
      rewrite delete_id by (destruct (decide (o = conversation)) as [->|?];
        [by rewrite lookup_delete_eq|by rewrite lookup_delete_ne]).
      rewrite map_size_delete_Some by eauto. lia.
    + exfalso. assert (btree_iter (r_conversations refs) = []) as Hnil by (by destruct (btree_iter _)).
      apply (f_equal length) in Hnil. rewrite (Permutation_length (btree_iter_perm _)), length_map_to_list in Hnil.
      cbn in Hnil. lia.
  - cbn [fst]. destruct (r_conversations refs !! conversation) as [g|] eqn:Hg.
    + rewrite map_size_delete_Some by eauto.
      destruct (decide (size (r_conversations refs) = 0%nat)) as [Hz|]; [|lia].
      apply map_size_empty_inv in Hz. by rewrite Hz in Hg.
    + rewrite delete_id by done. destruct (decide (64 <= size (r_conversations refs))%nat); [tauto|lia].
Qed.
(** the holds stay within their bounds: at most 64 conversations, at most
    256 jobs in a turn, whatever is added. *)
Theorem model_refs_bounded refs conversation operation jobs :
  refs_ok refs -> refs_ok (refs_add refs conversation operation jobs).1.
Proof.
  intros [Hn Hf]. pose proof (refs_evict_size refs conversation Hn) as Hs. unfold refs_add.
  assert (map_Forall (fun _ h => holds_ok h) (refs_evict refs conversation).1) as Hcs.
  { unfold refs_evict. destruct (decide _); [|done]. destruct (min_by_key _ _); [|done]. by apply map_Forall_delete. }
  destruct (refs_evict refs conversation) as [cs evicted]. by apply refs_enter_ok.
Qed.

(** ** Witnesses on concrete histories. *)
Module LedgerDemo.
#[export] Existing Instance poly_hasher.
Definition inst : Id := replicate 16 1.
Definition job (n : Z) : Id := replicate 16 n.
Definition settled_bytes (n : Z) : (Z * option bytes) * (Z * option bytes) := ((n, None), (0, None)).
Definition history (ops : list Op) : State := foldl run_op state_default ops.
(** Two settled jobs of 1 MiB fill a quota of 2 MiB. *)
Definition full_ops : list Op :=
  [OpQuota (2 * MIB) (100 * MIB);
   OpAdmit inst (job 1) (job 11) (0%nat, 1%nat); OpSettle (job 1) CapComplete (settled_bytes MIB) 5 false;
   OpAdmit inst (job 2) (job 12) (2%nat, 3%nat); OpSettle (job 2) CapComplete (settled_bytes MIB) 6 false].
Definition full : State := history full_ops.

(** The callers' order, checked by evaluation where it is a bounded condition. *)
Definition allowedb (s : State) (o : Op) : bool :=
  match o with
  | OpQuota configured _ => bool_decide (u64 configured)
  | OpAdmit _ job _ _ => match s_calls s !! job with None => true | Some _ => false end
  | OpSettle call _ streams _ _ =>
      bool_decide (0 <= streams.1.1) && bool_decide (0 <= streams.2.1) &&
      match s_calls s !! call with
      | Some c => negb (c_settled c) && (c_retained c =? 0) &&
                  (s_used s - c_reservation c + (streams.1.1 + streams.2.1) <=? U64_MAX)
      | None => true
      end
  | _ => false
  end.
Lemma allowedb_sound s o : allowedb s o = true -> allowed s o.
Proof.
  destruct o; try done; cbn; intros Ho.
  - by apply bool_decide_eq_true in Ho.
  - by destruct (s_calls s !! job0).
  - rewrite !andb_true_iff, !bool_decide_eq_true in Ho. destruct Ho as [[? ?] Ho]. split_and!; [done|done|].
    intros c Hc. rewrite Hc, !andb_true_iff, negb_true_iff in Ho. split_and!; [tauto|lia|lia].
Qed.
Fixpoint allowed_all (s : State) (ops : list Op) : bool :=
  match ops with [] => true | o :: ops => allowedb s o && allowed_all (run_op s o) ops end.
Lemma history_reached s ops : reaches s -> allowed_all s ops = true -> reaches (foldl run_op s ops).
Proof.
  revert s. induction ops as [|o ops IH]; intros s Hs Ha; [done|]. cbn in *. apply andb_true_iff in Ha as [Ho Ha].
  apply IH; [|done]. apply reach_step; [done|]. by apply allowedb_sound.
Qed.
Lemma full_reached : reaches full.
Proof. apply history_reached; [apply reach_start|by vm_compute]. Qed.
Lemma full_inv : ledger_inv full.
Proof. apply reaches_inv, full_reached. Qed.
Lemma full_quota : u64 (s_quota full).
Proof. assert (s_quota full = 2 * MIB) as -> by (vm_compute; reflexivity). by_decide. Qed.
Lemma full_fresh : s_calls full !! job 3 = None.
Proof. vm_compute. reflexivity. Qed.
(** A third job is admitted by giving up the older one. *)
Definition summary {E} (r : outcome E (State * list Victim)) : option (list Id * Z * Z) :=
  match r with Ok (s, victims) => Some (v_call <$> victims, s_used s, s_quota s) | _ => None end.
Lemma summary_Some {E} (r : outcome E (State * list Victim)) ids used quota :
  summary r = Some (ids, used, quota) ->
  exists s victims, r = Ok (s, victims) /\ v_call <$> victims = ids /\ s_used s = used /\ s_quota s = quota.
Proof. destruct r as [[s victims]|e|]; [|done|done]. intros [= <- <- <-]. by exists s, victims. Qed.
Lemma third_summary :
  summary (admit_job full inst (job 3) (job 13) (4%nat, 5%nat)) = Some ([job 1], 2 * MIB, 2 * MIB).
Proof. vm_compute. reflexivity. Qed.
Lemma victims_are_expendable_witness :
  exists c, s_calls full !! job 1 = Some c /\ c_expirable c = true /\ job 1 ∉ s_pinned full.
Proof.
  destruct (summary_Some _ _ _ _ third_summary) as (s' & victims & He & Hv & _).
  destruct victims as [|v victims]; [discriminate Hv|]. injection Hv as Hv _.
  destruct (victims_are_expendable full inst (job 3) (job 13) (4%nat, 5%nat) (job 3) s' (v :: victims) v
    full_inv (or_introl He) ltac:(constructor)) as (c & Hc & _ & Hx & _ & _ & Hp & _).
  rewrite Hv in Hc, Hp. exact (ex_intro _ c (conj Hc (conj Hx Hp))).
Defined.
Definition no_files (object : bool) (id : PayloadId) : outcome PayloadError unit := Err Absent.
Lemma full_call :
  exists c, s_calls full !! job 1 = Some c /\ c_deleting c = false /\ c_settled c = true /\ c_retained c = MIB.
Proof.
  assert ((fun c => (c_deleting c, c_settled c, c_retained c)) <$> s_calls full !! job 1 = Some (false, true, MIB)) as Hs
    by (vm_compute; reflexivity).
  destruct (s_calls full !! job 1) as [c|]; [|done]. cbn in Hs. injection Hs as ? ? ?. eauto.
Qed.
Lemma delete_job_spec_witness :
  exists s', delete_job no_files full inst (job 1) = (s', Ok tt) /\ s_used s' = s_used full - MIB.
Proof.
  destruct full_call as (c & Hc & Hd & Hs & Hr).
  pose proof (delete_job_spec no_files full inst (job 1) c full_inv Hc Hd) as Hj.
  destruct (delete_job no_files full inst (job 1)) as [s' result]. rewrite Hs in Hj.
  destruct Hj as (_ & _ & Hj). cbn [remove_files foldl no_files] in Hj. rewrite Hr in Hj.
  destruct Hj as (-> & _ & Hu). exists s'. exact (conj eq_refl Hu).
Defined.
Lemma model_refs_hold_two_turns_witness :
  refs_held (refs_add (mkRefs ∅ 0) (job 21) (job 31) [job 1; job 2]).1 (job 2) = true.
Proof.
  refine (proj1 (model_refs_hold_two_turns (mkRefs ∅ 0) (job 21) (job 31) [job 1; job 2] (job 2) (job 32) [] _ _)).
  - apply Nat.leb_le. vm_compute. reflexivity.
  - by_decide.
Defined.
Lemma model_refs_bounded_witness : refs_ok (refs_add (mkRefs ∅ 0) (job 21) (job 31) [job 1]).1.
Proof.
  apply (model_refs_bounded (mkRefs ∅ 0) (job 21) (job 31) [job 1]). split; [apply Nat.leb_le; reflexivity|apply map_Forall_empty].
Defined.

(** ** Two orders of operations the callers can produce.
    A job settled [unconfirmed] whose worker still writes: the person deletes
    it, and the worker reports its stored bytes between the mark and the end
    of the deletion. The bytes stay counted although no call is left. *)
Definition race_ops : list Op :=
  [OpQuota (64 * MIB) (100 * MIB);
   OpAdmit inst (job 1) (job 11) (0%nat, 1%nat); OpSettle (job 1) CapUnconfirmed (settled_bytes 0) 5 true;
   OpBeginDelete (job_payloads inst (job 1)) (job 1); OpAbandoned ∅ (job 1) 25;
   OpVictimDeleted (mkVictim (job 1) (job_payloads inst (job 1))) true].
Theorem abandoned_during_delete_leaks : s_calls (history race_ops) = ∅ /\ s_used (history race_ops) = 25.
Proof. split; vm_compute; reflexivity. Qed.
(** After the quota shrank below what is used, an admission only frees one
    step: it succeeds and leaves the ledger over its quota. *)
Theorem admission_above_a_lowered_quota :
  exists s' victims,
    admit_job (run_op full (OpQuota MIB (100 * MIB))) inst (job 3) (job 13) (4%nat, 5%nat) = Ok (s', victims) /\
    s_quota s' < s_used s'.
Proof.
  assert (summary (admit_job (run_op full (OpQuota MIB (100 * MIB))) inst (job 3) (job 13) (4%nat, 5%nat)) =
          Some ([job 1], 2 * MIB, MIB)) as Hs by (vm_compute; reflexivity).
  destruct (summary_Some _ _ _ _ Hs) as (s' & victims & He & _ & Hu & Hq).
  exists s', victims. split; [exact He|]. rewrite Hu, Hq. by vm_compute.
Qed.
End LedgerDemo.
