(* ===== verification/Policy.v ===== *)
(** * Policy records (conversation/policy.rs).

    The policy refusal field of kind 14, kind 34 [PolicyDecision] and kind 35
    [PolicyRevision]: their validation, writers and readers, with the kind 34
    and 35 arms of [decode_record] (conversation/codec.rs). The theorems: a
    payload decodes exactly when it is the encoding of a valid record, and a
    frame of it reads back. *)
From stdpp Require Import prelude list gmap.
From Stdlib Require Import ZArith Lia.
From S2P Require Import Prelude Codec Fields Envelope.

Definition MAX_POLICY_DECISION_PAYLOAD : Z := 4096.
Definition MAX_POLICY_REVISION_PAYLOAD : Z := 8192.
Definition MAX_POLICY_RULES : Z := 8.
Definition MAX_POLICY_SCOPES : Z := 4.
Definition MAX_POLICY_REASON : Z := 48.
Definition MAX_POLICY_ID : Z := 64.
Definition MAX_POLICY_RULE : Z := 10 + 1 + MAX_POLICY_ID.
Definition MAX_POLICY_EXPLAIN : Z := 200.
Definition MAX_POLICY_VERSION : Z := 16.
Definition MAX_POLICY_IDS : Z := 512.
Definition MAX_PENDING_POLICY_DECISIONS : nat := 64.
Definition MAX_PENDING_PERSON_DECISIONS : nat := 512.
Definition MAX_POLICY_REFUSAL_FIELD : Z :=
  1 + 1 + 4 + MAX_POLICY_REASON + 4 + MAX_POLICY_RULE + 4 + MAX_POLICY_EXPLAIN.

(** ** Text rules. A [str] is its UTF-8 bytes. *)
Definition is_ascii_lowercase (b : Z) : bool := (97 <=? b) && (b <=? 122).
Definition is_ascii_digit (b : Z) : bool := (48 <=? b) && (b <=? 57).
Definition len_in (lo hi : Z) (s : bytes) : bool := (lo <=? zlen s) && (zlen s <=? hi).
Definition valid_policy_reason (s : bytes) : bool :=
  len_in 1 MAX_POLICY_REASON s &&
  forallb (fun b => is_ascii_lowercase b || is_ascii_digit b || (b =? 95)) s.
Definition valid_policy_id (s : bytes) : bool :=
  len_in 1 MAX_POLICY_ID s &&
  forallb (fun b => is_ascii_lowercase b || is_ascii_digit b || ((b =? 95) || (b =? 46) || (b =? 45))) s.
(** [str::split_once(':')]. *)
Fixpoint split_once_colon (s : bytes) : option (bytes * bytes) :=
  match s with
  | [] => None
  | b :: s' =>
      if b =? 58 then Some ([], s')
      else match split_once_colon s' with
           | Some (l, r) => Some (b :: l, r)
           | None => None
           end
  end.
(** "installation", "user", "workspace", "repository". *)
Definition POLICY_SCOPE_NAMES : list bytes :=
  [[105; 110; 115; 116; 97; 108; 108; 97; 116; 105; 111; 110]; [117; 115; 101; 114];
   [119; 111; 114; 107; 115; 112; 97; 99; 101]; [114; 101; 112; 111; 115; 105; 116; 111; 114; 121]].
Definition valid_policy_rule (s : bytes) : bool :=
  match split_once_colon s with
  | Some (scope, id) => bool_decide (scope ∈ POLICY_SCOPE_NAMES) && valid_policy_id id
  | None => false
  end.
Definition valid_policy_explain (s : bytes) : bool :=
  (zlen s <=? MAX_POLICY_EXPLAIN) && forallb (fun b => (0x20 <=? b) && (b <=? 0x7e)) s.
Definition valid_version (s : bytes) : bool :=
  len_in 1 MAX_POLICY_VERSION s && forallb (fun b => is_ascii_digit b || (b =? 46)) s.

(** ** The refusal field of kind 14. *)
Record PolicyRefusal : Type := mkRefusal {
  pr_scope : Z; pr_reason : bytes; pr_rule : bytes; pr_explain : bytes;
}.
Definition is_empty (s : bytes) : bool := bool_decide (s = []).
Definition refusal_validate (p : PolicyRefusal) : Result unit :=
  require ((pr_scope p <=? 4) && valid_policy_reason (pr_reason p) &&
           (is_empty (pr_rule p) || valid_policy_rule (pr_rule p)) &&
           valid_policy_explain (pr_explain p) &&
           (is_empty (pr_explain p) || ((pr_scope p =? 1) || (pr_scope p =? 2)))).
Definition w_text (w : Writer) (s : bytes) : Writer := w_bytes (w_u32 w (wrap 32 (zlen s))) s.
Definition policy_refusal_fields (w : Writer) (value : option PolicyRefusal) : Writer :=
  match value with
  | None => w_byte w 0
  | Some p => w_text (w_text (w_text (w_byte (w_byte w 1) (pr_scope p)) (pr_reason p)) (pr_rule p)) (pr_explain p)
  end.
Definition read_policy_refusal : reader (option PolicyRefusal) :=
  read some := r_flag in
  if negb some then rret None else
  read scope := r_byte in
  read reason := r_bounded_string MAX_POLICY_REASON in
  read rule := r_bounded_string MAX_POLICY_RULE in
  read explain := r_bounded_string MAX_POLICY_EXPLAIN in
  let value := mkRefusal scope reason rule explain in
  read _ := rlift (refusal_validate value) in
  rret (Some value).

(** ** Kind 34. *)
Inductive PolicySubject : Type :=
| ModelCall (operation : bytes) (generation ordinal : Z)
| PersonInput (input : bytes).
Record PolicyScopeResult : Type := mkScopeResult {
  sr_scope : Z; sr_allow : bool; sr_error : Z; sr_rules : list bytes;
}.
Inductive PolicyOutcome : Type := PRun | PAsk | PDeny.
#[export] Instance PolicyOutcome_eq_dec : EqDecision PolicyOutcome.
Proof. solve_decision. Defined.
Definition outcome_code (o : PolicyOutcome) : Z := match o with PRun => 1 | PAsk => 2 | PDeny => 3 end.
Definition outcome_from_code (code : Z) : option PolicyOutcome :=
  if code =? 1 then Some PRun else if code =? 2 then Some PAsk
  else if code =? 3 then Some PDeny else None.
Record PolicyDecision : Type := mkDecision {
  pd_subject : PolicySubject; pd_action : Z; pd_origin : Z; pd_profile : Z; pd_project : bytes;
  pd_task_conversation : bytes; pd_task_agent : Z; pd_resource_digest : bytes;
  pd_request_digest : bytes; pd_intent_digest : option bytes; pd_revision_seq : Z;
  pd_revision_digest : bytes; pd_scopes : list PolicyScopeResult; pd_outcome : PolicyOutcome;
  pd_primary_scope : Z; pd_reason : bytes; pd_constraint_digest : option bytes; pd_now_ms : Z;
}.
(** [l.windows(2).all(..)]. *)
Fixpoint windows_all {A} (f : A -> A -> bool) (l : list A) : bool :=
  match l with
  | a :: ((b :: _) as l') => f a b && windows_all f l'
  | _ => true
  end.
Definition is_some {A} (o : option A) : bool := match o with Some _ => true | None => false end.
Definition scope_result_valid (s : PolicyScopeResult) : bool :=
  in_range 1 4 (sr_scope s) && (sr_error s <=? 4) && ((sr_error s =? 0) || negb (sr_allow s)) &&
  (zlen (sr_rules s) <=? MAX_POLICY_RULES) && forallb valid_policy_rule (sr_rules s).
Definition decision_validate (p : PolicyDecision) : Result unit :=
  let '(subject, model) :=
    match pd_subject p with
    | ModelCall operation generation ordinal =>
        (nonzero_id operation && (1 <=? generation) && (1 <=? ordinal) && (pd_origin p =? 1) &&
         (pd_profile p =? 1), true)
    | PersonInput input =>
        (nonzero_id input && (pd_origin p =? 2) && ((pd_profile p =? 2) || (pd_profile p =? 3)) &&
         (pd_task_agent p =? 0), false)
    end in
  let scopes :=
    in_range 1 MAX_POLICY_SCOPES (zlen (pd_scopes p)) &&
    windows_all (fun a b => sr_scope a <? sr_scope b) (pd_scopes p) &&
    forallb scope_result_valid (pd_scopes p) in
  let all_allow := forallb sr_allow (pd_scopes p) in
  let outcome :=
    match pd_outcome p with
    | PRun => all_allow && (pd_primary_scope p =? 0) &&
              Bool.eqb (is_some (pd_constraint_digest p)) model
    | PAsk | PDeny =>
        negb (is_some (pd_constraint_digest p)) &&
        ((pd_primary_scope p =? 0) ||
         existsb (fun s => (sr_scope s =? pd_primary_scope p) && negb (sr_allow s)) (pd_scopes p))
    end in
  require (subject && in_range 1 11 (pd_action p) && in_range 1 3 (pd_origin p) &&
           in_range 1 3 (pd_profile p) && nonzero_id (pd_project p) &&
           nonzero_id (pd_task_conversation p) && (1 <=? pd_revision_seq p) &&
           (pd_primary_scope p <=? 4) && valid_policy_reason (pd_reason p) && scopes && outcome).
Definition decision_call (p : PolicyDecision) : option (bytes * Z * Z) :=
  match pd_subject p with
  | ModelCall operation generation ordinal => Some (operation, generation, ordinal)
  | PersonInput _ => None
  end.
Definition option_hash (w : Writer) (value : option bytes) : Writer :=
  let w := w_byte w (Z.b2z (is_some value)) in
  match value with Some v => w_bytes w v | None => w end.
Definition read_option_hash : reader (option bytes) :=
  read some := r_flag in
  if some then read a := r_array 32 in rret (Some a) else rret None.
Definition write_scope_result (w : Writer) (s : PolicyScopeResult) : Result Writer :=
  let w := w_byte w (sr_scope s) in
  let w := w_byte w (Z.b2z (sr_allow s)) in
  let w := w_byte w (sr_error s) in
  let w := w_byte w (wrap 8 (zlen (sr_rules s))) in
  w_each (fun w rule => w_string w rule MAX_POLICY_RULE) w (sr_rules s).
Definition write_policy_decision (w : Writer) (p : PolicyDecision) : Result Writer :=
  let? _ := decision_validate p in
  let start := zlen w in
  let w := match pd_subject p with
           | ModelCall operation generation ordinal =>
               w_u32 (w_u64 (w_bytes (w_byte w 1) operation) generation) ordinal
           | PersonInput input => w_bytes (w_byte w 2) input
           end in
  let w := w_byte (w_byte (w_byte w (pd_action p)) (pd_origin p)) (pd_profile p) in
  let w := w_bytes (w_bytes w (pd_project p)) (pd_task_conversation p) in
  let w := w_u32 w (pd_task_agent p) in
  let w := w_bytes (w_bytes w (pd_resource_digest p)) (pd_request_digest p) in
  let w := option_hash w (pd_intent_digest p) in
  let w := w_bytes (w_u64 w (pd_revision_seq p)) (pd_revision_digest p) in
  let w := w_byte w (wrap 8 (zlen (pd_scopes p))) in
  let? w := w_each write_scope_result w (pd_scopes p) in
  let w := w_byte (w_byte w (outcome_code (pd_outcome p))) (pd_primary_scope p) in
  let? w := w_string w (pd_reason p) MAX_POLICY_REASON in
  let w := option_hash w (pd_constraint_digest p) in
  let w := w_u64 w (pd_now_ms p) in
  if decide (zlen w - start > MAX_POLICY_DECISION_PAYLOAD) then Err Limit else Ok w.
Definition read_subject : reader PolicySubject :=
  read code := r_byte in
  if code =? 1 then
    read operation := r_array 16 in
    read generation := r_u64 in
    read ordinal := r_u32 in
    rret (ModelCall operation generation ordinal)
  else if code =? 2 then read input := r_array 16 in rret (PersonInput input)
  else rlift (Err Corrupt).
Definition read_scope_result : reader PolicyScopeResult :=
  read scope := r_byte in
  read allow := r_flag in
  read error := r_byte in
  read rules_count := r_byte in
  read _ := rlift (require (rules_count <=? MAX_POLICY_RULES)) in
  read rules := r_many (Z.to_nat rules_count) (r_bounded_string MAX_POLICY_RULE) in
  rret (mkScopeResult scope allow error rules).
Definition read_policy_decision : reader PolicyDecision :=
  read subject := read_subject in
  read action := r_byte in
  read origin := r_byte in
  read profile := r_byte in
  read project := r_array 16 in
  read task_conversation := r_array 16 in
  read task_agent := r_u32 in
  read resource_digest := r_array 32 in
  read request_digest := r_array 32 in
  read intent_digest := read_option_hash in
  read revision_seq := r_u64 in
  read revision_digest := r_array 32 in
  read count := r_byte in
  read _ := rlift (require (in_range 1 MAX_POLICY_SCOPES count)) in
  read scopes := r_many (Z.to_nat count) read_scope_result in
  read code := r_byte in
  read outcome := rlift (ok_or Corrupt (outcome_from_code code)) in
  read primary_scope := r_byte in
  read reason := r_bounded_string MAX_POLICY_REASON in
  read constraint_digest := read_option_hash in
  read now_ms := r_u64 in
  let value := mkDecision subject action origin profile project task_conversation task_agent
                 resource_digest request_digest intent_digest revision_seq revision_digest scopes
                 outcome primary_scope reason constraint_digest now_ms in
  read _ := rlift (decision_validate value) in
  rret value.

(** ** Kind 35. *)
Inductive PolicyRevisionEvent : Type := Activated | Superseded | Revoked | Rejected.
#[export] Instance PolicyRevisionEvent_eq_dec : EqDecision PolicyRevisionEvent.
Proof. solve_decision. Defined.
Definition event_code (e : PolicyRevisionEvent) : Z :=
  match e with Activated => 1 | Superseded => 2 | Revoked => 3 | Rejected => 4 end.
Definition event_from_code (code : Z) : option PolicyRevisionEvent :=
  if code =? 1 then Some Activated else if code =? 2 then Some Superseded
  else if code =? 3 then Some Revoked else if code =? 4 then Some Rejected else None.
Record PolicyScopeSet : Type := mkScopeSet {
  ss_scope : Z; ss_project : option bytes; ss_text_digest : bytes; ss_source : bytes;
  ss_policy_ids : list bytes;
}.
Record PolicyRevision : Type := mkRevision {
  rv_seq : Z; rv_digest : bytes; rv_previous_seq : Z; rv_event : PolicyRevisionEvent;
  rv_schema_digest : bytes; rv_cedar_lang : bytes; rv_cedar_sdk : bytes;
  rv_solver_digest : option bytes; rv_admission_digest : option bytes; rv_scopes : list PolicyScopeSet;
}.
Definition scope_set_valid (s : PolicyScopeSet) : bool :=
  in_range 1 4 (ss_scope s) &&
  Bool.eqb (is_some (ss_project s)) ((ss_scope s =? 3) || (ss_scope s =? 4)) &&
  bool_decide (ss_project s <> Some (zeros 16)) && valid_policy_id (ss_source s) &&
  (zlen (ss_policy_ids s) <=? MAX_POLICY_IDS) && forallb valid_policy_id (ss_policy_ids s).
Definition revision_validate (p : PolicyRevision) : Result unit :=
  let sets :=
    in_range 1 MAX_POLICY_SCOPES (zlen (rv_scopes p)) &&
    windows_all (fun a b => ltb (ss_scope a, ss_project a) (ss_scope b, ss_project b)) (rv_scopes p) &&
    forallb scope_set_valid (rv_scopes p) in
  require ((1 <=? rv_seq p) && (rv_previous_seq p <? rv_seq p) && valid_version (rv_cedar_lang p) &&
           valid_version (rv_cedar_sdk p) && sets).
Definition write_scope_set (start : Z) (w : Writer) (s : PolicyScopeSet) : Result Writer :=
  let w := w_byte w (ss_scope s) in
  let w := w_optional w (ss_project s) in
  let w := w_bytes w (ss_text_digest s) in
  let? w := w_string w (ss_source s) MAX_POLICY_ID in
  let w := w_u16 w (wrap 16 (zlen (ss_policy_ids s))) in
  let? w := w_each (fun w id => w_string w id MAX_POLICY_ID) w (ss_policy_ids s) in
  if decide (zlen w - start > MAX_POLICY_REVISION_PAYLOAD) then Err Limit else Ok w.
Definition write_policy_revision (w : Writer) (p : PolicyRevision) : Result Writer :=
  let? _ := revision_validate p in
  let start := zlen w in
  let w := w_u64 (w_bytes (w_u64 w (rv_seq p)) (rv_digest p)) (rv_previous_seq p) in
  let w := w_bytes (w_byte w (event_code (rv_event p))) (rv_schema_digest p) in
  let? w := w_string w (rv_cedar_lang p) MAX_POLICY_VERSION in
  let? w := w_string w (rv_cedar_sdk p) MAX_POLICY_VERSION in
  let w := option_hash (option_hash w (rv_solver_digest p)) (rv_admission_digest p) in
  let w := w_byte w (wrap 8 (zlen (rv_scopes p))) in
  let? w := w_each (write_scope_set start) w (rv_scopes p) in
  if decide (zlen w - start > MAX_POLICY_REVISION_PAYLOAD) then Err Limit else Ok w.
Definition read_scope_set : reader PolicyScopeSet :=
  read scope := r_byte in
  read project := r_optional in
  read text_digest := r_array 32 in
  read source := r_bounded_string MAX_POLICY_ID in
  read ids := r_u16 in
  read _ := rlift (require (ids <=? MAX_POLICY_IDS)) in
  read policy_ids := r_many (Z.to_nat ids) (r_bounded_string MAX_POLICY_ID) in
  rret (mkScopeSet scope project text_digest source policy_ids).
Definition read_policy_revision : reader PolicyRevision :=
  read seq := r_u64 in
  read digest := r_array 32 in
  read previous_seq := r_u64 in
  read code := r_byte in
  read event := rlift (ok_or Corrupt (event_from_code code)) in
  read schema_digest := r_array 32 in
  read cedar_lang := r_bounded_string MAX_POLICY_VERSION in
  read cedar_sdk := r_bounded_string MAX_POLICY_VERSION in
  read solver_digest := read_option_hash in
  read admission_digest := read_option_hash in
  read count := r_byte in
  read _ := rlift (require (in_range 1 MAX_POLICY_SCOPES count)) in
  read scopes := r_many (Z.to_nat count) read_scope_set in
  let value := mkRevision seq digest previous_seq event schema_digest cedar_lang cedar_sdk
                 solver_digest admission_digest scopes in
  read _ := rlift (revision_validate value) in
  rret value.

(** ** The kind 34 and 35 arms of [decode_record]. *)
Definition decode_decision : bytes -> Result PolicyDecision :=
  decode_bounded MAX_POLICY_DECISION_PAYLOAD read_policy_decision.
Definition decode_revision : bytes -> Result PolicyRevision :=
  decode_bounded MAX_POLICY_REVISION_PAYLOAD read_policy_revision.

(** The policy arms of [payload] and of [decode_record]; the other kinds are
    not records of this codec. *)
Inductive PolicyRecord : Type := RDecision (p : PolicyDecision) | RRevision (p : PolicyRevision).
#[export] Instance policy_codec : RecordCodec PolicyRecord := {|
  record_kind := fun r => match r with RDecision _ => 34 | RRevision _ => 35 end;
  record_payload := fun r => match r with
                             | RDecision p => write_policy_decision [] p
                             | RRevision p => write_policy_revision [] p
                             end;
  decode_record := fun kind payload =>
    if kind =? 34 then let? p := decode_decision payload in Ok (RDecision p)
    else if kind =? 35 then let? p := decode_revision payload in Ok (RRevision p)
    else Err UnsupportedFormat;
|}.

(** ** Field layout. *)
Definition scope_result_bytes (s : PolicyScopeResult) : bytes :=
  [sr_scope s; Z.b2z (sr_allow s); sr_error s; zlen (sr_rules s)] ++ concat (string_field <$> sr_rules s).
Definition subject_bytes (s : PolicySubject) : bytes :=
  match s with
  | ModelCall operation generation ordinal => 1 :: operation ++ be_bytes 8 generation ++ be_bytes 4 ordinal
  | PersonInput input => 2 :: input
  end.
Definition decision_bytes (p : PolicyDecision) : bytes :=
  subject_bytes (pd_subject p) ++ [pd_action p; pd_origin p; pd_profile p] ++ pd_project p ++
  pd_task_conversation p ++ be_bytes 4 (pd_task_agent p) ++ pd_resource_digest p ++
  pd_request_digest p ++ option_field (pd_intent_digest p) ++ be_bytes 8 (pd_revision_seq p) ++
  pd_revision_digest p ++ [zlen (pd_scopes p)] ++ concat (scope_result_bytes <$> pd_scopes p) ++
  [outcome_code (pd_outcome p); pd_primary_scope p] ++ string_field (pd_reason p) ++
  option_field (pd_constraint_digest p) ++ be_bytes 8 (pd_now_ms p).
Definition scope_set_bytes (s : PolicyScopeSet) : bytes :=
  [ss_scope s] ++ option_field (ss_project s) ++ ss_text_digest s ++ string_field (ss_source s) ++
  be_bytes 2 (zlen (ss_policy_ids s)) ++ concat (string_field <$> ss_policy_ids s).
Definition revision_bytes (p : PolicyRevision) : bytes :=
  be_bytes 8 (rv_seq p) ++ rv_digest p ++ be_bytes 8 (rv_previous_seq p) ++
  [event_code (rv_event p)] ++ rv_schema_digest p ++ string_field (rv_cedar_lang p) ++
  string_field (rv_cedar_sdk p) ++ option_field (rv_solver_digest p) ++
  option_field (rv_admission_digest p) ++ [zlen (rv_scopes p)] ++ concat (scope_set_bytes <$> rv_scopes p).

(** The widths of the Rust types. *)
Definition hash_option (o : option bytes) : Prop := forall a, o = Some a -> Hash_ok a.
Definition scope_result_ok (s : PolicyScopeResult) : Prop :=
  u8 (sr_scope s) /\ u8 (sr_error s) /\ Forall str_ok (sr_rules s).
Definition subject_ok (s : PolicySubject) : Prop :=
  match s with
  | ModelCall operation generation ordinal => Id_ok operation /\ u64 generation /\ u32 ordinal
  | PersonInput input => Id_ok input
  end.
Record decision_ok (p : PolicyDecision) : Prop := {
  do_subject : subject_ok (pd_subject p);
  do_action : u8 (pd_action p); do_origin : u8 (pd_origin p); do_profile : u8 (pd_profile p);
  do_project : Id_ok (pd_project p); do_conversation : Id_ok (pd_task_conversation p);
  do_agent : u32 (pd_task_agent p); do_resource : Hash_ok (pd_resource_digest p);
  do_request : Hash_ok (pd_request_digest p); do_intent : hash_option (pd_intent_digest p);
  do_seq : u64 (pd_revision_seq p); do_revision : Hash_ok (pd_revision_digest p);
  do_scopes : Forall scope_result_ok (pd_scopes p); do_primary : u8 (pd_primary_scope p);
  do_reason : str_ok (pd_reason p); do_constraint : hash_option (pd_constraint_digest p);
  do_now : u64 (pd_now_ms p);
}.
Definition scope_set_ok (s : PolicyScopeSet) : Prop :=
  u8 (ss_scope s) /\ (forall a, ss_project s = Some a -> Id_ok a) /\ Hash_ok (ss_text_digest s) /\
  str_ok (ss_source s) /\ Forall str_ok (ss_policy_ids s).
Record revision_ok (p : PolicyRevision) : Prop := {
  ro_seq : u64 (rv_seq p); ro_digest : Hash_ok (rv_digest p); ro_previous : u64 (rv_previous_seq p);
  ro_schema : Hash_ok (rv_schema_digest p); ro_lang : str_ok (rv_cedar_lang p);
  ro_sdk : str_ok (rv_cedar_sdk p); ro_solver : hash_option (rv_solver_digest p);
  ro_admission : hash_option (rv_admission_digest p); ro_scopes : Forall scope_set_ok (rv_scopes p);
}.

(** ** Writers. *)
Lemma option_hash_field w o : option_hash w o = w ++ option_field o.
Proof. unfold option_hash, w_byte, w_bytes, option_field. destruct o; cbn; [by rewrite <- app_assoc|done]. Qed.
Lemma write_scope_result_Ok s w w' :
  zlen (sr_rules s) <= MAX_POLICY_RULES ->
  write_scope_result w s = Ok w' <-> rules_fit MAX_POLICY_RULE (sr_rules s) /\ w' = w ++ scope_result_bytes s.
Proof.
  intros Hn. unfold write_scope_result, scope_result_bytes. pose proof (zlen_nonneg (sr_rules s)).
  unfold MAX_POLICY_RULES in Hn. rewrite wrap_small by (unfold uint; lia).
  rewrite w_strings_Ok by done. unfold w_byte. rewrite <- !app_assoc. done.
Qed.
Lemma decision_valid_scopes p :
  decision_validate p = Ok tt ->
  1 <= zlen (pd_scopes p) <= 4 /\ Forall (fun s => zlen (sr_rules s) <= MAX_POLICY_RULES) (pd_scopes p).
Proof.
  unfold decision_validate. destruct (match pd_subject p with ModelCall _ _ _ => _ | PersonInput _ => _ end) as [subject model].
  rewrite require_Ok, !andb_true_iff. intros H. destruct H as [[_ [[Hn _] Hf]] _].
  unfold in_range, MAX_POLICY_SCOPES in Hn. split; [lia|]. apply Forall_forall. intros s Hs.
  rewrite forallb_forall in Hf. specialize (Hf s (proj1 (list_elem_of_In _ _) Hs)).
  unfold scope_result_valid in Hf. rewrite !andb_true_iff in Hf. lia.
Qed.
Definition decision_fits (p : PolicyDecision) : Prop :=
  Forall (fun s => rules_fit MAX_POLICY_RULE (sr_rules s)) (pd_scopes p) /\
  zlen (pd_reason p) <= MAX_POLICY_REASON /\ zlen (decision_bytes p) <= MAX_POLICY_DECISION_PAYLOAD.
Lemma write_decision_Ok w p w' :
  write_policy_decision w p = Ok w' <->
  decision_validate p = Ok tt /\ decision_fits p /\ w' = w ++ decision_bytes p.
Proof.
  unfold write_policy_decision, decision_fits. destruct (decision_validate p) as [[]|e|] eqn:Hv; cbn [obind]; [|naive_solver..].
  destruct (decision_valid_scopes p Hv) as [Hn Hr].
  rewrite wrap_small by (unfold uint; lia).
  assert (match pd_subject p with
          | ModelCall operation generation ordinal =>
              w_u32 (w_u64 (w_bytes (w_byte w 1) operation) generation) ordinal
          | PersonInput input => w_bytes (w_byte w 2) input
          end = w ++ subject_bytes (pd_subject p)) as ->
    by (unfold w_u32, w_u64, w_bytes, w_byte, subject_bytes; destruct (pd_subject p); by rewrite <- ?app_assoc).
  rewrite obind_Ok. setoid_rewrite obind_Ok.
  setoid_rewrite (w_string_Ok _ (pd_reason p) MAX_POLICY_REASON _ ltac:(done)).
  setoid_rewrite (w_each_Ok write_scope_result (fun s => rules_fit MAX_POLICY_RULE (sr_rules s)) scope_result_bytes);
    [|eapply Forall_impl; [exact Hr|]; intros s Hs w0 w1; by apply write_scope_result_Ok].
  assert (forall a b,
    a = (w_byte (w_bytes (w_u64 (option_hash (w_bytes (w_bytes (w_u32 (w_bytes (w_bytes (w_byte (w_byte (w_byte
       (w ++ subject_bytes (pd_subject p)) (pd_action p)) (pd_origin p)) (pd_profile p)) (pd_project p))
       (pd_task_conversation p)) (pd_task_agent p)) (pd_resource_digest p)) (pd_request_digest p))
       (pd_intent_digest p)) (pd_revision_seq p)) (pd_revision_digest p)) (zlen (pd_scopes p))) ++
       concat (scope_result_bytes <$> pd_scopes p) ->
    b = w_byte (w_byte a (outcome_code (pd_outcome p))) (pd_primary_scope p) ++ string_field (pd_reason p) ->
    w_u64 (option_hash b (pd_constraint_digest p)) (pd_now_ms p) = w ++ decision_bytes p) as HE.
  { intros a b -> ->. rewrite !option_hash_field. unfold w_byte, w_bytes, w_u64, w_u32, w_bytes, decision_bytes.
    rewrite <- !app_assoc. done. }
  split.
  - intros (a & [Hf Ha] & b & [Hs Hb] & Hw). rewrite (HE a b Ha Hb), zlen_app in Hw.
    destruct (decide _); [done|]. injection Hw as <-. split_and!; try done. lia.
  - intros (_ & (Hf & Hs & Hl) & ->). eexists. split; [by split|]. eexists. split; [by split|].
    rewrite (HE _ _ eq_refl eq_refl), zlen_app. by rewrite decide_False by lia.
Qed.

(** ** Readers: what they return is what was encoded. *)
Lemma read_option_hash_parses :
  parses read_option_hash (fun o e => hash_option o /\ e = option_field o).
Proof. by apply (parses_option 32). Qed.
Lemma outcome_from_code_Some k c : outcome_from_code c = Some k <-> c = outcome_code k.
Proof.
  unfold outcome_from_code. split; [|by intros ->; destruct k]. intros. repeat case_match; simplify_eq; simpl; lia.
Qed.
Lemma event_from_code_Some k c : event_from_code c = Some k <-> c = event_code k.
Proof.
  unfold event_from_code. split; [|by intros ->; destruct k]. intros. repeat case_match; simplify_eq; simpl; lia.
Qed.

Ltac policy_next :=
  first [parses_next|eapply parses_bind; [apply read_option_hash_parses|intros ? ? [? ->]]].
Lemma read_subject_parses : parses read_subject (fun s e => subject_ok s /\ e = subject_bytes s).
Proof.
  unfold read_subject. policy_next. destruct (Z.eqb_spec a 1) as [->|].
  - do 4 policy_next. cbn. rewrite app_nil_r. by split.
  - destruct (Z.eqb_spec a 2) as [->|]; [|policy_next]. do 2 policy_next. cbn. by rewrite app_nil_r.
Qed.
Definition scope_result_good (s : PolicyScopeResult) : Prop :=
  scope_result_ok s /\ rules_fit MAX_POLICY_RULE (sr_rules s).
Lemma read_scope_result_parses :
  parses read_scope_result (fun s e => scope_result_good s /\ e = scope_result_bytes s).
Proof.
  unfold read_scope_result. do 5 policy_next. eapply parses_bind; [apply read_strings_parses|].
  intros rules e (Hn & Hr & ->). policy_next. unfold scope_result_good, scope_result_ok, rules_fit, scope_result_bytes. cbn [sr_scope sr_allow sr_error sr_rules].
  apply Forall_and in Hr as [Hr1 Hr2]. rewrite (zlen_to_nat rules a2) by (unfold uint in *; lia). cbn. rewrite app_nil_r. refine (conj (conj (conj _ (conj _ _)) _) _); done.
Qed.
Lemma decision_validate_no_panic p : decision_validate p <> Panic.
Proof. unfold decision_validate. destruct (pd_subject p); apply require_not_panic. Qed.
Lemma read_decision_parses :
  parses read_policy_decision (fun p e => (decision_ok p /\ decision_validate p = Ok tt /\
    Forall (fun s => rules_fit MAX_POLICY_RULE (sr_rules s)) (pd_scopes p) /\
    zlen (pd_reason p) <= MAX_POLICY_REASON) /\ e = decision_bytes p).
Proof.
  unfold read_policy_decision. eapply parses_bind; [apply read_subject_parses|]. intros subject ? [Hs ->].
  do 13 policy_next.
  eapply parses_bind; [apply parses_many, read_scope_result_parses|]. intros scopes ? (Hn & Hg & ->).
  policy_next. eapply (parses_from_code outcome_from_code outcome_code); [intros; by apply outcome_from_code_Some|].
  intros outcome Ho. do 4 policy_next.
  apply (parses_validate _ tt); [apply decision_validate_no_panic|].
  intros Hv. policy_next. apply Forall_and in Hg as [Hg1 Hg2].
  split; [refine (conj _ (conj Hv (conj Hg2 _))); [constructor|]; done|].
  unfold decision_bytes. cbn [pd_subject pd_action pd_origin pd_profile pd_project pd_task_conversation
    pd_task_agent pd_resource_digest pd_request_digest pd_intent_digest pd_revision_seq pd_revision_digest
    pd_scopes pd_outcome pd_primary_scope pd_reason pd_constraint_digest pd_now_ms].
  subst. rewrite (zlen_to_nat scopes a5) by (unfold uint in *; lia). by rewrite app_nil_r, <- ?app_assoc.
Qed.

Lemma reads_subject s : subject_ok s -> reads read_subject (subject_bytes s) s.
Proof.
  unfold read_subject, subject_bytes. destruct s as [op g o|i]; cbn [subject_ok].
  - intros (? & ? & ?). reads_next. cbn [Z.eqb Pos.eqb]. do 2 reads_next.
    eapply reads_last; [by apply reads_u32|apply reads_ret].
  - intros ?. reads_next. cbn [Z.eqb Pos.eqb]. eapply reads_last; [by apply reads_array|apply reads_ret].
Qed.
Lemma reads_scope_result s :
  scope_result_good s -> zlen (sr_rules s) <= MAX_POLICY_RULES -> reads read_scope_result (scope_result_bytes s) s.
Proof.
  intros [(Hs & He & Hr) Hf] Hn. unfold read_scope_result, scope_result_bytes. cbn [app].
  do 4 reads_next. reads_next; [by apply Z.leb_le|]. 
  eapply reads_last; [by apply reads_strings; [done|unfold zlen; lia|..]|cbv beta]. destruct s. apply reads_ret.
Qed.
Lemma reads_decision p :
  decision_ok p -> decision_validate p = Ok tt -> decision_fits p ->
  reads read_policy_decision (decision_bytes p) p.
Proof.
  intros [] Hv (Hr & Hs & _). destruct (decision_valid_scopes p Hv) as [Hn Hl].
  unfold read_policy_decision, decision_bytes. eapply reads_bind; [by apply reads_subject|cbv beta].
  cbn [app]. do 12 reads_next. reads_next; [unfold in_range, MAX_POLICY_SCOPES; lia|].
  eapply reads_bind.
  { apply reads_many; [unfold zlen; lia|]. rewrite Forall_forall in *. intros s Hin.
    apply reads_scope_result; [split|]; auto. }
  cbv beta. reads_next. reads_next.
  { rewrite (proj2 (outcome_from_code_Some (pd_outcome p) _) eq_refl). apply reads_lift. }
  do 3 reads_next. eapply reads_last; [by apply reads_u64|cbv beta zeta].
  eapply reads_last; [|destruct p; apply reads_ret]. destruct p. cbn in *. rewrite Hv. apply reads_lift.
Qed.

(** ** Kind 35, both directions. *)
Definition scope_set_fits (s : PolicyScopeSet) : Prop :=
  zlen (ss_source s) <= MAX_POLICY_ID /\ rules_fit MAX_POLICY_ID (ss_policy_ids s).
Lemma write_scope_set_Ok start w s w' :
  zlen (ss_policy_ids s) <= MAX_POLICY_IDS ->
  write_scope_set start w s = Ok w' <->
  scope_set_fits s /\ zlen (w ++ scope_set_bytes s) - start <= MAX_POLICY_REVISION_PAYLOAD /\
  w' = w ++ scope_set_bytes s.
Proof.
  intros Hn. unfold write_scope_set, scope_set_fits. pose proof (zlen_nonneg (ss_policy_ids s)).
  unfold MAX_POLICY_IDS in Hn. rewrite wrap_small by (unfold uint; lia).
  rewrite obind_Ok. setoid_rewrite obind_Ok.
  setoid_rewrite (w_string_Ok _ (ss_source s) MAX_POLICY_ID _ ltac:(done)).
  setoid_rewrite (w_strings_Ok MAX_POLICY_ID _ _ _ ltac:(done)).
  assert (forall a, a = w_bytes (w_optional (w_byte w (ss_scope s)) (ss_project s)) (ss_text_digest s) ++ string_field (ss_source s) ->
    w_u16 a (zlen (ss_policy_ids s)) ++ concat (string_field <$> ss_policy_ids s) = w ++ scope_set_bytes s) as HE.
  { intros a ->. rewrite w_optional_field. unfold w_byte, w_bytes, w_u16, w_bytes, scope_set_bytes. by rewrite <- !app_assoc. }
  split.
  - intros (a & [Hs Ha] & b & [Hi Hb] & Hw). rewrite (HE a Ha) in Hb. subst b.
    destruct (decide _); [done|]. injection Hw as <-. split_and!; try done; lia.
  - intros ([Hs Hi] & Hl & ->). eexists. split; [by split|]. eexists. split; [by split|].
    rewrite (HE _ eq_refl). by rewrite decide_False by lia.
Qed.
Lemma revision_valid_scopes p :
  revision_validate p = Ok tt ->
  1 <= zlen (rv_scopes p) <= 4 /\ Forall (fun s => zlen (ss_policy_ids s) <= MAX_POLICY_IDS) (rv_scopes p).
Proof.
  unfold revision_validate. rewrite require_Ok, !andb_true_iff. intros H. destruct H as [_ [[Hn _] Hf]].
  unfold in_range, MAX_POLICY_SCOPES in Hn. split; [lia|]. apply Forall_forall. intros s Hs.
  rewrite forallb_forall in Hf. specialize (Hf s (proj1 (list_elem_of_In _ _) Hs)).
  unfold scope_set_valid in Hf. rewrite !andb_true_iff in Hf. lia.
Qed.
Definition revision_fits (p : PolicyRevision) : Prop :=
  Forall scope_set_fits (rv_scopes p) /\ zlen (rv_cedar_lang p) <= MAX_POLICY_VERSION /\
  zlen (rv_cedar_sdk p) <= MAX_POLICY_VERSION /\ zlen (revision_bytes p) <= MAX_POLICY_REVISION_PAYLOAD.
Lemma write_revision_Ok w p w' :
  write_policy_revision w p = Ok w' <->
  revision_validate p = Ok tt /\ revision_fits p /\ w' = w ++ revision_bytes p.
Proof.
  unfold write_policy_revision, revision_fits. destruct (revision_validate p) as [[]|e|] eqn:Hv; cbn [obind]; [|naive_solver..].
  destruct (revision_valid_scopes p Hv) as [Hn Hr].
  rewrite wrap_small by (unfold uint; lia).
  rewrite obind_Ok. setoid_rewrite obind_Ok. setoid_rewrite obind_Ok.
  setoid_rewrite (w_string_Ok _ _ MAX_POLICY_VERSION _ ltac:(done)).
  assert (forall a b,
    a = w_bytes (w_byte (w_u64 (w_bytes (w_u64 w (rv_seq p)) (rv_digest p)) (rv_previous_seq p))
          (event_code (rv_event p))) (rv_schema_digest p) ++ string_field (rv_cedar_lang p) ->
    b = a ++ string_field (rv_cedar_sdk p) ->
    w_byte (option_hash (option_hash b (rv_solver_digest p)) (rv_admission_digest p)) (zlen (rv_scopes p)) ++
      concat (scope_set_bytes <$> rv_scopes p) = w ++ revision_bytes p) as HE.
  { intros a b -> ->. rewrite !option_hash_field. unfold w_byte, w_bytes, w_u64, w_bytes, revision_bytes.
    rewrite <- !app_assoc. done. }
  split.
  - intros (a & [Hs Ha] & b & [Hs' Hb] & c & Hc & Hw).
    apply (w_each_sound _ scope_set_fits scope_set_bytes) in Hc as [Hf Hc].
    2:{ eapply Forall_impl; [exact Hr|]. intros s Hs0 w0 w1 Hw0. apply write_scope_set_Ok in Hw0; naive_solver. }
    rewrite (HE a b Ha Hb) in Hc. subst c. rewrite zlen_app in Hw.
    destruct (decide _); [done|]. injection Hw as <-. split_and!; try done. lia.
  - intros (_ & (Hf & Hs & Hs' & Hl) & ->). eexists. split; [by split|]. eexists. split; [by split|].
    eexists. split.
    + apply (w_each_complete _ (zlen w + MAX_POLICY_REVISION_PAYLOAD) scope_set_bytes).
      * rewrite Forall_forall in *. intros s Hin w0 Hb. apply write_scope_set_Ok; [by apply Hr|].
        split_and!; [by apply Hf..|lia|done].
      * rewrite (HE _ _ eq_refl eq_refl), zlen_app. lia.
    + rewrite (HE _ _ eq_refl eq_refl), zlen_app. by rewrite decide_False by lia.
Qed.
Definition scope_set_good (s : PolicyScopeSet) : Prop := scope_set_ok s /\ scope_set_fits s.
Lemma read_scope_set_parses :
  parses read_scope_set (fun s e => scope_set_good s /\ e = scope_set_bytes s).
Proof.
  unfold read_scope_set. do 6 policy_next. eapply parses_bind; [apply read_strings_parses|].
  intros ids ? (Hn & Hr & ->). policy_next. apply Forall_and in Hr as [Hr1 Hr2].
  unfold scope_set_good, scope_set_ok, scope_set_fits, rules_fit, scope_set_bytes.
  cbn [ss_scope ss_project ss_text_digest ss_source ss_policy_ids].
  rewrite (zlen_to_nat ids a2) by (unfold uint in *; lia). rewrite app_nil_r, <- ?app_assoc.
  refine (conj (conj (conj _ (conj _ (conj _ (conj _ _)))) (conj _ _)) _); done.
Qed.
Lemma revision_validate_no_panic p : revision_validate p <> Panic.
Proof. apply require_not_panic. Qed.
Lemma read_revision_parses :
  parses read_policy_revision (fun p e => (revision_ok p /\ revision_validate p = Ok tt /\
    Forall scope_set_fits (rv_scopes p) /\ zlen (rv_cedar_lang p) <= MAX_POLICY_VERSION /\
    zlen (rv_cedar_sdk p) <= MAX_POLICY_VERSION) /\ e = revision_bytes p).
Proof.
  unfold read_policy_revision. do 4 policy_next.
  eapply (parses_from_code event_from_code event_code); [intros; by apply event_from_code_Some|].
  intros event Ho. do 7 policy_next.
  eapply parses_bind; [apply parses_many, read_scope_set_parses|]. intros scopes ? (Hn & Hg & ->).
  cbv zeta. apply (parses_validate _ tt); [apply revision_validate_no_panic|].
  intros Hv. policy_next. apply Forall_and in Hg as [Hg1 Hg2].
  split; [refine (conj _ (conj Hv (conj Hg2 (conj _ _)))); [constructor|..]; done|].
  unfold revision_bytes. cbn [rv_seq rv_digest rv_previous_seq rv_event rv_schema_digest rv_cedar_lang
    rv_cedar_sdk rv_solver_digest rv_admission_digest rv_scopes].
  subst. rewrite (zlen_to_nat scopes a6) by (unfold uint in *; lia). by rewrite app_nil_r, <- ?app_assoc.
Qed.
Lemma reads_scope_set s :
  scope_set_good s -> zlen (ss_policy_ids s) <= MAX_POLICY_IDS -> reads read_scope_set (scope_set_bytes s) s.
Proof.
  intros [(Hs & Hp & Ht & Hso & Hids) [Hf1 Hf2]] Hn. unfold read_scope_set, scope_set_bytes. cbn [app].
  unfold MAX_POLICY_IDS in Hn. pose proof (zlen_nonneg (ss_policy_ids s)).
  do 4 reads_next. reads_next; [apply reads_u16; unfold uint; lia|]. reads_next; [by apply Z.leb_le|].
  eapply reads_last; [by apply reads_strings; [done|unfold zlen; lia|..]|cbv beta]. destruct s. apply reads_ret.
Qed.
Lemma reads_revision p :
  revision_ok p -> revision_validate p = Ok tt -> revision_fits p ->
  reads read_policy_revision (revision_bytes p) p.
Proof.
  intros [] Hv (Hr & Hl1 & Hl2 & _). destruct (revision_valid_scopes p Hv) as [Hn Hl].
  unfold read_policy_revision, revision_bytes. cbn [app]. do 4 reads_next. reads_next.
  { rewrite (proj2 (event_from_code_Some (rv_event p) _) eq_refl). apply reads_lift. }
  do 6 reads_next. reads_next; [unfold in_range, MAX_POLICY_SCOPES; lia|].
  eapply reads_last.
  { apply reads_many; [unfold zlen; lia|]. rewrite Forall_forall in *. intros s Hin.
    apply reads_scope_set; [split|]; auto. }
  cbv beta zeta. eapply reads_last; [|destruct p; apply reads_ret]. destruct p. cbn in *. rewrite Hv. apply reads_lift.
Qed.

(** ** What decodes is what was written. *)
Lemma decision_bytes_ok p : decision_ok p -> decision_validate p = Ok tt -> bytes_ok (decision_bytes p).
Proof.
  intros [] Hv. destruct (decision_valid_scopes p Hv) as [Hn Hr]. unfold decision_bytes. bytes_solve.
  - destruct (pd_subject p) as [op g n|i]; cbn [subject_bytes subject_ok] in *.
    + apply bytes_ok_cons; [by_decide|]. destruct do_subject0 as ([_ ?] & _ & _). bytes_solve.
    + constructor; [by_decide|]. apply do_subject0.
  - constructor; [unfold uint; lia|constructor].
  - apply bytes_ok_concat. rewrite Forall_forall in *. intros s Hs. destruct (do_scopes0 s Hs) as (? & ? & ?).
    specialize (Hr s Hs). unfold MAX_POLICY_RULES in Hr. pose proof (zlen_nonneg (sr_rules s)).
    apply bytes_ok_app. split; [|by apply bytes_ok_strings].
    repeat apply Forall_cons_2; try done; [destruct (sr_allow s); by_decide|unfold uint; lia].
  - repeat apply Forall_cons_2; [destruct (pd_outcome p); by_decide|done|apply Forall_nil_2].
Qed.
Lemma revision_bytes_ok p : revision_ok p -> revision_validate p = Ok tt -> bytes_ok (revision_bytes p).
Proof.
  intros [] Hv. destruct (revision_valid_scopes p Hv) as [Hn Hr]. unfold revision_bytes. bytes_solve.
  - constructor; [destruct (rv_event p); by_decide|constructor].
  - constructor; [unfold uint; lia|constructor].
  - apply bytes_ok_concat. rewrite Forall_forall in *. intros s Hs. destruct (ro_scopes0 s Hs) as (? & ? & ? & ? & ?).
    unfold scope_set_bytes. bytes_solve. by apply bytes_ok_strings.
Qed.
Lemma decode_decision_iff payload p :
  bytes_ok payload -> decode_decision payload = Ok p <-> decision_ok p /\ write_policy_decision [] p = Ok payload.
Proof.
  intros Hb. unfold decode_decision. erewrite decode_bounded_Ok; [|done|apply read_decision_parses|].
  - rewrite write_decision_Ok. unfold decision_fits. cbn [app]. naive_solver.
  - intros Hl (? & ? & ? & ?) ->. by apply reads_decision.
Qed.
Lemma decode_revision_iff payload p :
  bytes_ok payload -> decode_revision payload = Ok p <-> revision_ok p /\ write_policy_revision [] p = Ok payload.
Proof.
  intros Hb. unfold decode_revision. erewrite decode_bounded_Ok; [|done|apply read_revision_parses|].
  - rewrite write_revision_Ok. unfold revision_fits. cbn [app]. naive_solver.
  - intros Hl (? & ? & ? & ? & ?) ->. by apply reads_revision.
Qed.
(** A kind 34 payload decodes to a decision exactly when the decision
    is valid, every one of its fields fits, and writing it gives that very
    payload; and no payload makes the decoder panic. *)
Theorem policy_decision_codec payload p :
  bytes_ok payload ->
  (decode_decision payload = Ok p <-> decision_ok p /\ write_policy_decision [] p = Ok payload) /\
  decode_decision payload <> Panic.
Proof.
  intros Hb. split; [by apply decode_decision_iff|by apply (decode_bounded_no_panic _ _ _ _ Hb read_decision_parses)].
Qed.
(** A kind 35 payload decodes to a revision exactly when the revision is
    valid, every one of its fields fits, and writing it gives that very
    payload; and no payload makes the decoder panic. *)
Theorem policy_revision_codec payload p :
  bytes_ok payload ->
  (decode_revision payload = Ok p <-> revision_ok p /\ write_policy_revision [] p = Ok payload) /\
  decode_revision payload <> Panic.
Proof.
  intros Hb. split; [by apply decode_revision_iff|by apply (decode_bounded_no_panic _ _ _ _ Hb read_revision_parses)].
Qed.
(** The policy records keep the laws the frame code relies on. *)
Definition policy_record_ok (r : PolicyRecord) : Prop :=
  match r with RDecision p => decision_ok p | RRevision p => revision_ok p end.
Lemma policy_payload_bytes r p : policy_record_ok r -> record_payload r = Ok p -> bytes_ok p.
Proof.
  destruct r as [d|d]; cbn [record_payload policy_codec policy_record_ok]; intros Hok Hw.
  - apply write_decision_Ok in Hw as (Hv & _ & ->). by apply decision_bytes_ok.
  - apply write_revision_Ok in Hw as (Hv & _ & ->). by apply revision_bytes_ok.
Qed.
#[export] Instance policy_codec_ok : RecordCodecOk PolicyRecord policy_record_ok.
Proof.
  split.
  - intros []; by_decide.
  - apply policy_payload_bytes.
  - intros r p Hok Hw _. pose proof (policy_payload_bytes r p Hok Hw) as Hb.
    destruct r as [d|d]; cbn in Hok, Hw |- *; rewrite ?(proj2 (decode_decision_iff p d Hb)), ?(proj2 (decode_revision_iff p d Hb)) by done; done.
Qed.
(** A policy record written as a journal frame is read back, through
    its locator, as the same record: the policy codec keeps the laws the frame
    code asks of a record codec. *)
Theorem policy_frame_roundtrip `{HasherOk} c r f loc :
  context_ok c -> policy_record_ok r -> encode_frame c r = Ok f ->
  l_length loc = zlen f -> l_sequence loc = sequence c ->
  verified_record f loc = Ok r.
Proof.
  intros Hc Hr Hf Hl Hs. destruct (frame_roundtrip policy_record_ok c r f loc Hc Hr Hf Hl Hs) as (d & Hv & _).
  unfold verified_record. by rewrite Hv.
Qed.

(** ** The refusal field. *)
Definition refusal_ok (p : PolicyRefusal) : Prop :=
  u8 (pr_scope p) /\ str_ok (pr_reason p) /\ str_ok (pr_rule p) /\ str_ok (pr_explain p).
Lemma refusal_valid_lengths p :
  refusal_validate p = Ok tt -> zlen (pr_reason p) <= MAX_POLICY_REASON /\ zlen (pr_explain p) <= MAX_POLICY_EXPLAIN.
Proof.
  unfold refusal_validate, valid_policy_reason, valid_policy_explain, len_in. rewrite require_Ok, !andb_true_iff.
  intros H. split; lia.
Qed.
Definition refusal_good (o : option PolicyRefusal) : Prop :=
  forall p, o = Some p -> refusal_ok p /\ refusal_validate p = Ok tt /\ zlen (pr_rule p) <= MAX_POLICY_RULE.
Definition refusal_bytes (o : option PolicyRefusal) : bytes :=
  match o with
  | None => [Z.b2z false]
  | Some p => Z.b2z true :: pr_scope p :: string_field (pr_reason p) ++ string_field (pr_rule p) ++ string_field (pr_explain p)
  end.
Lemma refusal_layout w o : refusal_good o -> policy_refusal_fields w o = w ++ refusal_bytes o.
Proof.
  intros Ho. destruct o as [p|]; cbn [policy_refusal_fields]; [|done].
  destruct (Ho p eq_refl) as (_ & Hv & Hl). destruct (refusal_valid_lengths p Hv) as [Hr' He'].
  unfold MAX_POLICY_REASON, MAX_POLICY_RULE, MAX_POLICY_ID, MAX_POLICY_EXPLAIN in *.
  pose proof (zlen_nonneg (pr_reason p)). pose proof (zlen_nonneg (pr_rule p)). pose proof (zlen_nonneg (pr_explain p)).
  unfold w_text. rewrite !wrap_small by (unfold uint; lia). unfold w_byte, w_u32, w_bytes, string_field. by rewrite <- !app_assoc.
Qed.
Lemma reads_refusal o : refusal_good o -> reads read_policy_refusal (refusal_bytes o) o.
Proof.
  intros Ho. unfold read_policy_refusal. destruct o as [p|]; cbn [refusal_bytes]; reads_next; cbn [negb]; [|apply reads_ret].
  destruct (Ho p eq_refl) as ((Hs & Hr & Hu & He) & Hv & Hl). destruct (refusal_valid_lengths p Hv) as [Hr' He'].
  do 3 reads_next. eapply reads_last; [by apply reads_bounded_string|cbv beta zeta].
  eapply reads_last; [|apply reads_eq with []; [destruct p; apply reads_ret|done]]. destruct p. cbn in *. rewrite Hv. apply reads_lift.
Qed.
Lemma parses_refusal : parses read_policy_refusal (fun o e => refusal_good o /\ e = refusal_bytes o).
Proof.
  unfold read_policy_refusal. parses_next. destruct a; cbn [negb]; [|apply parses_ret; by split].
  do 4 parses_next. apply (parses_validate _ tt); [apply require_not_panic|]. intros Hv. parses_next. split.
  - intros p [= <-]. refine (conj (conj _ (conj _ (conj _ _))) (conj _ _)); done.
  - cbn [refusal_bytes pr_scope pr_reason pr_rule pr_explain app]. by rewrite app_nil_r.
Qed.
Lemma bytes_ok_refusal o : refusal_good o -> bytes_ok (refusal_bytes o).
Proof.
  intros Ho. destruct o as [p|]; cbn [refusal_bytes]; [|by_decide]. destruct (Ho p eq_refl) as ((Hs & Hr & Hu & He) & _).
  apply bytes_ok_cons; [by_decide|]. apply bytes_ok_cons; [done|]. bytes_solve.
Qed.
(** The refusal field of kind 14 reads back as it was written, present or
    absent, when its rule fits [MAX_POLICY_RULE]. *)
Theorem policy_refusal_roundtrip o :
  refusal_good o -> forall w, exists field, policy_refusal_fields w o = w ++ field /\ reads read_policy_refusal field o.
Proof. intros Ho w. exists (refusal_bytes o). split; [by apply refusal_layout|by apply reads_refusal]. Qed.

(** ** Witnesses. *)
Module PolicyDemo.
(** "installation:" followed by a policy identifier of 64 bytes, "no" and
    "repository:x". *)
Definition long_rule : bytes :=
  [105; 110; 115; 116; 97; 108; 108; 97; 116; 105; 111; 110; 58] ++ replicate 64 97.
Definition no : bytes := [110; 111].
Definition short_rule : bytes := [114; 101; 112; 111; 115; 105; 116; 111; 114; 121; 58; 120].
Definition operation : bytes := replicate 16 7.
Definition person_input : bytes := replicate 16 8.
Definition digest : bytes := replicate 32 5.
Definition decision_with (subject : PolicySubject) (model : bool) (outcome : PolicyOutcome) (rule : bytes) : PolicyDecision :=
  mkDecision subject 1 (if model then 1 else 2) (if model then 1 else 2) (replicate 16 1) (replicate 16 2)
    (if model then 3 else 0) (replicate 32 1) (replicate 32 2) (Some (replicate 32 3)) 1 digest
    [mkScopeResult 1 (bool_decide (outcome = PRun)) 0 [rule]; mkScopeResult 4 true 0 []] outcome
    (if decide (outcome = PRun) then 0 else 1) no
    (if decide (outcome = PRun) then Some (replicate 32 4) else None) 12345.
Definition denied : PolicyDecision := decision_with (ModelCall operation 1 1) true PDeny short_rule.
Definition input_denied : PolicyDecision := decision_with (PersonInput person_input) false PDeny short_rule.
Definition long_denied : PolicyDecision := decision_with (ModelCall operation 1 1) true PDeny long_rule.
Definition revision : PolicyRevision :=
  mkRevision 1 digest 0 Activated (replicate 32 6) [52; 46; 53] [52; 46; 53; 46; 48] None (Some (replicate 32 9))
    [mkScopeSet 1 None (replicate 32 1) no [no; no]; mkScopeSet 4 (Some (replicate 16 1)) (replicate 32 2) no []].
Definition written (w : Result Writer) : bytes := match w with Ok b => b | _ => [] end.

#[local] Instance str_ok_dec s : Decision (str_ok s).
Proof. unfold str_ok. apply _. Defined.
#[local] Instance scope_result_ok_dec s : Decision (scope_result_ok s).
Proof. unfold scope_result_ok. apply _. Defined.
Ltac widths := constructor; try by_decide; try (intros ? [= <-]; by_decide); try (by intros ? [=]).
Lemma denied_ok : decision_ok denied.
Proof. widths. Qed.
Lemma revision_is_ok : revision_ok revision.
Proof.
  widths. cbn [rv_scopes revision]. repeat apply Forall_cons_2; [..|apply Forall_nil_2];
    refine (conj _ (conj _ (conj _ (conj _ _)))); try by_decide; intros a Ha; try done; injection Ha as <-; by_decide.
Qed.
Lemma policy_decision_codec_witness :
  decode_decision (written (write_policy_decision [] denied)) = Ok denied.
Proof.
  apply (policy_decision_codec (written (write_policy_decision [] denied)) denied); [by_decide|].
  split; [apply denied_ok|vm_compute; reflexivity].
Defined.
Lemma policy_revision_codec_witness :
  decode_revision (written (write_policy_revision [] revision)) = Ok revision.
Proof.
  apply (policy_revision_codec (written (write_policy_revision [] revision)) revision); [by_decide|].
  split; [apply revision_is_ok|vm_compute; reflexivity].
Defined.
Definition frame : bytes :=
  match @encode_frame poly_hasher PolicyRecord policy_codec Demo.context (RDecision denied) with Ok f => f | _ => [] end.
Lemma policy_frame_roundtrip_witness :
  @verified_record poly_hasher PolicyRecord policy_codec frame (mkLocator 1 1 0 (zlen frame)) = Ok (RDecision denied).
Proof.
  apply (@policy_frame_roundtrip poly_hasher poly_hasher_ok Demo.context);
    [apply Demo.context_wf|apply denied_ok|vm_compute; reflexivity|reflexivity|reflexivity].
Defined.
(** [MAX_POLICY_RULE] counts ten bytes for the scope name, and "installation"
    has twelve: a rule of the installation scope with an identifier of 63 or 64
    bytes is valid, but a decision that carries it is not written, and a refusal
    that carries it is written and never read back. *)
Definition long_refusal : PolicyRefusal := mkRefusal 1 no long_rule [].
Theorem long_rule_unreadable :
  valid_policy_rule long_rule = true /\
  decision_validate long_denied = Ok tt /\ write_policy_decision [] long_denied = Err Limit /\
  zlen (decision_bytes long_denied) < 512 /\
  refusal_validate long_refusal = Ok tt /\
  read_policy_refusal (mkReader (policy_refusal_fields [] (Some long_refusal)) 0) = Err Corrupt.
Proof. split_and!; vm_compute; reflexivity. Qed.
Definition short_refusal : PolicyRefusal := mkRefusal 1 no short_rule [120; 32].
Lemma policy_refusal_roundtrip_witness :
  exists field, policy_refusal_fields [14] (Some short_refusal) = [14] ++ field /\
    reads read_policy_refusal field (Some short_refusal).
Proof.
  apply (policy_refusal_roundtrip (Some short_refusal)). intros p [= <-].
  split; [refine (conj _ (conj _ (conj _ _))); by_decide|]. split; [vm_compute; reflexivity|by_decide].
Defined.
End PolicyDemo.
