(* ===== verification/PathGuard.v ===== *)
(** * Execution path records (conversation/execution_path.rs).

    Kind 32: its field rules, writer and reader with the kind 32 arm of
    [decode_record], and the approval half of the guard: [approval_set], the
    fold over a project's approval and revocation entries, and the rules under
    which [execution_path] admits another one. The theorems: a payload decodes
    exactly when it is the encoding of a valid record; the approval set is the
    latest decision on each path; and an entry replay admits never makes the
    set unreadable. *)
From stdpp Require Import prelude list gmap.
From Stdlib Require Import ZArith Lia.
From S2P Require Import Prelude Codec Fields Envelope Index.

Definition MAX_PATH_ENTRIES : Z := 16.
Definition MAX_GUARD_PATH : Z := 1024.
Definition MAX_EXECUTION_PATH_PAYLOAD : Z := 16510.
Definition MAX_PATH_APPROVALS : nat := 256.
Definition MAX_PATH_APPROVAL_RECORDS : nat := Z.to_nat 4096.
Inductive PathAction : Type := AModelChanged | AAcknowledged | AApproved | ARevoked.
#[export] Instance PathAction_eq_dec : EqDecision PathAction.
Proof. solve_decision. Defined.
Definition action_all : list PathAction := [AModelChanged; AAcknowledged; AApproved; ARevoked].
Definition action_code (a : PathAction) : Z :=
  match a with AModelChanged => 1 | AAcknowledged => 2 | AApproved => 3 | ARevoked => 4 end.
(** [Self::ALL.get(usize::from(code).checked_sub(1)?).copied()]. *)
Definition action_from_code (code : Z) : option PathAction :=
  if decide (1 <= code) then action_all !! Z.to_nat (code - 1) else None.
Inductive PathEntryKind : Type :=
| KApproval | KModelChanged | KNotApproved | KChangedSinceApproval | KTooLarge | KOverflow.
#[export] Instance PathEntryKind_eq_dec : EqDecision PathEntryKind.
Proof. solve_decision. Defined.
Definition kind_all : list PathEntryKind :=
  [KApproval; KModelChanged; KNotApproved; KChangedSinceApproval; KTooLarge; KOverflow].
Definition kind_code (k : PathEntryKind) : Z :=
  match k with
  | KApproval => 0 | KModelChanged => 1 | KNotApproved => 2 | KChangedSinceApproval => 3 | KTooLarge => 4
  | KOverflow => 5
  end.
Definition kind_from_code (code : Z) : option PathEntryKind := kind_all !! Z.to_nat code.
Record PathEntry : Type := mkPathEntry { pe_kind : PathEntryKind; pe_path : bytes }.
Record ExecutionPathRecord : Type := mkPathRecord {
  ep_action : PathAction; ep_project : bytes; ep_reference : bytes; ep_through : Z;
  ep_entries : list PathEntry; ep_overflow : Z; ep_digest : bytes;
}.
(** [str::split('/')]. *)
Fixpoint split_slash (s : bytes) : list bytes :=
  match s with
  | [] => [[]]
  | b :: s' =>
      if b =? 47 then [] :: split_slash s'
      else match split_slash s' with p :: ps => (b :: p) :: ps | [] => [[b]] end
  end.
Definition valid_guard_path (path : bytes) : bool :=
  in_range 1 MAX_GUARD_PATH (zlen path) && negb (bool_decide (head path = Some 47)) &&
  negb (existsb (fun b => b =? 0) path) && forallb (fun part => negb (bool_decide (part = [46; 46]))) (split_slash path).
(** b"asura.path\0". *)
Definition path_tag : bytes := [97; 115; 117; 114; 97; 46; 112; 97; 116; 104; 0].
Definition path_key `{Hasher} (path : bytes) : bytes := sha256 (path_tag ++ path).
Definition kinds (allowed : list PathEntryKind) (p : ExecutionPathRecord) : bool :=
  forallb (fun e => bool_decide (pe_kind e ∈ allowed)) (ep_entries p).
Definition path_validate (p : ExecutionPathRecord) : Result unit :=
  let? _ := require (nonzero_id (ep_project p) && nonzero_id (ep_reference p) &&
                     (zlen (ep_entries p) <=? MAX_PATH_ENTRIES) &&
                     forallb (fun e => valid_guard_path (pe_path e)) (ep_entries p)) in
  let shape :=
    match ep_action p with
    | AModelChanged => kinds [KModelChanged] p
    | AAcknowledged => kinds [KModelChanged; KNotApproved; KChangedSinceApproval; KTooLarge; KOverflow] p
    | AApproved | ARevoked => (zlen (ep_entries p) =? 1) && kinds [KApproval] p && (ep_overflow p =? 0)
    end in
  require (shape && (bool_decide (ep_action p = AAcknowledged) || (ep_through p =? 0)) &&
           Bool.eqb (bool_decide (ep_action p = AApproved)) (bool_decide (ep_digest p <> zeros 32))).
Definition approval_path (p : ExecutionPathRecord) : option bytes :=
  match ep_action p with
  | AApproved | ARevoked => pe_path <$> head (ep_entries p)
  | _ => None
  end.
Definition write_path_entry (w : Writer) (e : PathEntry) : Writer :=
  w_bytes (w_u16 (w_byte w (kind_code (pe_kind e))) (wrap 16 (zlen (pe_path e)))) (pe_path e).
Definition execution_path_fields (w : Writer) (p : ExecutionPathRecord) : Writer :=
  let w := w_byte w (action_code (ep_action p)) in
  let w := w_bytes (w_bytes w (ep_project p)) (ep_reference p) in
  let w := w_u64 w (ep_through p) in
  let w := w_byte w (wrap 8 (zlen (ep_entries p))) in
  let w := foldl write_path_entry w (ep_entries p) in
  w_bytes (w_u32 w (ep_overflow p)) (ep_digest p).
Definition write_execution_path (w : Writer) (p : ExecutionPathRecord) : Result Writer :=
  if decide (zlen (ep_entries p) > MAX_PATH_ENTRIES \/
             existsb (fun e => MAX_GUARD_PATH <? zlen (pe_path e)) (ep_entries p) = true) then Err Limit else
  let? _ := path_validate p in
  Ok (execution_path_fields w p).
Definition read_path_entry : reader PathEntry :=
  read code := r_byte in
  read kind := rlift (ok_or Corrupt (kind_from_code code)) in
  read length := r_u16 in
  read _ := rlift (require (in_range 1 MAX_GUARD_PATH length)) in
  read b := r_take length in
  read path := rlift (from_utf8 b) in
  rret (mkPathEntry kind path).
Definition read_execution_path : reader ExecutionPathRecord :=
  read code := r_byte in
  read action := rlift (ok_or Corrupt (action_from_code code)) in
  read project := r_array 16 in
  read reference := r_array 16 in
  read through := r_u64 in
  read count := r_byte in
  read _ := rlift (require (count <=? MAX_PATH_ENTRIES)) in
  read entries := r_many (Z.to_nat count) read_path_entry in
  read overflow := r_u32 in
  read digest := r_array 32 in
  let value := mkPathRecord action project reference through entries overflow digest in
  read _ := rlift (path_validate value) in
  rret value.
(** [decode_record] on kind 32. *)
Definition decode_execution_path (payload : bytes) : Result ExecutionPathRecord :=
  if decide (zlen payload > MAX_FRAME - HEADER - TRAILER) then Err Limit else
  let? _ := require (zlen payload <=? MAX_EXECUTION_PATH_PAYLOAD) in
  decode_bounded MAX_EXECUTION_PATH_PAYLOAD read_execution_path payload.

(** ** The approvals of a project. [ApprovalSet]: path key to digest and frame. *)
Abbreviation Approvals := (gmap bytes (bytes * Locator)).
Definition apply_approval (set : Approvals) (value : bytes) : Result Approvals :=
  let? e := entry_decode TPathApproval value in
  match e with
  | EPathApproval action key digest frame =>
      match action_from_code action with
      | Some AApproved => Ok (<[key := (digest, frame)]> set)
      | Some ARevoked => let? _ := require (bool_decide (is_Some (set !! key))) in Ok (delete key set)
      | _ => Err Corrupt
      end
  | _ => Err Corrupt
  end.
Fixpoint fold_approvals (set : Approvals) (values : list bytes) : Result Approvals :=
  match values with
  | [] => Ok set
  | value :: values' => let? set := apply_approval set value in fold_approvals set values'
  end.
(** [stored]: the values under the project's approval keys, in sequence order;
    the range reads one more than the bound. *)
Definition approval_set (stored : list bytes) : Result (Approvals * nat) :=
  let entries := take (MAX_PATH_APPROVAL_RECORDS + 1) stored in
  if decide (MAX_PATH_APPROVAL_RECORDS < length entries)%nat then Err Limit else
  let? set := fold_approvals ∅ entries in
  let? _ := require (bool_decide (size set <= MAX_PATH_APPROVALS)%nat) in
  Ok (set, length entries).
(** The approval arm of [Replay::execution_path]: the entry it emits. *)
Definition admit_approval `{Hasher} (stored : list bytes) (p : ExecutionPathRecord) (frame : Locator) : Result Entry :=
  let? (set, records) := approval_set stored in
  if decide (MAX_PATH_APPROVAL_RECORDS <= records)%nat then Err Limit else
  let? e := match head (ep_entries p) with Some e => Ok e | None => Panic end in
  let key := path_key (pe_path e) in
  let? _ :=
    if decide (ep_action p = ARevoked) then require (bool_decide (is_Some (set !! key)))
    else if decide (set !! key = None /\ (MAX_PATH_APPROVALS <= size set)%nat) then Err Limit
    else Ok tt in
  Ok (EPathApproval (action_code (ep_action p)) key (ep_digest p) frame).

(** ** Field layout. *)
Definition path_entry_bytes (e : PathEntry) : bytes :=
  [kind_code (pe_kind e)] ++ be_bytes 2 (zlen (pe_path e)) ++ pe_path e.
Definition path_bytes (p : ExecutionPathRecord) : bytes :=
  [action_code (ep_action p)] ++ ep_project p ++ ep_reference p ++ be_bytes 8 (ep_through p) ++
  [zlen (ep_entries p)] ++ concat (path_entry_bytes <$> ep_entries p) ++ be_bytes 4 (ep_overflow p) ++ ep_digest p.
Record path_record_ok (p : ExecutionPathRecord) : Prop := {
  po_project : Id_ok (ep_project p); po_reference : Id_ok (ep_reference p); po_through : u64 (ep_through p);
  po_entries : Forall (fun e => str_ok (pe_path e)) (ep_entries p); po_overflow : u32 (ep_overflow p);
  po_digest : Hash_ok (ep_digest p);
}.
Lemma action_from_code_Some a c : action_from_code c = Some a <-> c = action_code a.
Proof.
  unfold action_from_code, action_all. split; [|by intros ->; destruct a].
  case_decide; [|done]. intros Ha. pose proof (lookup_lt_Some _ _ _ Ha) as Hl. simpl in Hl.
  assert (c = 1 \/ c = 2 \/ c = 3 \/ c = 4) as [->|[->|[->| ->]]] by lia; vm_compute in Ha; by injection Ha as <-.
Qed.
Lemma kind_from_code_Some k c : u8 c -> kind_from_code c = Some k <-> c = kind_code k.
Proof.
  unfold kind_from_code, kind_all, uint. intros Hc. split; [|by intros ->; destruct k].
  intros Ha. pose proof (lookup_lt_Some _ _ _ Ha) as Hl. simpl in Hl.
  assert (c = 0 \/ c = 1 \/ c = 2 \/ c = 3 \/ c = 4 \/ c = 5) as [->|[->|[->|[->|[->| ->]]]]] by lia; vm_compute in Ha; by injection Ha as <-.
Qed.
Lemma path_valid_facts p :
  path_validate p = Ok tt ->
  zlen (ep_entries p) <= MAX_PATH_ENTRIES /\ Forall (fun e => 1 <= zlen (pe_path e) <= MAX_GUARD_PATH) (ep_entries p) /\
  (ep_action p = AApproved \/ ep_action p = ARevoked -> exists e, ep_entries p = [e]).
Proof.
  unfold path_validate. rewrite obind_Ok. intros (u & Hr & Hs). rewrite require_Ok, !andb_true_iff in Hr, Hs.
  destruct Hr as ((_ & Hn) & Hp). split; [lia|]. split.
  - apply Forall_forall. intros e He. rewrite forallb_forall in Hp. specialize (Hp e (proj1 (list_elem_of_In _ _) He)).
    unfold valid_guard_path, in_range in Hp. rewrite !andb_true_iff in Hp. lia.
  - destruct Hs as ((Hshape & _) & _). intros Ha.
    assert (zlen (ep_entries p) = 1) as H1 by (destruct (ep_action p); destruct Ha; try done; rewrite !andb_true_iff in Hshape; lia).
    destruct (ep_entries p) as [|e [|]]; try done; [by exists e|]. unfold zlen in H1. simpl in H1. lia.
Qed.
Lemma write_path_entries w l :
  Forall (fun e => 1 <= zlen (pe_path e) <= MAX_GUARD_PATH) l ->
  foldl write_path_entry w l = w ++ concat (path_entry_bytes <$> l).
Proof.
  intros Hl. revert w. induction Hl as [|e l He _ IH]; intros w; cbn [foldl fmap list_fmap concat]; [by rewrite app_nil_r|].
  rewrite IH. unfold write_path_entry, path_entry_bytes, MAX_GUARD_PATH in *. rewrite wrap_small by (unfold uint; lia).
  unfold w_bytes, w_u16, w_byte, w_bytes. by rewrite <- !app_assoc.
Qed.
Lemma write_path_Ok w p w' :
  write_execution_path w p = Ok w' <-> path_validate p = Ok tt /\ w' = w ++ path_bytes p.
Proof.
  unfold write_execution_path. destruct (path_validate p) as [[]|x|] eqn:Hv.
  2,3: case_decide; cbn [obind]; naive_solver.
  destruct (path_valid_facts p Hv) as (Hn & Hl & _). rewrite decide_False.
  2:{ intros [?|He]; [lia|]. apply existsb_exists in He as (e & Hin & He). rewrite Forall_forall in Hl.
      specialize (Hl e (proj2 (list_elem_of_In _ _) Hin)). lia. }
  cbn [obind]. unfold execution_path_fields. rewrite write_path_entries by done.
  pose proof (zlen_nonneg (ep_entries p)). unfold MAX_PATH_ENTRIES in Hn. rewrite wrap_small by (unfold uint; lia).
  assert (w_bytes (w_u32 (w_byte (w_u64 (w_bytes (w_bytes (w_byte w (action_code (ep_action p))) (ep_project p))
    (ep_reference p)) (ep_through p)) (zlen (ep_entries p)) ++ concat (path_entry_bytes <$> ep_entries p))
    (ep_overflow p)) (ep_digest p) = w ++ path_bytes p) as ->.
  { unfold w_byte, w_u64, w_u32, w_bytes, path_bytes. by rewrite <- !app_assoc. }
  naive_solver.
Qed.
Lemma read_path_entry_parses :
  parses read_path_entry (fun e b => (str_ok (pe_path e) /\ 1 <= zlen (pe_path e) <= MAX_GUARD_PATH) /\ b = path_entry_bytes e).
Proof.
  unfold read_path_entry. parses_next.
  eapply (parses_from_code kind_from_code kind_code); [intros; by apply kind_from_code_Some|]. intros k ->.
  do 2 parses_next. unfold in_range in *. eapply parses_bind; [apply parses_take; lia|]. intros path text [-> [Hlen Hb]].
  unfold from_utf8. destruct (Utf8.valid text) eqn:Hv; [|by intros bs o].
  eapply parses_bind; [by apply (parses_ret text (fun b e => b = text /\ e = []))|]. intros ? ? [-> ->]. parses_next.
  cbn [pe_path pe_kind]. unfold path_entry_bytes. cbn [pe_path pe_kind]. rewrite Hlen.
  split; [split; [by split|lia]|]. cbn [app]. by rewrite app_nil_r, <- ?app_assoc.
Qed.
Lemma path_validate_no_panic p : path_validate p <> Panic.
Proof. unfold path_validate. destruct (require _) as [[]|x|] eqn:E; cbn [obind]; [apply require_not_panic|done|by destruct (require_not_panic _ E)]. Qed.
Lemma read_path_parses :
  parses read_execution_path (fun p e => (path_record_ok p /\ path_validate p = Ok tt) /\ e = path_bytes p).
Proof.
  unfold read_execution_path. parses_next.
  eapply (parses_from_code action_from_code action_code); [intros; by apply action_from_code_Some|]. intros action ->.
  do 5 parses_next. eapply parses_bind; [apply parses_many, read_path_entry_parses|]. intros entries ? (Hn & Hg & ->).
  do 2 parses_next. cbv zeta. apply (parses_validate _ tt); [apply path_validate_no_panic|]. intros Hv. parses_next.
  apply Forall_and in Hg as [Hg _]. split; [split; [constructor; done|done]|].
  unfold path_bytes. cbn [ep_action ep_project ep_reference ep_through ep_entries ep_overflow ep_digest].
  rewrite (zlen_to_nat entries a0) by (unfold uint in *; lia). cbn [app]. by rewrite ?app_nil_r, <- ?app_assoc.
Qed.
Lemma reads_path_entry e :
  str_ok (pe_path e) -> 1 <= zlen (pe_path e) <= MAX_GUARD_PATH -> reads read_path_entry (path_entry_bytes e) e.
Proof.
  intros Hs Hl. unfold read_path_entry, path_entry_bytes, MAX_GUARD_PATH in *. cbn [app]. reads_next.
  reads_next. { assert (u8 (kind_code (pe_kind e))) as Hk by (destruct (pe_kind e); by_decide).
    rewrite (proj2 (kind_from_code_Some (pe_kind e) _ Hk) eq_refl). apply reads_lift. }
  reads_next; [apply reads_u16; unfold uint; lia|]. reads_next; [unfold in_range; lia|].
  eapply reads_last; [by apply reads_take|cbv beta]. eapply reads_last; [by apply reads_utf8|]. destruct e. apply reads_ret.
Qed.
Lemma reads_path p : path_record_ok p -> path_validate p = Ok tt -> reads read_execution_path (path_bytes p) p.
Proof.
  intros [] Hv. destruct (path_valid_facts p Hv) as (Hn & Hl & _). unfold read_execution_path, path_bytes. cbn [app].
  reads_next. reads_next. { rewrite (proj2 (action_from_code_Some (ep_action p) _) eq_refl). apply reads_lift. }
  do 4 reads_next. reads_next; [by apply Z.leb_le|]. eapply reads_bind.
  { apply reads_many; [unfold zlen; lia|]. rewrite Forall_forall in *. intros e He. apply reads_path_entry; auto. }
  cbv beta. reads_next. eapply reads_last; [by apply reads_array|cbv beta zeta].
  eapply reads_last; [|destruct p; apply reads_ret]. destruct p. cbn in *. rewrite Hv. apply reads_lift.
Qed.
(** A valid record fits the bound of the payload. *)
Lemma path_bytes_len p :
  path_record_ok p -> path_validate p = Ok tt -> zlen (path_bytes p) <= MAX_EXECUTION_PATH_PAYLOAD.
Proof.
  intros [[Hp _] [Hr _] _ _ _ [Hd _]] Hv. destruct (path_valid_facts p Hv) as (Hn & Hl & _).
  assert (zlen (concat (path_entry_bytes <$> ep_entries p)) <= zlen (ep_entries p) * 1027) as Hc.
  { clear -Hl. induction Hl as [|e l He _ IH]; [done|]. cbn [fmap list_fmap concat]. rewrite zlen_app, zlen_cons.
    assert (zlen (path_entry_bytes e) <= 1027); [|lia]. unfold path_entry_bytes, MAX_GUARD_PATH in *.
    rewrite !zlen_app, zlen_be_bytes. change (zlen [kind_code (pe_kind e)]) with 1. lia. }
  unfold path_bytes. rewrite !zlen_app, !zlen_be_bytes, Hp, Hr, Hd.
  change (zlen [action_code (ep_action p)]) with 1. change (zlen [zlen (ep_entries p)]) with 1.
  unfold MAX_PATH_ENTRIES, MAX_EXECUTION_PATH_PAYLOAD in *. lia.
Qed.
(** A kind 32 payload decodes to a record exactly when the record is valid
    and writing it gives that payload; a valid record always fits the payload
    bound; and no payload makes the decoder panic. *)
Theorem execution_path_codec payload p :
  bytes_ok payload ->
  (decode_execution_path payload = Ok p <-> path_record_ok p /\ write_execution_path [] p = Ok payload) /\
  decode_execution_path payload <> Panic.
Proof.
  intros Hb. unfold decode_execution_path. split.
  - rewrite write_path_Ok. cbn [app]. unfold MAX_FRAME, HEADER, TRAILER. split.
    + case_decide; [done|]. rewrite obind_Ok. intros (_ & _ & Hd).
      apply (decode_bounded_Ok _ _ _ _ _ _ Hb read_path_parses) in Hd; [naive_solver|].
      intros Hl [? ?] ->. by apply reads_path.
    + intros (Hok & Hv & ->). pose proof (path_bytes_len p Hok Hv) as Hl. unfold MAX_EXECUTION_PATH_PAYLOAD in Hl.
      rewrite decide_False by lia. rewrite (proj2 (require_Ok _ tt)) by (by apply Z.leb_le). cbn [obind].
      apply (decode_bounded_Ok _ _ _ _ _ _ Hb read_path_parses); [|done]. intros _ _ _. by apply reads_path.
  - case_decide; [done|]. destruct (require _) as [[]|x|] eqn:E; cbn [obind]; [|done|by destruct (require_not_panic _ E)].
    by apply (decode_bounded_no_panic _ _ _ _ Hb read_path_parses).
Qed.

(** ** The approval set. *)
(** The path key a stored value is about. *)
Definition about (value : bytes) : option bytes :=
  match entry_decode TPathApproval value with Ok (EPathApproval _ key _ _) => Some key | _ => None end.
(** The latest value about [key] approves it with this digest and frame. *)
Definition approved (stored : list bytes) (key : bytes) (x : bytes * Locator) : Prop :=
  exists l value r, stored = l ++ value :: r /\
    entry_decode TPathApproval value = Ok (EPathApproval (action_code AApproved) key x.1 x.2) /\
    Forall (fun v => about v <> Some key) r.
Lemma approved_snoc stored v key x :
  approved (stored ++ [v]) key x <->
  entry_decode TPathApproval v = Ok (EPathApproval (action_code AApproved) key x.1 x.2) \/
  (about v <> Some key /\ approved stored key x).
Proof.
  unfold approved. split.
  - intros (l & value & r & Heq & Hd & Hr). induction r as [|y r' _] using rev_ind.
    + apply app_inj_tail in Heq as [-> ->]. by left.
    + rewrite app_comm_cons, app_assoc in Heq. apply app_inj_tail in Heq as [-> ->].
      apply Forall_app in Hr as [Hr [Hy _]%Forall_cons]. right. eauto 10.
  - intros [Hd|[Hne (l & value & r & -> & Hd & Hr)]].
    + exists stored, v, []. auto.
    + exists l, value, (r ++ [v]). rewrite app_comm_cons, app_assoc. split_and!; try done. apply Forall_app. auto.
Qed.
Lemma fold_approvals_app set l k :
  fold_approvals set (l ++ k) = (let? s := fold_approvals set l in fold_approvals s k).
Proof.
  revert set. induction l as [|v l IH]; intros set; cbn [app fold_approvals obind]; [done|].
  destruct (apply_approval set v); cbn [obind]; [apply IH|done..].
Qed.
(** What one value does. *)
Lemma apply_approval_Ok set v set' :
  apply_approval set v = Ok set' ->
  exists action key digest frame, entry_decode TPathApproval v = Ok (EPathApproval action key digest frame) /\
    ((action = action_code AApproved /\ set' = <[key := (digest, frame)]> set) \/
     (action = action_code ARevoked /\ is_Some (set !! key) /\ set' = delete key set)).
Proof.
  unfold apply_approval. rewrite obind_Ok. intros (e & He & Hs). destruct e as [| | | | | | | | | | | | | | | | |action key digest frame| | | | | | | | |]; try done.
  exists action, key, digest, frame. split; [done|].
  destruct (action_from_code action) as [[]|] eqn:Ha; try done; apply action_from_code_Some in Ha as ->.
  - left. by injection Hs as <-.
  - right. apply obind_Ok in Hs as (u & Hr & [= <-]). apply require_Ok, bool_decide_eq_true in Hr. done.
Qed.
Lemma fold_approvals_latest l set :
  fold_approvals ∅ l = Ok set -> forall key x, set !! key = Some x <-> approved l key x.
Proof.
  revert set. induction l as [|v l IH] using rev_ind; intros set.
  { intros [= <-] key x. split; [done|]. intros (l & w & r & Heq & _). by destruct l. }
  rewrite fold_approvals_app, obind_Ok. intros (s1 & Hs1 & Hv). cbn [fold_approvals] in Hv.
  apply obind_Ok in Hv as (s2 & Hv & [= <-]). specialize (IH s1 Hs1).
  intros key x. rewrite approved_snoc, <- IH. apply apply_approval_Ok in Hv as (action & k & digest & frame & Hd & Hcase).
  assert (about v = Some k) as -> by (unfold about; by rewrite Hd). rewrite Hd.
  destruct Hcase as [[-> ->]|(-> & Hin & ->)].
  - rewrite lookup_insert_Some. destruct x as [d f]. cbn.
    split; [intros [[-> [= -> ->]]|[Hne Hx]]; [by left|right; split; [congruence|done]]|].
    intros [[= -> -> ->]|[Hne Hx]]; [by left|right; split; [congruence|done]].
  - rewrite lookup_delete_Some. split; [intros [Hne Hx]; right; split; [congruence|done]|].
    intros [Heq|[Hne Hx]]; [by injection Heq|split; [congruence|done]].
Qed.
Lemma approval_set_Ok stored set n :
  approval_set stored = Ok (set, n) <->
  fold_approvals ∅ stored = Ok set /\ n = length stored /\ (length stored <= MAX_PATH_APPROVAL_RECORDS)%nat /\
  (size set <= MAX_PATH_APPROVALS)%nat.
Proof.
  unfold approval_set.
  destruct (decide (length stored <= MAX_PATH_APPROVAL_RECORDS)%nat) as [Hle|Hgt].
  - rewrite take_ge, decide_False by lia. rewrite obind_Ok. setoid_rewrite obind_Ok. setoid_rewrite require_Ok.
    setoid_rewrite bool_decide_eq_true. split.
    + intros (s & Hs & _ & Hsz & Heq). injection Heq as -> <-. by split_and!.
    + intros (Hs & -> & _ & Hsz). exists set. split; [done|]. exists tt. split; [done|]. done.
  - rewrite decide_True by (rewrite length_take; lia). split; [done|]. intros (_ & _ & ? & _). lia.
Qed.
(** C40: The approval set of a project is the latest decision on each path: a
    path key is in it, with a digest and frame, exactly when the last stored
    entry about that key is an approval with that digest and frame; and it has
    at most 256 paths from at most 4,096 records. *)
Theorem approvals_are_the_latest stored set n :
  approval_set stored = Ok (set, n) ->
  (forall key x, set !! key = Some x <-> approved stored key x) /\
  n = length stored /\ (n <= MAX_PATH_APPROVAL_RECORDS)%nat /\ (size set <= MAX_PATH_APPROVALS)%nat.
Proof.
  intros (Hs & -> & Hn & Hsz)%approval_set_Ok. split; [by apply fold_approvals_latest|by split_and!].
Qed.
(** An approval or revocation that replay admits leaves the project's
    approvals readable: its entry encodes, and the set with it decodes, within
    both bounds, to the old set with that path approved or removed. *)
Theorem admitted_approval_stays_readable `{HasherOk} stored p frame e set n :
  path_record_ok p -> path_validate p = Ok tt -> ep_action p = AApproved \/ ep_action p = ARevoked ->
  locator_ok frame -> approval_set stored = Ok (set, n) -> admit_approval stored p frame = Ok e ->
  exists value path, entry_encode e = Ok value /\ approval_path p = Some path /\
    approval_set (stored ++ [value]) =
      Ok (if decide (ep_action p = AApproved) then <[path_key path := (ep_digest p, frame)]> set
          else delete (path_key path) set, S n).
Proof.
  intros Hok Hv Ha Hf Hset. unfold admit_approval. rewrite Hset. cbn [obind].
  apply approval_set_Ok in Hset as (Hfold & -> & Hn & Hsz).
  case_decide as Hlt; [done|]. destruct (path_valid_facts p Hv) as (_ & _ & He). destruct (He Ha) as [pe Hpe].
  unfold approval_path. rewrite Hpe. cbn [head obind fmap option_fmap option_map].
  set (key := path_key (pe_path pe)). rewrite obind_Ok. intros (u & Hguard & [= <-]).
  destruct (entry_encodes (EPathApproval (action_code (ep_action p)) key (ep_digest p) frame)) as (value & Henc & _ & Hdec).
  { destruct Hok. refine (conj _ (conj (sha256_array _) (conj _ _))); try done. destruct (ep_action p); by_decide. }
  exists value, (pe_path pe). split; [done|]. split; [by destruct Ha as [-> | ->]|].
  apply approval_set_Ok. rewrite fold_approvals_app, Hfold. cbn [obind fold_approvals]. unfold apply_approval.
  cbn [entry_tag] in Hdec. rewrite Hdec. cbn [obind]. rewrite (proj2 (action_from_code_Some (ep_action p) _) eq_refl).
  rewrite length_app. cbn [length]. fold key. destruct Ha as [Ha|Ha]; rewrite Ha in *; cbn [obind].
  - rewrite decide_False in Hguard by done. case_decide as Hroom; [done|]. rewrite decide_True by done.
    split_and!; try done; try lia. rewrite map_size_insert. destruct (set !! key) as [x|] eqn:Hk; simpl; [lia|].
    destruct (decide (MAX_PATH_APPROVALS <= size set)%nat); [tauto|lia].
  - rewrite decide_True in Hguard by done. rewrite Hguard. cbn [obind]. rewrite decide_False by done.
    split_and!; try done; try lia. rewrite map_size_delete. destruct (set !! key); simpl; lia.
Qed.

(** ** Witnesses. *)
Module GuardDemo.
#[export] Existing Instance poly_hasher.
#[export] Existing Instance poly_hasher_ok.
(** "Makefile". *)
Definition path : bytes := [77; 97; 107; 101; 102; 105; 108; 101].
Definition approve : ExecutionPathRecord :=
  mkPathRecord AApproved (replicate 16 6) (replicate 16 7) 0 [mkPathEntry KApproval path] 0 (replicate 32 9).
Definition revoke : ExecutionPathRecord :=
  mkPathRecord ARevoked (replicate 16 6) (replicate 16 8) 0 [mkPathEntry KApproval path] 0 (zeros 32).
Definition frame : Locator := mkLocator 7 2 4096 512.
Definition payload : bytes := path_bytes approve.
Definition value : bytes :=
  match entry_encode (EPathApproval 3 (path_key path) (replicate 32 9) frame) with Ok v => v | _ => [] end.
Definition set : Approvals := {[ path_key path := (replicate 32 9, frame) ]}.
#[local] Instance str_ok_dec s : Decision (str_ok s).
Proof. unfold str_ok. apply _. Defined.
Lemma approve_ok : path_record_ok approve.
Proof. constructor; by_decide. Qed.
Lemma revoke_ok : path_record_ok revoke.
Proof. constructor; by_decide. Qed.
Lemma one_approval : approval_set [value] = Ok (set, 1%nat).
Proof. vm_compute. reflexivity. Qed.
Lemma execution_path_codec_witness : decode_execution_path payload = Ok approve.
Proof.
  apply (execution_path_codec payload approve); [by_decide|]. split; [apply approve_ok|vm_compute; reflexivity].
Defined.
Lemma approvals_are_the_latest_witness : approved [value] (path_key path) (replicate 32 9, frame).
Proof.
  apply (approvals_are_the_latest [value] set 1%nat one_approval). apply lookup_singleton_eq.
Defined.
Lemma admitted_approval_stays_readable_witness :
  exists v q, entry_encode (EPathApproval 4 (path_key path) (zeros 32) frame) = Ok v /\
    approval_path revoke = Some q /\ approval_set ([value] ++ [v]) = Ok (delete (path_key q) set, 2%nat).
Proof.
  apply (admitted_approval_stays_readable [value] revoke frame _ set 1%nat);
    [apply revoke_ok|vm_compute; reflexivity|by right|by_decide|apply one_approval|vm_compute; reflexivity].
Defined.
End GuardDemo.
