(* ===== verification/Types.v ===== *)
(** * Records and replay data of the conversation journal (conversation/types.rs).

    The record structs and their enums with the stored codes; the data the
    replay state keeps (projects, conversations, operations with their tool
    calls and response pieces, queued inputs, unsettled jobs); the tables that
    say which reason, outcome and state go together; and the two small folds of
    the file, [Response::apply] and [JobRetentionSummary::apply]. A [str] is its
    UTF-8 bytes; [Option<Box<T>>] is an option. *)
From Stdlib Require Import ZArith Lia Ascii String.
From stdpp Require Import prelude list.
From S2P Require Import Prelude PayloadId Codec Fields Envelope Policy PathGuard.

(** A string literal as bytes. *)
Fixpoint lit (s : string) : bytes :=
  match s with
  | EmptyString => []
  | String c s => Z.of_N (N_of_ascii c) :: lit s
  end.
Arguments lit _%_string_scope.
(** [Self::ALL.get(usize::from(code).checked_sub(1)?).copied()] and
    [Self::ALL.get(usize::from(code)).copied()]. *)
Definition from_code_1 {A} (all : list A) (code : Z) : option A :=
  if decide (1 <= code) then all !! Z.to_nat (code - 1) else None.
Definition from_code_0 {A} (all : list A) (code : Z) : option A :=
  if decide (0 <= code) then all !! Z.to_nat code else None.

Definition RECENT_PROJECTS : nat := 64.
Definition RECENT_CONVERSATIONS : nat := 256.
Definition RECENT_SETTLED_INPUTS : nat := 64.
Definition MAX_RESPONSE_PIECES : Z := 65536.
Definition MAX_PROMPT : Z := 32 * 1024.
Definition MAX_TEXT : Z := 60 * 1024.
Definition MAX_INPUTS : nat := 16.
Definition MAX_COMPOSED_PRIOR : Z := 1024.
Definition MAX_THINKING_LEVEL : Z := 4.
Definition MAX_THINKING_REQUEST : Z := 5.
Definition MAX_UNSETTLED_JOBS : nat := 64.
Definition MAX_TOOL_ARGUMENTS : Z := 64000.
Definition MAX_TOOL_NAME : Z := 256.
Definition MAX_STORED_TOOL_NAME : Z := 512.
Definition MAX_TOOL_NUMBERS : Z := 256.
Definition MAX_RECORDED_CALLS : Z := 200.
Definition MAX_TOOL_CALL_ORDINAL : Z := MAX_RECORDED_CALLS + 1.
Definition MAX_PERSON_COMMAND : Z := 8192.
Definition MAX_PERSON_CWD : Z := 1024.
Definition MAX_SEARCH_PATH : Z := 4096.
Definition MAX_SEARCH_PATH_ENTRIES : Z := 64.
Definition MAX_PERSON_REWRITE_NUMBERS : Z := 16.
Definition MAX_PERSON_COMMAND_PAYLOAD : Z := 44943.
Definition MAX_PERSON_NAMED : Z := 16.
Definition MAX_JOB_INTENT_PAYLOAD : Z := 41.
Definition JOB_CANCEL_PAYLOAD : Z := 19.
Definition MAX_JOB_SETTLED_PAYLOAD : Z := 4094.
Definition JOB_RESULT_FIXED : Z := 46.
Definition MAX_JOB_LIST_ENTRIES : Z := 8.
Definition JOB_LIST_ENTRY : Z := 37.
Definition JOB_STATE_BLOCK : Z := 29.
Definition JOB_WAIT_BLOCK : Z := JOB_STATE_BLOCK + 1.
Definition JOB_PAGE_BLOCK : Z := 54.
Definition MAX_JOB_VIEW_RANGES : Z := 3.
Definition job_view_block (ranges : Z) : Z := 1 + ranges * JOB_PAGE_BLOCK.
Definition MAX_JOB_LIST_BLOCK : Z := 2 + MAX_JOB_LIST_ENTRIES * JOB_LIST_ENTRY.
Definition MAX_JOB_RESULT_PAYLOAD : Z := JOB_RESULT_FIXED + MAX_JOB_LIST_BLOCK.
Definition MAX_JOB_PAGE : Z := 8192.
Definition MAX_JOB_NOTE : Z := 2048.
Definition MAX_JOB_NOTES : Z := 16.
Definition MAX_JOB_RETENTION_RECORDS : nat := 64.
Definition MODEL_NOTE_PAYLOAD : Z := 58.
Definition MAX_JOB_RETENTION_PAYLOAD : Z := 16 + 1 + 1 + 8 + 16 + 4 + MAX_JOB_NOTE.

(** ** Secrets (asura-platform/src/secrets.rs, secrets/rewrite.rs, secrets/stream.rs). *)
Inductive SecretKind : Type :=
| PrivateKey | AwsAccessKey | AwsSecretKey | GithubToken | GitlabToken | PypiToken | DockerToken | NpmToken | BitbucketToken | VaultToken | FlyToken | WebhookSecret | MailgunKey | GoogleOauth | AzureKey | SlackToken | SlackWebhook | ChatWebhook | StripeKey | AnthropicKey | OpenaiKey | GoogleApiKey | Jwt | UrlPassword | UrlSecret | AuthHeader | SessionCookie | PasswordHash | AssignedSecret | EnvSecret | CliPassword | NetrcPassword | WifiPassword.
#[export] Instance SecretKind_eq_dec : EqDecision SecretKind.
Proof. solve_decision. Defined.
Inductive RefusalCode : Type :=
| PlaceholderNotAvailable | UnparsedCommand | SecretInHeredoc | SecretInSubstitution | SecretInInnerScript | SecretSingleQuoted | SecretAnsiQuoted | SecretMixedQuoting | SecretWithShellSyntax | TooManySecrets | ResidualSecret | DetectionUnavailable | RewrittenCommandTooLong | SecretInCwd | ModelSecretReference.
#[export] Instance RefusalCode_eq_dec : EqDecision RefusalCode.
Proof. solve_decision. Defined.
Definition refusal_kept (code : RefusalCode) : bool :=
  match code with
  | PlaceholderNotAvailable | SecretInCwd | DetectionUnavailable | ModelSecretReference => true
  | _ => false
  end.
Inductive LossReason : Type :=
| LineOverLimit | KeyBlockOverLimit | DetectorError.
#[export] Instance LossReason_eq_dec : EqDecision LossReason.
Proof. solve_decision. Defined.
Record LossSpan : Type := mkLossSpan { ls_stored_offset : Z; ls_withheld_bytes : Z; ls_reason : LossReason }.
#[export] Instance LossSpan_eq_dec : EqDecision LossSpan.
Proof. solve_decision. Defined.
Inductive NumberOrigin : Type :=
| FromCommand | FromOutput.
#[export] Instance NumberOrigin_eq_dec : EqDecision NumberOrigin.
Proof. solve_decision. Defined.
(** The literal of the source, with its two quotation marks. *)
Definition WHOLE_COMMAND : bytes := lit "eval " ++ [34] ++ lit "$ASURA_SECRET_COMMAND" ++ [34].

(** ** Installation, projects and turns. *)
Inductive InputAction : Type :=
| AResume | ADrop | AHold.
#[export] Instance InputAction_eq_dec : EqDecision InputAction.
Proof. solve_decision. Defined.
Definition input_action_code (x : InputAction) : Z :=
  match x with
  | AResume => 1 | ADrop => 2 | AHold => 3
  end.
Record PendingInit : Type := mkInit {
  pi_request : Id; pi_digest : Hash; pi_mode : Z; pi_configuration_revision : Z;
  pi_configuration_digest : Hash; pi_graph : Id;
}.
#[export] Instance PendingInit_eq_dec : EqDecision PendingInit.
Proof. solve_decision. Defined.
Record ActiveBinding : Type := mkBinding {
  ab_request : Id; ab_generation : Z; ab_graph : Id; ab_configuration_digest : Hash;
}.
#[export] Instance ActiveBinding_eq_dec : EqDecision ActiveBinding.
Proof. solve_decision. Defined.
Record ProjectRegistered : Type := mkRegistered {
  pr_request : Id; pr_digest : Hash; pr_project : Id; pr_location : bytes; pr_device : Z; pr_inode :
  Z; pr_registry_revision : Z; pr_visibility : Z;
}.
#[export] Instance ProjectRegistered_eq_dec : EqDecision ProjectRegistered.
Proof. solve_decision. Defined.
Record ProjectRequestAlias : Type := mkAlias {
  pa_request : Id; pa_digest : Hash; pa_location : bytes; pa_project : Id; pa_registry_revision : Z;
}.
#[export] Instance ProjectRequestAlias_eq_dec : EqDecision ProjectRequestAlias.
Proof. solve_decision. Defined.
Record ProjectRenamed : Type := mkRenamed {
  pn_request : Id; pn_digest : Hash; pn_project : Id; pn_expected_name_revision : Z;
  pn_name_revision : Z; pn_requested_name : bytes; pn_name : bytes;
}.
#[export] Instance ProjectRenamed_eq_dec : EqDecision ProjectRenamed.
Proof. solve_decision. Defined.
Record ProjectName : Type := mkName {
  nm_name : bytes; nm_revision : Z;
}.
#[export] Instance ProjectName_eq_dec : EqDecision ProjectName.
Proof. solve_decision. Defined.
Record Composition : Type := mkComposition {
  co_omitted_turns : Z; co_manifest_digest : Hash; co_composer_revision : Z; co_window_tokens : Z;
  co_output_reservation : Z; co_overhead_tokens : Z; co_bytes_per_token_milli : Z; co_notice_through
  : Z; co_notice_live : Z; co_notice_views : Z;
}.
#[export] Instance Composition_eq_dec : EqDecision Composition.
Proof. solve_decision. Defined.
Record TurnAccepted : Type := mkAccepted {
  ta_request : Id; ta_digest : Hash; ta_project : Id; ta_original_conversation : option Id;
  ta_expected_generation : Z; ta_conversation : Id; ta_generation : Z; ta_task : Id; ta_operation :
  Id; ta_model : bytes; ta_configuration_digest : Hash; ta_instructions_digest : Hash;
  ta_input_digest : Hash; ta_prior_operations : list Id; ta_prompt : bytes; ta_event_cursor : Z;
  ta_composition : Composition; ta_thinking_level : Z; ta_thinking_request : Z;
}.
#[export] Instance TurnAccepted_eq_dec : EqDecision TurnAccepted.
Proof. solve_decision. Defined.
Record StartAuthorized : Type := mkStart {
  sa_operation : Id; sa_generation : Z; sa_helper : Id; sa_input_digest : Hash;
}.
#[export] Instance StartAuthorized_eq_dec : EqDecision StartAuthorized.
Proof. solve_decision. Defined.
Record RequestStarted : Type := mkRequestStarted {
  rs_operation : Id; rs_generation : Z; rs_request : Z; rs_measured_tokens : Z; rs_input_digest :
  Hash; rs_manifest_digest : Hash;
}.
#[export] Instance RequestStarted_eq_dec : EqDecision RequestStarted.
Proof. solve_decision. Defined.
Record CancelRequested : Type := mkCancel {
  cr_operation : Id; cr_generation : Z; cr_cause : Cause;
}.
#[export] Instance CancelRequested_eq_dec : EqDecision CancelRequested.
Proof. solve_decision. Defined.
Record TurnTerminal : Type := mkTerminal {
  tt_operation : Id; tt_generation : Z; tt_kind : TerminalKind; tt_cause : Cause; tt_final_cursor :
  Z; tt_usage_known : bool; tt_output_tokens : Z; tt_text_offset : Z; tt_text : bytes;
}.
#[export] Instance TurnTerminal_eq_dec : EqDecision TurnTerminal.
Proof. solve_decision. Defined.
Record ResponseText : Type := mkResponseText {
  rt_operation : Id; rt_generation : Z; rt_offset : Z; rt_text : bytes;
}.
#[export] Instance ResponseText_eq_dec : EqDecision ResponseText.
Proof. solve_decision. Defined.

(** ** Queued inputs. *)
Record InputQueued : Type := mkQueued {
  iq_request : Id; iq_digest : Hash; iq_input : Id; iq_dispatch_request : Id; iq_project : Id;
  iq_conversation : Id; iq_expected_generation : Z; iq_new_conversation : bool; iq_prompt : bytes;
  iq_order_revision : Z;
}.
#[export] Instance InputQueued_eq_dec : EqDecision InputQueued.
Proof. solve_decision. Defined.
Record InputReordered : Type := mkReordered {
  ir_request : Id; ir_digest : Hash; ir_input : Id; ir_after : option Id; ir_expected_order_revision
  : Z; ir_order_revision : Z;
}.
#[export] Instance InputReordered_eq_dec : EqDecision InputReordered.
Proof. solve_decision. Defined.
Record InputDecision : Type := mkInputDecision {
  id_request : Id; id_digest : Hash; id_input : Id; id_action : InputAction;
}.
#[export] Instance InputDecision_eq_dec : EqDecision InputDecision.
Proof. solve_decision. Defined.
Record InputPromoted : Type := mkPromoted {
  ip_request : Id; ip_digest : Hash; ip_input : Id; ip_target_operation : Id; ip_target_generation :
  Z;
}.
#[export] Instance InputPromoted_eq_dec : EqDecision InputPromoted.
Proof. solve_decision. Defined.
Record ExecCmdRefusal : Type := mkExecRefusal {
  er_code : RefusalCode; er_kind : option SecretKind; er_word : option Z;
}.
#[export] Instance ExecCmdRefusal_eq_dec : EqDecision ExecCmdRefusal.
Proof. solve_decision. Defined.
(** The fields of a person command that the client supplies. *)
Record PersonCommandRequest : Type := mkPersonRequest {
  pq_project : Id; pq_conversation : option Id; pq_expected_generation : Z; pq_new_conversation :
  bool; pq_outside_sandbox : bool; pq_command : bytes; pq_display_command : bytes; pq_cwd : bytes;
  pq_search_path : bytes; pq_environment : list (Z * bytes); pq_declared : list (bytes * bytes);
  pq_named : list (Z * bytes);
}.
#[export] Instance PersonCommandRequest_eq_dec : EqDecision PersonCommandRequest.
Proof. solve_decision. Defined.
Record PersonCommandQueued : Type := mkPersonCommand {
  pc_request : Id; pc_digest : Hash; pc_input : Id; pc_project : Id; pc_conversation : Id;
  pc_expected_generation : Z; pc_new_conversation : bool; pc_outside_sandbox : bool; pc_command :
  bytes; pc_display_command : bytes; pc_cwd : bytes; pc_search_path : bytes; pc_environment : list
  (Z * bytes); pc_declared : list (bytes * bytes); pc_named : list (Z * bytes); pc_order_revision :
  Z; pc_number_kinds : list SecretKind; pc_unnumbered : Z; pc_command_cut : bool; pc_whole_command :
  bool; pc_rule_set_revision : Z; pc_rule_set_digest : Hash; pc_fallback : option ExecCmdRefusal;
}.
#[export] Instance PersonCommandQueued_eq_dec : EqDecision PersonCommandQueued.
Proof. solve_decision. Defined.
Definition person_request (p : PersonCommandQueued) : PersonCommandRequest :=
  mkPersonRequest (pc_project p) (if negb (pc_new_conversation p) then Some (pc_conversation p) else None)
    (pc_expected_generation p) (pc_new_conversation p) (pc_outside_sandbox p) (pc_command p)
    (pc_display_command p) (pc_cwd p) (pc_search_path p) (pc_environment p) (pc_declared p) (pc_named p).
Definition command_text (p : PersonCommandQueued) : bytes :=
  if pc_whole_command p then pc_display_command p else pc_command p.
(** [Request], of [request_digest]. *)
Inductive Request : Type :=
| QInitialize (mode : Z)
| QRegister (location : bytes)
| QRenameProject (project : Id) (expected_name_revision : Z) (name : bytes)
| QSubmit (project : Id) (conversation : option Id) (expected_generation : Z) (prompt : bytes)
| QQueueInput (project : Id) (conversation : option Id) (expected_generation : Z) (new_conversation : bool)
    (prompt : bytes)
| QReorderInput (input : Id) (after : option Id) (expected_order_revision : Z)
| QInputDecision (input : Id) (action : InputAction)
| QPromoteInput (input target_operation : Id) (target_generation : Z)
| QCancel (operation : Id) (generation : Z)
| QQueuePersonCommand (p : PersonCommandRequest).

(** ** Tool calls. *)
Inductive RegisteredTool : Type :=
| RtProject | RtMemory | RtService | RtExecCmd | RtJob.
#[export] Instance RegisteredTool_eq_dec : EqDecision RegisteredTool.
Proof. solve_decision. Defined.
Definition TOOL_NAMES : list bytes := [lit "project"; lit "memory"; lit "service"; lit "exec_cmd"; lit "job"].
Definition tool_lookup (name : bytes) : option RegisteredTool :=
  match fst <$> list_find (fun n => n = name) TOOL_NAMES with
  | None => None
  | Some 0%nat => Some RtProject
  | Some 1%nat => Some RtMemory
  | Some 2%nat => Some RtService
  | Some 3%nat => Some RtExecCmd
  | Some _ => Some RtJob
  end.
Inductive ToolCallSource : Type :=
| GeneratedContent | ProviderJson.
#[export] Instance ToolCallSource_eq_dec : EqDecision ToolCallSource.
Proof. solve_decision. Defined.
Definition source_code (x : ToolCallSource) : Z :=
  match x with
  | GeneratedContent => 1 | ProviderJson => 2
  end.
Inductive ToolOperation : Type :=
| ReadFile | ListDirectory | Status | Tools | Audit | ListNotes | GetNote | NoteSources | CreateNote | ExecCmd | JobList | JobStatus | JobRead | JobWait | JobCancelOp | JobNote.
#[export] Instance ToolOperation_eq_dec : EqDecision ToolOperation.
Proof. solve_decision. Defined.
Definition operation_code (x : ToolOperation) : Z :=
  match x with
  | ReadFile => 1 | ListDirectory => 2 | Status => 3 | Tools => 4 | Audit => 5 | ListNotes => 6 | GetNote => 7 | NoteSources => 8 | CreateNote => 9 | ExecCmd => 10 | JobList => 11 | JobStatus => 12 | JobRead => 13 | JobWait => 14 | JobCancelOp => 15 | JobNote => 16
  end.
Definition operation_all : list ToolOperation := [ReadFile; ListDirectory; Status; Tools; Audit; ListNotes; GetNote; NoteSources; CreateNote; ExecCmd; JobList; JobStatus; JobRead; JobWait; JobCancelOp; JobNote].
Definition operation_from_code (code : Z) : option ToolOperation := from_code_1 operation_all code.
Definition operation_tool (o : ToolOperation) : RegisteredTool :=
  match o with
  | ReadFile | ListDirectory => RtProject
  | Status | Tools | Audit => RtService
  | ListNotes | GetNote | NoteSources | CreateNote => RtMemory
  | ExecCmd => RtExecCmd
  | JobList | JobStatus | JobRead | JobWait | JobCancelOp | JobNote => RtJob
  end.
(** [self >= Self::ExecCmd]. *)
Definition op_job_result (o : ToolOperation) : bool := operation_code ExecCmd <=? operation_code o.
Inductive ToolDecision : Type :=
| TRun | TInvalidArguments | TUnknownTool | TRefused | TBusy | TDenied | TLimit | TdCancelled.
#[export] Instance ToolDecision_eq_dec : EqDecision ToolDecision.
Proof. solve_decision. Defined.
Definition decision_code (x : ToolDecision) : Z :=
  match x with
  | TRun => 1 | TInvalidArguments => 2 | TUnknownTool => 3 | TRefused => 4 | TBusy => 5 | TDenied => 6 | TLimit => 7 | TdCancelled => 8
  end.
Definition tool_decision_all : list ToolDecision := [TRun; TInvalidArguments; TUnknownTool; TRefused; TBusy; TDenied; TLimit; TdCancelled].
Definition tool_decision_from_code (code : Z) : option ToolDecision := from_code_1 tool_decision_all code.
Inductive ToolFault : Type :=
| InvalidJson | JsonLimit | NotObject | DuplicateKey | UnknownCommand | MissingField | UnexpectedField | WrongType | OutOfRange | UnsafePath | InvalidVersionId | ArgumentsOverLimit | NameOverLimit | InvalidText | UnregisteredName | InvalidJobId.
#[export] Instance ToolFault_eq_dec : EqDecision ToolFault.
Proof. solve_decision. Defined.
Definition fault_code (x : ToolFault) : Z :=
  match x with
  | InvalidJson => 1 | JsonLimit => 2 | NotObject => 3 | DuplicateKey => 4 | UnknownCommand => 5 | MissingField => 6 | UnexpectedField => 7 | WrongType => 8 | OutOfRange => 9 | UnsafePath => 10 | InvalidVersionId => 11 | ArgumentsOverLimit => 12 | NameOverLimit => 13 | InvalidText => 14 | UnregisteredName => 15 | InvalidJobId => 16
  end.
Definition fault_all : list ToolFault := [InvalidJson; JsonLimit; NotObject; DuplicateKey; UnknownCommand; MissingField; UnexpectedField; WrongType; OutOfRange; UnsafePath; InvalidVersionId; ArgumentsOverLimit; NameOverLimit; InvalidText; UnregisteredName; InvalidJobId].
Definition fault_from_code (code : Z) : option ToolFault := from_code_1 fault_all code.
Inductive ToolDecisionReason : Type :=
| QueueFull | JobsFull | Closed | ExecutionOff | PolicyDenied | PolicyUnavailable | PolicyBusy.
#[export] Instance ToolDecisionReason_eq_dec : EqDecision ToolDecisionReason.
Proof. solve_decision. Defined.
Definition reason_all : list ToolDecisionReason := [QueueFull; JobsFull; Closed; ExecutionOff; PolicyDenied; PolicyUnavailable; PolicyBusy].
Definition reason_decision (r : ToolDecisionReason) : ToolDecision :=
  match r with
  | QueueFull | JobsFull | Closed | PolicyBusy => TBusy
  | ExecutionOff | PolicyDenied | PolicyUnavailable => TDenied
  end.
Definition reason_code (r : ToolDecisionReason) : Z :=
  match r with
  | QueueFull | ExecutionOff => 1
  | JobsFull | PolicyDenied => 2
  | Closed | PolicyUnavailable => 3
  | PolicyBusy => 4
  end.
Definition reason_from_code (decision : ToolDecision) (code : Z) : option (option ToolDecisionReason) :=
  if code =? 0 then Some None
  else (fun r => Some (snd r)) <$> list_find (fun r => reason_decision r = decision /\ reason_code r = code) reason_all.
Inductive NotRetainedReason : Type :=
| Oversized | NrDetectionUnavailable | UnverifiableEscape.
#[export] Instance NotRetainedReason_eq_dec : EqDecision NotRetainedReason.
Proof. solve_decision. Defined.
Definition not_retained_code (x : NotRetainedReason) : Z :=
  match x with
  | Oversized => 1 | NrDetectionUnavailable => 2 | UnverifiableEscape => 3
  end.
Inductive ArgumentForm : Type := Verbatim | Canonical | Unparsed | NotRetained (reason : NotRetainedReason).
#[export] Instance ArgumentForm_eq_dec : EqDecision ArgumentForm.
Proof. solve_decision. Defined.
Definition form_code (f : ArgumentForm) : Z :=
  match f with Verbatim => 1 | Canonical => 2 | Unparsed => 3 | NotRetained _ => 4 end.
Definition form_not_retained (f : ArgumentForm) : option NotRetainedReason :=
  match f with NotRetained reason => Some reason | _ => None end.
#[export] Instance PolicyRefusal_eq_dec : EqDecision PolicyRefusal.
Proof. solve_decision. Defined.
Record ToolCall : Type := mkToolCall {
  tc_operation : Id; tc_generation : Z; tc_ordinal : Z; tc_source : ToolCallSource; tc_name : bytes;
  tc_name_bytes : Z; tc_tool_operation : option ToolOperation; tc_decision : ToolDecision; tc_fault
  : option ToolFault; tc_reason : option ToolDecisionReason; tc_form : ArgumentForm;
  tc_arguments_bytes : Z; tc_arguments : bytes; tc_number_kinds : list SecretKind; tc_unnumbered :
  Z; tc_rule_set_revision : Z; tc_rule_set_digest : Hash; tc_command_cut : bool; tc_whole_command :
  bool; tc_refusal : option ExecCmdRefusal; tc_policy : option PolicyRefusal;
}.
#[export] Instance ToolCall_eq_dec : EqDecision ToolCall.
Proof. solve_decision. Defined.
Record ToolResult : Type := mkToolResult {
  tr_operation : Id; tr_generation : Z; tr_ordinal : Z; tr_status : Z; tr_text : bytes;
  tr_next_offset : option Z; tr_truncated : bool;
}.
#[export] Instance ToolResult_eq_dec : EqDecision ToolResult.
Proof. solve_decision. Defined.
Record CreateNoteIdentity : Type := mkNoteIdentity {
  cn_operation : Id; cn_object : Id; cn_version : Id; cn_edge : Id;
}.
#[export] Instance CreateNoteIdentity_eq_dec : EqDecision CreateNoteIdentity.
Proof. solve_decision. Defined.
Record CreateNoteCall : Type := mkNoteCall {
  cc_operation : Id; cc_generation : Z; cc_ordinal : Z; cc_project : Id; cc_identity :
  CreateNoteIdentity;
}.
#[export] Instance CreateNoteCall_eq_dec : EqDecision CreateNoteCall.
Proof. solve_decision. Defined.
Record ExecCmdCall : Type := mkExecCall {
  ec_fixed_command : option bytes; ec_secret_variables : Z; ec_job : Id; ec_stdout_payload : Id;
  ec_stderr_payload : Id; ec_intent_sequence : Z; ec_job_intent : option Locator;
}.
#[export] Instance ExecCmdCall_eq_dec : EqDecision ExecCmdCall.
Proof. solve_decision. Defined.

(** ** Jobs: kinds 26, 27 and 28. *)
Inductive JobOrigin : Type :=
| ByModel (operation : Id) (generation : Z) (ordinal : Z)
| ByPerson (input : Id).
#[export] Instance JobOrigin_eq_dec : EqDecision JobOrigin.
Proof. solve_decision. Defined.
Definition job_origin_code (o : JobOrigin) : Z := match o with ByModel _ _ _ => 1 | ByPerson _ => 2 end.
Record JobIntent : Type := mkJobIntent {
  ji_origin : JobOrigin; ji_agent : Z; ji_time : Z;
}.
#[export] Instance JobIntent_eq_dec : EqDecision JobIntent.
Proof. solve_decision. Defined.
Inductive JobRequester : Type :=
| RqModel | RqClient | RqPerson | RqService.
#[export] Instance JobRequester_eq_dec : EqDecision JobRequester.
Proof. solve_decision. Defined.
Definition requester_code (x : JobRequester) : Z :=
  match x with
  | RqModel => 1 | RqClient => 2 | RqPerson => 3 | RqService => 4
  end.
Definition requester_from_code (code : Z) : option JobRequester :=
  if code =? 1 then Some RqModel else
  if code =? 2 then Some RqClient else
  if code =? 3 then Some RqPerson else
  if code =? 4 then Some RqService else None.
Inductive JobOutcome : Type :=
| JExited | JSignalled | JCancelled | JNotStarted | JInterrupted.
#[export] Instance JobOutcome_eq_dec : EqDecision JobOutcome.
Proof. solve_decision. Defined.
Definition job_outcome_code (x : JobOutcome) : Z :=
  match x with
  | JExited => 1 | JSignalled => 2 | JCancelled => 3 | JNotStarted => 4 | JInterrupted => 5
  end.
Definition job_outcome_all : list JobOutcome := [JExited; JSignalled; JCancelled; JNotStarted; JInterrupted].
Definition job_outcome_from_code (code : Z) : option JobOutcome := from_code_1 job_outcome_all code.
Inductive JobReason : Type :=
| JrNone | ModelCancel | TurnEnded | ClientCancel | PersonStop | PersonKill | IdentityChanged | Shutdown | CaptureFault | JrQuota | JrEnospc | JrRestart | CwdUnavailable | ProjectChanged | SandboxUnavailable | SpawnFailed | CaptureUnavailable | ProtocolFault | SetupFailed | JrExecutionOff | OutsideSandboxOff | EnforcementMismatch.
#[export] Instance JobReason_eq_dec : EqDecision JobReason.
Proof. solve_decision. Defined.
Definition job_reason_code (x : JobReason) : Z :=
  match x with
  | JrNone => 0 | ModelCancel => 1 | TurnEnded => 2 | ClientCancel => 3 | PersonStop => 4 | PersonKill => 5 | IdentityChanged => 6 | Shutdown => 7 | CaptureFault => 8 | JrQuota => 9 | JrEnospc => 10 | JrRestart => 11 | CwdUnavailable => 12 | ProjectChanged => 13 | SandboxUnavailable => 14 | SpawnFailed => 15 | CaptureUnavailable => 16 | ProtocolFault => 17 | SetupFailed => 18 | JrExecutionOff => 19 | OutsideSandboxOff => 20 | EnforcementMismatch => 21
  end.
Definition job_reason_all : list JobReason := [JrNone; ModelCancel; TurnEnded; ClientCancel; PersonStop; PersonKill; IdentityChanged; Shutdown; CaptureFault; JrQuota; JrEnospc; JrRestart; CwdUnavailable; ProjectChanged; SandboxUnavailable; SpawnFailed; CaptureUnavailable; ProtocolFault; SetupFailed; JrExecutionOff; OutsideSandboxOff; EnforcementMismatch].
Definition job_reason_from_code (code : Z) : option JobReason := from_code_0 job_reason_all code.
Definition job_reason_requester (r : JobReason) : option JobRequester :=
  match r with
  | ModelCancel | TurnEnded => Some RqModel
  | ClientCancel => Some RqClient
  | PersonStop | PersonKill => Some RqPerson
  | IdentityChanged | Shutdown | CaptureFault | JrQuota | JrEnospc | JrExecutionOff => Some RqService
  | JrNone | JrRestart | CwdUnavailable | ProjectChanged | SandboxUnavailable | SpawnFailed
  | CaptureUnavailable | ProtocolFault | SetupFailed | OutsideSandboxOff | EnforcementMismatch => None
  end.
Definition job_reason_allows (r : JobReason) (outcome : JobOutcome) : bool :=
  match r with
  | JrNone => bool_decide (outcome ∈ [JExited; JSignalled])
  | ModelCancel | TurnEnded | ClientCancel | PersonStop | PersonKill | IdentityChanged | Shutdown
  | JrExecutionOff => bool_decide (outcome ∈ [JExited; JSignalled; JCancelled; JNotStarted])
  | CaptureFault => bool_decide (outcome ∈ [JExited; JSignalled; JCancelled])
  | JrQuota | JrEnospc => bool_decide (outcome ∈ [JExited; JSignalled])
  | JrRestart => bool_decide (outcome = JInterrupted)
  | CwdUnavailable | ProjectChanged | SandboxUnavailable | SpawnFailed | CaptureUnavailable
  | ProtocolFault | SetupFailed | OutsideSandboxOff | EnforcementMismatch =>
      bool_decide (outcome = JNotStarted)
  end.
Record JobCancelRequested : Type := mkJobCancelRequested {
  jc_job : Id; jc_requester : JobRequester; jc_reason : JobReason; jc_kill : bool;
}.
#[export] Instance JobCancelRequested_eq_dec : EqDecision JobCancelRequested.
Proof. solve_decision. Defined.
Inductive CaptureState : Type :=
| CsComplete | CsIncomplete | CsUnconfirmed | CsNotStarted.
#[export] Instance CaptureState_eq_dec : EqDecision CaptureState.
Proof. solve_decision. Defined.
Definition capture_state_code (x : CaptureState) : Z :=
  match x with
  | CsComplete => 1 | CsIncomplete => 2 | CsUnconfirmed => 3 | CsNotStarted => 4
  end.
Inductive CaptureReason : Type :=
| CrNone | StorageFault | CrQuota | CrEnospc | DetectorFault | DiscardedAfterCancel | SettlementUnconfirmed | ClosedAfterCancel.
#[export] Instance CaptureReason_eq_dec : EqDecision CaptureReason.
Proof. solve_decision. Defined.
Definition capture_reason_code (x : CaptureReason) : Z :=
  match x with
  | CrNone => 0 | StorageFault => 1 | CrQuota => 2 | CrEnospc => 3 | DetectorFault => 4 | DiscardedAfterCancel => 5 | SettlementUnconfirmed => 6 | ClosedAfterCancel => 7
  end.
Record CaptureStream : Type := mkStream {
  cs_observed_bytes : Z; cs_stored_bytes : Z; cs_digest : option Hash; cs_replacements : Z;
  cs_unnumbered_replacements : Z; cs_literal_replacements : Z; cs_kinds : list (SecretKind * Z);
  cs_loss_span_count : Z; cs_withheld_bytes : Z; cs_spans : list LossSpan; cs_degraded : bool;
  cs_discarded_bytes : Z; cs_eof : bool;
}.
#[export] Instance CaptureStream_eq_dec : EqDecision CaptureStream.
Proof. solve_decision. Defined.
Definition stream_default : CaptureStream := mkStream 0 0 None 0 0 0 [] 0 0 [] false 0 false.
Record CaptureNumber : Type := mkCaptureNumber {
  nu_number : Z; nu_kind : SecretKind; nu_origin : NumberOrigin;
}.
#[export] Instance CaptureNumber_eq_dec : EqDecision CaptureNumber.
Proof. solve_decision. Defined.
Inductive JobCleanup : Type :=
| ClNone | Confirmed | Late.
#[export] Instance JobCleanup_eq_dec : EqDecision JobCleanup.
Proof. solve_decision. Defined.
Definition cleanup_code (x : JobCleanup) : Z :=
  match x with
  | ClNone => 0 | Confirmed => 1 | Late => 2
  end.
Inductive JobCaptureState : Type :=
| JcComplete | JcIncomplete | JcUnconfirmed | JcNotStarted | JcInterrupted.
#[export] Instance JobCaptureState_eq_dec : EqDecision JobCaptureState.
Proof. solve_decision. Defined.
Definition job_capture_code (x : JobCaptureState) : Z :=
  match x with
  | JcComplete => 1 | JcIncomplete => 2 | JcUnconfirmed => 3 | JcNotStarted => 4 | JcInterrupted => 5
  end.
Definition job_capture (s : JobCaptureState) : option CaptureState :=
  match s with
  | JcComplete => Some CsComplete
  | JcIncomplete => Some CsIncomplete
  | JcUnconfirmed => Some CsUnconfirmed
  | JcNotStarted => Some CsNotStarted
  | JcInterrupted => None
  end.
Record JobStream : Type := mkJobStream {
  js_capture : CaptureStream; js_lines : Z;
}.
#[export] Instance JobStream_eq_dec : EqDecision JobStream.
Proof. solve_decision. Defined.
Definition job_stream_default : JobStream := mkJobStream stream_default 0.
Record JobSettled : Type := mkJobSettled {
  jd_job : Id; jd_outcome : JobOutcome; jd_reason : JobReason; jd_exit_kind : Z; jd_exit_value : Z;
  jd_cleanup : JobCleanup; jd_unconfirmed_reason : Z; jd_escapees : Z; jd_elapsed_ms : Z;
  jd_capture_state : JobCaptureState; jd_capture_reason : CaptureReason; jd_stdout : JobStream;
  jd_stderr : JobStream; jd_distinct_numbers : Z; jd_numbers : list CaptureNumber; jd_pause_count :
  Z; jd_first_pause_ms : Z; jd_paused_ms : Z; jd_final_reservation : Z; jd_settled_time : Z;
}.
#[export] Instance JobSettled_eq_dec : EqDecision JobSettled.
Proof. solve_decision. Defined.
Definition job_interrupted (job : Id) (settled_time : Z) : JobSettled :=
  mkJobSettled job JInterrupted JrRestart 0 0 ClNone 0 0 0 JcInterrupted CrNone job_stream_default
    job_stream_default 0 [] 0 0 0 0 settled_time.
Record JobCancel : Type := mkJobCancel {
  ja_requester : JobRequester; ja_reason : JobReason; ja_kill : bool; ja_frame : Locator;
}.
#[export] Instance JobCancel_eq_dec : EqDecision JobCancel.
Proof. solve_decision. Defined.
Record UnsettledJob : Type := mkUnsettled {
  uj_job : Id; uj_origin : JobOrigin; uj_agent : Z; uj_conversation : Id; uj_project : Id;
  uj_owner_generation : Z; uj_time : Z; uj_intent : Locator; uj_cancel : option JobCancel;
  uj_payloads : Id * Id;
}.
#[export] Instance UnsettledJob_eq_dec : EqDecision UnsettledJob.
Proof. solve_decision. Defined.
Record SettledJob : Type := mkSettledJob {
  sj_job : Id; sj_conversation : Id; sj_origin : Z; sj_intent : Locator; sj_cancel : Locator;
  sj_settled : Locator;
}.
#[export] Instance SettledJob_eq_dec : EqDecision SettledJob.
Proof. solve_decision. Defined.
Inductive JobState : Type := Unsettled (job : UnsettledJob) | Settled (job : SettledJob).

(** ** Kinds 29 and 30. *)
Inductive JobResultOutcome : Type :=
| RoOk | RoNotFound | RoNotPermitted | RoBusy | RoCancelled | RoUnavailable | RoLimit | RoPrivate.
#[export] Instance JobResultOutcome_eq_dec : EqDecision JobResultOutcome.
Proof. solve_decision. Defined.
Definition result_outcome_code (x : JobResultOutcome) : Z :=
  match x with
  | RoOk => 1 | RoNotFound => 2 | RoNotPermitted => 3 | RoBusy => 4 | RoCancelled => 5 | RoUnavailable => 6 | RoLimit => 7 | RoPrivate => 8
  end.
Definition result_outcome_all : list JobResultOutcome := [RoOk; RoNotFound; RoNotPermitted; RoBusy; RoCancelled; RoUnavailable; RoLimit; RoPrivate].
Definition result_outcome_from_code (code : Z) : option JobResultOutcome := from_code_1 result_outcome_all code.
Definition result_outcome_status (o : JobResultOutcome) : Z :=
  match o with
  | RoOk => 1
  | RoNotFound => 3
  | RoNotPermitted => 2
  | RoBusy | RoUnavailable => 4
  | RoCancelled => 6
  | RoLimit => 7
  | RoPrivate => 8
  end.
Definition result_outcome_allows (o : JobResultOutcome) (code : ToolOperation) : bool :=
  let job := op_job_result code in
  match o with
  | RoOk => job
  | RoNotFound => job && negb (bool_decide (code ∈ [ExecCmd; JobList]))
  | RoUnavailable => job && bool_decide (code <> ExecCmd)
  | RoNotPermitted => bool_decide (code = JobCancelOp)
  | RoBusy => bool_decide (code = JobRead)
  | RoCancelled => job && bool_decide (code <> JobCancelOp)
  | RoLimit => bool_decide (code = JobNote)
  | RoPrivate => bool_decide (code ∈ [ExecCmd; JobStatus; JobRead; JobWait])
  end.
Inductive JobBlockReason : Type :=
| Recovering | JournalUnavailable | JournalHeld | PayloadUnavailable | AgentSlots | ServiceSlots | PendingInstalls | BrQuota | BrDiskSpace.
#[export] Instance JobBlockReason_eq_dec : EqDecision JobBlockReason.
Proof. solve_decision. Defined.
Definition block_reason_code (x : JobBlockReason) : Z :=
  match x with
  | Recovering => 1 | JournalUnavailable => 2 | JournalHeld => 3 | PayloadUnavailable => 4 | AgentSlots => 5 | ServiceSlots => 6 | PendingInstalls => 7 | BrQuota => 8 | BrDiskSpace => 9
  end.
Definition block_reason_all : list JobBlockReason := [Recovering; JournalUnavailable; JournalHeld; PayloadUnavailable; AgentSlots; ServiceSlots; PendingInstalls; BrQuota; BrDiskSpace].
Definition block_reason_from_code (code : Z) : option JobBlockReason := from_code_1 block_reason_all code.
Inductive JobPauseReason : Type :=
| PauseQuota | PauseDiskSpace.
#[export] Instance JobPauseReason_eq_dec : EqDecision JobPauseReason.
Proof. solve_decision. Defined.
Definition pause_reason_code (x : JobPauseReason) : Z :=
  match x with
  | PauseQuota => 1 | PauseDiskSpace => 2
  end.
Definition pause_reason_from_code (code : Z) : option JobPauseReason :=
  if code =? 1 then Some PauseQuota else
  if code =? 2 then Some PauseDiskSpace else None.
Inductive JobRunState : Type :=
| RsQueued (reason : JobBlockReason) | RsStarting | RsRunning | RsCapturePaused (reason : JobPauseReason)
| RsStopping | RsDraining | RsCleanupUnconfirmed | RsFinalizing | RsSettled.
#[export] Instance JobRunState_eq_dec : EqDecision JobRunState.
Proof. solve_decision. Defined.
Definition run_state_code (s : JobRunState) : Z :=
  match s with
  | RsQueued _ => 1 | RsStarting => 2 | RsRunning => 3 | RsCapturePaused _ => 4 | RsStopping => 5
  | RsDraining => 6 | RsCleanupUnconfirmed => 7 | RsFinalizing => 8 | RsSettled => 9
  end.
Definition run_state_reason (s : JobRunState) : Z :=
  match s with
  | RsQueued reason => block_reason_code reason
  | RsCapturePaused reason => pause_reason_code reason
  | _ => 0
  end.
Definition run_state_from (state reason : Z) : option JobRunState :=
  let plain s := if reason =? 0 then Some s else None in
  if state =? 1 then RsQueued <$> block_reason_from_code reason
  else if state =? 2 then plain RsStarting
  else if state =? 3 then plain RsRunning
  else if state =? 4 then RsCapturePaused <$> pause_reason_from_code reason
  else if state =? 5 then plain RsStopping
  else if state =? 6 then plain RsDraining
  else if state =? 7 then plain RsCleanupUnconfirmed
  else if state =? 8 then plain RsFinalizing
  else if state =? 9 then plain RsSettled
  else None.
Definition before_spawn (s : JobRunState) : bool :=
  match s with RsQueued _ | RsStarting => true | _ => false end.
(** [numbers] is a three-byte array. *)
Definition allows_numbers (s : JobRunState) (numbers : bytes) : bool :=
  match s with
  | RsQueued AgentSlots | RsQueued ServiceSlots => true
  | RsQueued PendingInstalls => bool_decide (drop 1 numbers = [0; 0])
  | _ => bool_decide (numbers = zeros 3)
  end.
Record JobSnapshot : Type := mkSnapshot {
  sn_state : JobRunState; sn_numbers : bytes; sn_elapsed_ms : Z; sn_stdout_bytes : Z;
  sn_stderr_bytes : Z;
}.
#[export] Instance JobSnapshot_eq_dec : EqDecision JobSnapshot.
Proof. solve_decision. Defined.
Inductive OutputStream : Type :=
| Stdout | Stderr.
#[export] Instance OutputStream_eq_dec : EqDecision OutputStream.
Proof. solve_decision. Defined.
Definition output_stream_code (x : OutputStream) : Z :=
  match x with
  | Stdout => 1 | Stderr => 2
  end.
Definition output_stream_from_code (code : Z) : option OutputStream :=
  if code =? 1 then Some Stdout else
  if code =? 2 then Some Stderr else None.
Inductive JobPageState : Type :=
| PgLive | PgComplete | PgIncomplete | PgUnverifiedPrefix | PgExpired | PgMissing | PgCorrupt | PgDeleted.
#[export] Instance JobPageState_eq_dec : EqDecision JobPageState.
Proof. solve_decision. Defined.
Definition page_state_code (x : JobPageState) : Z :=
  match x with
  | PgLive => 1 | PgComplete => 2 | PgIncomplete => 3 | PgUnverifiedPrefix => 4 | PgExpired => 5 | PgMissing => 6 | PgCorrupt => 7 | PgDeleted => 8
  end.
Definition page_state_all : list JobPageState := [PgLive; PgComplete; PgIncomplete; PgUnverifiedPrefix; PgExpired; PgMissing; PgCorrupt; PgDeleted].
Definition page_state_from_code (code : Z) : option JobPageState := from_code_1 page_state_all code.
Definition page_state_readable (s : JobPageState) : bool := page_state_code s <=? 4.
Record JobPage : Type := mkJobPage {
  jp_stream : OutputStream; jp_start : Z; jp_source_len : Z; jp_total : Z; jp_state : JobPageState;
  jp_digest : Hash;
}.
#[export] Instance JobPage_eq_dec : EqDecision JobPage.
Proof. solve_decision. Defined.
Definition page_next_offset (p : JobPage) : Z := saturating_add64 (jp_start p) (jp_source_len p).
Record JobListEntry : Type := mkListEntry {
  le_job : Id; le_state : JobRunState; le_numbers : bytes; le_stdout_bytes : Z; le_stderr_bytes : Z;
}.
#[export] Instance JobListEntry_eq_dec : EqDecision JobListEntry.
Proof. solve_decision. Defined.
Inductive WaitEnd : Type :=
| WaitSettled | WaitNewOutput | WaitTime | WaitAlreadySettled.
#[export] Instance WaitEnd_eq_dec : EqDecision WaitEnd.
Proof. solve_decision. Defined.
Definition wait_end_code (x : WaitEnd) : Z :=
  match x with
  | WaitSettled => 1 | WaitNewOutput => 2 | WaitTime => 3 | WaitAlreadySettled => 4
  end.
Definition wait_end_from_code (code : Z) : option WaitEnd :=
  if code =? 1 then Some WaitSettled else
  if code =? 2 then Some WaitNewOutput else
  if code =? 3 then Some WaitTime else
  if code =? 4 then Some WaitAlreadySettled else None.
Inductive JobResultBody : Type :=
| BodyNone | BodyState (s : JobSnapshot) | BodyPage (p : JobPage)
| BodyList (more : bool) (entries : list JobListEntry) | BodyWait (s : JobSnapshot) (e : WaitEnd).
#[export] Instance JobResultBody_eq_dec : EqDecision JobResultBody.
Proof. solve_decision. Defined.
Record JobResult : Type := mkJobResult {
  jr_operation : Id; jr_generation : Z; jr_ordinal : Z; jr_status : Z; jr_outcome :
  JobResultOutcome; jr_job : Id; jr_body : JobResultBody; jr_view : list JobPage;
}.
#[export] Instance JobResult_eq_dec : EqDecision JobResult.
Proof. solve_decision. Defined.
Inductive RetentionAction : Type :=
| RaPin | RaUnpin | RaDelete | RaNote.
#[export] Instance RetentionAction_eq_dec : EqDecision RetentionAction.
Proof. solve_decision. Defined.
Definition retention_action_code (x : RetentionAction) : Z :=
  match x with
  | RaPin => 1 | RaUnpin => 2 | RaDelete => 3 | RaNote => 4
  end.
Definition retention_action_from_code (code : Z) : option RetentionAction :=
  if code =? 1 then Some RaPin else
  if code =? 2 then Some RaUnpin else
  if code =? 3 then Some RaDelete else
  if code =? 4 then Some RaNote else None.
Inductive RetentionAuthor : Type :=
| PersonAuthor (request : Id) | ModelAuthor (operation : Id) (generation : Z) (ordinal : Z).
#[export] Instance RetentionAuthor_eq_dec : EqDecision RetentionAuthor.
Proof. solve_decision. Defined.
Definition retention_author_code (a : RetentionAuthor) : Z :=
  match a with PersonAuthor _ => 1 | ModelAuthor _ _ _ => 2 end.
Record JobRetention : Type := mkRetention {
  jn_job : Id; jn_action : RetentionAction; jn_author : RetentionAuthor; jn_time : Z; jn_note :
  bytes;
}.
#[export] Instance JobRetention_eq_dec : EqDecision JobRetention.
Proof. solve_decision. Defined.
Record JobRetentionSummary : Type := mkSummary {
  su_pinned : bool; su_deleted : bool; su_notes : Z; su_records : Z;
}.
#[export] Instance JobRetentionSummary_eq_dec : EqDecision JobRetentionSummary.
Proof. solve_decision. Defined.
Definition summary_default : JobRetentionSummary := mkSummary false false 0 0.
Definition saturating_add32 (a b : Z) : Z := Z.min (2 ^ 32 - 1) (a + b).
Definition summary_apply (s : JobRetentionSummary) (action : RetentionAction) : JobRetentionSummary :=
  let records := saturating_add32 (su_records s) 1 in
  match action with
  | RaPin => mkSummary true (su_deleted s) (su_notes s) records
  | RaUnpin => mkSummary false (su_deleted s) (su_notes s) records
  | RaDelete => mkSummary (su_pinned s) true (su_notes s) records
  | RaNote => mkSummary (su_pinned s) (su_deleted s) (saturating_add32 (su_notes s) 1) records
  end.
Definition summary_allows (s : JobRetentionSummary) (action : RetentionAction) (settled : bool) : bool :=
  match action with
  | RaPin => negb (su_pinned s)
  | RaUnpin => su_pinned s
  | RaDelete => settled && negb (su_deleted s)
  | RaNote => true
  end.
Definition summary_has_room (s : JobRetentionSummary) (action : RetentionAction) : bool :=
  (su_records s <? Z.of_nat MAX_JOB_RETENTION_RECORDS) &&
  (bool_decide (action <> RaNote) || (su_notes s <? MAX_JOB_NOTES)).

(** ** [ToolRecord]: one kind 14 call and its later records. *)
Record ToolRecord : Type := mkToolRecord {
  to_name : bytes; to_tool : option RegisteredTool; to_tool_operation : option ToolOperation;
  to_decision : ToolDecision; to_fault : option ToolFault; to_reason : option ToolDecisionReason;
  to_refusal : option ExecCmdRefusal; to_policy : option PolicyRefusal; to_whole_command : bool;
  to_form : ArgumentForm; to_arguments_bytes : Z; to_arguments : bytes; to_result_status : option Z;
  to_intent_frame : Locator; to_result_frame : option Locator; to_result_bytes : Z; to_preview :
  option bytes; to_truncated : option bool; to_create : option CreateNoteCall; to_exec_cmd : option
  ExecCmdCall; to_job_result : option JobResult; to_note : option (Id * Locator);
}.
#[export] Instance ToolRecord_eq_dec : EqDecision ToolRecord.
Proof. solve_decision. Defined.
Definition unresolved (t : ToolRecord) : bool :=
  bool_decide (to_decision t = TRun) && bool_decide (to_result_frame t = None).

(** ** Responses: [Response::apply] keeps [offset] bytes, then appends
    [appended] bytes held in [frame]. *)
Record ResponsePiece : Type := mkPiece {
  rp_start : Z; rp_kept : Z; rp_frame : Locator;
}.
#[export] Instance ResponsePiece_eq_dec : EqDecision ResponsePiece.
Proof. solve_decision. Defined.
Record Response : Type := mkResponse {
  re_len : Z; re_pieces : list ResponsePiece;
}.
#[export] Instance Response_eq_dec : EqDecision Response.
Proof. solve_decision. Defined.
Definition response_default : Response := mkResponse 0 [].
(** [if let Some(last) = pieces.last_mut() { last.kept = last.kept.min(offset - last.start) }];
    every retained piece starts below [offset]. *)
Fixpoint trim_last (offset : Z) (pieces : list ResponsePiece) : list ResponsePiece :=
  match pieces with
  | [] => []
  | [last] => [mkPiece (rp_start last) (Z.min (rp_kept last) (offset - rp_start last)) (rp_frame last)]
  | p :: pieces => p :: trim_last offset pieces
  end.
Definition response_apply (r : Response) (offset appended : Z) (frame : Locator) : option Response :=
  if decide (offset > re_len r) then None else
  let pieces := trim_last offset (filter (fun p => rp_start p < offset) (re_pieces r)) in
  let pieces := if decide (appended > 0) then pieces ++ [mkPiece offset appended frame] else pieces in
  (fun len => mkResponse len pieces) <$> checked_add64 offset appended.

(** ** The live state. *)
Record Terminal : Type := mkTerminalFacts {
  te_kind : TerminalKind; te_cause : Cause; te_usage_known : bool; te_output_tokens : Z; te_frame :
  Locator; te_completed : Z;
}.
#[export] Instance Terminal_eq_dec : EqDecision Terminal.
Proof. solve_decision. Defined.
Record Operation : Type := mkOperation {
  op_conversation : Id; op_generation : Z; op_task : Id; op_owner_generation : Z; op_input_digest :
  Hash; op_accepted_frame : Locator; op_notice_through : Z; op_helper : option Id; op_cancel :
  option Cause; op_terminal : option Terminal; op_tools : list ToolRecord; op_request_starts : list
  Z; op_response : Response; op_thinking : Response;
}.
#[export] Instance Operation_eq_dec : EqDecision Operation.
Proof. solve_decision. Defined.
Record ProjectLatest : Type := mkProjectLatest {
  px_conversation : Id; px_operation : Id; px_generation : Z; px_accepted : Z; px_terminal : option
  Z;
}.
#[export] Instance ProjectLatest_eq_dec : EqDecision ProjectLatest.
Proof. solve_decision. Defined.
Record ProjectEntry : Type := mkProjectEntry {
  pj_registration : ProjectRegistered; pj_registered : Locator; pj_name : option ProjectName;
  pj_latest : option ProjectLatest; pj_activity : Z;
}.
#[export] Instance ProjectEntry_eq_dec : EqDecision ProjectEntry.
Proof. solve_decision. Defined.
Record LatestTurn : Type := mkLatest {
  lt_operation : Id; lt_terminal : option TerminalKind; lt_accepted : Locator; lt_notice_through : Z;
}.
#[export] Instance LatestTurn_eq_dec : EqDecision LatestTurn.
Proof. solve_decision. Defined.
Record Conversation : Type := mkConversation {
  cv_project : Id; cv_generation : Z; cv_created : Locator; cv_latest : option LatestTurn;
  cv_completed : Z; cv_activity : Z;
}.
#[export] Instance Conversation_eq_dec : EqDecision Conversation.
Proof. solve_decision. Defined.
Inductive InputKind : Type :=
| IQueue | ISteer | IPerson.
#[export] Instance InputKind_eq_dec : EqDecision InputKind.
Proof. solve_decision. Defined.
Definition input_kind_code (x : InputKind) : Z :=
  match x with
  | IQueue => 1 | ISteer => 2 | IPerson => 3
  end.
Inductive InputStatus : Type :=
| SQueued | SHeld | SRunning | SComplete | SFailed | SDropped.
#[export] Instance InputStatus_eq_dec : EqDecision InputStatus.
Proof. solve_decision. Defined.
Definition input_status_code (x : InputStatus) : Z :=
  match x with
  | SQueued => 1 | SHeld => 2 | SRunning => 3 | SComplete => 4 | SFailed => 5 | SDropped => 6
  end.
Definition input_status_from (code : Z) : option InputStatus :=
  if code =? 1 then Some SQueued else if code =? 2 then Some SHeld else if code =? 3 then Some SRunning
  else if code =? 4 then Some SComplete else if code =? 5 then Some SFailed else if code =? 6 then Some SDropped
  else None.
(** [PersonInput] of the source; the constructor of [PolicySubject] has that name. *)
Record PersonFacts : Type := mkPerson {
  pf_outside_sandbox : bool; pf_job : option Locator; pf_outcome : option JobOutcome;
}.
#[export] Instance PersonFacts_eq_dec : EqDecision PersonFacts.
Proof. solve_decision. Defined.
Record QueuedInput : Type := mkInput {
  qi_request : Id; qi_dispatch_request : Id; qi_project : Id; qi_conversation : Id;
  qi_target_operation : Id; qi_target_generation : Z; qi_kind : InputKind; qi_frame : Locator;
  qi_sequence : Z; qi_owner_generation : Z; qi_held : bool; qi_dropped : bool; qi_resumed : bool;
  qi_order_position : Z; qi_promoted : option Locator; qi_dispatched : option (Id * Z);
  qi_dispatched_terminal : option TerminalKind; qi_target_terminal : option (TerminalKind * Cause);
  qi_settled : option Z; qi_person : option PersonFacts;
}.
#[export] Instance QueuedInput_eq_dec : EqDecision QueuedInput.
Proof. solve_decision. Defined.

(** ** Requests and their outcomes. *)
Inductive Outcome : Type :=
| OInitialization (active : bool)
| OProject (project : Id)
| OProjectRename (project : Id) (name : bytes) (name_revision : Z) (changed : bool)
| OInput (input : Id)
| OQueueInput (input conversation : Id) (order_revision : Z)
| OReorderInput (input : Id) (order_revision : Z)
| OInputDecision (input : Id)
| OTurn (conversation : Id) (generation : Z) (task operation : Id).
#[export] Instance Outcome_eq_dec : EqDecision Outcome.
Proof. solve_decision. Defined.
Record RequestResult : Type := mkRequestResult {
  rr_digest : Hash; rr_result : Outcome; rr_kind : Z; rr_frame : Locator;
}.
#[export] Instance RequestResult_eq_dec : EqDecision RequestResult.
Proof. solve_decision. Defined.

(** ** [Record]. *)
Inductive JournalRecord : Type :=
| RPendingInit (p : PendingInit)
| RActiveBinding (p : ActiveBinding)
| ROwnerGeneration
| RProjectRegistered (p : ProjectRegistered)
| RProjectRequestAlias (p : ProjectRequestAlias)
| RProjectRenamed (p : ProjectRenamed)
| RTurnAccepted (p : TurnAccepted)
| RStartAuthorized (p : StartAuthorized)
| RRequestStarted (p : RequestStarted)
| RCancelRequested (p : CancelRequested)
| RTurnTerminal (p : TurnTerminal)
| RInputQueued (p : InputQueued)
| RInputReordered (p : InputReordered)
| RInputDecision (p : InputDecision)
| RInputPromoted (p : InputPromoted)
| RToolCall (p : ToolCall)
| RToolResult (p : ToolResult)
| RResponseText (p : ResponseText)
| RThinkingText (p : ResponseText)
| RPersonCommandQueued (p : PersonCommandQueued)
| RJobIntent (p : JobIntent)
| RJobCancelRequested (p : JobCancelRequested)
| RJobSettled (p : JobSettled)
| RJobResult (p : JobResult)
| RJobRetention (p : JobRetention)
| RExecutionPath (p : ExecutionPathRecord)
| RPolicyDecision (p : PolicyDecision)
| RPolicyRevision (p : PolicyRevision).
Definition kind (r : JournalRecord) : Z :=
  match r with
  | RPendingInit _ => 10 | RActiveBinding _ => 11 | ROwnerGeneration => 3 | RProjectRegistered _ => 4
  | RTurnAccepted _ => 21 | RStartAuthorized _ => 6 | RRequestStarted _ => 33 | RCancelRequested _ => 7
  | RTurnTerminal _ => 8 | RProjectRequestAlias _ => 9 | RProjectRenamed _ => 20 | RInputQueued _ => 18
  | RInputReordered _ => 19 | RInputDecision _ => 13 | RToolCall _ => 14 | RToolResult _ => 15
  | RInputPromoted _ => 16 | RResponseText _ => 24 | RThinkingText _ => 25 | RPersonCommandQueued _ => 31
  | RJobIntent _ => 26 | RJobCancelRequested _ => 27 | RJobSettled _ => 28 | RJobResult _ => 29
  | RJobRetention _ => 30 | RExecutionPath _ => 32 | RPolicyDecision _ => 34 | RPolicyRevision _ => 35
  end.
