(* ===== verification/PolicyReplay.v ===== *)
(** * The policy rules of replay (conversation/policy.rs, [PolicyReplay]).

    The state that applies rules R1 to R10: the active revision, and the
    decisions that wait for their call or person job. The theorems: a denied
    call or input never runs; a decision is recorded under the revision that was
    active; the state keeps its bounds and can always be restored from a
    checkpoint. *)
From Stdlib Require Import ZArith Lia String.
From stdpp Require Import prelude list gmap.
From S2P Require Import Prelude PayloadId Codec Fields Envelope Policy Types.

Abbreviation Call := (bytes * Z * Z)%type.
Definition tc_call (c : ToolCall) : Call := (tc_operation c, tc_generation c, tc_ordinal c).
Record PolicyReplay : Type := mkReplay {
  pl_last_seq : Z; pl_active : option (Z * bytes);
  pl_pending : gmap Call PolicyOutcome; pl_person : gmap bytes PolicyOutcome;
}.
(** [PolicyReplay::default()]. *)
Definition replay_default : PolicyReplay := mkReplay 0 None ∅ ∅.
Definition checked_add_u64 (a b : Z) : option Z := if decide (a + b < 2 ^ 64) then Some (a + b) else None.
(** Every method takes [&mut self]: the state left behind on an error is part
    of the result. *)
Definition replay_revision (p : PolicyRevision) (s : PolicyReplay) : Result unit * PolicyReplay :=
  match require (bool_decide (rv_event p = Activated) &&
                 bool_decide (Some (rv_seq p) = checked_add_u64 (pl_last_seq s) 1) &&
                 (rv_previous_seq p =? match pl_active s with Some (seq, _) => seq | None => 0 end)) with
  | Ok _ => (Ok tt, mkReplay (rv_seq p) (Some (rv_seq p, rv_digest p)) (pl_pending s) (pl_person s))
  | e => (e, s)
  end.
Definition replay_decision (p : PolicyDecision) (s : PolicyReplay) : Result unit * PolicyReplay :=
  match require (bool_decide (pd_outcome p <> PAsk) &&
                 bool_decide (pl_active s = Some (pd_revision_seq p, pd_revision_digest p))) with
  | Ok _ =>
      match decision_call p, pd_subject p with
      | Some call, _ =>
          if decide (is_Some (pl_pending s !! call)) then (Err Corrupt, s)
          else if decide (MAX_PENDING_POLICY_DECISIONS <= size (pl_pending s))%nat then (Err Limit, s)
          else (Ok tt, mkReplay (pl_last_seq s) (pl_active s) (<[call := pd_outcome p]> (pl_pending s)) (pl_person s))
      | None, PersonInput input =>
          if decide (pl_person s !! input = None /\ (MAX_PENDING_PERSON_DECISIONS <= size (pl_person s))%nat)
          then (Err Limit, s)
          else (Ok tt, mkReplay (pl_last_seq s) (pl_active s) (pl_pending s) (<[input := pd_outcome p]> (pl_person s)))
      | None, ModelCall _ _ _ => (Err Corrupt, s)
      end
  | e => (e, s)
  end.
Definition person_job (input : bytes) (s : PolicyReplay) : Result unit * PolicyReplay :=
  let s' := mkReplay (pl_last_seq s) (pl_active s) (pl_pending s) (delete input (pl_person s)) in
  match pl_person s !! input with
  | Some PDeny | Some PAsk => (Err Corrupt, s')
  | Some PRun | None => (Ok tt, s')
  end.
Definition person_settled (input : bytes) (s : PolicyReplay) : PolicyReplay :=
  mkReplay (pl_last_seq s) (pl_active s) (pl_pending s) (delete input (pl_person s)).
Definition replay_tool_call (p : ToolCall) (s : PolicyReplay) : Result unit * PolicyReplay :=
  let pending := pl_pending s !! tc_call p in
  let s' := mkReplay (pl_last_seq s) (pl_active s) (delete (tc_call p) (pl_pending s)) (pl_person s) in
  let first := if decide (tc_reason p = Some PolicyDenied) then require (bool_decide (pending = Some PDeny)) else Ok tt in
  let result :=
    let? _ := first in
    if decide (pending = Some PDeny) then require (bool_decide (tc_decision p <> TRun)) else Ok tt in
  (result, s').
Definition of_turn (operation : bytes) (generation : Z) (k : Call) : Prop :=
  k.1.1 = operation /\ k.1.2 = generation.
#[export] Instance of_turn_dec operation generation k : Decision (of_turn operation generation k).
Proof. unfold of_turn. apply _. Defined.
Definition replay_terminal (operation : bytes) (generation : Z) (interrupted : bool) (s : PolicyReplay) :
    Result unit * PolicyReplay :=
  let any := existsb (fun kv => bool_decide (of_turn operation generation (fst kv))) (map_to_list (pl_pending s)) in
  if any then
    match require interrupted with
    | Ok _ => (Ok tt, mkReplay (pl_last_seq s) (pl_active s)
                 (filter (fun kv => ~ of_turn operation generation (fst kv)) (pl_pending s)) (pl_person s))
    | e => (e, s)
    end
  else (Ok tt, s).
Definition all_values {K} `{Countable K} (f : PolicyOutcome -> bool) (m : gmap K PolicyOutcome) : bool :=
  forallb (fun kv => f (snd kv)) (map_to_list m).
Definition restore (last_seq : Z) (active : option (Z * bytes)) (pending : gmap Call PolicyOutcome)
    (person : gmap bytes PolicyOutcome) : Result PolicyReplay :=
  let? _ := require (
    match active with Some (seq, _) => (1 <=? seq) && (seq <=? last_seq) | None => true end &&
    Bool.eqb (last_seq =? 0) (bool_decide (active = None)) &&
    bool_decide (size pending <= MAX_PENDING_POLICY_DECISIONS)%nat &&
    all_values (fun o => bool_decide (o <> PAsk)) pending &&
    bool_decide (size person <= MAX_PENDING_PERSON_DECISIONS)%nat &&
    all_values (fun o => bool_decide (o <> PAsk)) person &&
    (bool_decide (person = ∅) || bool_decide (active <> None))) in
  Ok (mkReplay last_seq active pending person).

(** The calls [Replay::apply] makes, one per record. *)
Inductive PolicyEvent : Type :=
| ERevision (p : PolicyRevision) | EDecision (p : PolicyDecision) | EPersonJob (input : bytes)
| EPersonSettled (input : bytes) | EToolCall (c : ToolCall)
| ETerminal (operation : bytes) (generation : Z) (interrupted : bool).
Definition replay_step (e : PolicyEvent) (s : PolicyReplay) : Result unit * PolicyReplay :=
  match e with
  | ERevision p => replay_revision p s
  | EDecision p => replay_decision p s
  | EPersonJob input => person_job input s
  | EPersonSettled input => (Ok tt, person_settled input s)
  | EToolCall c => replay_tool_call c s
  | ETerminal operation generation interrupted => replay_terminal operation generation interrupted s
  end.
(** Replay stops at the first record a rule rejects. *)
Fixpoint replay_events (s : PolicyReplay) (evs : list PolicyEvent) : Result PolicyReplay :=
  match evs with
  | [] => Ok s
  | e :: evs' =>
      match replay_step e s with
      | (Ok _, s') => replay_events s' evs'
      | (Err x, _) => Err x
      | (Panic, _) => Panic
      end
  end.

(** ** The replay rules over a journal. *)
Lemma replay_events_app s l k :
  replay_events s (l ++ k) = (let? s' := replay_events s l in replay_events s' k).
Proof.
  revert s. induction l as [|e l IH]; intros s; cbn [app replay_events obind]; [done|].
  destruct (replay_step e s) as [[u|x|] s']; [apply IH|done..].
Qed.
Lemma replay_snoc s l e s'' :
  replay_events s (l ++ [e]) = Ok s'' <-> exists s' u, replay_events s l = Ok s' /\ replay_step e s' = (Ok u, s'').
Proof.
  rewrite replay_events_app, obind_Ok. cbn [replay_events].
  split; [intros (s' & Hs & He); exists s'|intros (s' & u & Hs & He); exists s'].
  - destruct (replay_step e s') as [[u|x|] s1] eqn:?; simplify_eq. by exists u.
  - by rewrite He.
Qed.
Lemma replay_cons s e l s'' :
  replay_events s (e :: l) = Ok s'' <-> exists s' u, replay_step e s = (Ok u, s') /\ replay_events s' l = Ok s''.
Proof.
  cbn [replay_events]. split.
  - destruct (replay_step e s) as [[u|x|] s1] eqn:?; naive_solver.
  - by intros (s' & u & -> & ?).
Qed.
(** What each accepted step does. *)
Lemma revision_Ok p s u s' :
  replay_revision p s = (Ok u, s') <->
  (rv_event p = Activated /\ rv_seq p = pl_last_seq s + 1 /\ rv_seq p < 2 ^ 64 /\
   rv_previous_seq p = match pl_active s with Some (seq, _) => seq | None => 0 end) /\
  s' = mkReplay (rv_seq p) (Some (rv_seq p, rv_digest p)) (pl_pending s) (pl_person s).
Proof.
  unfold replay_revision, require, checked_add_u64. destruct u. split.
  - case_decide; repeat case_bool_decide; simpl; try done.
    destruct (Z.eqb_spec (rv_previous_seq p) match pl_active s with Some (seq, _) => seq | None => 0 end); [|done]. intros; simplify_eq. split_and!; try done; lia.
  - intros [(He & Hs & Hlt & Hp) ->]. rewrite decide_True by lia. rewrite !bool_decide_true by congruence.
    by rewrite (proj2 (Z.eqb_eq _ _) Hp).
Qed.
Lemma decision_Ok p s u s' :
  replay_decision p s = (Ok u, s') ->
  pd_outcome p <> PAsk /\ pl_active s = Some (pd_revision_seq p, pd_revision_digest p) /\
  match pd_subject p with
  | ModelCall op g o =>
      pl_pending s !! (op, g, o) = None /\ (size (pl_pending s) < MAX_PENDING_POLICY_DECISIONS)%nat /\
      s' = mkReplay (pl_last_seq s) (pl_active s) (<[(op, g, o) := pd_outcome p]> (pl_pending s)) (pl_person s)
  | PersonInput i =>
      (is_Some (pl_person s !! i) \/ (size (pl_person s) < MAX_PENDING_PERSON_DECISIONS)%nat) /\
      s' = mkReplay (pl_last_seq s) (pl_active s) (pl_pending s) (<[i := pd_outcome p]> (pl_person s))
  end.
Proof.
  unfold replay_decision, require, decision_call. do 2 case_bool_decide; simpl; try done.
  destruct (pd_subject p) as [op g o|i].
  - repeat case_decide; intros; simplify_eq. split_and!; try done; [by apply eq_None_not_Some|lia].
  - case_decide as Hd; intros; simplify_eq. split_and!; try done. destruct (pl_person s !! i); [eauto|right].
    destruct (decide (MAX_PENDING_PERSON_DECISIONS <= size (pl_person s))%nat); [tauto|lia].
Qed.
Lemma tool_call_Ok c s u s' :
  replay_tool_call c s = (Ok u, s') ->
  (tc_reason c = Some PolicyDenied -> pl_pending s !! tc_call c = Some PDeny) /\
  (pl_pending s !! tc_call c = Some PDeny -> tc_decision c <> TRun) /\
  s' = mkReplay (pl_last_seq s) (pl_active s) (delete (tc_call c) (pl_pending s)) (pl_person s).
Proof.
  unfold replay_tool_call, require. destruct (decide (tc_reason c = Some PolicyDenied)); cbn [obind];
    repeat case_bool_decide; cbn [obind]; try case_decide; intros; simplify_eq; naive_solver.
Qed.
Lemma terminal_Ok op g i s u s' :
  replay_terminal op g i s = (Ok u, s') ->
  (i = false -> forall k o, pl_pending s !! k = Some o -> ~ of_turn op g k) /\
  s' = mkReplay (pl_last_seq s) (pl_active s)
         (filter (fun kv => ~ of_turn op g (fst kv)) (pl_pending s)) (pl_person s).
Proof.
  unfold replay_terminal. destruct (existsb _ _) eqn:Hany.
  - destruct i; cbn; intros [= <- <-]. split; [done|done].
  - intros [= <- <-]. assert (forall k o, pl_pending s !! k = Some o -> ~ of_turn op g k) as Hno.
    { intros k o Hk Ht. apply not_true_iff_false in Hany. apply Hany, existsb_exists. exists (k, o).
      split; [by apply list_elem_of_In, elem_of_map_to_list|by apply bool_decide_eq_true]. }
    split; [done|]. destruct s as [ls ac pe ps]; cbn in *. f_equal. symmetry. apply map_filter_id.
    intros k o Hk. by eapply Hno.
Qed.
Lemma person_job_Ok i s u s' :
  person_job i s = (Ok u, s') ->
  (pl_person s !! i = None \/ pl_person s !! i = Some PRun) /\
  s' = mkReplay (pl_last_seq s) (pl_active s) (pl_pending s) (delete i (pl_person s)).
Proof. unfold person_job. destruct (pl_person s !! i) as [[]|]; intros; simplify_eq; auto. Qed.
(** Destructs an accepted step into its cases. *)
Ltac step_cases e Hstep :=
  destruct e as [p|p|input|input|c|op g it]; cbn [replay_step] in Hstep;
  [apply revision_Ok in Hstep as [? ->]
  |apply decision_Ok in Hstep as (? & ? & Hstep)
  |apply person_job_Ok in Hstep as [? ->]
  |injection Hstep as ? <-
  |apply tool_call_Ok in Hstep as (? & ? & ->)
  |apply terminal_Ok in Hstep as [? ->]].

(** *** Pending decisions are exactly the unanswered ones of the journal. *)
Definition answers_call (k : Call) (e : PolicyEvent) : Prop :=
  match e with
  | EToolCall c => tc_call c = k
  | ETerminal op g _ => of_turn op g k
  | _ => False
  end.
Definition answers_person (i : bytes) (e : PolicyEvent) : Prop :=
  match e with
  | EPersonJob j | EPersonSettled j => j = i
  | EDecision p => pd_subject p = PersonInput i
  | _ => False
  end.
(** The last decision [decides] selects, with none of the later events
    answering it. *)
Definition open_decision (decides : PolicyDecision -> Prop) (answers : PolicyEvent -> Prop)
    (evs : list PolicyEvent) (o : PolicyOutcome) : Prop :=
  exists l p r, evs = l ++ EDecision p :: r /\ decides p /\ pd_outcome p = o /\ Forall (fun e => ~ answers e) r.
Lemma open_decision_snoc decides answers evs e o :
  open_decision decides answers (evs ++ [e]) o <->
  (exists p, e = EDecision p /\ decides p /\ pd_outcome p = o) \/
  (~ answers e /\ open_decision decides answers evs o).
Proof.
  unfold open_decision. split.
  - intros (l & p & r & He & Hd & Ho & Hr). induction r as [|x r' _] using rev_ind.
    + apply app_inj_tail in He as [-> ->]. left. eauto.
    + rewrite app_comm_cons, app_assoc in He. apply app_inj_tail in He as [-> ->].
      apply Forall_app in Hr as [Hr [Hx _]%Forall_cons]. right. eauto 10.
  - intros [(p & -> & Hd & Ho)|[Ha (l & p & r & -> & Hd & Ho & Hr)]].
    + exists evs, p, []. auto.
    + exists l, p, (r ++ [e]). rewrite app_comm_cons, app_assoc. split_and!; try done.
      apply Forall_app. auto.
Qed.
Lemma open_decision_decision decides answers evs p o :
  open_decision decides answers (evs ++ [EDecision p]) o <->
  (decides p /\ pd_outcome p = o) \/ (~ answers (EDecision p) /\ open_decision decides answers evs o).
Proof.
  rewrite open_decision_snoc. split; (intros [Hl|Hr]; [left|by right]).
  - destruct Hl as (q & Hq & ?). injection Hq as ->. done.
  - exists p. by split.
Qed.
Lemma open_decision_other decides answers evs e o :
  match e with EDecision _ => False | _ => True end ->
  open_decision decides answers (evs ++ [e]) o <-> ~ answers e /\ open_decision decides answers evs o.
Proof.
  intros He. rewrite open_decision_snoc. split; [intros [(p & -> & _)|?]; done|by right].
Qed.
Lemma open_decision_nil decides answers o : ~ open_decision decides answers [] o.
Proof. intros (l & p & r & He & _). by destruct l. Qed.
Lemma pending_history evs s k o :
  replay_events replay_default evs = Ok s ->
  pl_pending s !! k = Some o <-> open_decision (fun p => decision_call p = Some k) (answers_call k) evs o.
Proof.
  revert s o. induction evs as [|e evs IH] using rev_ind; intros s o.
  { intros [= <-]. cbn. split; [done|by intros ?%open_decision_nil]. }
  intros (s1 & u & Hs1 & Hstep)%replay_snoc. specialize (IH s1 o Hs1).
  step_cases e Hstep; rewrite ?open_decision_decision, ?open_decision_other, <- IH by done;
    cbn [pl_pending answers_call]; try tauto.
  - unfold decision_call. destruct (pd_subject p) as [op g n|i] eqn:Hp.
    + destruct Hstep as (Hnone & _ & ->). cbn [pl_pending]. rewrite lookup_insert_Some.
      destruct (decide ((op, g, n) = k)) as [<-|]; intuition congruence.
    + destruct Hstep as (_ & ->). cbn [pl_pending]. intuition congruence.
  - rewrite lookup_delete_Some. tauto.
  - rewrite map_lookup_filter_Some. tauto.
Qed.
Lemma person_history evs s i o :
  replay_events replay_default evs = Ok s ->
  pl_person s !! i = Some o <-> open_decision (fun p => pd_subject p = PersonInput i) (answers_person i) evs o.
Proof.
  revert s o. induction evs as [|e evs IH] using rev_ind; intros s o.
  { intros [= <-]. cbn. split; [done|by intros ?%open_decision_nil]. }
  intros (s1 & u & Hs1 & Hstep)%replay_snoc. specialize (IH s1 o Hs1).
  step_cases e Hstep; rewrite ?open_decision_decision, ?open_decision_other, <- IH by done;
    unfold person_settled; cbn [pl_person answers_person]; rewrite ?lookup_delete_Some; try tauto.
  destruct (pd_subject p) as [op g n|j] eqn:Hp.
  - destruct Hstep as (_ & _ & ->). cbn [pl_person]. intuition congruence.
  - destruct Hstep as (_ & ->). cbn [pl_person]. rewrite lookup_insert_Some.
    destruct (decide (j = i)) as [<-|]; intuition congruence.
Qed.

(** In a journal replay accepts, when a person input becomes a job, its
    latest open decision, if it has one, is run (R8 to R10). *)
Theorem denied_input_never_runs evs i s o :
  replay_events replay_default (evs ++ [EPersonJob i]) = Ok s ->
  open_decision (fun p => pd_subject p = PersonInput i) (answers_person i) evs o -> o = PRun.
Proof.
  intros (s1 & u & Hs1 & Hstep)%replay_snoc. cbn [replay_step] in Hstep. apply person_job_Ok in Hstep as (Hd & _).
  rewrite <- (person_history evs s1 _ _ Hs1). naive_solver.
Qed.

(** *** The revision chain. *)
Definition revisions (evs : list PolicyEvent) : list PolicyRevision :=
  omap (fun e => match e with ERevision p => Some p | _ => None end) evs.
Definition active_of (rs : list PolicyRevision) : option (Z * bytes) :=
  (fun p => (rv_seq p, rv_digest p)) <$> last rs.
(** The [i]-th revision (from 0) is number [i + 1] and follows number [i]. *)
Definition chained (rs : list PolicyRevision) : Prop :=
  forall i p, rs !! i = Some p ->
  rv_event p = Activated /\ rv_seq p = Z.of_nat i + 1 /\ rv_previous_seq p = Z.of_nat i.
Lemma revisions_history evs s :
  replay_events replay_default evs = Ok s ->
  chained (revisions evs) /\ pl_last_seq s = zlen (revisions evs) /\ pl_active s = active_of (revisions evs) /\
  (forall seq d, pl_active s = Some (seq, d) -> seq = pl_last_seq s).
Proof.
  revert s. induction evs as [|e evs IH] using rev_ind; intros s.
  { by intros [= <-]. }
  intros (s1 & u & Hs1 & Hstep)%replay_snoc. destruct (IH s1 Hs1) as (Hc & Hl & Ha & Heq).
  unfold revisions. rewrite omap_app.
  step_cases e Hstep; cbn [omap list_omap]; rewrite ?app_nil_r; try (by split_and!).
  - destruct H as (He & Hs & Hlt & Hp). fold (revisions evs). cbn [pl_last_seq pl_active].
    assert (rv_previous_seq p = pl_last_seq s1) as Hp'.
    { rewrite Hp. destruct (pl_active s1) as [[seq d]|] eqn:E; [by apply (Heq seq d)|].
      rewrite Hl. unfold active_of in Ha. destruct (revisions evs) eqn:Er using rev_ind; [done|].
      rewrite last_snoc in Ha. done. }
    split_and!.
    + intros i q Hq. apply lookup_app_Some in Hq as [Hq|[Hi Hq]]; [by apply Hc|].
      apply list_lookup_singleton_Some in Hq as [Hi' ->]. unfold zlen in Hl. split_and!; [done|lia..].
    + rewrite zlen_app. unfold zlen at 2. simpl. lia.
    + unfold active_of. by rewrite last_snoc.
    + naive_solver.
  - destruct (pd_subject p); [destruct Hstep as (_ & _ & ->)|destruct Hstep as (_ & ->)]; by split_and!.
Qed.
(** In a journal replay accepts, the revisions are numbered from 1
    without gaps, each names its predecessor, the state holds the last one, and
    every decision was made under the revision active at its place (R1 to R3). *)
Theorem policy_revision_chain pre p post s :
  replay_events replay_default (pre ++ EDecision p :: post) = Ok s ->
  chained (revisions (pre ++ EDecision p :: post)) /\
  pl_last_seq s = zlen (revisions (pre ++ EDecision p :: post)) /\
  pl_active s = active_of (revisions (pre ++ EDecision p :: post)) /\
  active_of (revisions pre) = Some (pd_revision_seq p, pd_revision_digest p).
Proof.
  intros Hs. destruct (revisions_history _ _ Hs) as (? & ? & ? & _). split_and!; try done.
  rewrite replay_events_app, obind_Ok in Hs. destruct Hs as (s1 & Hs1 & (s2 & u & Hstep & _)%replay_cons).
  destruct (revisions_history _ _ Hs1) as (_ & _ & <- & _). cbn in Hstep. by apply decision_Ok in Hstep as (_ & ? & _).
Qed.

(** *** Bounds, and restoring from a checkpoint. *)
Record replay_inv (s : PolicyReplay) : Prop := {
  ri_seq : 0 <= pl_last_seq s;
  ri_active : match pl_active s with Some (seq, _) => seq = pl_last_seq s /\ 1 <= seq | None => pl_last_seq s = 0 end;
  ri_pending : (size (pl_pending s) <= MAX_PENDING_POLICY_DECISIONS)%nat;
  ri_pending_ask : map_Forall (fun _ o => o <> PAsk) (pl_pending s);
  ri_person : (size (pl_person s) <= MAX_PENDING_PERSON_DECISIONS)%nat;
  ri_person_ask : map_Forall (fun _ o => o <> PAsk) (pl_person s);
  ri_person_active : pl_person s <> ∅ -> pl_active s <> None;
}.
Lemma size_delete_le {K} `{Countable K} {A} (m : gmap K A) k : (size (delete k m) <= size m)%nat.
Proof. rewrite map_size_delete. destruct (m !! k); simpl; lia. Qed.
Lemma size_filter_le {K} `{Countable K} {A} (P : K * A -> Prop) `{!forall x, Decision (P x)} (m : gmap K A) :
  (size (filter P m) <= size m)%nat.
Proof. apply map_subseteq_size, map_filter_subseteq. Qed.
Lemma replay_step_inv e s u s' : replay_inv s -> replay_step e s = (Ok u, s') -> replay_inv s'.
Proof.
  intros [] Hstep. step_cases e Hstep.
  - destruct H as (_ & Hs & _). constructor; cbn; try done; lia.
  - destruct (pd_subject p) as [op g n|i].
    + destruct Hstep as (Hn & Hlt & ->). constructor; cbn; try done.
      * rewrite map_size_insert_None by done. lia.
      * by apply map_Forall_insert_2.
    + destruct Hstep as (Hn & ->). constructor; cbn; try done.
      * rewrite map_size_insert. destruct (pl_person s !! i); simpl; [lia|]. destruct Hn as [[]|]; [done|lia].
      * by apply map_Forall_insert_2.
      * congruence.
  - constructor; cbn; try done; [etrans; [apply size_delete_le|done]|by apply map_Forall_delete|].
    intros Hne. apply ri_person_active0. intros He. apply Hne. by rewrite He, delete_empty.
  - constructor; cbn; try done; [etrans; [apply size_delete_le|done]|by apply map_Forall_delete|].
    intros Hne. apply ri_person_active0. intros He. apply Hne. by rewrite He, delete_empty.
  - constructor; cbn; try done; [etrans; [apply size_delete_le|done]|by apply map_Forall_delete].
  - constructor; cbn; try done; [etrans; [apply size_filter_le|done]|].
    intros k o [Hk _]%map_lookup_filter_Some. by apply (ri_pending_ask0 k).
Qed.
Lemma replay_events_inv evs s s' : replay_inv s -> replay_events s evs = Ok s' -> replay_inv s'.
Proof.
  revert s. induction evs as [|e evs IH]; intros s Hi; [by intros [= <-]|].
  intros (s1 & u & Hs & He)%replay_cons. eapply IH; [|exact He]. by eapply replay_step_inv.
Qed.
Lemma replay_default_inv : replay_inv replay_default.
Proof. constructor; cbn; try done; rewrite ?map_size_empty; try lia; apply map_Forall_empty. Qed.
Lemma all_values_true {K} `{Countable K} f (m : gmap K PolicyOutcome) :
  all_values f m = true <-> map_Forall (fun _ o => f o = true) m.
Proof.
  unfold all_values. rewrite forallb_forall, map_Forall_to_list, Forall_forall.
  setoid_rewrite <- list_elem_of_In. split; intros Hf [k o] Hk; apply (Hf (k, o) Hk).
Qed.
(** Every state replay reaches keeps its bounds (64 calls, 512 inputs,
    no pending ask) and passes the checks [restore] makes on a checkpoint, which
    gives the same state back. *)
Theorem replay_state_restores evs s :
  replay_events replay_default evs = Ok s ->
  replay_inv s /\ restore (pl_last_seq s) (pl_active s) (pl_pending s) (pl_person s) = Ok s.
Proof.
  intros Hs. pose proof (replay_events_inv _ _ _ replay_default_inv Hs) as Hi. split; [done|].
  destruct Hi. unfold restore. rewrite obind_Ok. exists tt. rewrite require_Ok, !andb_true_iff, !all_values_true, orb_true_iff.
  split; [|by destruct s].
  split_and!; try (by apply bool_decide_eq_true).
  - destruct (pl_active s) as [[seq d]|]; [lia|done].
  - destruct (pl_active s) as [[seq d]|]; [|by rewrite ri_active0]. rewrite bool_decide_false by done.
    destruct (Z.eqb_spec (pl_last_seq s) 0); [lia|done].
  - eapply map_Forall_impl; [exact ri_pending_ask0|]. intros k o Ho. by apply bool_decide_eq_true.
  - eapply map_Forall_impl; [exact ri_person_ask0|]. intros k o Ho. by apply bool_decide_eq_true.
  - destruct (decide (pl_person s = ∅)); [left|right]; apply bool_decide_eq_true; auto.
Qed.

(** ** Witnesses. *)
Module PolicyReplayDemo.
Import PolicyDemo.
(** An exec_cmd call with this decision and reason. *)
Definition call_with (decision : ToolDecision) (reason : option ToolDecisionReason) : ToolCall :=
  mkToolCall operation 1 1 ProviderJson (lit "exec_cmd") 8 (Some ExecCmd) decision None reason Canonical 2 (lit "{}") []
    0 1 (replicate 32 1) false false None None.
Definition refused : ToolCall := call_with TDenied (Some PolicyDenied).
Definition journal : list PolicyEvent := [ERevision revision; EDecision denied].
Lemma call_is_denied :
  open_decision (fun p => decision_call p = Some (tc_call refused)) (answers_call (tc_call refused)) journal PDeny.
Proof. exists [ERevision revision], denied, []. by split_and!. Qed.
Definition input_allowed : PolicyDecision :=
  mkDecision (PersonInput person_input) 1 2 2 (replicate 16 1) (replicate 16 2) 0 (replicate 32 1) (replicate 32 2)
    None 1 digest [mkScopeResult 1 true 0 []] PRun 0 no None 12345.
(** A later decision replaces the denial; without it the job is rejected. *)
Lemma denied_input_never_runs_witness :
  PRun = PRun /\
  replay_events replay_default [ERevision revision; EDecision input_denied; EPersonJob person_input] = Err Corrupt.
Proof.
  split; [|vm_compute; reflexivity].
  apply (denied_input_never_runs [ERevision revision; EDecision input_denied; EDecision input_allowed]
           person_input (mkReplay 1 (Some (1, digest)) ∅ ∅)); [vm_compute; reflexivity|].
  exists [ERevision revision; EDecision input_denied], input_allowed, []. by split_and!.
Defined.
Lemma policy_revision_chain_witness :
  active_of (revisions [ERevision revision]) = Some (1, digest).
Proof.
  apply (policy_revision_chain [ERevision revision] denied [EToolCall refused] (mkReplay 1 (Some (1, digest)) ∅ ∅)).
  vm_compute; reflexivity.
Defined.
Definition journal_state : PolicyReplay := mkReplay 1 (Some (1, digest)) {[(operation, 1, 1) := PDeny]} ∅.
Lemma replay_state_restores_witness :
  restore 1 (Some (1, digest)) {[(operation, 1, 1) := PDeny]} ∅ = Ok journal_state.
Proof. apply (replay_state_restores journal journal_state). vm_compute; reflexivity. Defined.
End PolicyReplayDemo.
