(* ===== verification/Text.v ===== *)
(** * Text rules of the records.

    What the records' field rules read of a text: the scalars of a [str], the
    project name and location rules (conversation/codec.rs), the placeholder
    tokens of redacted text (asura-platform/src/secrets/arguments.rs), secret
    names (secrets/named.rs) and the environment tables of person commands
    (exec_cmd/environment.rs). A [str] is its UTF-8 bytes. The Unicode tables
    behind [char::is_alphabetic] and [char::to_uppercase] are parameters. *)
From Stdlib Require Import ZArith Lia String.
From stdpp Require Import prelude list.
From S2P Require Import Prelude Codec Fields Policy PathGuard Types.

(** ** Scalars. *)
Class Unicode := { is_alphabetic : Z -> bool; to_uppercase : Z -> list Z }.
(** The letters and their upper case of ASCII, for executable examples. *)
Definition ascii_unicode : Unicode := {|
  is_alphabetic := fun c => in_range 65 90 c || in_range 97 122 c;
  to_uppercase := fun c => [if in_range 97 122 c then c - 32 else c];
|}.
(** The scalar that one to four UTF-8 bytes encode, and back. *)
Definition scalar (l : bytes) : Z :=
  match l with
  | [a] => a
  | [a; b] => (a mod 32) * 64 + b mod 64
  | [a; b; c] => (a mod 16) * 4096 + (b mod 64) * 64 + c mod 64
  | [a; b; c; d] => (a mod 8) * 262144 + (b mod 64) * 4096 + (c mod 64) * 64 + d mod 64
  | _ => 0
  end.
Definition encode_utf8 (c : Z) : bytes :=
  if c <? 0x80 then [c]
  else if c <? 0x800 then [0xC0 + c / 64; 0x80 + c mod 64]
  else if c <? 0x10000 then [0xE0 + c / 4096; 0x80 + (c / 64) mod 64; 0x80 + c mod 64]
  else [0xF0 + c / 262144; 0x80 + (c / 4096) mod 64; 0x80 + (c / 64) mod 64; 0x80 + c mod 64].
Fixpoint chars_fuel (fuel : nat) (l : bytes) : list Z :=
  match fuel, l with
  | S fuel, b :: r =>
      let n := snd (Utf8.first b r) in
      scalar (take n l) :: chars_fuel fuel (drop (pred n) r)
  | _, _ => []
  end.
(** [str::chars]: each step takes at least one byte. *)
Definition chars (s : bytes) : list Z := chars_fuel (length s) s.
(** [char::is_control] and [char::is_whitespace]. *)
Definition is_control (c : Z) : bool := in_range 0 0x1f c || in_range 0x7f 0x9f c.
Definition is_whitespace (c : Z) : bool :=
  in_range 9 13 c || (c =? 0x20) || (c =? 0x85) || (c =? 0xa0) || (c =? 0x1680) || in_range 0x2000 0x200a c ||
  (c =? 0x2028) || (c =? 0x2029) || (c =? 0x202f) || (c =? 0x205f) || (c =? 0x3000).
(** [split] at a one-byte separator. *)
Fixpoint split_on (sep : Z) (s : bytes) : list bytes :=
  match s with
  | [] => [[]]
  | b :: s' =>
      if b =? sep then [] :: split_on sep s'
      else match split_on sep s' with p :: ps => (b :: p) :: ps | [] => [[b]] end
  end.
Definition contains_byte (b : Z) (s : bytes) : bool := existsb (fun x => x =? b) s.
Definition starts_with_byte (b : Z) (s : bytes) : bool := bool_decide (head s = Some b).
Definition ends_with_byte (b : Z) (s : bytes) : bool := bool_decide (last s = Some b).
Definition starts_with (prefix s : bytes) : bool := bool_decide (take (length prefix) s = prefix).
Definition is_ascii_digit (b : Z) : bool := in_range 48 57 b.
Definition is_ascii_alphabetic (b : Z) : bool := in_range 65 90 b || in_range 97 122 b.
Definition is_ascii_alphanumeric (b : Z) : bool := is_ascii_alphabetic b || is_ascii_digit b.

(** ** Projects. [s[1..]] of a location that starts with a slash. *)
Definition valid_location (s : bytes) : Result unit :=
  if decide (zlen s > 4096) then Err Limit else
  if negb (starts_with_byte 47 s) || contains_byte 0 s ||
     ((1 <? zlen s) &&
      (ends_with_byte 47 s ||
       existsb (fun c => bool_decide (c = []) || bool_decide (c = [46]) || bool_decide (c = [46; 46]))
         (split_on 47 (drop 1 s))))
  then Err Corrupt else Ok tt.
Definition bidi (c : Z) : bool :=
  (c =? 0x061c) || (c =? 0x200e) || (c =? 0x200f) || in_range 0x202a 0x202e c || in_range 0x2066 0x2069 c.
(** The loop of [capitalize_project_name]: the result so far, whether a letter
    was found and whether the previous scalar was a space. *)
Fixpoint capitalize_loop `{Unicode} (cs : list Z) (result : bytes) (found_alpha previous_space : bool)
    : Result (bytes * bool) :=
  match cs with
  | [] => Ok (result, found_alpha)
  | c :: cs =>
      if is_control c || bidi c || (is_whitespace c && negb (c =? 32)) || ((c =? 32) && previous_space)
      then Err Corrupt
      else if negb found_alpha && is_alphabetic c
      then capitalize_loop cs (result ++ concat (encode_utf8 <$> to_uppercase c)) true (c =? 32)
      else capitalize_loop cs (result ++ encode_utf8 c) found_alpha (c =? 32)
  end.
Definition capitalize_project_name `{Unicode} (name : bytes) : Result bytes :=
  if bool_decide (name = []) || (128 <? zlen name) || starts_with_byte 32 name || ends_with_byte 32 name
  then Err Corrupt else
  let? (result, found_alpha) := capitalize_loop (chars name) [] false false in
  if negb found_alpha || (128 <? zlen result) then Err Corrupt else Ok result.

(** ** Placeholder tokens. *)
Definition TOKEN : bytes := lit "ASURA_SECRET_".
(** [haystack.windows(needle.len()).position(|w| w == needle)]. *)
Fixpoint find (haystack needle : bytes) : option nat :=
  if starts_with needle haystack then Some 0%nat
  else match haystack with [] => None | _ :: h => S <$> find h needle end.
Fixpoint digit_run (l : bytes) : bytes :=
  match l with b :: l' => if is_ascii_digit b then b :: digit_run l' else [] | [] => [] end.
(** [str::parse::<u32>] of a run of digits. *)
Definition parse_u32 (digits : bytes) : option Z :=
  let v := foldl (fun a d => a * 10 + (d - 48)) 0 digits in
  if decide (v < 2 ^ 32) then Some v else None.
Fixpoint tokens_loop (fuel : nat) (text : bytes) (from : nat) : list (option Z) :=
  match fuel with
  | O => []
  | S fuel =>
      match find (drop from text) TOKEN with
      | None => []
      | Some found =>
          let at_ := (from + found)%nat in
          let start := (at_ + length TOKEN)%nat in
          let prefixed :=
            ((1 <=? at_)%nat && bool_decide (text !! (at_ - 1)%nat = Some 36)) ||
            ((2 <=? at_)%nat && bool_decide (text !! (at_ - 1)%nat = Some 123) &&
             bool_decide (text !! (at_ - 2)%nat = Some 36)) in
          let digits := digit_run (drop start text) in
          if negb prefixed || bool_decide (digits = []) then tokens_loop fuel text start
          else
            let number := if decide (1 < length digits)%nat
                          then if starts_with_byte 48 digits then None else parse_u32 digits
                          else parse_u32 digits in
            number :: tokens_loop fuel text (start + length digits)%nat
      end
  end.
(** Every round moves past a token, so the length of the text is enough. *)
Definition tokens (text : bytes) : list (option Z) := tokens_loop (length text) text 0.
Record PlaceholderTokens : Type := mkTokens {
  pt_distinct : list Z; pt_max : Z; pt_zero : Z; pt_malformed : bool;
}.
Fixpoint insert_distinct (n : Z) (l : list Z) : list Z :=
  match l with
  | [] => [n]
  | m :: l' => if n =? m then l else if n <? m then n :: l else m :: insert_distinct n l'
  end.
Definition count_token (t : PlaceholderTokens) (number : option Z) : PlaceholderTokens :=
  match number with
  | None => mkTokens (pt_distinct t) (pt_max t) (pt_zero t) true
  | Some 0 => mkTokens (pt_distinct t) (pt_max t) (wrap 32 (pt_zero t + 1)) (pt_malformed t)
  | Some n => mkTokens (insert_distinct n (pt_distinct t)) (Z.max (pt_max t) n) (pt_zero t) (pt_malformed t)
  end.
Definition placeholder_tokens (text : bytes) : PlaceholderTokens :=
  foldl count_token (mkTokens [] 0 0 false) (tokens text).
(** [named::name_valid]. *)
Definition name_chars (s : bytes) : bool :=
  match s with
  | [] => false
  | b :: _ => (is_ascii_alphabetic b || (b =? 95)) && forallb (fun b => is_ascii_alphanumeric b || (b =? 95)) s
  end.
Definition secret_name_valid (name : bytes) : bool :=
  in_range 1 48 (zlen name) && name_chars name && bool_decide (name <> lit "COMMAND").

(** ** The environment of person commands. *)
Inductive EnvClass : Type := Locale | Word | EnvPath | PathList | Socket.
Definition TERMINAL : list (bytes * EnvClass) := [
  (lit "LANG", Locale); (lit "LC_ALL", Locale); (lit "LC_COLLATE", Locale); (lit "LC_CTYPE", Locale);
  (lit "LC_MESSAGES", Locale); (lit "LC_MONETARY", Locale); (lit "LC_NUMERIC", Locale); (lit "LC_TIME", Locale);
  (lit "SSH_AUTH_SOCK", Socket); (lit "TZ", Word); (lit "XDG_CONFIG_HOME", EnvPath); (lit "XDG_CACHE_HOME", EnvPath);
  (lit "XDG_DATA_HOME", EnvPath); (lit "XDG_STATE_HOME", EnvPath); (lit "CARGO_HOME", EnvPath);
  (lit "RUSTUP_HOME", EnvPath); (lit "RUSTUP_TOOLCHAIN", Word); (lit "CARGO_TARGET_DIR", EnvPath);
  (lit "DEVELOPER_DIR", EnvPath); (lit "SDKROOT", EnvPath); (lit "TOOLCHAINS", Word); (lit "HOMEBREW_PREFIX", EnvPath);
  (lit "HOMEBREW_CELLAR", EnvPath); (lit "HOMEBREW_REPOSITORY", EnvPath); (lit "GOPATH", PathList);
  (lit "GOROOT", EnvPath); (lit "GOMODCACHE", EnvPath); (lit "GOCACHE", EnvPath); (lit "NVM_DIR", EnvPath);
  (lit "VOLTA_HOME", EnvPath); (lit "PNPM_HOME", EnvPath); (lit "BUN_INSTALL", EnvPath); (lit "PYENV_ROOT", EnvPath);
  (lit "VIRTUAL_ENV", EnvPath); (lit "CONDA_PREFIX", EnvPath); (lit "JAVA_HOME", EnvPath); (lit "RBENV_ROOT", EnvPath);
  (lit "GEM_HOME", EnvPath); (lit "GEM_PATH", PathList)].
Definition TERMINAL_COUNT : Z := 39.
Definition ASURA_SET : list bytes :=
  [lit "PATH"; lit "HOME"; lit "USER"; lit "LOGNAME"; lit "SHELL"; lit "TMPDIR"; lit "TERM"; lit "GIT_TERMINAL_PROMPT"].
Definition MAX_DECLARED : Z := 32.
Definition MAX_NAME_BYTES : Z := 64.
Definition MAX_DECLARED_VALUE_BYTES : Z := 1024.
Definition MAX_DECLARED_BYTES : Z := 4096.
Definition terminal_by_code (code : Z) : option (bytes * EnvClass) := from_code_1 TERMINAL code.
Definition control_free (value : bytes) : bool := Utf8.valid value && negb (existsb is_control (chars value)).
Definition class_valid (class : EnvClass) (value : bytes) : bool :=
  match class with
  | Locale => in_range 1 64 (zlen value) &&
              forallb (fun b => is_ascii_alphanumeric b || contains_byte b (lit "_-.@")) value
  | Word => in_range 1 128 (zlen value) &&
            forallb (fun b => is_ascii_alphanumeric b || contains_byte b (lit "_-.@+:/")) value
  | EnvPath => in_range 1 512 (zlen value) && starts_with_byte 47 value && control_free value
  | PathList => in_range 1 2048 (zlen value) && control_free value && (zlen (split_on 58 value) <=? 64) &&
                forallb (starts_with_byte 47) (split_on 58 value)
  | Socket => in_range 1 103 (zlen value) && starts_with_byte 47 value && negb (contains_byte 0 value)
  end.
Definition name_form (name : bytes) : bool := in_range 1 MAX_NAME_BYTES (zlen name) && name_chars name.
Definition declared_name_valid (name : bytes) : bool :=
  name_form name && negb (existsb (fun t => bool_decide (fst t = name)) TERMINAL) &&
  negb (existsb (fun n => bool_decide (n = name)) ASURA_SET) && negb (starts_with (lit "ASURA_") name).
Definition declared_value_valid (value : bytes) : bool :=
  in_range 1 MAX_DECLARED_VALUE_BYTES (zlen value) && control_free value.
Fixpoint declared_loop (last : option bytes) (count total : Z) (entries : list (bytes * bytes)) : bool :=
  match entries with
  | [] => true
  | (name, value) :: entries =>
      let count := count + 1 in
      let total := total + (zlen name + zlen value) in
      if (MAX_DECLARED <? count) || (MAX_DECLARED_BYTES <? total) || negb (declared_name_valid name) ||
         negb (declared_value_valid value) || is_some_and (fun l => geb l name) last
      then false
      else declared_loop (Some name) count total entries
  end.
Definition declared_valid (entries : list (bytes * bytes)) : bool := declared_loop None 0 0 entries.

(** ** Sanity of the executable definitions. *)
Example tokens_example :
  tokens (lit "a $ASURA_SECRET_1 ${ASURA_SECRET_20} ASURA_SECRET_3 $ASURA_SECRET_07 $ASURA_SECRET_") =
  [Some 1; Some 20; None].
Proof. vm_compute. reflexivity. Qed.
Example capitalize_example : @capitalize_project_name ascii_unicode (lit "2 my app") = Ok (lit "2 My app").
Proof. vm_compute. reflexivity. Qed.
