(* ===== verification/Rules.v ===== *)
(** * Record rules and derived identities (conversation/codec.rs).

    What a record alone determines: the request digests that bind a record to
    the client's request, the job, payload and note identities that replay
    derives instead of storing, and the [validate] methods of the record
    kinds. *)
From Stdlib Require Import ZArith Lia String.
From stdpp Require Import prelude list.
From S2P Require Import Prelude PayloadId Codec Fields Envelope Policy PathGuard Types Text.

Definition MAX_EXEC_CMD_VARIABLES : Z := 16.
Definition MAX_REFUSAL_WORD : Z := 4096.
Definition MAX_CAPTURE_SPANS : Z := 64.
Definition MAX_CAPTURE_NUMBER : Z := 16384.
Definition MAX_CAPTURE_NUMBERS : Z := 256.
Definition MIB : Z := 1024 * 1024.
Definition is_none {A} (o : option A) : bool := negb (is_some o).
(** [Option::is_none_or]. *)
Definition is_none_or {A} (f : A -> bool) (o : option A) : bool :=
  match o with Some a => f a | None => true end.

(** ** Derived identities. *)
Definition id_from_digest (digest : bytes) : Id :=
  let id := ztake 16 digest in
  if decide (id = zeros 16) then zeros 15 ++ [1] else id.
Definition job_id `{Hasher} (origin : JobOrigin) : Id :=
  id_from_digest (sha256 (lit "asura.job" ++ [0] ++ [job_origin_code origin] ++
    match origin with
    | ByModel operation generation ordinal => operation ++ be_bytes 8 generation ++ be_bytes 4 ordinal
    | ByPerson input => input
    end)).
Definition exec_cmd_job_id `{Hasher} (operation : Id) (generation ordinal : Z) : Id :=
  job_id (ByModel operation generation ordinal).
Definition job_payload_ids `{Hasher} (installation job : Id) : Id * Id := job_payloads installation job.
(** [id[0] |= 0x80]. *)
Definition note_id `{Hasher} (domain : bytes) (binding : Id * Id * Id) (turn : Id) (generation ordinal : Z) : Id :=
  let '(a, b, c) := binding in
  match ztake 16 (sha256 (domain ++ [0] ++ a ++ b ++ c ++ turn ++ be_bytes 8 generation ++ be_bytes 4 ordinal)) with
  | x :: id => Z.lor x 0x80 :: id
  | [] => []
  end.
Definition note_identity `{Hasher} (binding : Id * Id * Id) (turn : Id) (generation ordinal : Z)
    : Result CreateNoteIdentity :=
  let '(a, b, c) := binding in
  if bool_decide (zeros 16 ∈ [a; b; c]) || negb (nonzero_id turn) || (generation =? 0) ||
     negb (in_range 1 MAX_RECORDED_CALLS ordinal)
  then Err Corrupt else
  let derive domain := note_id domain binding turn generation ordinal in
  Ok (mkNoteIdentity (derive (lit "asura-memory-create-operation")) (derive (lit "asura-memory-create-object"))
        (derive (lit "asura-memory-create-version")) (derive (lit "asura-memory-create-edge"))).
Definition note_call `{Hasher} (binding : Id * Id * Id) (project operation : Id) (generation ordinal : Z)
    : Result CreateNoteCall :=
  if negb (nonzero_id project) then Err Corrupt else
  let? identity := note_identity binding operation generation ordinal in
  Ok (mkNoteCall operation generation ordinal project identity).

(** ** Person command requests. *)
Definition valid_person_cwd (cwd : bytes) : bool :=
  in_range 1 MAX_PERSON_CWD (zlen cwd) && negb (starts_with_byte 47 cwd) && negb (contains_byte 0 cwd) &&
  forallb (fun c => bool_decide (c <> [46; 46])) (split_on 47 cwd).
Definition valid_search_path (path : bytes) : bool :=
  in_range 1 MAX_SEARCH_PATH (zlen path) && negb (contains_byte 0 path) &&
  (zlen (split_on 58 path) <=? MAX_SEARCH_PATH_ENTRIES) && forallb (starts_with_byte 47) (split_on 58 path).
(** The names of [p.named] are pairwise distinct. *)
Fixpoint distinct_names (seen : list bytes) (named : list (Z * bytes)) : bool :=
  match named with
  | [] => true
  | (_, a) :: named => forallb (fun b => bool_decide (a <> b)) seen && distinct_names (seen ++ [a]) named
  end.
Definition valid_person_request (p : PersonCommandRequest) : Result unit :=
  let conversation :=
    if pq_new_conversation p then is_none (pq_conversation p) && (pq_expected_generation p =? 0)
    else is_some_and nonzero_id (pq_conversation p) in
  let command := in_range 1 MAX_PERSON_COMMAND (zlen (pq_command p)) && negb (contains_byte 0 (pq_command p)) in
  let launch :=
    valid_search_path (pq_search_path p) && (zlen (pq_environment p) <=? TERMINAL_COUNT) &&
    windows_all (fun a b => a.1 <? b.1) (pq_environment p) &&
    forallb (fun e => is_some_and (fun t => class_valid t.2 e.2) (terminal_by_code e.1)) (pq_environment p) &&
    declared_valid (pq_declared p) in
  let named_ok :=
    (zlen (pq_named p) <=? MAX_PERSON_NAMED) && windows_all (fun a b => a.1 <? b.1) (pq_named p) &&
    forallb (fun e => secret_name_valid e.2) (pq_named p) && distinct_names [] (pq_named p) in
  require (nonzero_id (pq_project p) && conversation && command &&
           (zlen (pq_display_command p) <=? MAX_PERSON_COMMAND) && valid_person_cwd (pq_cwd p) && launch && named_ok).
(** [u8::from(a) | (u8::from(b) << 1)]. *)
Definition two_flags (a b : bool) : Z := Z.lor (Z.b2z a) (Z.shiftl (Z.b2z b) 1).
Definition w_text32 (w : Writer) (text : bytes) : Writer := w_bytes (w_u32 w (wrap 32 (zlen text))) text.
Definition w_text16 (w : Writer) (text : bytes) : Writer := w_bytes (w_u16 w (wrap 16 (zlen text))) text.
Definition w_text8 (w : Writer) (text : bytes) : Writer := w_bytes (w_byte w (wrap 8 (zlen text))) text.
Definition person_request_fields (w : Writer) (p : PersonCommandRequest) : Writer :=
  let w := w_byte w (two_flags (pq_new_conversation p) (pq_outside_sandbox p)) in
  let w := foldl w_text32 w [pq_command p; pq_display_command p; pq_cwd p; pq_search_path p] in
  let w := w_byte w (wrap 8 (zlen (pq_environment p))) in
  let w := foldl (fun w e => w_text16 (w_byte w e.1) e.2) w (pq_environment p) in
  let w := w_byte w (wrap 8 (zlen (pq_declared p))) in
  let w := foldl (fun w e => w_text16 (w_text8 w e.1) e.2) w (pq_declared p) in
  let w := w_byte w (wrap 8 (zlen (pq_named p))) in
  foldl (fun w e => w_text8 (w_byte w e.1) e.2) w (pq_named p).

(** ** [request_digest]: the bytes that are hashed, then the digest. *)
Definition request_bytes `{Unicode} (request : Request) : Result Writer :=
  match request with
  | QInitialize mode =>
      if negb ((mode =? 1) || (mode =? 2)) then Err Corrupt
      else Ok (w_u64 (w_byte (w_bytes [] (be_bytes 2 1)) mode) 0)
  | QRegister location =>
      let? _ := valid_location location in
      w_string (w_bytes [] (be_bytes 2 4)) location 4096
  | QRenameProject project expected_name_revision name =>
      if negb (nonzero_id project) then Err Corrupt else
      let? _ := capitalize_project_name name in
      w_string (w_u64 (w_bytes (w_bytes [] (be_bytes 2 20)) project) expected_name_revision) name 128
  | QSubmit project conversation expected_generation prompt =>
      if negb (nonzero_id project) || bool_decide (prompt = []) ||
         (is_none conversation && negb (expected_generation =? 0)) || bool_decide (conversation = Some (zeros 16))
      then Err Corrupt
      else w_string (w_u64 (w_optional (w_bytes (w_bytes [] (be_bytes 2 5)) project) conversation) expected_generation)
             prompt MAX_PROMPT
  | QQueueInput project conversation expected_generation new_conversation prompt =>
      if negb (nonzero_id project) || bool_decide (prompt = []) || bool_decide (conversation = Some (zeros 16)) ||
         (new_conversation && (is_some conversation || negb (expected_generation =? 0))) ||
         (negb new_conversation && is_none conversation)
      then Err Corrupt
      else
        let w := w_optional (w_bytes (w_bytes [] (be_bytes 2 18)) project) conversation in
        w_string (w_byte (w_u64 w expected_generation) (Z.b2z new_conversation)) prompt MAX_PROMPT
  | QReorderInput input after expected_order_revision =>
      if negb (nonzero_id input) || bool_decide (after = Some (zeros 16)) || bool_decide (after = Some input)
      then Err Corrupt
      else Ok (w_u64 (w_optional (w_bytes (w_bytes [] (be_bytes 2 19)) input) after) expected_order_revision)
  | QInputDecision input action =>
      if negb (nonzero_id input) then Err Corrupt
      else Ok (w_byte (w_bytes (w_bytes [] (be_bytes 2 13)) input) (input_action_code action))
  | QPromoteInput input target_operation target_generation =>
      if negb (nonzero_id input) || negb (nonzero_id target_operation) || (target_generation =? 0) then Err Corrupt
      else Ok (w_u64 (w_bytes (w_bytes (w_bytes [] (be_bytes 2 16)) input) target_operation) target_generation)
  | QCancel operation generation =>
      if negb (nonzero_id operation) || (generation =? 0) then Err Corrupt
      else Ok (w_u64 (w_bytes (w_bytes [] (be_bytes 2 7)) operation) generation)
  | QQueuePersonCommand p =>
      let? _ := valid_person_request p in
      let w := w_bytes (w_byte [] 31) (pq_project p) in
      let w := w_bytes w (default (zeros 16) (pq_conversation p)) in
      Ok (person_request_fields (w_u64 w (pq_expected_generation p)) p)
  end.
Definition request_digest `{Hasher, Unicode} (request : Request) : Result Hash :=
  let? w := request_bytes request in Ok (sha256 w).

(** ** Kind 31. *)
(** [p.named.iter().enumerate().all(..)]: the named numbers from [first]. *)
Fixpoint named_numbers (kinds : list SecretKind) (first : Z) (named : list (Z * bytes)) : Result bool :=
  match named with
  | [] => Ok true
  | (number, _) :: named =>
      if number =? first then
        let? kind := match kinds !! Z.to_nat (number - 1) with Some k => Ok k | None => Panic end in
        if decide (kind = EnvSecret) then named_numbers kinds (first + 1) named else Ok false
      else Ok false
  end.
Definition refusal_word_ok (r : ExecCmdRefusal) : bool := is_none_or (in_range 1 MAX_REFUSAL_WORD) (er_word r).
Definition person_validate `{Hasher, Unicode} (p : PersonCommandQueued) : Result unit :=
  let request := person_request p in
  let? _ := valid_person_request request in
  let numbers := if pc_whole_command p then MAX_TOOL_NUMBERS else MAX_PERSON_REWRITE_NUMBERS in
  let form :=
    if pc_whole_command p then
      bool_decide (pc_command p = WHOLE_COMMAND) && bool_decide (pc_display_command p <> []) &&
      is_some_and (fun r => negb (refusal_kept (er_code r)) && bool_decide (er_code r <> DetectionUnavailable) &&
                            refusal_word_ok r) (pc_fallback p)
    else bool_decide (pc_display_command p = []) && negb (pc_command_cut p) && is_none (pc_fallback p) in
  let first_named := saturating_sub (zlen (pc_number_kinds p)) (zlen (pc_named p)) + 1 in
  let? named :=
    if (bool_decide (pc_named p = []) || negb (pc_whole_command p)) &&
       (zlen (pc_named p) <=? zlen (pc_number_kinds p))
    then named_numbers (pc_number_kinds p) first_named (pc_named p) else Ok false in
  let tokens := placeholder_tokens (command_text p) in
  let placeholders :=
    negb (pt_malformed tokens) && (pt_max tokens =? zlen (pc_number_kinds p)) &&
    (zlen (pt_distinct tokens) =? zlen (pc_number_kinds p)) && (pt_zero tokens =? pc_unnumbered p) in
  if nonzero_id (pc_request p) && nonzero_id (pc_input p) && bool_decide (pc_input p <> pc_request p) then
    let? digest := request_digest (QQueuePersonCommand request) in
    require (bool_decide (pc_digest p = digest) && (zlen (pc_number_kinds p) <=? numbers) && form && named &&
             placeholders && negb (pc_rule_set_revision p =? 0) && bool_decide (pc_rule_set_digest p <> zeros 32))
  else Err Corrupt.

(** ** Kinds 26 to 28. *)
Definition intent_validate (p : JobIntent) : Result unit :=
  let reference :=
    match ji_origin p with
    | ByModel operation generation ordinal =>
        nonzero_id operation && (1 <=? generation) && in_range 1 MAX_RECORDED_CALLS ordinal
    | ByPerson input => nonzero_id input
    end in
  require ((ji_agent p =? 0) && reference).
Definition cancel_validate (p : JobCancelRequested) : Result unit :=
  require (nonzero_id (jc_job p) && bool_decide (job_reason_requester (jc_reason p) = Some (jc_requester p)) &&
           Bool.eqb (jc_kill p) (bool_decide (jc_reason p = PersonKill))).
(** The codes of [SecretKind]: its position in the declaration, from 1. *)
Definition secret_kind_code (k : SecretKind) : Z :=
  match k with
  | PrivateKey => 1 | AwsAccessKey => 2 | AwsSecretKey => 3 | GithubToken => 4 | GitlabToken => 5 | PypiToken => 6
  | DockerToken => 7 | NpmToken => 8 | BitbucketToken => 9 | VaultToken => 10 | FlyToken => 11 | WebhookSecret => 12
  | MailgunKey => 13 | GoogleOauth => 14 | AzureKey => 15 | SlackToken => 16 | SlackWebhook => 17 | ChatWebhook => 18
  | StripeKey => 19 | AnthropicKey => 20 | OpenaiKey => 21 | GoogleApiKey => 22 | Jwt => 23 | UrlPassword => 24
  | UrlSecret => 25 | AuthHeader => 26 | SessionCookie => 27 | PasswordHash => 28 | AssignedSecret => 29
  | EnvSecret => 30 | CliPassword => 31 | NetrcPassword => 32 | WifiPassword => 33
  end.
Definition valid_stream (s : CaptureStream) : bool :=
  (cs_unnumbered_replacements s <=? cs_replacements s) && (cs_literal_replacements s <=? cs_replacements s) &&
  (zlen (cs_kinds s) <=? 33) && forallb (fun k => 0 <? k.2) (cs_kinds s) &&
  windows_all (fun a b => secret_kind_code a.1 <? secret_kind_code b.1) (cs_kinds s) &&
  (zlen (cs_spans s) =? Z.min (cs_loss_span_count s) MAX_CAPTURE_SPANS) &&
  forallb (fun span => ls_stored_offset span <=? cs_stored_bytes s) (cs_spans s).
Definition valid_exit (kind value : Z) : bool :=
  if kind =? 0 then value =? 0
  else if kind =? 1 then value <=? 255
  else if kind =? 2 then in_range 1 127 value
  else false.
(** [CaptureFacts] are the fields of the kind 28 itself. *)
Definition valid_capture (state : CaptureState) (p : JobSettled) : bool :=
  let streams := [js_capture (jd_stdout p); js_capture (jd_stderr p)] in
  let digests := forallb (fun s => is_some (cs_digest s)) streams in
  let no_digest := forallb (fun s => is_none (cs_digest s)) streams in
  let state_ok :=
    match state with
    | CsComplete =>
        bool_decide (jd_capture_reason p = CrNone) && digests &&
        forallb (fun s => cs_eof s && (cs_discarded_bytes s =? 0)) streams
    | CsIncomplete => negb (bool_decide (jd_capture_reason p ∈ [CrNone; SettlementUnconfirmed])) && digests
    | CsUnconfirmed => bool_decide (jd_capture_reason p = SettlementUnconfirmed) && no_digest
    | CsNotStarted =>
        bool_decide (jd_capture_reason p ∈ [CrNone; StorageFault]) && (jd_exit_kind p =? 0) && no_digest &&
        forallb (fun s => (cs_observed_bytes s =? 0) && (cs_stored_bytes s =? 0)) streams
    end in
  state_ok && valid_exit (jd_exit_kind p) (jd_exit_value p) && forallb valid_stream streams &&
  (jd_distinct_numbers p <=? MAX_CAPTURE_NUMBER) && (zlen (jd_numbers p) <=? MAX_CAPTURE_NUMBERS) &&
  (zlen (jd_numbers p) <=? jd_distinct_numbers p) &&
  forallb (fun n => in_range 1 MAX_CAPTURE_NUMBER (nu_number n)) (jd_numbers p) &&
  windows_all (fun a b => nu_number a <? nu_number b) (jd_numbers p) && (jd_final_reservation p mod MIB =? 0).
(** The capture fields of a kind 28 for its outcome and capture state. *)
Definition capture_valid (p : JobSettled) : bool :=
  match jd_outcome p, job_capture (jd_capture_state p) with
  | JInterrupted, None =>
      bool_decide (jd_capture_reason p = CrNone) &&
      forallb (fun s => bool_decide (s = job_stream_default)) [jd_stdout p; jd_stderr p] && (jd_distinct_numbers p =? 0) &&
      bool_decide (jd_numbers p = []) && (jd_pause_count p =? 0) && (jd_first_pause_ms p =? 0) &&
      (jd_paused_ms p =? 0) && (jd_final_reservation p =? 0)
  | JNotStarted, Some CsNotStarted => valid_capture CsNotStarted p
  | JExited, Some ((CsComplete | CsIncomplete | CsUnconfirmed) as state)
  | JSignalled, Some ((CsComplete | CsIncomplete | CsUnconfirmed) as state)
  | JCancelled, Some ((CsComplete | CsIncomplete | CsUnconfirmed) as state) => valid_capture state p
  | _, _ => false
  end.
Definition settled_validate (p : JobSettled) : Result unit :=
  let process := bool_decide (jd_outcome p ∈ [JExited; JSignalled; JCancelled]) in
  let exit :=
    match jd_outcome p with
    | JExited => jd_exit_kind p =? 1
    | JSignalled => jd_exit_kind p =? 2
    | JCancelled => (jd_exit_kind p =? 1) || (jd_exit_kind p =? 2)
    | JNotStarted | JInterrupted => jd_exit_kind p =? 0
    end && valid_exit (jd_exit_kind p) (jd_exit_value p) in
  let cleanup :=
    (if process then bool_decide (jd_cleanup p <> ClNone)
     else bool_decide (jd_cleanup p = ClNone) && (jd_escapees p =? 0) && (jd_elapsed_ms p =? 0)) &&
    (if decide (jd_cleanup p = Late) then (jd_unconfirmed_reason p =? 9) || (jd_unconfirmed_reason p =? 13)
     else jd_unconfirmed_reason p =? 0) &&
    (bool_decide (jd_cleanup p <> ClNone) || (jd_escapees p =? 0)) in
  let streams := [jd_stdout p; jd_stderr p] in
  let lines := forallb (fun s => js_lines s <=? cs_stored_bytes (js_capture s)) streams in
  let closed :=
    bool_decide (jd_capture_reason p <> ClosedAfterCancel) ||
    (bool_decide (jd_outcome p ∈ [JExited; JSignalled]) && bool_decide (jd_reason p <> JrNone) &&
     bool_decide (jd_capture_state p = JcIncomplete)) in
  require (nonzero_id (jd_job p) && job_reason_allows (jd_reason p) (jd_outcome p) && exit && cleanup && lines &&
           capture_valid p && closed).

(** ** Kinds 29 and 30. *)
Definition snapshot_valid (s : JobSnapshot) : bool :=
  allows_numbers (sn_state s) (sn_numbers s) && (negb (before_spawn (sn_state s)) || (sn_elapsed_ms s =? 0)) &&
  (bool_decide (sn_state s <> RsSettled) ||
   ((sn_elapsed_ms s =? 0) && (sn_stdout_bytes s =? 0) && (sn_stderr_bytes s =? 0))).
Definition list_entry_valid (e : JobListEntry) : bool :=
  nonzero_id (le_job e) && allows_numbers (le_state e) (le_numbers e) &&
  (bool_decide (le_state e <> RsSettled) || ((le_stdout_bytes e =? 0) && (le_stderr_bytes e =? 0))).
Definition page_valid (p : JobPage) : bool :=
  (jp_source_len p <=? MAX_JOB_PAGE) && (page_state_readable (jp_state p) || (jp_source_len p =? 0)) &&
  Bool.eqb (bool_decide (jp_digest p = zeros 32)) (jp_source_len p =? 0) &&
  ((jp_source_len p =? 0) ||
   is_some_and (fun e => e <=? jp_total p) (checked_add64 (jp_start p) (jp_source_len p))).
Definition page_overlap (a b : JobPage) : bool :=
  bool_decide (jp_stream a = jp_stream b) && (0 <? jp_source_len a) && (0 <? jp_source_len b) &&
  (jp_start a <? page_next_offset b) && (jp_start b <? page_next_offset a).
(** The double loop: no page overlaps a later one. *)
Fixpoint pages_disjoint (view : list JobPage) : bool :=
  match view with
  | [] => true
  | a :: view => forallb (fun b => negb (page_overlap a b)) view && pages_disjoint view
  end.
Definition view_valid (p : JobResult) : bool :=
  if decide (jr_view p = []) then true else
  let form := match jr_body p with BodyState _ | BodyWait _ _ => true | _ => false end in
  if negb form || bool_decide (jr_outcome p <> RoOk) || (MAX_JOB_VIEW_RANGES <? zlen (jr_view p)) then false
  else forallb page_valid (jr_view p) && pages_disjoint (jr_view p).
Definition result_validate (p : JobResult) : Result unit :=
  let body :=
    match jr_body p with
    | BodyNone => true
    | BodyState s => bool_decide (jr_outcome p ∈ [RoOk; RoCancelled]) && snapshot_valid s
    | BodyWait s e =>
        bool_decide (jr_outcome p = RoOk) && snapshot_valid s &&
        (negb (bool_decide (e ∈ [WaitSettled; WaitAlreadySettled])) || bool_decide (sn_state s = RsSettled))
    | BodyPage page => bool_decide (jr_outcome p = RoOk) && page_valid page
    | BodyList more entries =>
        bool_decide (jr_outcome p = RoOk) && bool_decide (jr_job p = zeros 16) &&
        (zlen entries <=? MAX_JOB_LIST_ENTRIES) && (negb more || (zlen entries =? MAX_JOB_LIST_ENTRIES)) &&
        bool_decide (NoDup (le_job <$> entries)) && forallb list_entry_valid entries
    end in
  require (nonzero_id (jr_operation p) && (1 <=? jr_generation p) && in_range 1 MAX_RECORDED_CALLS (jr_ordinal p) &&
           (jr_status p =? result_outcome_status (jr_outcome p)) &&
           (bool_decide (jr_outcome p <> RoNotFound) || bool_decide (jr_job p = zeros 16)) && body && view_valid p).
Definition retention_validate (p : JobRetention) : Result unit :=
  let author :=
    match jn_author p with
    | PersonAuthor request =>
        nonzero_id request &&
        (if decide (jn_action p = RaNote) then in_range 1 MAX_JOB_NOTE (zlen (jn_note p))
         else bool_decide (jn_note p = []))
    | ModelAuthor operation generation ordinal =>
        bool_decide (jn_action p = RaNote) && bool_decide (jn_note p = []) && nonzero_id operation &&
        (1 <=? generation) && in_range 1 MAX_RECORDED_CALLS ordinal
    end in
  require (nonzero_id (jn_job p) && author).
(** Kind 15. *)
Definition valid_tool_result (p : ToolResult) : Result unit :=
  if negb (nonzero_id (tr_operation p)) || (tr_generation p =? 0) ||
     negb (in_range 1 MAX_RECORDED_CALLS (tr_ordinal p)) || negb (in_range 1 7 (tr_status p)) ||
     (16384 <? zlen (tr_text p)) || (negb (tr_status p =? 1) && is_some (tr_next_offset p)) ||
     (negb (bool_decide (tr_status p ∈ [1; 5; 6; 7])) && tr_truncated p)
  then Err Corrupt else Ok tt.
