(* ===== verification/Tables.v ===== *)
(** * Stored codes and typed fields of the record codecs (conversation/codec.rs).

    [CodeTable] states what a stored code promises: the byte written for a
    value reads back as that value and no other byte does. Its instances are
    the tables of codec.rs and types.rs. [written_by] is the contract between
    the writer and the reader of one record kind, which the record files prove
    kind by kind. *)
From Stdlib Require Import ZArith Lia String.
From stdpp Require Import prelude list.
From S2P Require Import Prelude PayloadId Codec Fields Envelope Policy PathGuard Types Text Rules.

(** ** Tables that codec.rs writes out. *)
Definition refusal_code (code : RefusalCode) : Z :=
  match code with
  | PlaceholderNotAvailable => 1 | UnparsedCommand => 2 | SecretInHeredoc => 3 | SecretInSubstitution => 4
  | SecretInInnerScript => 5 | SecretSingleQuoted => 6 | SecretAnsiQuoted => 7 | SecretMixedQuoting => 8
  | SecretWithShellSyntax => 9 | TooManySecrets => 10 | ResidualSecret => 11 | DetectionUnavailable => 12
  | RewrittenCommandTooLong => 13 | SecretInCwd => 14 | ModelSecretReference => 15
  end.
Definition refusal_from (code : Z) : option RefusalCode :=
  match code with
  | 1 => Some PlaceholderNotAvailable | 2 => Some UnparsedCommand | 3 => Some SecretInHeredoc
  | 4 => Some SecretInSubstitution | 5 => Some SecretInInnerScript | 6 => Some SecretSingleQuoted
  | 7 => Some SecretAnsiQuoted | 8 => Some SecretMixedQuoting | 9 => Some SecretWithShellSyntax
  | 10 => Some TooManySecrets | 11 => Some ResidualSecret | 12 => Some DetectionUnavailable
  | 13 => Some RewrittenCommandTooLong | 14 => Some SecretInCwd | 15 => Some ModelSecretReference
  | _ => None
  end.
Definition secret_kind_from (code : Z) : option SecretKind :=
  match code with
  | 1 => Some PrivateKey | 2 => Some AwsAccessKey | 3 => Some AwsSecretKey | 4 => Some GithubToken
  | 5 => Some GitlabToken | 6 => Some PypiToken | 7 => Some DockerToken | 8 => Some NpmToken
  | 9 => Some BitbucketToken | 10 => Some VaultToken | 11 => Some FlyToken | 12 => Some WebhookSecret
  | 13 => Some MailgunKey | 14 => Some GoogleOauth | 15 => Some AzureKey | 16 => Some SlackToken
  | 17 => Some SlackWebhook | 18 => Some ChatWebhook | 19 => Some StripeKey | 20 => Some AnthropicKey
  | 21 => Some OpenaiKey | 22 => Some GoogleApiKey | 23 => Some Jwt | 24 => Some UrlPassword
  | 25 => Some UrlSecret | 26 => Some AuthHeader | 27 => Some SessionCookie | 28 => Some PasswordHash
  | 29 => Some AssignedSecret | 30 => Some EnvSecret | 31 => Some CliPassword | 32 => Some NetrcPassword
  | 33 => Some WifiPassword
  | _ => None
  end.
Definition loss_code (reason : LossReason) : Z :=
  match reason with LineOverLimit => 1 | KeyBlockOverLimit => 2 | DetectorError => 3 end.
Definition loss_from (code : Z) : option LossReason :=
  match code with 1 => Some LineOverLimit | 2 => Some KeyBlockOverLimit | 3 => Some DetectorError | _ => None end.
Definition origin_code (origin : NumberOrigin) : Z := match origin with FromCommand => 1 | FromOutput => 2 end.
Definition origin_from (code : Z) : option NumberOrigin :=
  match code with 1 => Some FromCommand | 2 => Some FromOutput | _ => None end.
Definition source_from (code : Z) : option ToolCallSource :=
  match code with 1 => Some GeneratedContent | 2 => Some ProviderJson | _ => None end.
Definition input_action_from (code : Z) : option InputAction :=
  match code with 1 => Some AResume | 2 => Some ADrop | 3 => Some AHold | _ => None end.
Definition cleanup_from (code : Z) : option JobCleanup :=
  match code with 0 => Some ClNone | 1 => Some Confirmed | 2 => Some Late | _ => None end.
Definition job_capture_from (code : Z) : option JobCaptureState :=
  match code with
  | 1 => Some JcComplete | 2 => Some JcIncomplete | 3 => Some JcUnconfirmed | 4 => Some JcNotStarted
  | 5 => Some JcInterrupted | _ => None
  end.
Definition capture_reason_from (code : Z) : option CaptureReason :=
  match code with
  | 0 => Some CrNone | 1 => Some StorageFault | 2 => Some CrQuota | 3 => Some CrEnospc | 4 => Some DetectorFault
  | 5 => Some DiscardedAfterCancel | 6 => Some SettlementUnconfirmed | 7 => Some ClosedAfterCancel | _ => None
  end.
Definition form_from (form reason : Z) : option ArgumentForm :=
  match form, reason with
  | 1, 0 => Some Verbatim
  | 2, 0 => Some Canonical
  | 3, 0 => Some Unparsed
  | 4, 1 => Some (NotRetained Oversized)
  | 4, 2 => Some (NotRetained NrDetectionUnavailable)
  | 4, 3 => Some (NotRetained UnverifiableEscape)
  | _, _ => None
  end.

(** ** Readers of coded fields: [from(r.byte()?).ok_or(Corrupt)?]. *)
Definition r_code {A} (from : Z -> option A) : reader A :=
  read code := r_byte in rlift (ok_or Corrupt (from code)).
(** [match r.byte()? { 0 => None, code => Some(from(code)?) }]. *)
Definition r_code_option {A} (from : Z -> option A) : reader (option A) :=
  read code := r_byte in
  if code =? 0 then rret None else read a := rlift (ok_or Corrupt (from code)) in rret (Some a).
(** [Reader::cause]. *)
Definition r_cause : reader Cause := r_code cause_from_code.
(** [require(flags & !0b11 == 0)] and the two flags. *)
Definition r_two_flags : reader (bool * bool) :=
  read flags := r_byte in
  read _ := rlift (require (Z.land flags 0xfc =? 0)) in
  rret (negb (Z.land flags 1 =? 0), negb (Z.land flags 2 =? 0)).
(** [match r.u16()? { 0 => None, word => Some(word) }]. *)
Definition r_word : reader (option Z) := read word := r_u16 in rret (if word =? 0 then None else Some word).

(** ** What a table of codes promises. *)
Class CodeTable {A} (code : A -> Z) (from : Z -> option A) : Prop := {
  code_from (a : A) : from (code a) = Some a;
  from_code_only (c : Z) (a : A) : from c = Some a -> c = code a;
  code_u8 (a : A) : u8 (code a);
}.
Lemma from_code_1_lookup {A} (all : list A) c a :
  from_code_1 all c = Some a -> exists i, all !! i = Some a /\ c = Z.of_nat i + 1.
Proof.
  unfold from_code_1. case_decide; [|done]. intros Ha. exists (Z.to_nat (c - 1)). split; [done|lia].
Qed.
Lemma table_1 {A} (all : list A) (code : A -> Z) :
  (code <$> all = seqZ 1 (zlen all)) -> (forall a, from_code_1 all (code a) = Some a) -> zlen all < 256 ->
  CodeTable code (from_code_1 all).
Proof.
  intros Hall Hfrom Hl. assert (forall c a, from_code_1 all c = Some a -> c = code a /\ 1 <= c <= zlen all) as Hc.
  { intros c a (i & Hi & ->)%from_code_1_lookup. pose proof (lookup_lt_Some _ _ _ Hi) as Hlt.
    assert ((code <$> all) !! i = Some (code a)) as Hcode by (by rewrite list_lookup_fmap, Hi).
    rewrite Hall in Hcode. apply lookup_seqZ in Hcode. unfold zlen in *. lia. }
  split; [done|intros c a Ha; by apply Hc|]. intros a. destruct (Hc _ _ (Hfrom a)). unfold uint. lia.
Qed.
Lemma table_0 {A} (all : list A) (code : A -> Z) :
  (code <$> all = seqZ 0 (zlen all)) -> (forall a, from_code_0 all (code a) = Some a) -> zlen all < 256 ->
  CodeTable code (from_code_0 all).
Proof.
  intros Hall Hfrom Hl. assert (forall c a, from_code_0 all c = Some a -> c = code a /\ 0 <= c < zlen all) as Hc.
  { intros c a. unfold from_code_0. case_decide; [|done]. intros Hi. pose proof (lookup_lt_Some _ _ _ Hi) as Hlt.
    assert ((code <$> all) !! Z.to_nat c = Some (code a)) as Hcode by (by rewrite list_lookup_fmap, Hi).
    rewrite Hall in Hcode. apply lookup_seqZ in Hcode. unfold zlen in *. lia. }
  split; [done|intros c a Ha; by apply Hc|]. intros a. destruct (Hc _ _ (Hfrom a)). unfold uint. lia.
Qed.
(** A table written out code by code. *)
Ltac table_solve :=
  split; [by intros []|intros c a; repeat case_match; intros; simplify_eq/=; try done; lia|by intros []; by_decide].
Ltac table_list lem := apply lem; [vm_compute; reflexivity|by intros []|by_decide].
#[export] Instance refusal_table : CodeTable refusal_code refusal_from.
Proof. unfold refusal_from. table_solve. Qed.
#[export] Instance secret_kind_table : CodeTable secret_kind_code secret_kind_from.
Proof. unfold secret_kind_from. table_solve. Qed.
#[export] Instance loss_table : CodeTable loss_code loss_from.
Proof. unfold loss_from. table_solve. Qed.
#[export] Instance origin_table : CodeTable origin_code origin_from.
Proof. unfold origin_from. table_solve. Qed.
#[export] Instance source_table : CodeTable source_code source_from.
Proof. unfold source_from. table_solve. Qed.
#[export] Instance input_action_table : CodeTable input_action_code input_action_from.
Proof. unfold input_action_from. table_solve. Qed.
#[export] Instance cleanup_table : CodeTable cleanup_code cleanup_from.
Proof. unfold cleanup_from. table_solve. Qed.
#[export] Instance job_capture_table : CodeTable job_capture_code job_capture_from.
Proof. unfold job_capture_from. table_solve. Qed.
#[export] Instance capture_reason_table : CodeTable capture_reason_code capture_reason_from.
Proof. unfold capture_reason_from. table_solve. Qed.
#[export] Instance terminal_table : CodeTable terminal_code terminal_from_code.
Proof. split; [intros a; by apply terminal_from_code_Some|intros c a; by apply terminal_from_code_Some|by intros []; by_decide]. Qed.
#[export] Instance cause_table : CodeTable cause_code cause_from_code.
Proof. split; [intros a; by apply cause_from_code_Some|intros c a; by apply cause_from_code_Some|by intros []; by_decide]. Qed.
Ltac table_ifs := split; [by intros []|intros c a ?; repeat case_match; simplify_eq/=; lia|by intros []; by_decide].
#[export] Instance requester_table : CodeTable requester_code requester_from_code.
Proof. unfold requester_from_code. table_ifs. Qed.
#[export] Instance output_stream_table : CodeTable output_stream_code output_stream_from_code.
Proof. unfold output_stream_from_code. table_ifs. Qed.
#[export] Instance wait_end_table : CodeTable wait_end_code wait_end_from_code.
Proof. unfold wait_end_from_code. table_ifs. Qed.
#[export] Instance retention_action_table : CodeTable retention_action_code retention_action_from_code.
Proof. unfold retention_action_from_code. table_ifs. Qed.
#[export] Instance pause_reason_table : CodeTable pause_reason_code pause_reason_from_code.
Proof. unfold pause_reason_from_code. table_ifs. Qed.
#[export] Instance operation_table : CodeTable operation_code operation_from_code.
Proof. table_list (@table_1 ToolOperation). Qed.
#[export] Instance decision_table : CodeTable decision_code tool_decision_from_code.
Proof. table_list (@table_1 ToolDecision). Qed.
#[export] Instance fault_table : CodeTable fault_code fault_from_code.
Proof. table_list (@table_1 ToolFault). Qed.
#[export] Instance job_outcome_table : CodeTable job_outcome_code job_outcome_from_code.
Proof. table_list (@table_1 JobOutcome). Qed.
#[export] Instance job_reason_table : CodeTable job_reason_code job_reason_from_code.
Proof. table_list (@table_0 JobReason). Qed.
#[export] Instance result_outcome_table : CodeTable result_outcome_code result_outcome_from_code.
Proof. table_list (@table_1 JobResultOutcome). Qed.
#[export] Instance block_reason_table : CodeTable block_reason_code block_reason_from_code.
Proof. table_list (@table_1 JobBlockReason). Qed.
#[export] Instance page_state_table : CodeTable page_state_code page_state_from_code.
Proof. table_list (@table_1 JobPageState). Qed.

(** ** Coded fields in both directions. *)
Lemma parses_lift_ok {A} (o : option A) (Q : A -> bytes -> Prop) :
  (forall a, o = Some a -> Q a []) -> parses (rlift (ok_or Corrupt o)) Q.
Proof. intros HQ. destruct o as [a|]; [by apply (parses_ret a), HQ|by intros bs o]. Qed.
Lemma parses_code {A} (code : A -> Z) from `{!CodeTable code from} :
  parses (r_code from) (fun a e => e = [code a]).
Proof.
  eapply parses_bind; [apply parses_byte|]. intros c e [_ ->]. apply parses_lift_ok. intros a Ha.
  by rewrite (from_code_only c a Ha).
Qed.
Lemma reads_code {A} (code : A -> Z) from `{!CodeTable code from} a : reads (r_code from) [code a] a.
Proof. eapply reads_last; [apply reads_byte|]. rewrite code_from. apply reads_lift. Qed.
Definition code_or_0 {A} (code : A -> Z) (o : option A) : Z := match o with Some a => code a | None => 0 end.
(** No value has the code 0, which stands for none. *)
Definition nonzero_codes {A} (code : A -> Z) : Prop := forall a, code a <> 0.
Lemma parses_code_option {A} (code : A -> Z) from `{!CodeTable code from} :
  parses (r_code_option from) (fun o e => e = [code_or_0 code o]).
Proof.
  eapply parses_bind; [apply parses_byte|]. intros c e [_ ->]. destruct (Z.eqb_spec c 0) as [->|]; [by apply parses_ret|].
  eapply parses_bind; [apply (parses_lift_ok _ (fun a e => c = code a /\ e = []))|].
  { intros a Ha. split; [by apply from_code_only|done]. }
  intros a e [-> ->]. by apply parses_ret.
Qed.
Lemma reads_code_option {A} (code : A -> Z) from `{!CodeTable code from} o :
  nonzero_codes code -> reads (r_code_option from) [code_or_0 code o] o.
Proof.
  intros Hn. eapply reads_last; [apply reads_byte|]. cbv beta. destruct o as [a|]; cbn [code_or_0]; [|apply reads_ret].
  destruct (Z.eqb_spec (code a) 0) as [E|]; [by destruct (Hn a)|]. rewrite code_from. eapply reads_last; apply reads_lift.
Qed.
Lemma two_flags_u8 a b : u8 (two_flags a b).
Proof. by destruct a, b; by_decide. Qed.
Lemma parses_two_flags : parses r_two_flags (fun ab e => e = [two_flags ab.1 ab.2]).
Proof.
  eapply parses_bind; [apply parses_byte|]. intros f e [Hf ->]. apply parses_require. intros Hz. apply parses_ret. cbn.
  f_equal. assert (f ∈ seqZ 0 256) as Hin by (apply elem_of_seqZ; unfold uint in Hf; lia).
  assert (Forall (fun f => implb (Z.land f 0xfc =? 0)
    (f =? two_flags (negb (Z.land f 1 =? 0)) (negb (Z.land f 2 =? 0))) = true) (seqZ 0 256)) as Hall by by_decide.
  rewrite Forall_forall in Hall. specialize (Hall f Hin). rewrite Hz in Hall. by apply Z.eqb_eq.
Qed.
Lemma reads_two_flags a b : reads r_two_flags [two_flags a b] (a, b).
Proof.
  eapply reads_last; [apply reads_byte|]. eapply (reads_bind _ _ [] []); [apply reads_require; by destruct a, b|].
  cbv beta. replace (_, _) with (a, b) by (by destruct a, b). apply reads_ret.
Qed.
Lemma parses_word : parses r_word (fun o e => (forall v, o = Some v -> u16 v /\ v <> 0) /\ e = be_bytes 2 (default 0 o)).
Proof.
  eapply parses_bind; [apply parses_u16|]. intros v e [Hv ->]. apply parses_ret. rewrite app_nil_r.
  destruct (Z.eqb_spec v 0) as [->|]; [done|]. split; [by intros ? [= <-]|done].
Qed.
Lemma reads_word o : (forall v, o = Some v -> u16 v /\ v <> 0) -> reads r_word (be_bytes 2 (default 0 o)) o.
Proof.
  intros Ho. eapply reads_last; [apply reads_u16; destruct o as [v|]; [by apply Ho|by_decide]|]. cbv beta.
  destruct o as [v|]; cbn; [|apply reads_ret]. destruct (Z.eqb_spec v 0) as [->|]; [by destruct (Ho 0)|apply reads_ret].
Qed.
Lemma parses_string limit : parses (r_string limit) (fun s e => str_ok s /\ zlen s <= limit /\ e = string_field s).
Proof.
  eapply parses_bind; [apply parses_u32|]. intros n e [Hn ->]. destruct (decide _); [apply parses_err|].
  eapply parses_bind; [apply parses_take; unfold uint in Hn; lia|]. intros s e [-> [Hl Hb]].
  unfold from_utf8. destruct (Utf8.valid e) eqn:Hu; [|apply parses_err].
  apply (parses_ret e). unfold string_field. rewrite app_nil_r, Hl. split_and!; [by split|lia|done].
Qed.

(** ** The contract of one record kind. The writer starts from an empty
    payload; the reader stands at the end of it when it is done. *)
Definition reads_end {A} (p : reader A) (e : bytes) (a : A) : Prop :=
  forall pre, p (mkReader (pre ++ e) (zlen pre)) = Ok (a, mkReader (pre ++ e) (zlen pre + zlen e)).
Lemma reads_reads_end {A} (p : reader A) e a : reads p e a -> reads_end p e a.
Proof. intros Hr pre. specialize (Hr pre []). by rewrite app_nil_r in Hr. Qed.
Record written_by {A} (p : reader A) (ok : A -> Prop) (write : A -> Result Writer) : Prop := {
  wb_parses : parses p (fun a e => ok a /\ write a = Ok e);
  wb_reads a e : ok a -> write a = Ok e -> reads_end p e a;
  wb_bytes a e : ok a -> write a = Ok e -> bytes_ok e;
}.
Lemma written_by_reads {A} (p : reader A) ok write :
  parses p (fun a e => ok a /\ write a = Ok e) -> (forall a e, ok a -> write a = Ok e -> reads p e a /\ bytes_ok e) ->
  written_by p ok write.
Proof. intros Hp Hr. split; [done|intros a e Ho Hw; by apply reads_reads_end, Hr|intros a e Ho Hw; by apply (Hr a)]. Qed.

(** The steps of the proofs. *)
Ltac field_next :=
  first
  [ parses_next
  | match goal with
    | |- parses (rbind (r_string _) _) _ => eapply parses_bind; [apply parses_string|intros ? ? (? & ? & ->)]
    | |- parses (rbind (r_code _) _) _ => eapply parses_bind; [eapply parses_code; apply _|intros ? ? ->]
    | |- parses (rbind r_cause _) _ => eapply parses_bind; [eapply parses_code; apply _|intros ? ? ->]
    | |- parses (rbind (r_code_option _) _) _ => eapply parses_bind; [eapply parses_code_option; apply _|intros ? ? ->]
    | |- parses (rbind r_two_flags _) _ => eapply parses_bind; [apply parses_two_flags|intros [? ?] ? ->]
    | |- parses (rbind r_word _) _ => eapply parses_bind; [apply parses_word|intros ? ? [? ->]]
    end ].
(** The bytes a writer appends, as one right-nested list. *)
Ltac layout :=
  unfold w_u64, w_u32, w_u16, w_byte, w_bytes; rewrite ?w_optional_field; repeat rewrite <- app_assoc; cbn [app].
Ltac field_wrote :=
  repeat match goal with
  | H : obind _ _ = Ok _ |- _ => let a := fresh "w" in let Ha := fresh "Hw" in apply obind_Ok in H as (a & Ha & H)
  | H : w_string _ _ _ = Ok _ |- _ => apply w_string_Ok in H as [? ->]; [|done]
  | H : require _ = Ok _ |- _ => apply require_Ok in H
  | H : Ok _ = Ok _ |- _ => apply (inj Ok) in H
  end.
(** One more field of the bytes. *)
Ltac byte_next :=
  match goal with
  | |- reads (rret _) [] _ => apply reads_ret
  | |- reads (rbind (rlift (require _)) _) ?e _ => eapply (reads_bind _ _ [] e); [apply reads_require; try done|cbv beta]
  | |- reads (rbind r_byte _) (?x :: ?l) _ => eapply (reads_bind _ _ [x] l); [apply reads_byte|cbv beta]
  | |- reads (rbind r_flag _) (?x :: ?l) _ => eapply (reads_bind _ _ [x] l); [apply reads_flag|cbv beta]
  | |- reads (rbind (r_code _) _) (?x :: ?l) _ => eapply (reads_bind _ _ [x] l); [eapply reads_code; apply _|cbv beta]
  | |- reads (rbind r_cause _) (?x :: ?l) _ => eapply (reads_bind _ _ [x] l); [eapply reads_code; apply _|cbv beta]
  | |- reads (rbind (r_code_option _) _) (?x :: ?l) _ =>
      eapply (reads_bind _ _ [x] l); [eapply reads_code_option; [apply _|by intros []]|cbv beta]
  | |- reads (rbind r_two_flags _) (?x :: ?l) _ => eapply (reads_bind _ _ [x] l); [apply reads_two_flags|cbv beta iota]
  | |- reads (rbind _ _) (_ ++ _) _ =>
      eapply reads_bind;
      [first [by apply reads_u64|by apply reads_u32|by apply reads_u16|by apply reads_array|by apply reads_string
             |by apply reads_bounded_string|by apply (reads_option 16)|by apply reads_word]|cbv beta]
  | |- reads (rbind _ _) ?e _ =>
      eapply reads_last;
      [first [by apply reads_u64|by apply reads_u32|by apply reads_u16|by apply reads_array|by apply reads_string
             |by apply reads_bounded_string|by apply (reads_option 16)|by apply reads_word]|cbv beta]
  end.
Lemma foldl_enc {A} (f : Writer -> A -> Writer) (enc : A -> bytes) w l :
  (forall w a, f w a = w ++ enc a) -> foldl f w l = w ++ concat (enc <$> l).
Proof.
  intros Hf. revert w. induction l as [|a l IH]; intros w; cbn; [by rewrite app_nil_r|]. by rewrite IH, Hf, <- app_assoc.
Qed.
Lemma w_text32_field w s : zlen s < 2 ^ 32 -> w_text32 w s = w ++ string_field s.
Proof.
  intros Hl. unfold w_text32, w_u32, w_bytes, string_field. pose proof (zlen_nonneg s). rewrite wrap_small by (unfold uint; lia).
  by rewrite app_assoc.
Qed.
(** The last step of a validated reader. *)
Lemma reads_validated {A} (v : Result unit) (a : A) : v = Ok tt -> reads (read _ := rlift v in rret a) [] a.
Proof. intros ->. eapply reads_last; [apply reads_lift|apply reads_ret]. Qed.
Ltac validated := cbv zeta; apply (parses_validate _ tt); [try apply require_not_panic|let Hv := fresh "Hval" in intros Hv; field_next].
Lemma bytes_ok_flag (b : bool) l : bytes_ok l -> bytes_ok (Z.b2z b :: l).
Proof. intros. constructor; [by destruct b; by_decide|done]. Qed.
Lemma bytes_ok_code {A} (code : A -> Z) from `{!CodeTable code from} a l : bytes_ok l -> bytes_ok (code a :: l).
Proof. intros. constructor; [apply code_u8|done]. Qed.
Lemma bytes_ok_code_option {A} (code : A -> Z) from `{!CodeTable code from} o l : bytes_ok l -> bytes_ok (code_or_0 code o :: l).
Proof. intros. constructor; [destruct o; cbn [code_or_0]; [apply code_u8|by_decide]|done]. Qed.
Lemma bytes_ok_two_flags a b l : bytes_ok l -> bytes_ok (two_flags a b :: l).
Proof. intros. constructor; [apply two_flags_u8|done]. Qed.
Ltac bytes_next :=
  match goal with
  | |- bytes_ok [] => constructor
  | |- bytes_ok (be_bytes _ _) => apply be_bytes_ok
  | |- bytes_ok (string_field _) => by apply bytes_ok_string
  | |- bytes_ok (option_field _) => by apply (bytes_ok_option 16)
  | H : array _ ?b |- bytes_ok ?b => apply H
  | |- bytes_ok (_ ++ _) => apply bytes_ok_app; split
  | |- bytes_ok (Z.b2z _ :: _) => apply bytes_ok_flag
  | |- bytes_ok (two_flags _ _ :: _) => apply bytes_ok_two_flags
  | |- bytes_ok (code_or_0 _ _ :: _) => eapply bytes_ok_code_option; [apply _|]
  | |- bytes_ok (?x :: _) => first [apply bytes_ok_cons; [by_decide || assumption|]|eapply bytes_ok_code; [apply _|]]
  end.
(** The whole proof for a kind whose fields are all of these forms: [read]
    and [write] are unfolded, [facts] destructs the width facts of a record. *)
Ltac plain_kind rd wr :=
  apply written_by_reads;
  [ unfold rd; repeat field_next; split; [by constructor|];
    unfold wr; cbn -[require]; rewrite ?(proj2 (require_Ok _ tt)) by done; cbn [obind]; repeat (rewrite w_string_field by (done || lia); cbn [obind]); layout; by rewrite ?app_nil_r
  | intros p e [] Hw; unfold wr in Hw; field_wrote; subst; split;
    [unfold rd; layout; repeat byte_next; destruct p; apply reads_ret|layout; repeat bytes_next] ].
