(* ===== verification/Records.v ===== *)
(** * Record payloads (conversation/codec.rs): installation, projects, inputs and turns.

    The arms of [payload] and of [decode_record] for the kinds without
    record-level rules of their own, with kinds 15 and 21. Each kind has its
    writer, its reader, the widths of its fields and the proof that the two
    agree ([written_by]). *)
From Stdlib Require Import ZArith Lia String.
From stdpp Require Import prelude list.
From S2P Require Import Prelude PayloadId Codec Fields Envelope Policy PathGuard Types Text Rules Tables.

(** Kind 18, [InputQueued]. *)
Definition write_input_queued (p : InputQueued) : Result Writer :=
  let w := [] in
  let w := w_bytes w (iq_request p) in
  let w := w_bytes w (iq_digest p) in
  let w := w_bytes w (iq_input p) in
  let w := w_bytes w (iq_dispatch_request p) in
  let w := w_bytes w (iq_project p) in
  let w := w_bytes w (iq_conversation p) in
  let w := w_u64 w (iq_expected_generation p) in
  let w := w_byte w (Z.b2z (iq_new_conversation p)) in
  let? w := w_string w (iq_prompt p) MAX_PROMPT in
  Ok (w_u64 w (iq_order_revision p)).
Definition read_input_queued : reader InputQueued :=
  read request := r_array 16 in
  read digest := r_array 32 in
  read input := r_array 16 in
  read dispatch_request := r_array 16 in
  read project := r_array 16 in
  read conversation := r_array 16 in
  read expected_generation := r_u64 in
  read new_conversation := r_flag in
  read prompt := r_string MAX_PROMPT in
  read order_revision := r_u64 in
  rret (mkQueued request digest input dispatch_request project conversation expected_generation new_conversation prompt order_revision).
(** Kind 19, [InputReordered]. *)
Definition write_input_reordered (p : InputReordered) : Result Writer :=
  let w := [] in
  let w := w_bytes w (ir_request p) in
  let w := w_bytes w (ir_digest p) in
  let w := w_bytes w (ir_input p) in
  let w := w_optional w (ir_after p) in
  let w := w_u64 w (ir_expected_order_revision p) in
  Ok (w_u64 w (ir_order_revision p)).
Definition read_input_reordered : reader InputReordered :=
  read request := r_array 16 in
  read digest := r_array 32 in
  read input := r_array 16 in
  read after := r_optional in
  read expected_order_revision := r_u64 in
  read order_revision := r_u64 in
  rret (mkReordered request digest input after expected_order_revision order_revision).
(** Kind 13, [InputDecision]. *)
Definition write_input_decision (p : InputDecision) : Result Writer :=
  let w := [] in
  let w := w_bytes w (id_request p) in
  let w := w_bytes w (id_digest p) in
  let w := w_bytes w (id_input p) in
  Ok (w_byte w (input_action_code (id_action p))).
Definition read_input_decision : reader InputDecision :=
  read request := r_array 16 in
  read digest := r_array 32 in
  read input := r_array 16 in
  read action := r_code input_action_from in
  rret (mkInputDecision request digest input action).
(** Kind 16, [InputPromoted]. *)
Definition write_input_promoted (p : InputPromoted) : Result Writer :=
  let w := [] in
  let w := w_bytes w (ip_request p) in
  let w := w_bytes w (ip_digest p) in
  let w := w_bytes w (ip_input p) in
  let w := w_bytes w (ip_target_operation p) in
  Ok (w_u64 w (ip_target_generation p)).
Definition read_input_promoted : reader InputPromoted :=
  read request := r_array 16 in
  read digest := r_array 32 in
  read input := r_array 16 in
  read target_operation := r_array 16 in
  read target_generation := r_u64 in
  rret (mkPromoted request digest input target_operation target_generation).
(** Kind 10, [PendingInit]. *)
Definition write_pending_init (p : PendingInit) : Result Writer :=
  let w := [] in
  let w := w_bytes w (pi_request p) in
  let w := w_bytes w (pi_digest p) in
  let w := w_byte w (pi_mode p) in
  let w := w_u64 w (pi_configuration_revision p) in
  let w := w_bytes w (pi_configuration_digest p) in
  Ok (w_bytes w (pi_graph p)).
Definition read_pending_init : reader PendingInit :=
  read request := r_array 16 in
  read digest := r_array 32 in
  read mode := r_byte in
  read configuration_revision := r_u64 in
  read configuration_digest := r_array 32 in
  read graph := r_array 16 in
  rret (mkInit request digest mode configuration_revision configuration_digest graph).
(** Kind 11, [ActiveBinding]. *)
Definition write_active_binding (p : ActiveBinding) : Result Writer :=
  let w := [] in
  let w := w_bytes w (ab_request p) in
  let w := w_u64 w (ab_generation p) in
  let w := w_bytes w (ab_graph p) in
  Ok (w_bytes w (ab_configuration_digest p)).
Definition read_active_binding : reader ActiveBinding :=
  read request := r_array 16 in
  read generation := r_u64 in
  read graph := r_array 16 in
  read configuration_digest := r_array 32 in
  rret (mkBinding request generation graph configuration_digest).
(** Kind 4, [ProjectRegistered]. *)
Definition write_project_registered (p : ProjectRegistered) : Result Writer :=
  let w := [] in
  let w := w_bytes w (pr_request p) in
  let w := w_bytes w (pr_digest p) in
  let w := w_bytes w (pr_project p) in
  let? w := w_string w (pr_location p) 4096 in
  let w := w_u64 w (pr_device p) in
  let w := w_u64 w (pr_inode p) in
  let w := w_u64 w (pr_registry_revision p) in
  Ok (w_byte w (pr_visibility p)).
Definition read_project_registered : reader ProjectRegistered :=
  read request := r_array 16 in
  read digest := r_array 32 in
  read project := r_array 16 in
  read location := r_string 4096 in
  read device := r_u64 in
  read inode := r_u64 in
  read registry_revision := r_u64 in
  read visibility := r_byte in
  rret (mkRegistered request digest project location device inode registry_revision visibility).
(** Kind 9, [ProjectRequestAlias]. *)
Definition write_project_alias (p : ProjectRequestAlias) : Result Writer :=
  let w := [] in
  let w := w_bytes w (pa_request p) in
  let w := w_bytes w (pa_digest p) in
  let? w := w_string w (pa_location p) 4096 in
  let w := w_bytes w (pa_project p) in
  Ok (w_u64 w (pa_registry_revision p)).
Definition read_project_alias : reader ProjectRequestAlias :=
  read request := r_array 16 in
  read digest := r_array 32 in
  read location := r_string 4096 in
  read project := r_array 16 in
  read registry_revision := r_u64 in
  rret (mkAlias request digest location project registry_revision).
(** Kind 20, [ProjectRenamed]. *)
Definition write_project_renamed (p : ProjectRenamed) : Result Writer :=
  let w := [] in
  let w := w_bytes w (pn_request p) in
  let w := w_bytes w (pn_digest p) in
  let w := w_bytes w (pn_project p) in
  let w := w_u64 w (pn_expected_name_revision p) in
  let w := w_u64 w (pn_name_revision p) in
  let? w := w_string w (pn_requested_name p) 128 in
  w_string w (pn_name p) 128.
Definition read_project_renamed : reader ProjectRenamed :=
  read request := r_array 16 in
  read digest := r_array 32 in
  read project := r_array 16 in
  read expected_name_revision := r_u64 in
  read name_revision := r_u64 in
  read requested_name := r_string 128 in
  read name := r_string 128 in
  rret (mkRenamed request digest project expected_name_revision name_revision requested_name name).
(** Kind 6, [StartAuthorized]. *)
Definition write_start_authorized (p : StartAuthorized) : Result Writer :=
  let w := [] in
  let w := w_bytes w (sa_operation p) in
  let w := w_u64 w (sa_generation p) in
  let w := w_bytes w (sa_helper p) in
  Ok (w_bytes w (sa_input_digest p)).
Definition read_start_authorized : reader StartAuthorized :=
  read operation := r_array 16 in
  read generation := r_u64 in
  read helper := r_array 16 in
  read input_digest := r_array 32 in
  rret (mkStart operation generation helper input_digest).
(** Kind 33, [RequestStarted]. *)
Definition write_request_started (p : RequestStarted) : Result Writer :=
  let? _ := require (2 <=? rs_request p) in
  let w := [] in
  let w := w_bytes w (rs_operation p) in
  let w := w_u64 w (rs_generation p) in
  let w := w_u32 w (rs_request p) in
  let w := w_u32 w (rs_measured_tokens p) in
  let w := w_bytes w (rs_input_digest p) in
  Ok (w_bytes w (rs_manifest_digest p)).
Definition read_request_started : reader RequestStarted :=
  read operation := r_array 16 in
  read generation := r_u64 in
  read request := r_u32 in
  read measured_tokens := r_u32 in
  read input_digest := r_array 32 in
  read manifest_digest := r_array 32 in
  read _ := rlift (require (2 <=? request)) in
  rret (mkRequestStarted operation generation request measured_tokens input_digest manifest_digest).
(** Kind 7, [CancelRequested]. *)
Definition write_cancel_requested (p : CancelRequested) : Result Writer :=
  let w := [] in
  let w := w_bytes w (cr_operation p) in
  let w := w_u64 w (cr_generation p) in
  Ok (w_byte w (cause_code (cr_cause p))).
Definition read_cancel_requested : reader CancelRequested :=
  read operation := r_array 16 in
  read generation := r_u64 in
  read cause := r_cause in
  rret (mkCancel operation generation cause).
(** Kind 8, [TurnTerminal]. *)
Definition write_turn_terminal (p : TurnTerminal) : Result Writer :=
  let w := [] in
  let w := w_bytes w (tt_operation p) in
  let w := w_u64 w (tt_generation p) in
  let w := w_byte w (terminal_code (tt_kind p)) in
  let w := w_byte w (cause_code (tt_cause p)) in
  let w := w_u64 w (tt_final_cursor p) in
  let w := w_byte w (Z.b2z (tt_usage_known p)) in
  let w := w_u32 w (tt_output_tokens p) in
  let w := w_u64 w (tt_text_offset p) in
  w_string w (tt_text p) MAX_TEXT.
Definition read_turn_terminal : reader TurnTerminal :=
  read operation := r_array 16 in
  read generation := r_u64 in
  read kind := r_code terminal_from_code in
  read cause := r_cause in
  read final_cursor := r_u64 in
  read usage_known := r_flag in
  read output_tokens := r_u32 in
  read text_offset := r_u64 in
  read text := r_string MAX_TEXT in
  rret (mkTerminal operation generation kind cause final_cursor usage_known output_tokens text_offset text).
(** Kind 24 and 25, [ResponseText]. *)
Definition write_response_text (p : ResponseText) : Result Writer :=
  let? _ := require (bool_decide (rt_text p <> []) || (0 <? rt_offset p)) in
  let w := [] in
  let w := w_bytes w (rt_operation p) in
  let w := w_u64 w (rt_generation p) in
  let w := w_u64 w (rt_offset p) in
  w_string w (rt_text p) MAX_TEXT.
Definition read_response_text : reader ResponseText :=
  read operation := r_array 16 in
  read generation := r_u64 in
  read offset := r_u64 in
  read text := r_string MAX_TEXT in
  read _ := rlift (require (bool_decide (text <> []) || (0 <? offset))) in
  rret (mkResponseText operation generation offset text).
(** Kind 15, [ToolResult]. *)
Definition r_option_u64 : reader (option Z) :=
  read some := r_flag in if some then read v := r_u64 in rret (Some v) else rret None.
Definition write_tool_result (p : ToolResult) : Result Writer :=
  let? _ := valid_tool_result p in
  let w := [] in
  let w := w_bytes w (tr_operation p) in
  let w := w_u64 w (tr_generation p) in
  let w := w_u32 w (tr_ordinal p) in
  let w := w_byte w (tr_status p) in
  let? w := w_string w (tr_text p) 16384 in
  let w := w_byte w (Z.b2z (is_some (tr_next_offset p))) in
  let w := match tr_next_offset p with Some offset => w_u64 w offset | None => w end in
  Ok (w_byte w (Z.b2z (tr_truncated p))).
Definition read_tool_result : reader ToolResult :=
  read operation := r_array 16 in
  read generation := r_u64 in
  read ordinal := r_u32 in
  read status := r_byte in
  read text := r_string 16384 in
  read next_offset := r_option_u64 in
  read truncated := r_flag in
  let value := mkToolResult operation generation ordinal status text next_offset truncated in
  read _ := rlift (valid_tool_result value) in
  rret value.
(** Kind 21, [TurnAccepted]. *)
Definition write_composition (w : Writer) (c : Composition) : Writer :=
  let w := w_u32 w (co_omitted_turns c) in
  let w := w_bytes w (co_manifest_digest c) in
  let w := w_u32 w (co_composer_revision c) in
  let w := w_u32 w (co_window_tokens c) in
  let w := w_u32 w (co_output_reservation c) in
  let w := w_u32 w (co_overhead_tokens c) in
  let w := w_u32 w (co_bytes_per_token_milli c) in
  let w := w_u64 w (co_notice_through c) in
  let w := w_u32 w (co_notice_live c) in
  w_byte w (co_notice_views c).
Definition read_composition : reader Composition :=
  read omitted_turns := r_u32 in
  read manifest_digest := r_array 32 in
  read composer_revision := r_u32 in
  read window_tokens := r_u32 in
  read output_reservation := r_u32 in
  read overhead_tokens := r_u32 in
  read bytes_per_token_milli := r_u32 in
  read notice_through := r_u64 in
  read notice_live := r_u32 in
  read notice_views := r_byte in
  rret (mkComposition omitted_turns manifest_digest composer_revision window_tokens output_reservation overhead_tokens
          bytes_per_token_milli notice_through notice_live notice_views).
Definition write_turn_accepted (p : TurnAccepted) : Result Writer :=
  let w := [] in
  let w := w_bytes w (ta_request p) in
  let w := w_bytes w (ta_digest p) in
  let w := w_bytes w (ta_project p) in
  let w := w_optional w (ta_original_conversation p) in
  let w := w_u64 w (ta_expected_generation p) in
  let w := w_bytes w (ta_conversation p) in
  let w := w_u64 w (ta_generation p) in
  let w := w_bytes w (ta_task p) in
  let w := w_bytes w (ta_operation p) in
  let? w := w_string w (ta_model p) 1024 in
  let w := w_bytes w (ta_configuration_digest p) in
  let w := w_bytes w (ta_instructions_digest p) in
  let w := w_bytes w (ta_input_digest p) in
  if decide (MAX_COMPOSED_PRIOR < zlen (ta_prior_operations p)) then Err Limit else
  let w := w_bytes w (be_bytes 2 (wrap 16 (zlen (ta_prior_operations p)))) in
  let w := foldl w_bytes w (ta_prior_operations p) in
  let? w := w_string w (ta_prompt p) MAX_PROMPT in
  let w := w_u64 w (ta_event_cursor p) in
  let w := write_composition w (ta_composition p) in
  let? _ := require ((ta_thinking_level p <=? MAX_THINKING_LEVEL) && (ta_thinking_request p <=? MAX_THINKING_REQUEST)) in
  let w := w_byte w (ta_thinking_level p) in
  Ok (w_byte w (ta_thinking_request p)).
Definition read_turn_accepted : reader TurnAccepted :=
  read request := r_array 16 in
  read digest := r_array 32 in
  read project := r_array 16 in
  read original_conversation := r_optional in
  read expected_generation := r_u64 in
  read conversation := r_array 16 in
  read generation := r_u64 in
  read task := r_array 16 in
  read operation := r_array 16 in
  read model := r_string 1024 in
  read configuration_digest := r_array 32 in
  read instructions_digest := r_array 32 in
  read input_digest := r_array 32 in
  read count := r_u16 in
  if decide (MAX_COMPOSED_PRIOR < count) then rlift (Err Limit) else
  read prior_operations := r_many (Z.to_nat count) (r_array 16) in
  read prompt := r_string MAX_PROMPT in
  read event_cursor := r_u64 in
  read composition := read_composition in
  read thinking_level := r_byte in
  read thinking_request := r_byte in
  read _ := rlift (require ((thinking_level <=? MAX_THINKING_LEVEL) && (thinking_request <=? MAX_THINKING_REQUEST))) in
  rret (mkAccepted request digest project original_conversation expected_generation conversation generation task operation
          model configuration_digest instructions_digest input_digest prior_operations prompt event_cursor composition
          thinking_level thinking_request).

(** ** The widths of the fields. *)
Record input_queued_ok (p : InputQueued) : Prop := {
  ok_iq_request : Id_ok (iq_request p); ok_iq_digest : Hash_ok (iq_digest p); ok_iq_input : Id_ok (iq_input p);
  ok_iq_dispatch_request : Id_ok (iq_dispatch_request p); ok_iq_project : Id_ok (iq_project p);
  ok_iq_conversation : Id_ok (iq_conversation p); ok_iq_expected_generation : u64 (iq_expected_generation p);
  ok_iq_prompt : str_ok (iq_prompt p); ok_iq_order_revision : u64 (iq_order_revision p);
}.
Record input_reordered_ok (p : InputReordered) : Prop := {
  ok_ir_request : Id_ok (ir_request p); ok_ir_digest : Hash_ok (ir_digest p); ok_ir_input : Id_ok (ir_input p);
  ok_ir_after : forall a, ir_after p = Some a -> Id_ok a;
  ok_ir_expected_order_revision : u64 (ir_expected_order_revision p);
  ok_ir_order_revision : u64 (ir_order_revision p);
}.
Record input_decision_ok (p : InputDecision) : Prop := {
  ok_id_request : Id_ok (id_request p); ok_id_digest : Hash_ok (id_digest p); ok_id_input : Id_ok (id_input p);
}.
Record input_promoted_ok (p : InputPromoted) : Prop := {
  ok_ip_request : Id_ok (ip_request p); ok_ip_digest : Hash_ok (ip_digest p); ok_ip_input : Id_ok (ip_input p);
  ok_ip_target_operation : Id_ok (ip_target_operation p); ok_ip_target_generation : u64 (ip_target_generation p);
}.
Record pending_init_ok (p : PendingInit) : Prop := {
  ok_pi_request : Id_ok (pi_request p); ok_pi_digest : Hash_ok (pi_digest p); ok_pi_mode : u8 (pi_mode p);
  ok_pi_configuration_revision : u64 (pi_configuration_revision p);
  ok_pi_configuration_digest : Hash_ok (pi_configuration_digest p); ok_pi_graph : Id_ok (pi_graph p);
}.
Record active_binding_ok (p : ActiveBinding) : Prop := {
  ok_ab_request : Id_ok (ab_request p); ok_ab_generation : u64 (ab_generation p); ok_ab_graph : Id_ok (ab_graph p);
  ok_ab_configuration_digest : Hash_ok (ab_configuration_digest p);
}.
Record project_registered_ok (p : ProjectRegistered) : Prop := {
  ok_pr_request : Id_ok (pr_request p); ok_pr_digest : Hash_ok (pr_digest p); ok_pr_project : Id_ok (pr_project p);
  ok_pr_location : str_ok (pr_location p); ok_pr_device : u64 (pr_device p); ok_pr_inode : u64 (pr_inode p);
  ok_pr_registry_revision : u64 (pr_registry_revision p); ok_pr_visibility : u8 (pr_visibility p);
}.
Record project_alias_ok (p : ProjectRequestAlias) : Prop := {
  ok_pa_request : Id_ok (pa_request p); ok_pa_digest : Hash_ok (pa_digest p);
  ok_pa_location : str_ok (pa_location p); ok_pa_project : Id_ok (pa_project p);
  ok_pa_registry_revision : u64 (pa_registry_revision p);
}.
Record project_renamed_ok (p : ProjectRenamed) : Prop := {
  ok_pn_request : Id_ok (pn_request p); ok_pn_digest : Hash_ok (pn_digest p); ok_pn_project : Id_ok (pn_project p);
  ok_pn_expected_name_revision : u64 (pn_expected_name_revision p); ok_pn_name_revision : u64 (pn_name_revision p);
  ok_pn_requested_name : str_ok (pn_requested_name p); ok_pn_name : str_ok (pn_name p);
}.
Record start_authorized_ok (p : StartAuthorized) : Prop := {
  ok_sa_operation : Id_ok (sa_operation p); ok_sa_generation : u64 (sa_generation p);
  ok_sa_helper : Id_ok (sa_helper p); ok_sa_input_digest : Hash_ok (sa_input_digest p);
}.
Record request_started_ok (p : RequestStarted) : Prop := {
  ok_rs_operation : Id_ok (rs_operation p); ok_rs_generation : u64 (rs_generation p);
  ok_rs_request : u32 (rs_request p); ok_rs_measured_tokens : u32 (rs_measured_tokens p);
  ok_rs_input_digest : Hash_ok (rs_input_digest p); ok_rs_manifest_digest : Hash_ok (rs_manifest_digest p);
}.
Record cancel_requested_ok (p : CancelRequested) : Prop := {
  ok_cr_operation : Id_ok (cr_operation p); ok_cr_generation : u64 (cr_generation p);
}.
Record turn_terminal_ok (p : TurnTerminal) : Prop := {
  ok_tt_operation : Id_ok (tt_operation p); ok_tt_generation : u64 (tt_generation p);
  ok_tt_final_cursor : u64 (tt_final_cursor p); ok_tt_output_tokens : u32 (tt_output_tokens p);
  ok_tt_text_offset : u64 (tt_text_offset p); ok_tt_text : str_ok (tt_text p);
}.
Record response_text_ok (p : ResponseText) : Prop := {
  ok_rt_operation : Id_ok (rt_operation p); ok_rt_generation : u64 (rt_generation p);
  ok_rt_offset : u64 (rt_offset p); ok_rt_text : str_ok (rt_text p);
}.
Record tool_result_ok (p : ToolResult) : Prop := {
  ok_tr_operation : Id_ok (tr_operation p); ok_tr_generation : u64 (tr_generation p); ok_tr_ordinal : u32 (tr_ordinal p);
  ok_tr_status : u8 (tr_status p); ok_tr_text : str_ok (tr_text p);
  ok_tr_next_offset : forall v, tr_next_offset p = Some v -> u64 v;
}.
Record composition_ok (c : Composition) : Prop := {
  ok_co_omitted_turns : u32 (co_omitted_turns c); ok_co_manifest_digest : Hash_ok (co_manifest_digest c);
  ok_co_composer_revision : u32 (co_composer_revision c); ok_co_window_tokens : u32 (co_window_tokens c);
  ok_co_output_reservation : u32 (co_output_reservation c); ok_co_overhead_tokens : u32 (co_overhead_tokens c);
  ok_co_bytes_per_token_milli : u32 (co_bytes_per_token_milli c); ok_co_notice_through : u64 (co_notice_through c);
  ok_co_notice_live : u32 (co_notice_live c); ok_co_notice_views : u8 (co_notice_views c);
}.
Record turn_accepted_ok (p : TurnAccepted) : Prop := {
  ok_ta_request : Id_ok (ta_request p); ok_ta_digest : Hash_ok (ta_digest p); ok_ta_project : Id_ok (ta_project p);
  ok_ta_original_conversation : forall a, ta_original_conversation p = Some a -> Id_ok a;
  ok_ta_expected_generation : u64 (ta_expected_generation p); ok_ta_conversation : Id_ok (ta_conversation p);
  ok_ta_generation : u64 (ta_generation p); ok_ta_task : Id_ok (ta_task p); ok_ta_operation : Id_ok (ta_operation p);
  ok_ta_model : str_ok (ta_model p); ok_ta_configuration_digest : Hash_ok (ta_configuration_digest p);
  ok_ta_instructions_digest : Hash_ok (ta_instructions_digest p); ok_ta_input_digest : Hash_ok (ta_input_digest p);
  ok_ta_prior_operations : Forall Id_ok (ta_prior_operations p); ok_ta_prompt : str_ok (ta_prompt p);
  ok_ta_event_cursor : u64 (ta_event_cursor p); ok_ta_composition : composition_ok (ta_composition p);
  ok_ta_thinking_level : u8 (ta_thinking_level p); ok_ta_thinking_request : u8 (ta_thinking_request p);
}.

(** ** Writer and reader agree. *)
Lemma input_queued_written : written_by read_input_queued input_queued_ok write_input_queued.
Proof. plain_kind read_input_queued write_input_queued. Qed.
Lemma input_reordered_written : written_by read_input_reordered input_reordered_ok write_input_reordered.
Proof. plain_kind read_input_reordered write_input_reordered. Qed.
Lemma input_decision_written : written_by read_input_decision input_decision_ok write_input_decision.
Proof. plain_kind read_input_decision write_input_decision. Qed.
Lemma input_promoted_written : written_by read_input_promoted input_promoted_ok write_input_promoted.
Proof. plain_kind read_input_promoted write_input_promoted. Qed.
Lemma pending_init_written : written_by read_pending_init pending_init_ok write_pending_init.
Proof. plain_kind read_pending_init write_pending_init. Qed.
Lemma active_binding_written : written_by read_active_binding active_binding_ok write_active_binding.
Proof. plain_kind read_active_binding write_active_binding. Qed.
Lemma project_registered_written : written_by read_project_registered project_registered_ok write_project_registered.
Proof. plain_kind read_project_registered write_project_registered. Qed.
Lemma project_alias_written : written_by read_project_alias project_alias_ok write_project_alias.
Proof. plain_kind read_project_alias write_project_alias. Qed.
Lemma project_renamed_written : written_by read_project_renamed project_renamed_ok write_project_renamed.
Proof. plain_kind read_project_renamed write_project_renamed. Qed.
Lemma start_authorized_written : written_by read_start_authorized start_authorized_ok write_start_authorized.
Proof. plain_kind read_start_authorized write_start_authorized. Qed.
Lemma request_started_written : written_by read_request_started request_started_ok write_request_started.
Proof. plain_kind read_request_started write_request_started. Qed.
Lemma cancel_requested_written : written_by read_cancel_requested cancel_requested_ok write_cancel_requested.
Proof. plain_kind read_cancel_requested write_cancel_requested. Qed.
Lemma turn_terminal_written : written_by read_turn_terminal turn_terminal_ok write_turn_terminal.
Proof. plain_kind read_turn_terminal write_turn_terminal. Qed.
Lemma response_text_written : written_by read_response_text response_text_ok write_response_text.
Proof. plain_kind read_response_text write_response_text. Qed.

(** Kind 15. *)
Definition option64_field (o : option Z) : bytes := match o with Some v => 1 :: be_bytes 8 v | None => [0] end.
Lemma parses_option_u64 : parses r_option_u64 (fun o e => (forall v, o = Some v -> u64 v) /\ e = option64_field o).
Proof.
  unfold r_option_u64. field_next. case_match; repeat field_next; rewrite ?app_nil_r; split; naive_solver.
Qed.
Lemma reads_option_u64 o : (forall v, o = Some v -> u64 v) -> reads r_option_u64 (option64_field o) o.
Proof.
  intros Ho. unfold r_option_u64. destruct o as [v|]; cbn [option64_field].
  - change 1 with (Z.b2z true). byte_next. specialize (Ho v eq_refl). cbv iota. repeat byte_next.
  - change 0 with (Z.b2z false). byte_next. apply reads_ret.
Qed.
Lemma bytes_ok_option64 o : bytes_ok (option64_field o).
Proof. destruct o; cbn; [|by_decide]. apply bytes_ok_cons; [by_decide|apply be_bytes_ok]. Qed.
Lemma valid_tool_result_no_panic p : valid_tool_result p <> Panic.
Proof. unfold valid_tool_result. by case_match. Qed.
Lemma tool_result_offset w (o : option Z) :
  match o with Some offset => w_u64 (w_byte w (Z.b2z (is_some o))) offset | None => w_byte w (Z.b2z (is_some o)) end =
  w ++ option64_field o.
Proof. destruct o; cbn; unfold w_u64, w_bytes, w_byte; [by rewrite <- app_assoc|done]. Qed.
Lemma tool_result_written : written_by read_tool_result tool_result_ok write_tool_result.
Proof.
  apply written_by_reads.
  - unfold read_tool_result. repeat field_next. eapply parses_bind; [apply parses_option_u64|intros ? ? [? ->]]. field_next.
    apply (parses_validate _ tt); [apply valid_tool_result_no_panic|]. intros Hv. field_next. split; [by constructor|].
    unfold write_tool_result. rewrite Hv. cbn -[is_some]. rewrite w_string_field by done. cbn [obind].
    rewrite tool_result_offset. layout. by rewrite ?app_nil_r.
  - intros p e [] Hw. unfold write_tool_result in Hw. field_wrote. subst. rewrite tool_result_offset. layout. split.
    + unfold read_tool_result. repeat byte_next. eapply reads_bind; [by apply reads_option_u64|cbv beta]. byte_next.
      destruct p. cbn in *. eapply reads_last; [|apply reads_ret]. destruct w. rewrite Hw0. apply reads_lift.
    + repeat first [bytes_next|apply bytes_ok_option64].
Qed.

(** Kind 21. *)
Lemma write_composition_app w c : write_composition w c = w ++ write_composition [] c.
Proof. unfold write_composition. layout. done. Qed.
Lemma parses_composition : parses read_composition (fun c e => composition_ok c /\ e = write_composition [] c).
Proof.
  unfold read_composition. repeat field_next. split; [by constructor|]. unfold write_composition. cbn -[w_bytes w_u32 w_u64 w_byte].
  layout. done.
Qed.
Lemma reads_composition c : composition_ok c -> reads read_composition (write_composition [] c) c.
Proof. intros []. unfold read_composition, write_composition. layout. repeat byte_next. destruct c. apply reads_ret. Qed.
Lemma bytes_ok_composition c : composition_ok c -> bytes_ok (write_composition [] c).
Proof. intros []. unfold write_composition. layout. repeat bytes_next. Qed.
Lemma foldl_w_bytes w l : foldl w_bytes w l = w ++ concat l.
Proof. revert w. induction l as [|x l IH]; intros w; cbn; [by rewrite app_nil_r|]. rewrite IH. unfold w_bytes. by rewrite <- app_assoc. Qed.
Lemma parses_ids n : parses (r_many n (r_array 16)) (fun l e => length l = n /\ Forall Id_ok l /\ e = concat l).
Proof.
  eapply parses_weaken; [apply (parses_many n (r_array 16) Id_ok (fun i => i))|].
  - eapply parses_weaken; [by apply parses_array|]. by intros a e [-> ?].
  - intros l e (? & ? & ->). split; [done|]. split; [done|]. by rewrite list_fmap_id.
Qed.
Lemma reads_ids l n : n = length l -> Forall Id_ok l -> reads (r_many n (r_array 16)) (concat l) l.
Proof.
  intros -> Hl. rewrite <- (list_fmap_id l) at 2. apply (reads_many _ _ (fun i => i)); [done|].
  eapply Forall_impl; [exact Hl|]. intros i Hi. by apply reads_array.
Qed.
Lemma bytes_ok_ids l : Forall Id_ok l -> bytes_ok (concat l).
Proof. intros Hl. rewrite <- (list_fmap_id l). apply bytes_ok_concat. eapply Forall_impl; [exact Hl|]. by intros i [_ ?]. Qed.
Lemma turn_accepted_written : written_by read_turn_accepted turn_accepted_ok write_turn_accepted.
Proof.
  apply written_by_reads.
  - unfold read_turn_accepted. repeat field_next. case_decide as Hc; [apply parses_err|].
    eapply parses_bind; [apply parses_ids|]. intros l e' (Hl & Hids & ->). field_next. field_next.
    eapply parses_bind; [apply parses_composition|]. intros c e' (Hco & ->). repeat field_next.
    split; [by constructor|]. unfold write_turn_accepted. cbn -[require write_composition MAX_COMPOSED_PRIOR].
    rewrite w_string_field by done. cbn [obind]. apply zlen_to_nat in Hl; [|unfold uint in *; lia]. rewrite Hl.
    rewrite decide_False by done. rewrite wrap_small by done. rewrite foldl_w_bytes, w_string_field by done. cbn [obind].
    rewrite write_composition_app, (proj2 (require_Ok _ tt)) by done. cbn [obind]. layout. by rewrite ?app_nil_r.
  - intros p e [] Hw. unfold write_turn_accepted in Hw. field_wrote. case_decide as Hc; [done|]. field_wrote. subst.
    pose proof (zlen_nonneg (ta_prior_operations p)). unfold MAX_COMPOSED_PRIOR in Hc.
    assert (u16 (zlen (ta_prior_operations p))) by (unfold uint; lia).
    rewrite wrap_small, foldl_w_bytes, write_composition_app by done. layout. split.
    + unfold read_turn_accepted. do 14 byte_next.
      rewrite decide_False by (unfold MAX_COMPOSED_PRIOR; lia).
      eapply reads_bind; [apply reads_ids; [unfold zlen; lia|done]|cbv beta]. do 2 byte_next.
      eapply reads_bind; [by apply reads_composition|cbv beta]. repeat byte_next. destruct p. apply reads_ret.
    + repeat first [bytes_next|by apply bytes_ok_composition|by apply bytes_ok_ids].
Qed.
