(* ===== verification/JobRecords.v ===== *)
(** * Job record payloads (conversation/codec.rs): kinds 26 to 30.

    [JobIntent], [JobCancelRequested], [JobSettled], [JobResult] and
    [JobRetention] with their writers and readers. The reader of a job result
    takes the form of its body from the number of bytes left. *)
From Stdlib Require Import ZArith Lia String.
From stdpp Require Import prelude list.
From S2P Require Import Prelude PayloadId Codec Fields Envelope Policy PathGuard Types Text Rules Tables.

(** ** Kinds 26 and 27. *)
Definition job_intent_fields (w : Writer) (p : JobIntent) : Writer :=
  let w := w_byte w (job_origin_code (ji_origin p)) in
  let w := w_u32 w (ji_agent p) in
  let w := match ji_origin p with
           | ByModel operation generation ordinal => w_u32 (w_u64 (w_bytes w operation) generation) ordinal
           | ByPerson input => w_bytes w input
           end in
  w_u64 w (ji_time p).
Definition write_job_intent (p : JobIntent) : Result Writer :=
  let? _ := intent_validate p in Ok (job_intent_fields [] p).
Definition read_origin (origin : Z) : reader JobOrigin :=
  if origin =? 1 then
    read operation := r_array 16 in
    read generation := r_u64 in
    read ordinal := r_u32 in
    rret (ByModel operation generation ordinal)
  else if origin =? 2 then read input := r_array 16 in rret (ByPerson input)
  else rlift (Err Corrupt).
Definition read_job_intent : reader JobIntent :=
  read origin := r_byte in
  read agent := r_u32 in
  read origin := read_origin origin in
  read time := r_u64 in
  let value := mkJobIntent origin agent time in
  read _ := rlift (intent_validate value) in
  rret value.
Definition job_cancel_fields (w : Writer) (p : JobCancelRequested) : Writer :=
  let w := w_bytes w (jc_job p) in
  let w := w_byte w (requester_code (jc_requester p)) in
  let w := w_byte w (job_reason_code (jc_reason p)) in
  w_byte w (Z.b2z (jc_kill p)).
Definition write_job_cancel (p : JobCancelRequested) : Result Writer :=
  let? _ := cancel_validate p in Ok (job_cancel_fields [] p).
Definition read_job_cancel : reader JobCancelRequested :=
  read job := r_array 16 in
  read requester := r_code requester_from_code in
  read reason := r_code job_reason_from_code in
  read kill := r_flag in
  let value := mkJobCancelRequested job requester reason kill in
  read _ := rlift (cancel_validate value) in
  rret value.

(** ** Kind 28. *)
Definition write_stream (w : Writer) (s : CaptureStream) : Writer :=
  let w := w_u64 w (cs_observed_bytes s) in
  let w := w_u64 w (cs_stored_bytes s) in
  let w := w_byte w (Z.b2z (is_some (cs_digest s))) in
  let w := w_bytes w (default (zeros 32) (cs_digest s)) in
  let w := w_u64 w (cs_replacements s) in
  let w := w_u64 w (cs_unnumbered_replacements s) in
  let w := w_u64 w (cs_literal_replacements s) in
  let w := w_byte w (wrap 8 (zlen (cs_kinds s))) in
  let w := foldl (fun w k => w_u64 (w_byte w (secret_kind_code k.1)) k.2) w (cs_kinds s) in
  let w := w_u64 w (cs_loss_span_count s) in
  let w := w_u64 w (cs_withheld_bytes s) in
  let w := w_byte w (wrap 8 (zlen (cs_spans s))) in
  let w := foldl (fun w span =>
    w_byte (w_u64 (w_u64 w (ls_stored_offset span)) (ls_withheld_bytes span)) (loss_code (ls_reason span))) w (cs_spans s) in
  let w := w_byte w (Z.b2z (cs_degraded s)) in
  let w := w_u64 w (cs_discarded_bytes s) in
  w_byte w (Z.b2z (cs_eof s)).
Definition read_digest : reader (option Hash) :=
  read present := r_flag in
  read digest := r_array 32 in
  read _ := rlift (require (present || bool_decide (digest = zeros 32))) in
  rret (if present then Some digest else None).
Definition read_kind_count : reader (SecretKind * Z) :=
  read kind := r_code secret_kind_from in
  read count := r_u64 in
  rret (kind, count).
Definition read_span : reader LossSpan :=
  read stored_offset := r_u64 in
  read withheld_bytes := r_u64 in
  read reason := r_code loss_from in
  rret (mkLossSpan stored_offset withheld_bytes reason).
(** [SecretKind::ALL.len()] is 33. *)
Definition read_stream : reader CaptureStream :=
  read observed_bytes := r_u64 in
  read stored_bytes := r_u64 in
  read digest := read_digest in
  read replacements := r_u64 in
  read unnumbered_replacements := r_u64 in
  read literal_replacements := r_u64 in
  read count := r_byte in
  read _ := rlift (require (count <=? 33)) in
  read kinds := r_many (Z.to_nat count) read_kind_count in
  read loss_span_count := r_u64 in
  read withheld_bytes := r_u64 in
  read count := r_byte in
  read _ := rlift (require (count =? Z.min loss_span_count MAX_CAPTURE_SPANS)) in
  read spans := r_many (Z.to_nat count) read_span in
  read degraded := r_flag in
  read discarded_bytes := r_u64 in
  read eof := r_flag in
  rret (mkStream observed_bytes stored_bytes digest replacements unnumbered_replacements literal_replacements kinds
          loss_span_count withheld_bytes spans degraded discarded_bytes eof).
Definition write_job_stream (w : Writer) (s : JobStream) : Writer := w_u64 (write_stream w (js_capture s)) (js_lines s).
Definition read_job_stream : reader JobStream :=
  read capture := read_stream in
  read lines := r_u64 in
  rret (mkJobStream capture lines).
Definition read_number : reader CaptureNumber :=
  read number := r_u16 in
  read kind := r_code secret_kind_from in
  read origin := r_code origin_from in
  rret (mkCaptureNumber number kind origin).
Definition redaction_ran (s : JobCaptureState) : Z := Z.b2z (bool_decide (s <> JcInterrupted)).
Definition job_settled_fields (w : Writer) (p : JobSettled) : Writer :=
  let w := w_bytes w (jd_job p) in
  let w := w_byte w (job_outcome_code (jd_outcome p)) in
  let w := w_byte w (job_reason_code (jd_reason p)) in
  let w := w_byte w (jd_exit_kind p) in
  let w := w_u32 w (jd_exit_value p) in
  let w := w_byte w (cleanup_code (jd_cleanup p)) in
  let w := w_byte w (jd_unconfirmed_reason p) in
  let w := w_u32 w (jd_escapees p) in
  let w := w_u64 w (jd_elapsed_ms p) in
  let w := w_byte w (job_capture_code (jd_capture_state p)) in
  let w := w_byte w (capture_reason_code (jd_capture_reason p)) in
  let w := w_byte w (redaction_ran (jd_capture_state p)) in
  let w := foldl write_job_stream w [jd_stdout p; jd_stderr p] in
  let w := w_u32 w (jd_distinct_numbers p) in
  let w := w_u16 w (wrap 16 (zlen (jd_numbers p))) in
  let w := foldl (fun w n =>
    w_byte (w_byte (w_u16 w (nu_number n)) (secret_kind_code (nu_kind n))) (origin_code (nu_origin n))) w (jd_numbers p) in
  let w := w_u32 w (jd_pause_count p) in
  let w := w_u64 w (jd_first_pause_ms p) in
  let w := w_u64 w (jd_paused_ms p) in
  let w := w_u64 w (jd_final_reservation p) in
  w_u64 w (jd_settled_time p).
Definition write_job_settled (p : JobSettled) : Result Writer :=
  let? _ := settled_validate p in Ok (job_settled_fields [] p).
Definition read_job_settled : reader JobSettled :=
  read job := r_array 16 in
  read outcome := r_code job_outcome_from_code in
  read reason := r_code job_reason_from_code in
  read exit_kind := r_byte in
  read exit_value := r_u32 in
  read cleanup := r_code cleanup_from in
  read unconfirmed_reason := r_byte in
  read escapees := r_u32 in
  read elapsed_ms := r_u64 in
  read capture_state := r_code job_capture_from in
  read capture_reason := r_code capture_reason_from in
  read redaction := r_byte in
  read _ := rlift (require (redaction =? redaction_ran capture_state)) in
  read stdout := read_job_stream in
  read stderr := read_job_stream in
  read distinct_numbers := r_u32 in
  read count := r_u16 in
  read _ := rlift (require (count <=? MAX_CAPTURE_NUMBERS)) in
  read numbers := r_many (Z.to_nat count) read_number in
  read pause_count := r_u32 in
  read first_pause_ms := r_u64 in
  read paused_ms := r_u64 in
  read final_reservation := r_u64 in
  read settled_time := r_u64 in
  let value := mkJobSettled job outcome reason exit_kind exit_value cleanup unconfirmed_reason escapees elapsed_ms
                 capture_state capture_reason stdout stderr distinct_numbers numbers pause_count first_pause_ms paused_ms
                 final_reservation settled_time in
  read _ := rlift (settled_validate value) in
  rret value.

(** ** Kind 29. *)
Definition write_snapshot (w : Writer) (s : JobSnapshot) : Writer :=
  let w := w_byte w (run_state_code (sn_state s)) in
  let w := w_byte w (run_state_reason (sn_state s)) in
  let w := w_bytes w (sn_numbers s) in
  let w := w_u64 w (sn_elapsed_ms s) in
  let w := w_u64 w (sn_stdout_bytes s) in
  w_u64 w (sn_stderr_bytes s).
Definition read_run_state : reader JobRunState :=
  read state := r_byte in
  read reason := r_byte in
  rlift (ok_or Corrupt (run_state_from state reason)).
Definition read_snapshot : reader JobSnapshot :=
  read state := read_run_state in
  read numbers := r_array 3 in
  read elapsed_ms := r_u64 in
  read stdout_bytes := r_u64 in
  read stderr_bytes := r_u64 in
  rret (mkSnapshot state numbers elapsed_ms stdout_bytes stderr_bytes).
Definition write_page (w : Writer) (page : JobPage) : Writer :=
  let w := w_byte w (output_stream_code (jp_stream page)) in
  let w := w_u64 w (jp_start page) in
  let w := w_u32 w (jp_source_len page) in
  let w := w_u64 w (jp_total page) in
  let w := w_byte w (page_state_code (jp_state page)) in
  w_bytes w (jp_digest page).
Definition read_job_page : reader JobPage :=
  read stream := r_code output_stream_from_code in
  read start := r_u64 in
  read source_len := r_u32 in
  read total := r_u64 in
  read state := r_code page_state_from_code in
  read digest := r_array 32 in
  rret (mkJobPage stream start source_len total state digest).
Definition write_view (w : Writer) (view : list JobPage) : Writer := foldl write_page (w_byte w (wrap 8 (zlen view))) view.
Definition read_view (ranges : Z) : reader (list JobPage) :=
  read count := r_byte in
  read _ := rlift (require (count =? ranges)) in
  r_many (Z.to_nat ranges) read_job_page.
Definition view_ranges (size : Z) (wait : bool) : option Z :=
  let base := if wait then JOB_WAIT_BLOCK else JOB_STATE_BLOCK in
  snd <$> list_find (fun n => size = base + job_view_block n) (seqZ 0 (MAX_JOB_VIEW_RANGES + 1)).
Definition write_list_entry (w : Writer) (e : JobListEntry) : Writer :=
  let w := w_bytes w (le_job e) in
  let w := w_byte w (run_state_code (le_state e)) in
  let w := w_byte w (run_state_reason (le_state e)) in
  let w := w_bytes w (le_numbers e) in
  let w := w_u64 w (le_stdout_bytes e) in
  w_u64 w (le_stderr_bytes e).
Definition read_list_entry : reader JobListEntry :=
  read job := r_array 16 in
  read state := read_run_state in
  read numbers := r_array 3 in
  read stdout_bytes := r_u64 in
  read stderr_bytes := r_u64 in
  rret (mkListEntry job state numbers stdout_bytes stderr_bytes).
Definition write_body (w : Writer) (body : JobResultBody) (view : list JobPage) : Writer :=
  match body with
  | BodyNone => w
  | BodyState s => write_view (write_snapshot w s) view
  | BodyWait s e => write_view (w_byte (write_snapshot w s) (wait_end_code e)) view
  | BodyPage page => write_page w page
  | BodyList more entries =>
      foldl write_list_entry (w_byte (w_byte w (wrap 8 (zlen entries))) (Z.b2z more)) entries
  end.
Definition job_result_fields (w : Writer) (p : JobResult) : Writer :=
  let w := w_bytes w (jr_operation p) in
  let w := w_u64 w (jr_generation p) in
  let w := w_u32 w (jr_ordinal p) in
  let w := w_byte w (jr_status p) in
  let w := w_byte w (result_outcome_code (jr_outcome p)) in
  let w := w_bytes w (jr_job p) in
  write_body w (jr_body p) (jr_view p).
Definition write_job_result (p : JobResult) : Result Writer :=
  let? _ := result_validate p in Ok (job_result_fields [] p).
(** [r.bytes.len() - r.offset]. *)
Definition r_remaining : reader Z := fun r => Ok (zlen (rd_bytes r) - rd_offset r, r).
Definition read_body (size : Z) : reader (JobResultBody * list JobPage) :=
  if size =? 0 then rret (BodyNone, [])
  else if size =? JOB_PAGE_BLOCK then read page := read_job_page in rret (BodyPage page, [])
  else match view_ranges size false, view_ranges size true with
       | Some ranges, _ =>
           read snapshot := read_snapshot in
           read view := read_view ranges in
           rret (BodyState snapshot, view)
       | None, Some ranges =>
           read snapshot := read_snapshot in
           read e := r_code wait_end_from_code in
           read view := read_view ranges in
           rret (BodyWait snapshot e, view)
       | None, None =>
           read count := r_byte in
           read _ := rlift (require ((count <=? MAX_JOB_LIST_ENTRIES) && (size =? 2 + count * JOB_LIST_ENTRY))) in
           read more := r_flag in
           read entries := r_many (Z.to_nat count) read_list_entry in
           rret (BodyList more entries, [])
       end.
Definition read_job_result : reader JobResult :=
  read operation := r_array 16 in
  read generation := r_u64 in
  read ordinal := r_u32 in
  read status := r_byte in
  read outcome := r_code result_outcome_from_code in
  read job := r_array 16 in
  read size := r_remaining in
  read (body, view) := read_body size in
  let value := mkJobResult operation generation ordinal status outcome job body view in
  read _ := rlift (result_validate value) in
  rret value.

(** ** Kind 30. *)
Definition job_retention_fields (w : Writer) (p : JobRetention) : Writer :=
  let w := w_bytes w (jn_job p) in
  let w := w_byte w (retention_action_code (jn_action p)) in
  let w := w_byte w (retention_author_code (jn_author p)) in
  let w := w_u64 w (jn_time p) in
  let w := match jn_author p with
           | PersonAuthor request => w_bytes w request
           | ModelAuthor operation generation ordinal => w_u32 (w_u64 (w_bytes w operation) generation) ordinal
           end in
  w_text32 w (jn_note p).
Definition write_job_retention (p : JobRetention) : Result Writer :=
  if decide (MAX_JOB_NOTE < zlen (jn_note p)) then Err Limit else
  let? _ := retention_validate p in Ok (job_retention_fields [] p).
Definition read_author (author : Z) : reader RetentionAuthor :=
  if author =? 1 then read request := r_array 16 in rret (PersonAuthor request)
  else if author =? 2 then
    read operation := r_array 16 in
    read generation := r_u64 in
    read ordinal := r_u32 in
    rret (ModelAuthor operation generation ordinal)
  else rlift (Err Corrupt).
Definition read_job_retention : reader JobRetention :=
  read job := r_array 16 in
  read action := r_code retention_action_from_code in
  read author := r_byte in
  read time := r_u64 in
  read author := read_author author in
  read note := r_bounded_string MAX_JOB_NOTE in
  let value := mkRetention job action author time note in
  read _ := rlift (retention_validate value) in
  rret value.

(** ** The widths of the fields. *)
Definition origin_ok (o : JobOrigin) : Prop :=
  match o with ByModel operation generation ordinal => Id_ok operation /\ u64 generation /\ u32 ordinal | ByPerson input => Id_ok input end.
Record job_intent_ok (p : JobIntent) : Prop := {
  ok_ji_origin : origin_ok (ji_origin p); ok_ji_agent : u32 (ji_agent p); ok_ji_time : u64 (ji_time p);
}.
Record job_cancel_ok (p : JobCancelRequested) : Prop := { ok_jc_job : Id_ok (jc_job p) }.
Definition span_ok (s : LossSpan) : Prop := u64 (ls_stored_offset s) /\ u64 (ls_withheld_bytes s).
Record stream_ok (s : CaptureStream) : Prop := {
  ok_cs_observed : u64 (cs_observed_bytes s); ok_cs_stored : u64 (cs_stored_bytes s);
  ok_cs_digest : forall a, cs_digest s = Some a -> Hash_ok a; ok_cs_replacements : u64 (cs_replacements s);
  ok_cs_unnumbered : u64 (cs_unnumbered_replacements s); ok_cs_literal : u64 (cs_literal_replacements s);
  ok_cs_kinds : Forall (fun k => u64 k.2) (cs_kinds s); ok_cs_loss : u64 (cs_loss_span_count s);
  ok_cs_withheld : u64 (cs_withheld_bytes s); ok_cs_spans : Forall span_ok (cs_spans s);
  ok_cs_discarded : u64 (cs_discarded_bytes s);
}.
Definition job_stream_ok (s : JobStream) : Prop := stream_ok (js_capture s) /\ u64 (js_lines s).
Record job_settled_ok (p : JobSettled) : Prop := {
  ok_jd_job : Id_ok (jd_job p); ok_jd_exit_kind : u8 (jd_exit_kind p); ok_jd_exit_value : u32 (jd_exit_value p);
  ok_jd_unconfirmed_reason : u8 (jd_unconfirmed_reason p); ok_jd_escapees : u32 (jd_escapees p);
  ok_jd_elapsed_ms : u64 (jd_elapsed_ms p); ok_jd_stdout : job_stream_ok (jd_stdout p);
  ok_jd_stderr : job_stream_ok (jd_stderr p); ok_jd_distinct : u32 (jd_distinct_numbers p);
  ok_jd_numbers : Forall (fun n => u16 (nu_number n)) (jd_numbers p); ok_jd_pause_count : u32 (jd_pause_count p);
  ok_jd_first_pause_ms : u64 (jd_first_pause_ms p); ok_jd_paused_ms : u64 (jd_paused_ms p);
  ok_jd_reservation : u64 (jd_final_reservation p); ok_jd_settled_time : u64 (jd_settled_time p);
}.
Record snapshot_ok (s : JobSnapshot) : Prop := {
  ok_sn_numbers : array 3 (sn_numbers s); ok_sn_elapsed : u64 (sn_elapsed_ms s); ok_sn_stdout : u64 (sn_stdout_bytes s);
  ok_sn_stderr : u64 (sn_stderr_bytes s);
}.
Record job_page_ok (p : JobPage) : Prop := {
  ok_jp_start : u64 (jp_start p); ok_jp_source_len : u32 (jp_source_len p); ok_jp_total : u64 (jp_total p);
  ok_jp_digest : Hash_ok (jp_digest p);
}.
Record list_entry_ok (e : JobListEntry) : Prop := {
  ok_le_job : Id_ok (le_job e); ok_le_numbers : array 3 (le_numbers e); ok_le_stdout : u64 (le_stdout_bytes e);
  ok_le_stderr : u64 (le_stderr_bytes e);
}.
Definition body_ok (b : JobResultBody) : Prop :=
  match b with
  | BodyNone => True
  | BodyState s | BodyWait s _ => snapshot_ok s
  | BodyPage p => job_page_ok p
  | BodyList _ entries => Forall list_entry_ok entries
  end.
Record job_result_ok (p : JobResult) : Prop := {
  ok_jr_operation : Id_ok (jr_operation p); ok_jr_generation : u64 (jr_generation p); ok_jr_ordinal : u32 (jr_ordinal p);
  ok_jr_status : u8 (jr_status p); ok_jr_job : Id_ok (jr_job p); ok_jr_body : body_ok (jr_body p);
  ok_jr_view : Forall job_page_ok (jr_view p);
}.
Definition author_ok (a : RetentionAuthor) : Prop :=
  match a with
  | PersonAuthor request => Id_ok request
  | ModelAuthor operation generation ordinal => Id_ok operation /\ u64 generation /\ u32 ordinal
  end.
Record job_retention_ok (p : JobRetention) : Prop := {
  ok_jn_job : Id_ok (jn_job p); ok_jn_author : author_ok (jn_author p); ok_jn_time : u64 (jn_time p);
  ok_jn_note : str_ok (jn_note p);
}.

(** ** Kinds 26, 27 and 30. *)
Definition origin_bytes (o : JobOrigin) : bytes :=
  match o with
  | ByModel operation generation ordinal => operation ++ be_bytes 8 generation ++ be_bytes 4 ordinal
  | ByPerson input => input
  end.
Lemma job_intent_layout p :
  job_intent_fields [] p = job_origin_code (ji_origin p) :: be_bytes 4 (ji_agent p) ++ origin_bytes (ji_origin p) ++ be_bytes 8 (ji_time p).
Proof. unfold job_intent_fields, origin_bytes. destruct (ji_origin p); by layout. Qed.
Lemma parses_origin c :
  parses (read_origin c) (fun o e => (origin_ok o /\ c = job_origin_code o) /\ e = origin_bytes o).
Proof.
  unfold read_origin. destruct (Z.eqb_spec c 1) as [->|]; [repeat field_next; cbn; by rewrite app_nil_r|].
  destruct (Z.eqb_spec c 2) as [->|]; [repeat field_next; cbn; by rewrite app_nil_r|apply parses_err].
Qed.
Lemma reads_origin o : origin_ok o -> reads (read_origin (job_origin_code o)) (origin_bytes o) o.
Proof.
  unfold read_origin, origin_bytes. destruct o as [op g n|i]; cbn [origin_ok job_origin_code].
  - intros (? & ? & ?). change (1 =? 1) with true. cbv iota. repeat byte_next.
  - intros ?. change (2 =? 1) with false. change (2 =? 2) with true. cbv iota. repeat byte_next.
Qed.
Lemma bytes_ok_origin o : origin_ok o -> bytes_ok (origin_bytes o).
Proof. destruct o; cbn; intros; destruct_and?; repeat bytes_next. Qed.
Lemma job_intent_written : written_by read_job_intent job_intent_ok write_job_intent.
Proof.
  apply written_by_reads.
  - unfold read_job_intent. repeat field_next. eapply parses_bind; [apply parses_origin|]. intros o e [[Ho ->] ->].
    repeat field_next. validated. split; [by constructor|]. unfold write_job_intent. rewrite Hval. cbn [obind].
    rewrite job_intent_layout. cbn. by rewrite ?app_nil_r, <- ?app_assoc.
  - intros p e [] Hw. unfold write_job_intent in Hw. field_wrote. subst e. rewrite job_intent_layout. split.
    + unfold read_job_intent. do 2 byte_next. eapply reads_bind; [by apply reads_origin|]. byte_next. cbv zeta. destruct p. by apply reads_validated; destruct w.
    + apply bytes_ok_cons; [by destruct (ji_origin p); by_decide|]. repeat first [bytes_next|by apply bytes_ok_origin].
Qed.
Lemma job_cancel_written : written_by read_job_cancel job_cancel_ok write_job_cancel.
Proof.
  apply written_by_reads.
  - unfold read_job_cancel. repeat field_next. validated. split; [by constructor|]. unfold write_job_cancel. rewrite Hval. cbn [obind]. unfold job_cancel_fields. by layout.
  - intros p e [] Hw. unfold write_job_cancel in Hw. field_wrote. subst e. unfold job_cancel_fields. layout. split.
    + unfold read_job_cancel. repeat byte_next. cbv zeta. destruct p. by apply reads_validated; destruct w.
    + repeat bytes_next.
Qed.
Definition author_bytes (a : RetentionAuthor) : bytes :=
  match a with
  | PersonAuthor request => request
  | ModelAuthor operation generation ordinal => operation ++ be_bytes 8 generation ++ be_bytes 4 ordinal
  end.
Lemma job_retention_layout p :
  zlen (jn_note p) <= MAX_JOB_NOTE ->
  job_retention_fields [] p =
  jn_job p ++ retention_action_code (jn_action p) :: retention_author_code (jn_author p) :: be_bytes 8 (jn_time p) ++
  author_bytes (jn_author p) ++ string_field (jn_note p).
Proof.
  unfold MAX_JOB_NOTE. intros Hn. unfold job_retention_fields, author_bytes. rewrite w_text32_field by lia. destruct (jn_author p); by layout.
Qed.
Lemma parses_author c :
  parses (read_author c) (fun o e => (author_ok o /\ c = retention_author_code o) /\ e = author_bytes o).
Proof.
  unfold read_author. destruct (Z.eqb_spec c 1) as [->|]; [repeat field_next; cbn; by rewrite app_nil_r|].
  destruct (Z.eqb_spec c 2) as [->|]; [repeat field_next; cbn; by rewrite app_nil_r|apply parses_err].
Qed.
Lemma reads_author o : author_ok o -> reads (read_author (retention_author_code o)) (author_bytes o) o.
Proof.
  unfold read_author, author_bytes. destruct o as [i|op g n]; cbn [author_ok retention_author_code].
  - intros ?. change (1 =? 1) with true. cbv iota. repeat byte_next.
  - intros (? & ? & ?). change (2 =? 1) with false. change (2 =? 2) with true. cbv iota. repeat byte_next.
Qed.
Lemma bytes_ok_author o : author_ok o -> bytes_ok (author_bytes o).
Proof. destruct o; cbn; intros; destruct_and?; repeat bytes_next. Qed.
Lemma job_retention_written : written_by read_job_retention job_retention_ok write_job_retention.
Proof.
  apply written_by_reads.
  - unfold read_job_retention. repeat field_next. eapply parses_bind; [apply parses_author|]. intros o e' [[Ho ->] ->].
    repeat field_next. validated. split; [by constructor|]. unfold write_job_retention. cbn [jn_note].
    rewrite decide_False by lia. rewrite Hval. cbn [obind]. rewrite job_retention_layout by done. cbn. by rewrite ?app_nil_r, <- ?app_assoc.
  - intros p e [] Hw. unfold write_job_retention in Hw. case_decide; [done|]. field_wrote. subst e. rewrite job_retention_layout by lia. split.
    + unfold read_job_retention. do 4 byte_next. eapply reads_bind; [by apply reads_author|cbv beta]. assert (zlen (jn_note p) <= MAX_JOB_NOTE) by lia.
      byte_next. cbv zeta. destruct p. by apply reads_validated; destruct w.
    + repeat first [bytes_next|by apply bytes_ok_author|apply bytes_ok_cons; [by destruct (jn_author p); by_decide|]].
Qed.

(** ** Kind 28. *)
Definition digest_bytes (o : option Hash) : bytes := Z.b2z (is_some o) :: default (zeros 32) o.
Lemma parses_digest : parses read_digest (fun o e => (forall a, o = Some a -> Hash_ok a) /\ e = digest_bytes o).
Proof.
  unfold read_digest. repeat field_next. rewrite app_nil_r. destruct a; cbn.
  - split; [by intros ? [= <-]|done].
  - apply bool_decide_eq_true in H0 as ->. done.
Qed.
Lemma no_digest_ok : Hash_ok (zeros 32).
Proof. by_decide. Qed.
Lemma reads_digest o : (forall a, o = Some a -> Hash_ok a) -> reads read_digest (digest_bytes o) o.
Proof.
  intros Ho. unfold read_digest, digest_bytes. byte_next. pose proof no_digest_ok.
  assert (Hash_ok (default (zeros 32) o)) by (destruct o; [by apply Ho|done]). byte_next.
  byte_next; [by destruct o|]. destruct o; apply reads_ret.
Qed.
Lemma bytes_ok_digest o : (forall a, o = Some a -> Hash_ok a) -> bytes_ok (digest_bytes o).
Proof. intros Ho. unfold digest_bytes. bytes_next. destruct o; [by apply Ho|by_decide]. Qed.
Definition kind_count_bytes (k : SecretKind * Z) : bytes := secret_kind_code k.1 :: be_bytes 8 k.2.
Lemma parses_kind_count : parses read_kind_count (fun k e => u64 k.2 /\ e = kind_count_bytes k).
Proof. unfold read_kind_count. repeat field_next. split; [done|]. unfold kind_count_bytes. cbn. by rewrite app_nil_r. Qed.
Lemma reads_kind_count k : u64 k.2 -> reads read_kind_count (kind_count_bytes k) k.
Proof. intros ?. unfold read_kind_count, kind_count_bytes. repeat byte_next. destruct k. apply reads_ret. Qed.
Definition span_bytes (s : LossSpan) : bytes :=
  be_bytes 8 (ls_stored_offset s) ++ be_bytes 8 (ls_withheld_bytes s) ++ [loss_code (ls_reason s)].
Lemma parses_span : parses read_span (fun s e => span_ok s /\ e = span_bytes s).
Proof. unfold read_span. by repeat field_next. Qed.
Lemma reads_span s : span_ok s -> reads read_span (span_bytes s) s.
Proof. intros []. unfold read_span, span_bytes. repeat byte_next. destruct s. apply reads_ret. Qed.
Definition stream_bytes (s : CaptureStream) : bytes :=
  be_bytes 8 (cs_observed_bytes s) ++ be_bytes 8 (cs_stored_bytes s) ++ digest_bytes (cs_digest s) ++
  be_bytes 8 (cs_replacements s) ++ be_bytes 8 (cs_unnumbered_replacements s) ++ be_bytes 8 (cs_literal_replacements s) ++
  zlen (cs_kinds s) :: concat (kind_count_bytes <$> cs_kinds s) ++ be_bytes 8 (cs_loss_span_count s) ++
  be_bytes 8 (cs_withheld_bytes s) ++ zlen (cs_spans s) :: concat (span_bytes <$> cs_spans s) ++
  Z.b2z (cs_degraded s) :: be_bytes 8 (cs_discarded_bytes s) ++ [Z.b2z (cs_eof s)].
Definition stream_fits (s : CaptureStream) : Prop :=
  zlen (cs_kinds s) <= 33 /\ zlen (cs_spans s) = Z.min (cs_loss_span_count s) MAX_CAPTURE_SPANS.
Lemma valid_stream_fits s : valid_stream s = true -> stream_fits s.
Proof. unfold valid_stream, stream_fits. rewrite !andb_true_iff. intros. destruct_and!. lia. Qed.
Lemma write_stream_layout w s : stream_fits s -> write_stream w s = w ++ stream_bytes s.
Proof.
  unfold stream_fits, MAX_CAPTURE_SPANS. intros [Hk Hs]. pose proof (zlen_nonneg (cs_kinds s)). pose proof (zlen_nonneg (cs_spans s)).
  unfold write_stream. rewrite !wrap_small by (unfold uint; lia).
  rewrite (foldl_enc _ kind_count_bytes) by (intros; unfold kind_count_bytes; by layout).
  rewrite (foldl_enc _ span_bytes) by (intros; unfold span_bytes; by layout). unfold stream_bytes, digest_bytes. layout. done.
Qed.
Lemma parses_stream : parses read_stream (fun s e => (stream_ok s /\ stream_fits s) /\ e = stream_bytes s).
Proof.
  unfold read_stream. do 2 field_next. eapply parses_bind; [apply parses_digest|]. intros digest ? [? ->]. do 5 field_next.
  eapply parses_bind; [apply parses_many, parses_kind_count|]. intros kinds ? (Hk & ? & ->). do 4 field_next.
  eapply parses_bind; [apply parses_many, parses_span|]. intros spans ? (Hs & ? & ->). repeat field_next.
  apply zlen_to_nat in Hk; [|unfold uint in *; lia]. apply zlen_to_nat in Hs; [|unfold uint in *; lia].
  split; [split; [by constructor|]|]. 
  - unfold stream_fits. cbn. lia.
  - unfold stream_bytes. cbn -[kind_count_bytes span_bytes]. by rewrite Hk, Hs.
Qed.
Lemma reads_stream s : stream_ok s -> stream_fits s -> reads read_stream (stream_bytes s) s.
Proof.
  intros [] [Hk Hs]. unfold read_stream, stream_bytes. do 2 byte_next. eapply reads_bind; [by apply reads_digest|cbv beta].
  do 4 byte_next. byte_next; [by apply Z.leb_le|].
  eapply reads_bind; [apply reads_many; [unfold zlen; lia|]; eapply Forall_impl; [exact ok_cs_kinds0|]; intros; by apply reads_kind_count|cbv beta].
  do 3 byte_next. byte_next; [by apply Z.eqb_eq|].
  eapply reads_bind; [apply reads_many; [unfold zlen; lia|]; eapply Forall_impl; [exact ok_cs_spans0|]; intros; by apply reads_span|cbv beta].
  repeat byte_next. destruct s. apply reads_ret.
Qed.
Lemma bytes_ok_stream s : stream_ok s -> stream_fits s -> bytes_ok (stream_bytes s).
Proof.
  intros [] [Hk Hs]. unfold stream_bytes, MAX_CAPTURE_SPANS in *. pose proof (zlen_nonneg (cs_kinds s)). pose proof (zlen_nonneg (cs_spans s)).
  assert (u8 (zlen (cs_kinds s))) by (unfold uint; lia). assert (u8 (zlen (cs_spans s))) by (unfold uint; lia).
  repeat first [bytes_next|by apply bytes_ok_digest|apply bytes_ok_concat, Forall_forall; intros ? _].
  - unfold kind_count_bytes. repeat bytes_next.
  - unfold span_bytes. repeat bytes_next.
Qed.
(** A list of fields of one width. *)
Lemma zlen_concat_fixed {A} (enc : A -> bytes) n l : Forall (fun a => zlen (enc a) = n) l -> zlen (concat (enc <$> l)) = zlen l * n.
Proof. induction 1 as [|a l Ha _ IH]; [done|]. cbn [fmap list_fmap concat]. rewrite zlen_app, zlen_cons, IH. lia. Qed.
Lemma stream_bytes_len s : stream_ok s -> stream_fits s -> zlen (stream_bytes s) <= 1486.
Proof.
  intros [] [Hk Hs]. unfold MAX_CAPTURE_SPANS in Hs. unfold stream_bytes, digest_bytes.
  assert (zlen (default (zeros 32) (cs_digest s)) = 32) as Hd.
  { destruct (cs_digest s) as [d|]; [apply array_len; by apply ok_cs_digest0|by apply zlen_zeros]. }
  autorewrite with len.
  rewrite (zlen_concat_fixed _ 9) by (apply Forall_forall; intros; unfold kind_count_bytes; by rewrite zlen_cons, zlen_be_bytes).
  rewrite (zlen_concat_fixed _ 17) by (apply Forall_forall; intros; unfold span_bytes; by rewrite !zlen_app, !zlen_be_bytes).
  lia.
Qed.
Definition job_stream_bytes (s : JobStream) : bytes := stream_bytes (js_capture s) ++ be_bytes 8 (js_lines s).
Definition job_stream_fits (s : JobStream) : Prop := stream_fits (js_capture s).
Lemma write_job_stream_layout w s : job_stream_fits s -> write_job_stream w s = w ++ job_stream_bytes s.
Proof. intros Hs. unfold write_job_stream, job_stream_bytes. rewrite write_stream_layout by done. by layout. Qed.
Lemma parses_job_stream : parses read_job_stream (fun s e => (job_stream_ok s /\ job_stream_fits s) /\ e = job_stream_bytes s).
Proof.
  unfold read_job_stream. eapply parses_bind; [apply parses_stream|]. intros c ? [[? ?] ->]. repeat field_next.
  unfold job_stream_bytes. cbn [js_capture js_lines]. by rewrite app_nil_r.
Qed.
Lemma reads_job_stream s : job_stream_ok s -> job_stream_fits s -> reads read_job_stream (job_stream_bytes s) s.
Proof.
  intros [] ?. unfold read_job_stream, job_stream_bytes. eapply reads_bind; [by apply reads_stream|cbv beta]. byte_next. destruct s. apply reads_ret.
Qed.
Definition number_bytes (n : CaptureNumber) : bytes :=
  be_bytes 2 (nu_number n) ++ [secret_kind_code (nu_kind n); origin_code (nu_origin n)].
Lemma parses_number : parses read_number (fun n e => u16 (nu_number n) /\ e = number_bytes n).
Proof. unfold read_number. by repeat field_next. Qed.
Lemma reads_number n : u16 (nu_number n) -> reads read_number (number_bytes n) n.
Proof. intros. unfold read_number, number_bytes. repeat byte_next. destruct n. apply reads_ret. Qed.
Record settled_fits (p : JobSettled) : Prop := {
  sf_stdout : job_stream_fits (jd_stdout p); sf_stderr : job_stream_fits (jd_stderr p);
  sf_numbers : zlen (jd_numbers p) <= MAX_CAPTURE_NUMBERS;
}.
Lemma valid_capture_fits state p : valid_capture state p = true -> settled_fits p.
Proof.
  unfold valid_capture. cbn [forallb]. rewrite !andb_true_iff. intros Hv. destruct_and! Hv.
  constructor; [by apply valid_stream_fits|by apply valid_stream_fits|lia].
Qed.
Lemma settled_valid_fits p : settled_validate p = Ok tt -> settled_fits p.
Proof.
  unfold settled_validate. rewrite require_Ok, !andb_true_iff. intros Hv.
  assert (capture_valid p = true) as Hc by apply Hv. clear Hv. unfold capture_valid in Hc.
  repeat case_match; try done; try by eapply valid_capture_fits.
  cbn [forallb] in Hc. rewrite !andb_true_iff, !bool_decide_eq_true in Hc. destruct_and! Hc.
  constructor; unfold job_stream_fits; [by rewrite H3|by rewrite H9|by rewrite H7].
Qed.
Definition job_settled_bytes (p : JobSettled) : bytes :=
  jd_job p ++ job_outcome_code (jd_outcome p) :: job_reason_code (jd_reason p) :: jd_exit_kind p :: be_bytes 4 (jd_exit_value p) ++
  cleanup_code (jd_cleanup p) :: jd_unconfirmed_reason p :: be_bytes 4 (jd_escapees p) ++ be_bytes 8 (jd_elapsed_ms p) ++
  job_capture_code (jd_capture_state p) :: capture_reason_code (jd_capture_reason p) :: redaction_ran (jd_capture_state p) ::
  job_stream_bytes (jd_stdout p) ++ job_stream_bytes (jd_stderr p) ++ be_bytes 4 (jd_distinct_numbers p) ++
  be_bytes 2 (zlen (jd_numbers p)) ++ concat (number_bytes <$> jd_numbers p) ++ be_bytes 4 (jd_pause_count p) ++
  be_bytes 8 (jd_first_pause_ms p) ++ be_bytes 8 (jd_paused_ms p) ++ be_bytes 8 (jd_final_reservation p) ++
  be_bytes 8 (jd_settled_time p).
Lemma job_settled_layout p : settled_fits p -> job_settled_fields [] p = job_settled_bytes p.
Proof.
  intros [Ho He Hn]. unfold MAX_CAPTURE_NUMBERS in Hn. pose proof (zlen_nonneg (jd_numbers p)). unfold job_settled_fields. cbn [foldl].
  rewrite !write_job_stream_layout, wrap_small by (done || unfold uint; lia).
  rewrite (foldl_enc _ number_bytes) by (intros; unfold number_bytes; by layout). unfold job_settled_bytes. layout. done.
Qed.
Lemma job_settled_len p : job_settled_ok p -> settled_fits p -> zlen (job_settled_bytes p) <= MAX_JOB_SETTLED_PAYLOAD.
Proof.
  intros [] [Ho He Hn]. unfold job_settled_bytes, job_stream_bytes. destruct ok_jd_stdout0, ok_jd_stderr0.
  pose proof (stream_bytes_len _ H Ho). pose proof (stream_bytes_len _ H1 He). autorewrite with len.
  rewrite (zlen_concat_fixed _ 4) by (apply Forall_forall; intros; unfold number_bytes; by rewrite zlen_app, zlen_be_bytes).
  apply array_len in ok_jd_job0. unfold MAX_CAPTURE_NUMBERS, MAX_JOB_SETTLED_PAYLOAD in *. lia.
Qed.
Lemma redaction_u8 s : u8 (redaction_ran s).
Proof. by destruct s; by_decide. Qed.
Lemma job_settled_written : written_by read_job_settled job_settled_ok write_job_settled.
Proof.
  apply written_by_reads.
  - unfold read_job_settled. do 13 field_next. eapply parses_bind; [apply parses_job_stream|]. intros stdout ? [[? Ho] ->].
    eapply parses_bind; [apply parses_job_stream|]. intros stderr ? [[? He] ->]. do 3 field_next.
    eapply parses_bind; [apply parses_many, parses_number|]. intros numbers ? (Hl & ? & ->). repeat field_next.
    validated. split; [by constructor|]. unfold write_job_settled. rewrite Hval. cbn [obind].
    rewrite job_settled_layout by (by apply settled_valid_fits).
    apply zlen_to_nat in Hl; [|unfold uint in *; lia]. match goal with H : (_ =? redaction_ran _) = true |- _ => apply Z.eqb_eq in H; subst end.
    unfold job_settled_bytes. cbn -[job_stream_bytes number_bytes redaction_ran]. by rewrite ?app_nil_r.
  - intros p e Hok Hw. unfold write_job_settled in Hw. field_wrote. subst e. destruct w. pose proof (settled_valid_fits p Hw0) as Hf.
    rewrite job_settled_layout by done. destruct Hok, Hf. unfold MAX_CAPTURE_NUMBERS in *. pose proof (zlen_nonneg (jd_numbers p)).
    assert (u16 (zlen (jd_numbers p))) by (unfold uint; lia). unfold job_settled_bytes. split.
    + unfold read_job_settled. do 12 byte_next. byte_next; [apply Z.eqb_refl|].
      eapply reads_bind; [by apply reads_job_stream|cbv beta]. eapply reads_bind; [by apply reads_job_stream|cbv beta].
      do 2 byte_next. byte_next; [by apply Z.leb_le|].
      eapply reads_bind; [apply reads_many; [unfold zlen; lia|]; eapply Forall_impl; [exact ok_jd_numbers0|]; intros; by apply reads_number|cbv beta].
      repeat byte_next. cbv zeta. destruct p. by apply reads_validated.
    + destruct ok_jd_stdout0, ok_jd_stderr0. pose proof (redaction_u8 (jd_capture_state p)). unfold job_stream_bytes.
      repeat first [bytes_next|by apply bytes_ok_stream|apply bytes_ok_concat, Forall_forall; intros ? _; unfold number_bytes].
Qed.

(** ** Kind 29. *)
Lemma run_state_from_Some state reason s :
  run_state_from state reason = Some s <-> state = run_state_code s /\ reason = run_state_reason s.
Proof.
  unfold run_state_from. split.
  - repeat case_match; intros; simplify_eq/=; try (split; lia);
      match goal with H : _ <$> _ = Some _ |- _ => apply fmap_Some in H as (? & ? & ->) end; cbn; split; try lia; by apply from_code_only.
  - intros [-> ->]. destruct s as [[]| | |[]| | | | |]; reflexivity.
Qed.
Lemma parses_run_state : parses read_run_state (fun s e => e = [run_state_code s; run_state_reason s]).
Proof. unfold read_run_state. do 2 field_next. apply parses_lift_ok. intros s Hs. by apply run_state_from_Some in Hs as [-> ->]. Qed.
Lemma reads_run_state s : reads read_run_state [run_state_code s; run_state_reason s] s.
Proof.
  unfold read_run_state. do 2 byte_next. rewrite (proj2 (run_state_from_Some _ _ s)) by done. apply reads_lift.
Qed.
Lemma run_state_u8 s : u8 (run_state_code s) /\ u8 (run_state_reason s).
Proof. by destruct s as [[]| | |[]| | | | |]; split; by_decide. Qed.
Lemma reads_state_then {B} s (k : JobRunState -> reader B) l b :
  reads (k s) l b -> reads (rbind read_run_state k) (run_state_code s :: run_state_reason s :: l) b.
Proof. intros. apply (reads_bind _ _ [_; _] l s); [apply reads_run_state|done]. Qed.
Lemma parses_snapshot : parses read_snapshot (fun s e => snapshot_ok s /\ e = write_snapshot [] s).
Proof.
  unfold read_snapshot. eapply parses_bind; [apply parses_run_state|]. intros s ? ->. repeat field_next. split; [by constructor|].
  unfold write_snapshot. by layout.
Qed.
Lemma reads_snapshot s : snapshot_ok s -> reads read_snapshot (write_snapshot [] s) s.
Proof.
  intros []. unfold read_snapshot, write_snapshot. layout. apply reads_state_then. repeat byte_next. destruct s. apply reads_ret.
Qed.
Lemma write_snapshot_app w s : write_snapshot w s = w ++ write_snapshot [] s.
Proof. unfold write_snapshot. by layout. Qed.
Lemma snapshot_len s : snapshot_ok s -> zlen (write_snapshot [] s) = JOB_STATE_BLOCK.
Proof. intros []. unfold write_snapshot. layout. apply array_len in ok_sn_numbers0. unfold JOB_STATE_BLOCK. len. Qed.
Lemma bytes_ok_snapshot s : snapshot_ok s -> bytes_ok (write_snapshot [] s).
Proof. intros []. unfold write_snapshot. layout. destruct (run_state_u8 (sn_state s)). repeat bytes_next. Qed.
Lemma parses_job_page : parses read_job_page (fun p e => job_page_ok p /\ e = write_page [] p).
Proof. unfold read_job_page. repeat field_next. split; [by constructor|]. unfold write_page. layout. by rewrite ?app_nil_r. Qed.
Lemma reads_job_page p : job_page_ok p -> reads read_job_page (write_page [] p) p.
Proof. intros []. unfold read_job_page, write_page. layout. repeat byte_next. destruct p. apply reads_ret. Qed.
Lemma write_page_app w p : write_page w p = w ++ write_page [] p.
Proof. unfold write_page. by layout. Qed.
Lemma job_page_len p : job_page_ok p -> zlen (write_page [] p) = JOB_PAGE_BLOCK.
Proof. intros []. unfold write_page. layout. apply array_len in ok_jp_digest0. unfold JOB_PAGE_BLOCK. len. Qed.
Lemma bytes_ok_job_page p : job_page_ok p -> bytes_ok (write_page [] p).
Proof. intros []. unfold write_page. layout. repeat bytes_next. Qed.
Lemma parses_list_entry : parses read_list_entry (fun e b => list_entry_ok e /\ b = write_list_entry [] e).
Proof.
  unfold read_list_entry. field_next. eapply parses_bind; [apply parses_run_state|]. intros s ? ->. repeat field_next.
  split; [by constructor|]. unfold write_list_entry. by layout.
Qed.
Lemma reads_list_entry e : list_entry_ok e -> reads read_list_entry (write_list_entry [] e) e.
Proof.
  intros []. unfold read_list_entry, write_list_entry. layout. byte_next. apply reads_state_then. repeat byte_next. destruct e. apply reads_ret.
Qed.
Lemma write_list_entry_app w e : write_list_entry w e = w ++ write_list_entry [] e.
Proof. unfold write_list_entry. by layout. Qed.
Lemma list_entry_len e : list_entry_ok e -> zlen (write_list_entry [] e) = JOB_LIST_ENTRY.
Proof. intros []. unfold write_list_entry. layout. apply array_len in ok_le_numbers0, ok_le_job0. unfold JOB_LIST_ENTRY. len. Qed.
Lemma bytes_ok_list_entry e : list_entry_ok e -> bytes_ok (write_list_entry [] e).
Proof. intros []. unfold write_list_entry. layout. destruct (run_state_u8 (le_state e)). repeat bytes_next. Qed.
Definition view_bytes (view : list JobPage) : bytes := zlen view :: concat (write_page [] <$> view).
Lemma write_view_layout w view : zlen view <= MAX_JOB_VIEW_RANGES -> write_view w view = w ++ view_bytes view.
Proof.
  unfold MAX_JOB_VIEW_RANGES. intros Hv. pose proof (zlen_nonneg view). unfold write_view, view_bytes. rewrite wrap_small by (unfold uint; lia).
  rewrite (foldl_enc _ (write_page [])) by (intros; apply write_page_app). by layout.
Qed.
Lemma parses_view n : 0 <= n ->
  parses (read_view n) (fun l e => (zlen l = n /\ Forall job_page_ok l) /\ e = view_bytes l).
Proof.
  intros Hn. unfold read_view. do 2 field_next. match goal with H : (_ =? _) = true |- _ => apply Z.eqb_eq in H; subst end.
  eapply parses_weaken; [apply parses_many, parses_job_page|]. intros l e (Hl & ? & ->). apply zlen_to_nat in Hl; [|lia].
  split; [done|]. unfold view_bytes. by rewrite Hl.
Qed.
Lemma reads_view view : Forall job_page_ok view -> reads (read_view (zlen view)) (view_bytes view) view.
Proof.
  intros Hv. unfold read_view, view_bytes. byte_next. byte_next; [apply Z.eqb_refl|]. apply reads_many; [unfold zlen; lia|].
  eapply Forall_impl; [exact Hv|]. intros. by apply reads_job_page.
Qed.
Lemma view_len view : Forall job_page_ok view -> zlen (view_bytes view) = job_view_block (zlen view).
Proof.
  intros Hv. unfold view_bytes, job_view_block. rewrite zlen_cons, (zlen_concat_fixed _ JOB_PAGE_BLOCK); [done|].
  eapply Forall_impl; [exact Hv|]. intros. by apply job_page_len.
Qed.
Lemma bytes_ok_view view : zlen view <= MAX_JOB_VIEW_RANGES -> Forall job_page_ok view -> bytes_ok (view_bytes view).
Proof.
  unfold MAX_JOB_VIEW_RANGES. intros Hl Hv. pose proof (zlen_nonneg view). apply bytes_ok_cons; [unfold uint; lia|].
  apply bytes_ok_concat. eapply Forall_impl; [exact Hv|]. intros. by apply bytes_ok_job_page.
Qed.
Lemma view_ranges_Some size wait n :
  view_ranges size wait = Some n <->
  0 <= n <= MAX_JOB_VIEW_RANGES /\ size = (if wait then JOB_WAIT_BLOCK else JOB_STATE_BLOCK) + job_view_block n.
Proof.
  unfold view_ranges, MAX_JOB_VIEW_RANGES, job_view_block, JOB_WAIT_BLOCK, JOB_STATE_BLOCK, JOB_PAGE_BLOCK. change (seqZ 0 (3 + 1)) with [0; 1; 2; 3].
  cbn [list_find]. destruct wait; repeat case_decide; cbn; (split; [intros [= <-]|intros [? ?]; try (f_equal; lia)]); try lia; done.
Qed.
(** What validation says of the body and the view. *)
Record result_fits (p : JobResult) : Prop := {
  rf_view : zlen (jr_view p) <= MAX_JOB_VIEW_RANGES;
  rf_none : match jr_body p with BodyState _ | BodyWait _ _ => True | _ => jr_view p = [] end;
  rf_list : match jr_body p with BodyList _ entries => zlen entries <= MAX_JOB_LIST_ENTRIES | _ => True end;
}.
Lemma result_valid_fits p : result_validate p = Ok tt -> result_fits p.
Proof.
  unfold result_validate. rewrite require_Ok, !andb_true_iff. intros [[_ Hb] Hv].
  assert ((match jr_body p with BodyList _ entries => zlen entries <= MAX_JOB_LIST_ENTRIES | _ => True end)) as Hl.
  { destruct (jr_body p); try done. rewrite !andb_true_iff in Hb. destruct_and! Hb. lia. }
  clear Hb. unfold view_valid in Hv. case_decide as He.
  - split; [by rewrite He|by destruct (jr_body p)|done].
  - destruct (_ || _) eqn:Ho in Hv; [done|]. rewrite !orb_false_iff in Ho. destruct Ho as [[Hf _] Hn].
    apply Z.ltb_ge in Hn. split; [done|by destruct (jr_body p)|done].
Qed.
Definition body_bytes (body : JobResultBody) (view : list JobPage) : bytes :=
  match body with
  | BodyNone => []
  | BodyState s => write_snapshot [] s ++ view_bytes view
  | BodyWait s e => write_snapshot [] s ++ wait_end_code e :: view_bytes view
  | BodyPage page => write_page [] page
  | BodyList more entries => zlen entries :: Z.b2z more :: concat (write_list_entry [] <$> entries)
  end.
Lemma write_body_layout w p : result_fits p -> write_body w (jr_body p) (jr_view p) = w ++ body_bytes (jr_body p) (jr_view p).
Proof.
  intros [Hv _ Hl]. destruct (jr_body p) as [|s|page|more entries|s e]; cbn [write_body body_bytes].
  - by rewrite app_nil_r.
  - by rewrite write_view_layout, write_snapshot_app, <- app_assoc.
  - apply write_page_app.
  - unfold MAX_JOB_LIST_ENTRIES in Hl. pose proof (zlen_nonneg entries). rewrite wrap_small by (unfold uint; lia).
    rewrite (foldl_enc _ (write_list_entry [])) by (intros; apply write_list_entry_app). by layout.
  - rewrite write_view_layout, write_snapshot_app by done. by layout.
Qed.
Lemma parses_body size : 0 <= size ->
  parses (read_body size) (fun bv e => (body_ok bv.1 /\ Forall job_page_ok bv.2) /\ e = body_bytes bv.1 bv.2).
Proof.
  intros Hs. unfold read_body. destruct (size =? 0); [by apply parses_ret|]. destruct (size =? JOB_PAGE_BLOCK).
  { eapply parses_bind; [apply parses_job_page|]. intros page ? [? ->]. field_next. cbn. by rewrite app_nil_r. }
  destruct (view_ranges size false) as [n|] eqn:E1.
  { apply view_ranges_Some in E1 as [? _]. eapply parses_bind; [apply parses_snapshot|]. intros s ? [? ->].
    eapply parses_bind; [apply parses_view; lia|]. intros view ? [[? ?] ->]. field_next. cbn. by rewrite app_nil_r. }
  destruct (view_ranges size true) as [n|] eqn:E2.
  { apply view_ranges_Some in E2 as [? _]. eapply parses_bind; [apply parses_snapshot|]. intros s ? [? ->]. field_next.
    eapply parses_bind; [apply parses_view; lia|]. intros view ? [[? ?] ->]. field_next. cbn. by rewrite app_nil_r. }
  do 3 field_next. eapply parses_bind; [apply parses_many, parses_list_entry|]. intros entries ? (Hl & ? & ->). field_next. cbn -[write_list_entry].
  apply zlen_to_nat in Hl; [|unfold uint in *; lia]. by rewrite app_nil_r, Hl.
Qed.
Lemma body_len p : job_result_ok p -> result_fits p ->
  zlen (body_bytes (jr_body p) (jr_view p)) =
  match jr_body p with
  | BodyNone => 0
  | BodyState _ => JOB_STATE_BLOCK + job_view_block (zlen (jr_view p))
  | BodyWait _ _ => JOB_WAIT_BLOCK + job_view_block (zlen (jr_view p))
  | BodyPage _ => JOB_PAGE_BLOCK
  | BodyList _ entries => 2 + zlen entries * JOB_LIST_ENTRY
  end.
Proof.
  intros [_ _ _ _ _ Hb Hw] [Hv _ Hl]. destruct (jr_body p) as [|s|page|more entries|s e]; cbn [body_ok body_bytes] in *.
  - done.
  - rewrite zlen_app, snapshot_len, view_len by done. done.
  - by apply job_page_len.
  - rewrite !zlen_cons, (zlen_concat_fixed _ JOB_LIST_ENTRY); [lia|]. eapply Forall_impl; [exact Hb|]. intros. by apply list_entry_len.
  - rewrite zlen_app, zlen_cons, snapshot_len, view_len by done. unfold JOB_WAIT_BLOCK. lia.
Qed.
Lemma reads_body p : job_result_ok p -> result_fits p ->
  reads (read_body (zlen (body_bytes (jr_body p) (jr_view p)))) (body_bytes (jr_body p) (jr_view p)) (jr_body p, jr_view p).
Proof.
  intros Hok Hf. pose proof (body_len p Hok Hf) as Hlen. rewrite Hlen. destruct Hok as [_ _ _ _ _ Hb Hw], Hf as [Hv Hn Hl]. clear Hlen.
  pose proof (zlen_nonneg (jr_view p)). unfold MAX_JOB_VIEW_RANGES in *.
  destruct (jr_body p) as [|s|page|more entries|s e]; cbn [body_ok body_bytes] in *; unfold read_body.
  - rewrite Hn. apply reads_ret.
  - rewrite (proj2 (view_ranges_Some _ false (zlen (jr_view p)))) by done.
    unfold JOB_STATE_BLOCK, job_view_block, JOB_PAGE_BLOCK. do 2 (case_match; [lia|]).
    eapply reads_bind; [by apply reads_snapshot|cbv beta]. eapply reads_last; [by apply reads_view|apply reads_ret].
  - change (JOB_PAGE_BLOCK =? 0) with false. rewrite Z.eqb_refl, Hn. eapply reads_last; [by apply reads_job_page|apply reads_ret].
  - unfold MAX_JOB_LIST_ENTRIES, JOB_LIST_ENTRY in *. pose proof (zlen_nonneg entries).
    destruct (view_ranges _ false) as [n|] eqn:E1.
    { apply view_ranges_Some in E1. unfold JOB_STATE_BLOCK, job_view_block, JOB_PAGE_BLOCK, MAX_JOB_VIEW_RANGES in E1. lia. }
    destruct (view_ranges _ true) as [n|] eqn:E2.
    { apply view_ranges_Some in E2. unfold JOB_WAIT_BLOCK, JOB_STATE_BLOCK, job_view_block, JOB_PAGE_BLOCK, MAX_JOB_VIEW_RANGES in E2. lia. }
    unfold JOB_PAGE_BLOCK. do 2 (case_match; [lia|]). byte_next. byte_next; [apply andb_true_iff; split; [by apply Z.leb_le|by apply Z.eqb_eq]|].
    byte_next. rewrite Hn. eapply reads_last; [|apply reads_ret]. apply reads_many; [unfold zlen; lia|].
    eapply Forall_impl; [exact Hb|]. intros. by apply reads_list_entry.
  - destruct (view_ranges _ false) as [n|] eqn:E1.
    { apply view_ranges_Some in E1. unfold JOB_WAIT_BLOCK, JOB_STATE_BLOCK, job_view_block, JOB_PAGE_BLOCK, MAX_JOB_VIEW_RANGES in E1. lia. }
    rewrite (proj2 (view_ranges_Some _ true (zlen (jr_view p)))) by done.
    unfold JOB_WAIT_BLOCK, JOB_STATE_BLOCK, job_view_block, JOB_PAGE_BLOCK. do 2 (case_match; [lia|]).
    eapply reads_bind; [by apply reads_snapshot|cbv beta]. byte_next. eapply reads_last; [by apply reads_view|apply reads_ret].
Qed.
(** The bytes left, at the end of a payload. *)
Lemma reads_end_bind {A B} (p : reader A) (k : A -> reader B) e1 e2 a b :
  reads p e1 a -> reads_end (k a) e2 b -> reads_end (rbind p k) (e1 ++ e2) b.
Proof.
  intros Hp Hk pre. unfold rbind. rewrite (Hp pre e2). cbn [obind]. specialize (Hk (pre ++ e1)).
  rewrite <- app_assoc, zlen_app in Hk. rewrite Hk, zlen_app. by rewrite Z.add_assoc.
Qed.
Lemma reads_end_remaining {B} (k : Z -> reader B) e b : reads_end (k (zlen e)) e b -> reads_end (rbind r_remaining k) e b.
Proof.
  intros Hk pre. unfold rbind, r_remaining. cbn [obind rd_bytes rd_offset]. rewrite zlen_app.
  replace (zlen pre + zlen e - zlen pre) with (zlen e) by lia. apply Hk.
Qed.
Lemma parses_remaining {B} (k : Z -> reader B) Q : (forall n, 0 <= n -> parses (k n) Q) -> parses (rbind r_remaining k) Q.
Proof. intros Hk bs o Hb Ho. unfold rbind, r_remaining. cbn [obind rd_bytes rd_offset]. apply Hk; [lia|done|done]. Qed.
Definition job_result_bytes (p : JobResult) : bytes :=
  jr_operation p ++ be_bytes 8 (jr_generation p) ++ be_bytes 4 (jr_ordinal p) ++
  [jr_status p] ++ [result_outcome_code (jr_outcome p)] ++ jr_job p ++ body_bytes (jr_body p) (jr_view p).
Lemma job_result_layout p : result_fits p -> job_result_fields [] p = job_result_bytes p.
Proof. intros. unfold job_result_fields. rewrite write_body_layout by done. unfold job_result_bytes. layout. done. Qed.
Lemma job_result_len p : job_result_ok p -> result_fits p -> zlen (job_result_bytes p) <= MAX_JOB_RESULT_PAYLOAD.
Proof.
  intros Hok Hf. pose proof (body_len p Hok Hf) as Hl. destruct Hok, Hf. pose proof (zlen_nonneg (jr_view p)).
  unfold job_result_bytes, MAX_JOB_RESULT_PAYLOAD, MAX_JOB_LIST_BLOCK, JOB_RESULT_FIXED, JOB_STATE_BLOCK, JOB_WAIT_BLOCK, JOB_STATE_BLOCK,
    job_view_block, JOB_PAGE_BLOCK, MAX_JOB_LIST_ENTRIES, JOB_LIST_ENTRY, MAX_JOB_VIEW_RANGES in *.
  apply array_len in ok_jr_operation0, ok_jr_job0. autorewrite with len. rewrite Hl. destruct (jr_body p); lia.
Qed.
Lemma bytes_ok_body p : job_result_ok p -> result_fits p -> bytes_ok (body_bytes (jr_body p) (jr_view p)).
Proof.
  intros [_ _ _ _ _ Hb Hw] [Hv _ Hl]. destruct (jr_body p) as [|s|page|more entries|s e]; cbn [body_ok body_bytes] in *.
  - constructor.
  - apply bytes_ok_app. split; [by apply bytes_ok_snapshot|by apply bytes_ok_view].
  - by apply bytes_ok_job_page.
  - unfold MAX_JOB_LIST_ENTRIES in Hl. pose proof (zlen_nonneg entries). apply bytes_ok_cons; [unfold uint; lia|]. bytes_next.
    apply bytes_ok_concat. eapply Forall_impl; [exact Hb|]. intros. by apply bytes_ok_list_entry.
  - apply bytes_ok_app. split; [by apply bytes_ok_snapshot|]. bytes_next. by apply bytes_ok_view.
Qed.
Lemma result_validate_no_panic p : result_validate p <> Panic.
Proof. unfold result_validate. apply require_not_panic. Qed.
Lemma job_result_written : written_by read_job_result job_result_ok write_job_result.
Proof.
  split.
  - unfold read_job_result. do 6 field_next. apply parses_remaining. intros size Hsize.
    eapply parses_bind; [by apply parses_body|]. intros [body view] ? [[? ?] ->]. cbn [fst snd] in *. validated.
    split; [by constructor|]. unfold write_job_result. rewrite Hval. cbn [obind].
    rewrite job_result_layout by (by apply result_valid_fits). unfold job_result_bytes.
    cbn [jr_operation jr_generation jr_ordinal jr_status jr_outcome jr_job jr_body jr_view]. by rewrite app_nil_r.
  - intros p e Hok Hw. unfold write_job_result in Hw. field_wrote. subst e. destruct w. pose proof (result_valid_fits p Hw0) as Hf.
    rewrite job_result_layout by done. pose proof (reads_body p Hok Hf) as Hr. destruct Hok. unfold read_job_result, job_result_bytes.
    repeat (eapply reads_end_bind;
      [first [by apply reads_u64|by apply reads_u32|by apply reads_array|apply reads_byte|eapply reads_code; apply _]|cbv beta]).
    apply reads_end_remaining. apply reads_reads_end. eapply reads_last; [exact Hr|]. cbv beta iota zeta. destruct p. by apply reads_validated.
  - intros p e Hok Hw. unfold write_job_result in Hw. field_wrote. subst e. destruct w. pose proof (result_valid_fits p Hw0) as Hf.
    rewrite job_result_layout by done. pose proof (bytes_ok_body p Hok Hf). destruct Hok. unfold job_result_bytes.
    repeat first [assumption|bytes_next].
Qed.
(** The other payload bounds. *)
Lemma job_intent_len p : job_intent_ok p -> zlen (job_intent_fields [] p) <= MAX_JOB_INTENT_PAYLOAD.
Proof.
  intros []. rewrite job_intent_layout. unfold MAX_JOB_INTENT_PAYLOAD, origin_bytes.
  destruct (ji_origin p); cbn [origin_ok] in *; destruct_and?; repeat match goal with H : array _ _ |- _ => apply array_len in H end; len.
Qed.
Lemma job_cancel_len p : job_cancel_ok p -> zlen (job_cancel_fields [] p) = JOB_CANCEL_PAYLOAD.
Proof. intros []. unfold job_cancel_fields, JOB_CANCEL_PAYLOAD. layout. apply array_len in ok_jc_job0. len. Qed.
Lemma job_retention_len p :
  job_retention_ok p -> zlen (jn_note p) <= MAX_JOB_NOTE -> retention_validate p = Ok tt ->
  zlen (job_retention_fields [] p) <= MAX_JOB_RETENTION_PAYLOAD.
Proof.
  intros [] Hn Hv. rewrite job_retention_layout by done. unfold retention_validate in Hv. rewrite require_Ok, andb_true_iff in Hv.
  destruct Hv as [_ Hv]. unfold MAX_JOB_RETENTION_PAYLOAD, MAX_JOB_NOTE, author_bytes, string_field in *. apply array_len in ok_jn_job0.
  destruct (jn_author p) as [r|o g n]; cbn [author_ok] in *.
  - apply array_len in ok_jn_author0. len.
  - destruct ok_jn_author0 as [Ho%array_len _]. rewrite !andb_true_iff, !bool_decide_eq_true in Hv. destruct_and! Hv.
    replace (jn_note p) with (@nil Z) by done. len.
Qed.
