(* ===== verification/CallRecords.v ===== *)
(** * Tool calls and person commands (conversation/codec.rs): kinds 14 and 31.

    [ToolCall::validate] with every rule of the record, and the writers and
    readers of both kinds. Both carry a list of secret kinds and the reason a
    command was rewritten or refused. *)
From Stdlib Require Import ZArith Lia String.
From stdpp Require Import prelude list.
From S2P Require Import Prelude PayloadId Codec Fields Envelope Policy PathGuard Types Text Rules Tables.

(** 98 bytes of fixed fields, a name, 256 kinds, the arguments and the policy
    refusal field. *)
Definition MAX_TOOL_CALL_PAYLOAD : Z := 64866 + MAX_POLICY_REFUSAL_FIELD.

(** ** [ToolCall::validate]. *)
Definition is_unread (f : ArgumentForm) : bool :=
  match f with Unparsed | NotRetained UnverifiableEscape => true | _ => false end.
Definition call_received (p : ToolCall) : bool := tc_arguments_bytes p <=? MAX_TOOL_ARGUMENTS.
Definition call_shape (p : ToolCall) : bool :=
  let named := bool_decide (tc_name p <> []) in
  nonzero_id (tc_operation p) && (1 <=? tc_generation p) && in_range 1 MAX_TOOL_CALL_ORDINAL (tc_ordinal p) &&
  (negb (tc_ordinal p =? MAX_TOOL_CALL_ORDINAL) || bool_decide (tc_decision p ∈ [TLimit; TdCancelled])) &&
  (zlen (tc_name p) <=? MAX_STORED_TOOL_NAME) && (1 <=? tc_name_bytes p) &&
  (negb named || (tc_name_bytes p <=? MAX_TOOL_NAME)) &&
  match tc_form p with
  | NotRetained _ => bool_decide (tc_arguments p = [])
  | _ => zlen (tc_arguments p) <=? MAX_TOOL_ARGUMENTS
  end &&
  (call_received p || bool_decide (form_not_retained (tc_form p) = Some Oversized)) &&
  (zlen (tc_number_kinds p) <=? MAX_TOOL_NUMBERS).
Definition call_operation (p : ToolCall) : bool :=
  match tc_tool_operation p with
  | None => true
  | Some op => bool_decide (tool_lookup (tc_name p) = Some (operation_tool op)) && call_received p && negb (is_unread (tc_form p))
  end.
Definition fault_allowed (p : ToolCall) : bool :=
  let tool := tool_lookup (tc_name p) in
  let no_operation := is_none (tc_tool_operation p) in
  match tc_fault p with
  | None => true
  | Some (InvalidJson | JsonLimit | DuplicateKey) =>
      match tc_form p with Unparsed | NotRetained _ => true | _ => false end && no_operation
  | Some NotObject => no_operation
  | Some UnknownCommand =>
      no_operation && bool_decide (tool ∈ [Some RtProject; Some RtMemory; Some RtService; Some RtJob])
  | Some InvalidJobId => bool_decide (tool = Some RtJob)
  | Some (MissingField | UnexpectedField | WrongType | OutOfRange | UnsafePath | InvalidVersionId) => is_some tool
  | Some ArgumentsOverLimit => bool_decide (form_not_retained (tc_form p) = Some Oversized)
  | Some NameOverLimit => bool_decide (tc_name p = [])
  | Some InvalidText => true
  | Some UnregisteredName => bool_decide (tc_name p <> []) && is_none tool
  end.
Definition call_faults (p : ToolCall) : bool :=
  let fault := tc_fault p in
  let invalid := bool_decide (tc_decision p = TInvalidArguments) in
  match tc_decision p with
  | TInvalidArguments => is_some_and (fun f => bool_decide (f <> UnregisteredName)) fault
  | TUnknownTool => bool_decide (fault = Some UnregisteredName)
  | _ => is_none fault
  end && fault_allowed p &&
  (call_received p || negb invalid || bool_decide (fault = Some ArgumentsOverLimit)) &&
  (negb (bool_decide (form_not_retained (tc_form p) = Some Oversized)) || negb invalid ||
   is_some_and (fun f => fault_code f <=? fault_code ArgumentsOverLimit) fault) &&
  (bool_decide (tc_form p <> Unparsed) || negb invalid ||
   bool_decide (fault ∈ [Some InvalidJson; Some JsonLimit; Some DuplicateKey])).
Definition call_exec (p : ToolCall) : bool := bool_decide (tc_tool_operation p = Some ExecCmd).
Definition call_rules (p : ToolCall) : bool := negb (tc_rule_set_revision p =? 0).
Definition decision_rule (p : ToolCall) : bool :=
  let exec := call_exec p in
  match tc_decision p with
  | TRun =>
      is_some (tc_tool_operation p) && bool_decide (tc_form p ∈ [Verbatim; Canonical]) && call_rules p &&
      (negb exec ||
       (bool_decide (tc_form p = Canonical) &&
        (tc_whole_command p || (zlen (tc_number_kinds p) <=? MAX_EXEC_CMD_VARIABLES))))
  | TUnknownTool => bool_decide (tc_name p <> []) && call_received p
  | TBusy => exec && bool_decide (tc_form p = Canonical)
  | TRefused =>
      if call_rules p then exec && bool_decide (tc_form p = Canonical) && is_some (tc_refusal p)
      else is_none (tc_refusal p)
  | TInvalidArguments | TDenied | TLimit | TdCancelled => true
  end.
Definition call_decisions (p : ToolCall) : bool :=
  decision_rule p &&
  match tc_form p with
  | Unparsed | NotRetained UnverifiableEscape => negb (bool_decide (tc_decision p ∈ [TRun; TUnknownTool; TBusy]))
  | NotRetained Oversized => bool_decide (tc_decision p <> TRun)
  | _ => true
  end &&
  is_none_or (fun r => match refusal_validate r with Ok _ => true | _ => false end) (tc_policy p) &&
  Bool.eqb (is_some (tc_policy p)) (bool_decide (tc_reason p ∈ [Some PolicyDenied; Some PolicyUnavailable])) &&
  match tc_reason p with
  | None => bool_decide (tc_decision p <> TBusy)
  | Some reason =>
      bool_decide (reason_decision reason = tc_decision p) && call_exec p && bool_decide (tc_form p = Canonical) && call_rules p
  end &&
  (bool_decide (tc_name p <> []) || bool_decide (tc_decision p ∈ [TInvalidArguments; TRefused; TLimit; TdCancelled])).
Definition call_rule_set (p : ToolCall) : bool :=
  let rules := call_rules p in
  Bool.eqb (bool_decide (tc_rule_set_digest p = zeros 32)) (negb rules) &&
  (if rules then true
   else bool_decide (form_not_retained (tc_form p) = Some NrDetectionUnavailable) && bool_decide (tc_name p = []) &&
        bool_decide (tc_number_kinds p = []) && (tc_unnumbered p =? 0) && is_none (tc_tool_operation p) &&
        bool_decide (tc_decision p ∈ [TRefused; TLimit; TdCancelled])).
Definition call_refusal (p : ToolCall) : bool :=
  match tc_refusal p with
  | None => negb (tc_command_cut p) && negb (tc_whole_command p)
  | Some r =>
      call_exec p && call_rules p && bool_decide (er_code r <> DetectionUnavailable) && refusal_word_ok r &&
      (if tc_whole_command p then bool_decide (tc_decision p = TRun) && negb (refusal_kept (er_code r))
       else bool_decide (tc_decision p = TRefused) && refusal_kept (er_code r))
  end.
Definition checked_add32 (a b : Z) : option Z := if decide (a + b < 2 ^ 32) then Some (a + b) else None.
Definition call_numbers (p : ToolCall) : bool :=
  let name_tokens := placeholder_tokens (tc_name p) in
  let text_tokens := placeholder_tokens (tc_arguments p) in
  let distinct := foldl (fun l n => insert_distinct n l) (pt_distinct name_tokens) (pt_distinct text_tokens) in
  let highest := Z.max (pt_max name_tokens) (pt_max text_tokens) in
  negb (pt_malformed name_tokens) && negb (pt_malformed text_tokens) && (highest =? zlen (tc_number_kinds p)) &&
  (zlen distinct =? highest) &&
  bool_decide (checked_add32 (pt_zero name_tokens) (pt_zero text_tokens) = Some (tc_unnumbered p)).
Definition call_validate (p : ToolCall) : Result unit :=
  require (call_shape p && call_operation p && call_faults p && call_decisions p && call_rule_set p && call_refusal p &&
           call_numbers p).

(** ** Kind 14. *)
(** The three fields of a refusal or fallback. *)
Definition w_exec_refusal (w : Writer) (r : option ExecCmdRefusal) : Writer :=
  let w := w_byte w (match r with Some r => refusal_code (er_code r) | None => 0 end) in
  let w := w_byte w (match r ≫= er_kind with Some k => secret_kind_code k | None => 0 end) in
  w_u16 w (default 0 (r ≫= er_word)).
Definition refusal_of (code : Z) (kind : option SecretKind) (word : option Z) : Result (option ExecCmdRefusal) :=
  if code =? 0 then
    let? _ := require (is_none kind && is_none word) in Ok None
  else
    let? code := ok_or Corrupt (refusal_from code) in Ok (Some (mkExecRefusal code kind word)).
Definition w_kinds (w : Writer) (kinds : list SecretKind) : Writer :=
  foldl (fun w kind => w_byte w (secret_kind_code kind)) (w_u16 w (wrap 16 (zlen kinds))) kinds.
Definition r_kinds : reader (list SecretKind) :=
  read count := r_u16 in
  read _ := rlift (require (count <=? MAX_TOOL_NUMBERS)) in
  r_many (Z.to_nat count) (r_code secret_kind_from).
Definition tool_call_fields (w : Writer) (p : ToolCall) : Writer :=
  let w := w_bytes w (tc_operation p) in
  let w := w_u64 w (tc_generation p) in
  let w := w_u32 w (tc_ordinal p) in
  let w := w_byte w (source_code (tc_source p)) in
  let w := w_text32 w (tc_name p) in
  let w := w_u32 w (tc_name_bytes p) in
  let w := w_byte w (match tc_tool_operation p with Some op => operation_code op | None => 0 end) in
  let w := w_byte w (decision_code (tc_decision p)) in
  let w := w_byte w (match tc_fault p with Some f => fault_code f | None => 0 end) in
  let w := w_byte w (match tc_reason p with Some r => reason_code r | None => 0 end) in
  let w := w_byte w (form_code (tc_form p)) in
  let w := w_byte w (match form_not_retained (tc_form p) with Some r => not_retained_code r | None => 0 end) in
  let w := w_u32 w (tc_arguments_bytes p) in
  let w := w_text32 w (tc_arguments p) in
  let w := w_kinds w (tc_number_kinds p) in
  let w := w_u32 w (tc_unnumbered p) in
  let w := w_u32 w (tc_rule_set_revision p) in
  let w := w_bytes w (tc_rule_set_digest p) in
  let w := w_byte w (two_flags (tc_command_cut p) (tc_whole_command p)) in
  let w := w_exec_refusal w (tc_refusal p) in
  policy_refusal_fields w (tc_policy p).
Definition write_tool_call (p : ToolCall) : Result Writer :=
  if decide (MAX_TOOL_ARGUMENTS < zlen (tc_arguments p) \/ MAX_STORED_TOOL_NAME < zlen (tc_name p)) then Err Limit else
  let? _ := call_validate p in Ok (tool_call_fields [] p).
Definition r_reason (decision : ToolDecision) : reader (option ToolDecisionReason) :=
  read code := r_byte in rlift (ok_or Corrupt (reason_from_code decision code)).
Definition r_form : reader ArgumentForm :=
  read form := r_byte in
  read reason := r_byte in
  rlift (ok_or Corrupt (form_from form reason)).
Definition read_tool_call : reader ToolCall :=
  read operation := r_array 16 in
  read generation := r_u64 in
  read ordinal := r_u32 in
  read source := r_code source_from in
  read name := r_bounded_string MAX_STORED_TOOL_NAME in
  read name_bytes := r_u32 in
  read tool_operation := r_code_option operation_from_code in
  read decision := r_code tool_decision_from_code in
  read fault := r_code_option fault_from_code in
  read reason := r_reason decision in
  read form := r_form in
  read arguments_bytes := r_u32 in
  read arguments := r_bounded_string MAX_TOOL_ARGUMENTS in
  read number_kinds := r_kinds in
  read unnumbered := r_u32 in
  read rule_set_revision := r_u32 in
  read rule_set_digest := r_array 32 in
  read (command_cut, whole_command) := r_two_flags in
  read code := r_byte in
  read kind := r_code_option secret_kind_from in
  read word := r_word in
  read policy := read_policy_refusal in
  read refusal := rlift (refusal_of code kind word) in
  let value := mkToolCall operation generation ordinal source name name_bytes tool_operation decision fault reason form
                 arguments_bytes arguments number_kinds unnumbered rule_set_revision rule_set_digest command_cut
                 whole_command refusal policy in
  read _ := rlift (call_validate value) in
  rret value.

(** ** Kind 31. *)
Definition person_command_fields (w : Writer) (p : PersonCommandQueued) : Writer :=
  let w := w_bytes w (pc_request p) in
  let w := w_bytes w (pc_digest p) in
  let w := w_bytes w (pc_input p) in
  let w := w_bytes w (pc_project p) in
  let w := w_bytes w (pc_conversation p) in
  let w := w_u64 w (pc_expected_generation p) in
  let w := person_request_fields w (person_request p) in
  let w := w_u64 w (pc_order_revision p) in
  let w := w_kinds w (pc_number_kinds p) in
  let w := w_u32 w (pc_unnumbered p) in
  let w := w_byte w (two_flags (pc_command_cut p) (pc_whole_command p)) in
  let w := w_u32 w (pc_rule_set_revision p) in
  let w := w_bytes w (pc_rule_set_digest p) in
  w_exec_refusal w (pc_fallback p).
Definition write_person_command `{Hasher, Unicode} (p : PersonCommandQueued) : Result Writer :=
  if decide (MAX_PERSON_COMMAND < zlen (pc_command p) \/ MAX_PERSON_COMMAND < zlen (pc_display_command p)) then Err Limit else
  let? _ := person_validate p in Ok (person_command_fields [] p).
(** [text(r.take(len)?)?] with a length of one or two bytes. *)
Definition r_text8 : reader bytes := read len := r_byte in read b := r_take len in rlift (from_utf8 b).
Definition r_text16 : reader bytes := read len := r_u16 in read b := r_take len in rlift (from_utf8 b).
Definition r_counted {A} (limit : Z) (p : reader A) : reader (list A) :=
  read count := r_byte in
  read _ := rlift (require (count <=? limit)) in
  r_many (Z.to_nat count) p.
Definition read_environment : reader (Z * bytes) := read code := r_byte in read value := r_text16 in rret (code, value).
Definition read_declared : reader (bytes * bytes) := read name := r_text8 in read value := r_text16 in rret (name, value).
Definition read_named : reader (Z * bytes) := read number := r_byte in read name := r_text8 in rret (number, name).
Definition read_person_command `{Hasher, Unicode} : reader PersonCommandQueued :=
  read request := r_array 16 in
  read digest := r_array 32 in
  read input := r_array 16 in
  read project := r_array 16 in
  read conversation := r_array 16 in
  read expected_generation := r_u64 in
  read (new_conversation, outside_sandbox) := r_two_flags in
  read command := r_bounded_string MAX_PERSON_COMMAND in
  read display_command := r_bounded_string MAX_PERSON_COMMAND in
  read cwd := r_bounded_string MAX_PERSON_CWD in
  read search_path := r_bounded_string MAX_SEARCH_PATH in
  read environment := r_counted TERMINAL_COUNT read_environment in
  read declared := r_counted MAX_DECLARED read_declared in
  read named := r_counted MAX_PERSON_NAMED read_named in
  read order_revision := r_u64 in
  read number_kinds := r_kinds in
  read unnumbered := r_u32 in
  read (command_cut, whole_command) := r_two_flags in
  read rule_set_revision := r_u32 in
  read rule_set_digest := r_array 32 in
  read code := r_byte in
  read kind := r_code_option secret_kind_from in
  read word := r_word in
  read fallback := rlift (refusal_of code kind word) in
  let value := mkPersonCommand request digest input project conversation expected_generation new_conversation outside_sandbox
                 command display_command cwd search_path environment declared named order_revision number_kinds unnumbered
                 command_cut whole_command rule_set_revision rule_set_digest fallback in
  read _ := rlift (person_validate value) in
  rret value.

(** ** Fields both kinds have. *)
Lemma parses_result {A B} (c : Result A) (k : A -> reader B) Q :
  c <> Panic -> (forall a, c = Ok a -> parses (k a) Q) -> parses (rbind (rlift c) k) Q.
Proof.
  intros Hc Hk. destruct c as [a|e|]; [|by intros bs o|done]. eapply parses_bind.
  - by apply (parses_ret a (fun b e => b = a /\ e = [])).
  - intros b e [-> ->]. by apply Hk.
Qed.
Definition exec_refusal_bytes (r : option ExecCmdRefusal) : bytes :=
  code_or_0 refusal_code (er_code <$> r) :: code_or_0 secret_kind_code (r ≫= er_kind) :: be_bytes 2 (default 0 (r ≫= er_word)).
Lemma exec_refusal_layout w r : w_exec_refusal w r = w ++ exec_refusal_bytes r.
Proof. unfold w_exec_refusal, exec_refusal_bytes. layout. by destruct r. Qed.
Lemma refusal_of_Ok code kind word r :
  refusal_of code kind word = Ok r <->
  code = code_or_0 refusal_code (er_code <$> r) /\ kind = r ≫= er_kind /\ word = r ≫= er_word.
Proof.
  unfold refusal_of. destruct (Z.eqb_spec code 0) as [->|Hn].
  - destruct kind, word; cbn; (split; [intros [= <-] || intros [=]; try done|intros (Hc & Hk & Hw)]);
      destruct r as [[[] ? ?]|]; cbn in *; simplify_eq; done.
  - destruct (refusal_from code) as [c|] eqn:Hc; cbn.
    + apply from_code_only in Hc as ->. split; [by intros [= <-]|]. destruct r as [[c' k' w']|]; cbn; [|intros (? & _); done].
      intros (Hc & -> & ->). do 3 f_equal. destruct c, c'; done.
    + split; [done|]. intros (-> & _). destruct r as [r|]; cbn in *; [by rewrite code_from in Hc|done].
Qed.
Lemma refusal_of_no_panic code kind word : refusal_of code kind word <> Panic.
Proof. unfold refusal_of. case_match; [by destruct kind, word|]. by destruct (refusal_from code). Qed.
Definition word_ok (r : option ExecCmdRefusal) : Prop := forall x v, r = Some x -> er_word x = Some v -> u16 v.
Lemma word_fits r : word_ok r -> (forall x, r = Some x -> refusal_word_ok x = true) -> forall v, r ≫= er_word = Some v -> u16 v /\ v <> 0.
Proof.
  intros Hw Hr v (x & Hx & Hv)%bind_Some. split; [by eapply Hw|]. specialize (Hr x Hx). unfold refusal_word_ok, in_range in Hr.
  rewrite Hv in Hr. cbn in Hr. lia.
Qed.
Definition kinds_bytes (kinds : list SecretKind) : bytes := be_bytes 2 (zlen kinds) ++ (secret_kind_code <$> kinds).
Lemma concat_singletons {A} (l : list A) (f : A -> Z) : concat ((fun a => [f a]) <$> l) = f <$> l.
Proof. induction l as [|a l IH]; [done|]. cbn. by f_equal. Qed.
Lemma kinds_layout w kinds : zlen kinds <= MAX_TOOL_NUMBERS -> w_kinds w kinds = w ++ kinds_bytes kinds.
Proof.
  unfold MAX_TOOL_NUMBERS. intros Hk. pose proof (zlen_nonneg kinds). unfold w_kinds, kinds_bytes. rewrite wrap_small by (unfold uint; lia).
  rewrite (foldl_enc _ (fun k => [secret_kind_code k])) by done. rewrite concat_singletons. by layout.
Qed.
Lemma parses_kinds : parses r_kinds (fun l e => zlen l <= MAX_TOOL_NUMBERS /\ e = kinds_bytes l).
Proof.
  unfold r_kinds. do 2 field_next. eapply parses_weaken.
  - apply (parses_many _ _ (fun _ => True) (fun k => [secret_kind_code k])). eapply parses_weaken; [eapply parses_code; apply _|by intros ? ? ->].
  - intros l e (Hl & _ & ->). apply zlen_to_nat in Hl; [|unfold uint in *; lia]. unfold kinds_bytes. rewrite concat_singletons, Hl. split; [lia|done].
Qed.
Lemma reads_kinds l : zlen l <= MAX_TOOL_NUMBERS -> reads r_kinds (kinds_bytes l) l.
Proof.
  unfold MAX_TOOL_NUMBERS. intros Hl. pose proof (zlen_nonneg l). unfold r_kinds, kinds_bytes. assert (u16 (zlen l)) by (unfold uint; lia).
  byte_next. byte_next; [by apply Z.leb_le|]. rewrite <- (concat_singletons l). apply reads_many; [unfold zlen; lia|].
  apply Forall_forall. intros k _. eapply reads_code; apply _.
Qed.
Lemma bytes_ok_kinds l : bytes_ok (kinds_bytes l).
Proof.
  unfold kinds_bytes. bytes_next; [apply be_bytes_ok|]. apply Forall_fmap, Forall_forall. intros k _. eapply (code_u8 (code := secret_kind_code)).
Qed.
Lemma bytes_ok_exec_refusal r : bytes_ok (exec_refusal_bytes r).
Proof. unfold exec_refusal_bytes. repeat bytes_next. Qed.

(** ** Kind 14: reasons and forms. *)
Definition reason_fits (decision : ToolDecision) (o : option ToolDecisionReason) : Prop :=
  forall r, o = Some r -> reason_decision r = decision.
Lemma reason_from_Some decision code o :
  reason_from_code decision code = Some o <-> reason_fits decision o /\ code = code_or_0 reason_code o.
Proof.
  unfold reason_from_code, reason_fits. destruct (Z.eqb_spec code 0) as [->|Hn].
  - split; [intros [= <-]; by split|]. intros [_ Hc]. by destruct o as [[]|].
  - split.
    + intros ([i r] & Hf & ->)%fmap_Some. apply list_find_Some in Hf as (_ & [Hd Hc] & _). cbn in *. subst. split; [by intros ? [= <-]|done].
    + intros [Hf ->]. destruct o as [r|]; [|done]. specialize (Hf r eq_refl). subst decision. by destruct r.
Qed.
Lemma parses_reason decision : parses (r_reason decision) (fun o e => reason_fits decision o /\ e = [code_or_0 reason_code o]).
Proof. unfold r_reason. field_next. apply parses_lift_ok. intros o Ho. by apply reason_from_Some in Ho as [? ->]. Qed.
Lemma reads_reason decision o : reason_fits decision o -> reads (r_reason decision) [code_or_0 reason_code o] o.
Proof. intros Ho. unfold r_reason. byte_next. rewrite (proj2 (reason_from_Some _ _ o)) by done. apply reads_lift. Qed.
Definition form_bytes (f : ArgumentForm) : bytes := [form_code f; code_or_0 not_retained_code (form_not_retained f)].
Lemma parses_form : parses r_form (fun f e => e = form_bytes f).
Proof.
  unfold r_form. do 2 field_next. apply parses_lift_ok. intros f. unfold form_from. repeat case_match; intros; simplify_eq; done.
Qed.
Lemma reads_form f : reads r_form (form_bytes f) f.
Proof. unfold r_form, form_bytes. do 2 byte_next. replace (form_from _ _) with (Some f) by (by destruct f as [| | |[]]). apply reads_lift. Qed.
Lemma reason_code_u8 o : u8 (code_or_0 reason_code o).
Proof. by destruct o as [[]|]; by_decide. Qed.
Lemma form_codes_u8 f : bytes_ok (form_bytes f).
Proof. by destruct f as [| | |[]]; by_decide. Qed.

(** ** Kind 14: the contract. *)
Record tool_call_ok (p : ToolCall) : Prop := {
  ok_tc_operation : Id_ok (tc_operation p); ok_tc_generation : u64 (tc_generation p); ok_tc_ordinal : u32 (tc_ordinal p);
  ok_tc_name : str_ok (tc_name p); ok_tc_name_bytes : u32 (tc_name_bytes p); ok_tc_arguments_bytes : u32 (tc_arguments_bytes p);
  ok_tc_arguments : str_ok (tc_arguments p); ok_tc_unnumbered : u32 (tc_unnumbered p);
  ok_tc_revision : u32 (tc_rule_set_revision p); ok_tc_digest : Hash_ok (tc_rule_set_digest p);
  ok_tc_word : word_ok (tc_refusal p);
  ok_tc_policy : forall r, tc_policy p = Some r -> refusal_ok r /\ zlen (pr_rule r) <= MAX_POLICY_RULE;
}.
Record call_fits (p : ToolCall) : Prop := {
  cf_name : zlen (tc_name p) <= MAX_STORED_TOOL_NAME; cf_arguments : zlen (tc_arguments p) <= MAX_TOOL_ARGUMENTS;
  cf_kinds : zlen (tc_number_kinds p) <= MAX_TOOL_NUMBERS; cf_reason : reason_fits (tc_decision p) (tc_reason p);
  cf_policy : forall r, tc_policy p = Some r -> refusal_validate r = Ok tt;
  cf_word : forall r, tc_refusal p = Some r -> refusal_word_ok r = true;
}.
Lemma call_valid_fits p : call_validate p = Ok tt -> call_fits p.
Proof.
  unfold call_validate. rewrite require_Ok, !andb_true_iff. intros Hv. destruct Hv as [[[[[[Hs _] _] Hd] _] Hr] _].
  unfold call_shape in Hs. rewrite !andb_true_iff in Hs. destruct Hs as [[[[[[[[[_ _] _] _] Hn] _] _] Ha] _] Hk].
  unfold call_decisions in Hd. rewrite !andb_true_iff in Hd. destruct Hd as [[[[[_ _] Hp] _] Hre] _]. split.
  - lia.
  - destruct (tc_form p); try lia. apply bool_decide_eq_true in Ha. by rewrite Ha.
  - lia.
  - intros r E. rewrite E, !andb_true_iff, !bool_decide_eq_true in Hre. apply Hre.
  - intros r E. rewrite E in Hp. cbn in Hp. by destruct (refusal_validate r) as [[]| |].
  - intros r E. unfold call_refusal in Hr. rewrite E, !andb_true_iff in Hr. apply Hr.
Qed.
Definition tool_call_bytes (p : ToolCall) : bytes :=
  tc_operation p ++ be_bytes 8 (tc_generation p) ++ be_bytes 4 (tc_ordinal p) ++ source_code (tc_source p) ::
  string_field (tc_name p) ++ be_bytes 4 (tc_name_bytes p) ++ code_or_0 operation_code (tc_tool_operation p) ::
  decision_code (tc_decision p) :: code_or_0 fault_code (tc_fault p) :: code_or_0 reason_code (tc_reason p) ::
  form_bytes (tc_form p) ++ be_bytes 4 (tc_arguments_bytes p) ++ string_field (tc_arguments p) ++
  kinds_bytes (tc_number_kinds p) ++ be_bytes 4 (tc_unnumbered p) ++ be_bytes 4 (tc_rule_set_revision p) ++
  tc_rule_set_digest p ++ two_flags (tc_command_cut p) (tc_whole_command p) :: exec_refusal_bytes (tc_refusal p) ++
  refusal_bytes (tc_policy p).
Lemma call_refusal_good p : tool_call_ok p -> call_fits p -> refusal_good (tc_policy p).
Proof. intros [] [] r E. destruct (ok_tc_policy0 r E) as [? ?]. auto. Qed.
Lemma tool_call_layout p : tool_call_ok p -> call_fits p -> tool_call_fields [] p = tool_call_bytes p.
Proof.
  intros Hok Hf. pose proof (call_refusal_good p Hok Hf) as Hg. destruct Hf. unfold MAX_STORED_TOOL_NAME, MAX_TOOL_ARGUMENTS in *.
  unfold tool_call_fields. rewrite refusal_layout, exec_refusal_layout, kinds_layout, !w_text32_field by (done || lia).
  unfold tool_call_bytes, form_bytes. layout. by unfold code_or_0.
Qed.
Lemma refusal_bytes_len o : refusal_good o -> zlen (refusal_bytes o) <= MAX_POLICY_REFUSAL_FIELD.
Proof.
  intros Ho. destruct o as [r|]; cbn [refusal_bytes]; [|done]. destruct (Ho r eq_refl) as (_ & Hv & Hl).
  destruct (refusal_valid_lengths r Hv). unfold string_field. unfold MAX_POLICY_REFUSAL_FIELD, MAX_POLICY_REASON, MAX_POLICY_RULE,
    MAX_POLICY_ID, MAX_POLICY_EXPLAIN in *. len.
Qed.
Lemma tool_call_len p : tool_call_ok p -> call_fits p -> zlen (tool_call_bytes p) <= MAX_TOOL_CALL_PAYLOAD.
Proof.
  intros Hok Hf. pose proof (refusal_bytes_len _ (call_refusal_good p Hok Hf)) as Hr. destruct Hok, Hf.
  apply array_len in ok_tc_operation0, ok_tc_digest0. unfold tool_call_bytes, form_bytes, kinds_bytes, exec_refusal_bytes, string_field.
  autorewrite with len. rewrite ?zlen_map.
  unfold MAX_TOOL_CALL_PAYLOAD, MAX_STORED_TOOL_NAME, MAX_TOOL_ARGUMENTS, MAX_TOOL_NUMBERS in *. lia.
Qed.
Lemma call_validate_no_panic p : call_validate p <> Panic.
Proof. apply require_not_panic. Qed.
Lemma tool_call_written : written_by read_tool_call tool_call_ok write_tool_call.
Proof.
  apply written_by_reads.
  - unfold read_tool_call. do 9 field_next. eapply parses_bind; [apply parses_reason|]. intros reason ? [Hre ->].
    eapply parses_bind; [apply parses_form|]. intros form ? ->. do 2 field_next.
    eapply parses_bind; [apply parses_kinds|]. intros kinds ? [Hk ->]. do 7 field_next.
    eapply parses_bind; [apply parses_refusal|]. intros policy ? [Hpol ->].
    apply parses_result; [apply refusal_of_no_panic|]. intros r (-> & -> & ->)%refusal_of_Ok. cbv zeta.
    apply (parses_validate _ tt); [apply call_validate_no_panic|]. intros Hval. field_next.
    assert (word_ok r) as Hword by (intros x v -> Hx; match goal with H : forall v, _ ≫= er_word = Some v -> _ |- _ => by apply (H v) end).
    match goal with |- ?ok /\ _ => assert ok as Hok by (constructor; try done; intros ? E; destruct (Hpol _ E) as (? & _ & ?); done) end.
    split; [done|]. pose proof (call_valid_fits _ Hval) as Hfit. unfold write_tool_call.
    rewrite decide_False by (destruct Hfit; lia). rewrite Hval. cbn [obind]. rewrite tool_call_layout by done. f_equal.
    unfold tool_call_bytes, exec_refusal_bytes. cbn -[form_bytes kinds_bytes refusal_bytes code_or_0 two_flags string_field be_bytes].
    by rewrite ?app_nil_r.
  - intros p e Hok Hw. unfold write_tool_call in Hw. case_decide; [done|]. field_wrote. subst e. destruct w.
    pose proof (call_valid_fits p Hw0) as Hf. rewrite tool_call_layout by done. pose proof (call_refusal_good p Hok Hf) as Hg.
    pose proof (word_fits _ (ok_tc_word p Hok) (cf_word p Hf)) as Hword. destruct Hok, Hf. unfold tool_call_bytes. split.
    + unfold read_tool_call. do 9 byte_next. eapply (reads_bind _ _ [_] _); [by apply reads_reason|cbv beta].
      eapply reads_bind; [apply reads_form|cbv beta]. do 2 byte_next. eapply reads_bind; [by apply reads_kinds|cbv beta].
      do 4 byte_next. unfold exec_refusal_bytes. cbn [app]. do 3 byte_next.
      eapply reads_last; [by apply reads_refusal|cbv beta]. eapply (reads_bind _ _ [] []).
      { rewrite (proj2 (refusal_of_Ok _ _ _ (tc_refusal p))) by done. apply reads_lift. }
      cbv beta zeta. destruct p. eapply reads_last; [|apply reads_ret]. cbn in *. rewrite Hw0. apply reads_lift.
    + pose proof (reason_code_u8 (tc_reason p)).
      repeat first [bytes_next|apply bytes_ok_cons; [done|]|apply form_codes_u8|apply bytes_ok_kinds|apply bytes_ok_exec_refusal|by apply bytes_ok_refusal].
Qed.

(** ** Kind 31: the fields of the request. *)
Definition text8_field (s : bytes) : bytes := zlen s :: s.
Definition text16_field (s : bytes) : bytes := be_bytes 2 (zlen s) ++ s.
Definition environment_bytes (e : Z * bytes) : bytes := e.1 :: text16_field e.2.
Definition declared_bytes (e : bytes * bytes) : bytes := text8_field e.1 ++ text16_field e.2.
Definition named_bytes (e : Z * bytes) : bytes := e.1 :: text8_field e.2.
Lemma parses_text8 : parses r_text8 (fun s e => (str_ok s /\ zlen s < 2 ^ 8) /\ e = text8_field s).
Proof.
  unfold r_text8. field_next. eapply parses_bind; [apply parses_take; unfold uint in *; lia|]. intros s ? [-> [Hl Hb]].
  unfold from_utf8. destruct (Utf8.valid e) eqn:Hu; [|apply parses_err]. apply (parses_ret e). unfold text8_field. rewrite app_nil_r, Hl.
  unfold uint in *. split; [split; [by split|lia]|done].
Qed.
Lemma reads_text8 s : str_ok s -> reads r_text8 (text8_field s) s.
Proof. intros Hs. unfold r_text8, text8_field. byte_next. eapply reads_last; [by apply reads_take|by apply reads_utf8]. Qed.
Lemma parses_text16 : parses r_text16 (fun s e => (str_ok s /\ zlen s < 2 ^ 16) /\ e = text16_field s).
Proof.
  unfold r_text16. field_next. eapply parses_bind; [apply parses_take; unfold uint in *; lia|]. intros s ? [-> [Hl Hb]].
  unfold from_utf8. destruct (Utf8.valid e) eqn:Hu; [|apply parses_err]. apply (parses_ret e). unfold text16_field. rewrite app_nil_r, Hl.
  unfold uint in *. split; [split; [by split|lia]|done].
Qed.
Lemma reads_text16 s : str_ok s -> zlen s < 2 ^ 16 -> reads r_text16 (text16_field s) s.
Proof.
  intros Hs Hl. unfold r_text16, text16_field. pose proof (zlen_nonneg s). assert (u16 (zlen s)) by (unfold uint; lia). byte_next.
  eapply reads_last; [by apply reads_take|by apply reads_utf8].
Qed.
Definition environment_ok (e : Z * bytes) : Prop := u8 e.1 /\ str_ok e.2.
Definition declared_ok (e : bytes * bytes) : Prop := str_ok e.1 /\ str_ok e.2.
Definition environment_small (e : Z * bytes) : Prop := zlen e.2 < 2 ^ 16.
Definition declared_small (e : bytes * bytes) : Prop := zlen e.1 < 2 ^ 8 /\ zlen e.2 < 2 ^ 16.
Definition named_small (e : Z * bytes) : Prop := zlen e.2 < 2 ^ 8.
Lemma parses_environment : parses read_environment (fun e b => (environment_ok e /\ environment_small e) /\ b = environment_bytes e).
Proof.
  unfold read_environment. field_next. eapply parses_bind; [apply parses_text16|]. intros v ? [[? ?] ->]. field_next.
  unfold environment_bytes. cbn -[text16_field]. by rewrite app_nil_r.
Qed.
Lemma parses_declared : parses read_declared (fun e b => (declared_ok e /\ declared_small e) /\ b = declared_bytes e).
Proof.
  unfold read_declared. eapply parses_bind; [apply parses_text8|]. intros n ? [[? ?] ->].
  eapply parses_bind; [apply parses_text16|]. intros v ? [[? ?] ->]. field_next. unfold declared_bytes. cbn -[text16_field text8_field].
  by rewrite app_nil_r.
Qed.
Lemma parses_named : parses read_named (fun e b => (environment_ok e /\ named_small e) /\ b = named_bytes e).
Proof.
  unfold read_named. field_next. eapply parses_bind; [apply parses_text8|]. intros v ? [[? ?] ->]. field_next.
  unfold named_bytes. cbn -[text8_field]. by rewrite app_nil_r.
Qed.
Lemma reads_environment e : environment_ok e -> environment_small e -> reads read_environment (environment_bytes e) e.
Proof.
  intros [] ?. unfold read_environment, environment_bytes. byte_next. eapply reads_last; [by apply reads_text16|]. destruct e. apply reads_ret.
Qed.
Lemma reads_declared e : declared_ok e -> declared_small e -> reads read_declared (declared_bytes e) e.
Proof.
  intros [] []. unfold read_declared, declared_bytes. eapply reads_bind; [by apply reads_text8|cbv beta].
  eapply reads_last; [by apply reads_text16|]. destruct e. apply reads_ret.
Qed.
Lemma reads_named e : environment_ok e -> named_small e -> reads read_named (named_bytes e) e.
Proof. intros [] ?. unfold read_named, named_bytes. byte_next. eapply reads_last; [by apply reads_text8|]. destruct e. apply reads_ret. Qed.
Definition counted {A} (enc : A -> bytes) (l : list A) : bytes := zlen l :: concat (enc <$> l).
Lemma parses_counted {A} limit (p : reader A) (ok : A -> Prop) (enc : A -> bytes) :
  parses p (fun a e => ok a /\ e = enc a) ->
  parses (r_counted limit p) (fun l e => (zlen l <= limit /\ Forall ok l) /\ e = counted enc l).
Proof.
  intros Hp. unfold r_counted. do 2 field_next. eapply parses_weaken; [by apply parses_many|]. intros l e (Hl & ? & ->).
  apply zlen_to_nat in Hl; [|unfold uint in *; lia]. unfold counted. rewrite Hl. split; [split; [lia|done]|done].
Qed.
Lemma reads_counted {A} limit (p : reader A) (enc : A -> bytes) l :
  zlen l <= limit -> Forall (fun a => reads p (enc a) a) l -> reads (r_counted limit p) (counted enc l) l.
Proof.
  intros Hl Hp. unfold r_counted, counted. byte_next. byte_next; [by apply Z.leb_le|]. apply reads_many; [unfold zlen; lia|done].
Qed.
Lemma bytes_ok_text16 s : str_ok s -> bytes_ok (text16_field s).
Proof. intros [Hs _]. unfold text16_field. bytes_next; [apply be_bytes_ok|done]. Qed.
Lemma bytes_ok_text8 s : str_ok s -> zlen s < 2 ^ 8 -> bytes_ok (text8_field s).
Proof. intros [Hs _] Hl. pose proof (zlen_nonneg s). apply bytes_ok_cons; [unfold uint; lia|done]. Qed.
Lemma bytes_ok_counted {A} (enc : A -> bytes) l : zlen l < 2 ^ 8 -> Forall (fun a => bytes_ok (enc a)) l -> bytes_ok (counted enc l).
Proof. intros Hl Ha. pose proof (zlen_nonneg l). apply bytes_ok_cons; [unfold uint; lia|by apply bytes_ok_concat]. Qed.

(** ** Kind 31: what validation says of the sizes. *)
Definition sum_by {A} (f : A -> Z) (l : list A) : Z := foldr (fun a s => f a + s) 0 l.
Lemma sum_by_cons {A} (f : A -> Z) a l : sum_by f (a :: l) = f a + sum_by f l.
Proof. done. Qed.
Lemma sum_by_app {A} (f : A -> Z) l k : sum_by f (l ++ k) = sum_by f l + sum_by f k.
Proof. unfold sum_by. induction l as [|a l IH]; cbn; [done|]. rewrite IH. lia. Qed.
Lemma sum_by_nonneg {A} (f : A -> Z) l : (forall a, 0 <= f a) -> 0 <= sum_by f l.
Proof. intros Hf. induction l as [|a l IH]; cbn; [done|]. specialize (Hf a). unfold sum_by in IH. lia. Qed.
Lemma sum_by_le {A} (f g : A -> Z) l : Forall (fun a => f a <= g a) l -> sum_by f l <= sum_by g l.
Proof. unfold sum_by. induction 1; cbn; lia. Qed.
Lemma zlen_concat_sum {A} (enc : A -> bytes) l : zlen (concat (enc <$> l)) = sum_by (fun a => zlen (enc a)) l.
Proof. unfold sum_by. induction l as [|a l IH]; cbn; [done|]. by rewrite zlen_app, IH. Qed.
Definition class_max (c : EnvClass) : Z :=
  match c with Locale => 64 | Word => 128 | EnvPath => 512 | PathList => 2048 | Socket => 103 end.
Lemma class_valid_len c v : class_valid c v = true -> zlen v <= class_max c.
Proof.
  destruct c; cbn [class_valid class_max]; unfold in_range; intros H; repeat (apply andb_true_iff in H as [H ?]); lia.
Qed.
(** The environment holds each terminal name at most once. *)
Definition terminal_cost (t : bytes * EnvClass) : Z := 3 + class_max t.2.
Lemma terminal_cost_nonneg t : 0 <= terminal_cost t.
Proof. unfold terminal_cost. destruct t as [? []]; cbn; lia. Qed.
Lemma environment_sum lo env :
  match env with e :: _ => Z.of_nat lo < e.1 | [] => True end ->
  windows_all (fun a b => a.1 <? b.1) env = true ->
  Forall (fun e => is_some_and (fun t => class_valid t.2 e.2) (terminal_by_code e.1) = true) env ->
  sum_by (fun e => 3 + zlen e.2) env <= sum_by terminal_cost (drop lo TERMINAL).
Proof.
  revert lo. induction env as [|[c v] env IH]; intros lo Hlo Hw Hall.
  { cbn. apply sum_by_nonneg, terminal_cost_nonneg. }
  apply Forall_cons in Hall as [Hc Hall]. cbn [fst snd] in *. unfold terminal_by_code in Hc.
  destruct (from_code_1 TERMINAL c) as [t|] eqn:Et; [|done]. cbn in Hc. apply class_valid_len in Hc.
  apply from_code_1_lookup in Et as (i & Hi & ->). specialize (IH (S i)).
  assert (drop lo TERMINAL = take (i - lo) (drop lo TERMINAL) ++ t :: drop (S i) TERMINAL) as ->.
  { rewrite <- (take_drop (i - lo) (drop lo TERMINAL)) at 1. f_equal. rewrite drop_drop. replace (lo + (i - lo))%nat with i by lia.
    by apply drop_S. }
  rewrite sum_by_app. pose proof (sum_by_nonneg terminal_cost (take (i - lo) (drop lo TERMINAL)) terminal_cost_nonneg).
  rewrite !sum_by_cons. cbn [snd].
  assert (sum_by (fun e => 3 + zlen e.2) env <= sum_by terminal_cost (drop (S i) TERMINAL)); [|unfold terminal_cost at 2; lia].
  destruct env as [|[c' v'] env]; [apply IH; done|]. cbn [windows_all fst] in Hw. apply andb_true_iff in Hw as [Hw1 Hw2].
  apply IH; [cbn [fst]; lia|done|done].
Qed.
Lemma declared_sum last count total entries :
  count <= MAX_DECLARED -> total <= MAX_DECLARED_BYTES -> declared_loop last count total entries = true ->
  count + zlen entries <= MAX_DECLARED /\ total + sum_by (fun e => zlen e.1 + zlen e.2) entries <= MAX_DECLARED_BYTES /\
  Forall (fun e => zlen e.1 <= MAX_NAME_BYTES /\ zlen e.2 <= MAX_DECLARED_VALUE_BYTES) entries.
Proof.
  revert last count total. induction entries as [|[n v] entries IH]; intros last count total Hc Ht Hl.
  { cbn. split; [unfold zlen; cbn; lia|]. split; [lia|constructor]. }
  cbn [declared_loop] in Hl. destruct (_ || _) eqn:E in Hl; [done|]. rewrite !orb_false_iff, !negb_false_iff in E.
  destruct E as [[[[E1 E2] E3] E4] _]. apply IH in Hl as (H1 & H2 & H3); [|lia..]. rewrite zlen_cons, sum_by_cons. cbn [fst snd].
  split; [lia|]. split; [lia|]. constructor; [|done]. unfold declared_name_valid, name_form, in_range in E3.
  unfold declared_value_valid, in_range in E4. rewrite !andb_true_iff in E3, E4. cbn [fst snd]. lia.
Qed.
Record person_fits (p : PersonCommandQueued) : Prop := {
  pf_command : zlen (pc_command p) <= MAX_PERSON_COMMAND; pf_display : zlen (pc_display_command p) <= MAX_PERSON_COMMAND;
  pf_cwd : zlen (pc_cwd p) <= MAX_PERSON_CWD; pf_search : zlen (pc_search_path p) <= MAX_SEARCH_PATH;
  pf_environment : zlen (pc_environment p) <= TERMINAL_COUNT;
  pf_environment_sum : sum_by (fun e => 3 + zlen e.2) (pc_environment p) <= sum_by terminal_cost TERMINAL;
  pf_environment_small : Forall environment_small (pc_environment p);
  pf_declared : zlen (pc_declared p) <= MAX_DECLARED;
  pf_declared_sum : sum_by (fun e => zlen e.1 + zlen e.2) (pc_declared p) <= MAX_DECLARED_BYTES;
  pf_declared_small : Forall declared_small (pc_declared p); pf_named : zlen (pc_named p) <= MAX_PERSON_NAMED;
  pf_named_small : Forall (fun e => zlen e.2 <= 48) (pc_named p);
  pf_kinds : zlen (pc_number_kinds p) <= MAX_TOOL_NUMBERS;
  pf_word : forall r, pc_fallback p = Some r -> refusal_word_ok r = true;
}.
Lemma forallb_Forall {A} (f : A -> bool) l : forallb f l = true <-> Forall (fun a => f a = true) l.
Proof. rewrite forallb_forall, Forall_forall. by setoid_rewrite list_elem_of_In. Qed.
Section Person.
Context `{Hasher, Unicode}.
Lemma person_valid_fits p : person_validate p = Ok tt -> person_fits p.
Proof.
  unfold person_validate. intros Hv. apply obind_Ok in Hv as ([] & Hr & Hv). apply obind_Ok in Hv as (named & _ & Hv).
  destruct (_ && _) eqn:Hnz in Hv; [|done]. apply obind_Ok in Hv as (digest & _ & Hv).
  rewrite require_Ok, !andb_true_iff in Hv. destruct Hv as [[[[[[_ Hk] Hf] _] _] _] _].
  unfold valid_person_request in Hr. rewrite require_Ok, !andb_true_iff in Hr.
  destruct Hr as [[[[[[_ _] [Hc _]] Hd] Hcwd] [[[[Hs He] Hw] Hcl] Hdec]] [[[Hn Hnw] Hnames] _]].
  unfold person_request in *. cbn [pq_command pq_display_command pq_cwd pq_search_path pq_environment pq_declared pq_named] in *.
  unfold in_range in Hc. unfold valid_person_cwd, in_range in Hcwd. unfold valid_search_path, in_range in Hs.
  rewrite !andb_true_iff in Hc, Hcwd, Hs. apply forallb_Forall in Hcl, Hnames.
  pose proof (environment_sum 0 (pc_environment p)) as Hsum. rewrite drop_0 in Hsum.
  assert (match pc_environment p with e :: _ => Z.of_nat 0 < e.1 | [] => True end) as Hfirst.
  { destruct (pc_environment p) as [|[c v] env]; [done|]. apply Forall_cons in Hcl as [Hc1 _]. cbn [fst snd] in *. unfold terminal_by_code in Hc1.
    destruct (from_code_1 TERMINAL c) as [t|] eqn:Et; [|done]. apply from_code_1_lookup in Et as (i & _ & ->). lia. }
  specialize (Hsum Hfirst Hw Hcl).
  destruct (declared_sum None 0 0 (pc_declared p)) as (Hdn & Hds & Hdf); [done|done|done|].
  split; try (lia || done).
  - eapply Forall_impl; [exact Hcl|]. intros e. unfold environment_small. destruct (terminal_by_code e.1) as [t|]; [|done]. cbn.
    intros Ht%class_valid_len. destruct t as [? []]; cbn in Ht; lia.
  - eapply Forall_impl; [exact Hdf|]. unfold declared_small, MAX_NAME_BYTES, MAX_DECLARED_VALUE_BYTES. intros e [? ?]. lia.
  - eapply Forall_impl; [exact Hnames|]. intros e. unfold secret_name_valid, in_range. rewrite !andb_true_iff. intros. destruct_and!. lia.
  - unfold MAX_TOOL_NUMBERS, MAX_PERSON_REWRITE_NUMBERS in *. destruct (pc_whole_command p); lia.
  - intros r Er. rewrite Er in Hf. destruct (pc_whole_command p); [|by rewrite !andb_true_iff in Hf; destruct Hf]. cbn in Hf.
    rewrite !andb_true_iff in Hf. apply Hf.
Qed.
Record person_command_ok (p : PersonCommandQueued) : Prop := {
  ok_pc_request : Id_ok (pc_request p); ok_pc_digest : Hash_ok (pc_digest p); ok_pc_input : Id_ok (pc_input p);
  ok_pc_project : Id_ok (pc_project p); ok_pc_conversation : Id_ok (pc_conversation p);
  ok_pc_expected : u64 (pc_expected_generation p); ok_pc_command : str_ok (pc_command p);
  ok_pc_display : str_ok (pc_display_command p); ok_pc_cwd : str_ok (pc_cwd p); ok_pc_search : str_ok (pc_search_path p);
  ok_pc_environment : Forall environment_ok (pc_environment p); ok_pc_declared : Forall declared_ok (pc_declared p);
  ok_pc_named : Forall environment_ok (pc_named p); ok_pc_order : u64 (pc_order_revision p);
  ok_pc_unnumbered : u32 (pc_unnumbered p); ok_pc_revision : u32 (pc_rule_set_revision p);
  ok_pc_rule_digest : Hash_ok (pc_rule_set_digest p); ok_pc_word : word_ok (pc_fallback p);
}.
Definition person_command_bytes (p : PersonCommandQueued) : bytes :=
  pc_request p ++ pc_digest p ++ pc_input p ++ pc_project p ++ pc_conversation p ++ be_bytes 8 (pc_expected_generation p) ++
  two_flags (pc_new_conversation p) (pc_outside_sandbox p) :: string_field (pc_command p) ++ string_field (pc_display_command p) ++
  string_field (pc_cwd p) ++ string_field (pc_search_path p) ++ counted environment_bytes (pc_environment p) ++
  counted declared_bytes (pc_declared p) ++ counted named_bytes (pc_named p) ++ be_bytes 8 (pc_order_revision p) ++
  kinds_bytes (pc_number_kinds p) ++ be_bytes 4 (pc_unnumbered p) ++ two_flags (pc_command_cut p) (pc_whole_command p) ::
  be_bytes 4 (pc_rule_set_revision p) ++ pc_rule_set_digest p ++ exec_refusal_bytes (pc_fallback p).
Lemma foldl_small {A} (f : Writer -> A -> Writer) (enc : A -> bytes) (small : A -> Prop) w l :
  (forall w a, small a -> f w a = w ++ enc a) -> Forall small l -> foldl f w l = w ++ concat (enc <$> l).
Proof.
  intros Hf Hl. revert w. induction Hl as [|a l Ha _ IH]; intros w; cbn; [by rewrite app_nil_r|]. by rewrite IH, Hf, <- app_assoc.
Qed.
Lemma w_text16_field w s : zlen s < 2 ^ 16 -> w_text16 w s = w ++ text16_field s.
Proof. intros. pose proof (zlen_nonneg s). unfold w_text16, text16_field. rewrite wrap_small by (unfold uint; lia). by layout. Qed.
Lemma w_text8_field w s : zlen s < 2 ^ 8 -> w_text8 w s = w ++ text8_field s.
Proof. intros. pose proof (zlen_nonneg s). unfold w_text8, text8_field. rewrite wrap_small by (unfold uint; lia). by layout. Qed.
Lemma person_command_layout p : person_fits p -> person_command_fields [] p = person_command_bytes p.
Proof.
  intros []. unfold person_command_fields, person_request_fields, person_request.
  unfold MAX_PERSON_COMMAND, MAX_PERSON_CWD, MAX_SEARCH_PATH, TERMINAL_COUNT, MAX_DECLARED, MAX_PERSON_NAMED in *.
  cbn [pq_new_conversation pq_outside_sandbox pq_command pq_display_command pq_cwd pq_search_path pq_environment pq_declared pq_named foldl].
  pose proof (zlen_nonneg (pc_environment p)). pose proof (zlen_nonneg (pc_declared p)). pose proof (zlen_nonneg (pc_named p)).
  rewrite exec_refusal_layout, kinds_layout, !w_text32_field, !wrap_small by (done || unfold uint; lia).
  rewrite (foldl_small _ named_bytes (fun e => zlen e.2 <= 48)); [|intros; rewrite w_text8_field by lia; unfold named_bytes; by layout|done].
  rewrite (foldl_small _ declared_bytes declared_small);
    [|intros ? ? []; rewrite w_text16_field, w_text8_field by done; unfold declared_bytes; by rewrite <- app_assoc|done].
  rewrite (foldl_small _ environment_bytes environment_small);
    [|intros; rewrite w_text16_field by done; unfold environment_bytes; by layout|done].
  unfold person_command_bytes, counted. layout. done.
Qed.
Lemma person_command_len p : person_command_ok p -> person_fits p -> zlen (person_command_bytes p) <= MAX_PERSON_COMMAND_PAYLOAD.
Proof.
  intros [] []. unfold person_command_bytes, counted, kinds_bytes, exec_refusal_bytes, string_field.
  repeat match goal with H : array _ _ |- _ => apply array_len in H end.
  assert (sum_by (fun a => zlen (environment_bytes a)) (pc_environment p) <= 18012) as He.
  { etrans; [|etrans; [exact pf_environment_sum0|by vm_compute]]. apply sum_by_le, Forall_forall. intros e _.
    unfold environment_bytes, text16_field. len. }
  assert (sum_by (fun a => zlen (declared_bytes a)) (pc_declared p) <= 3 * zlen (pc_declared p) + sum_by (fun e => zlen e.1 + zlen e.2) (pc_declared p)) as Hd.
  { clear. induction (pc_declared p) as [|e l IH]; [done|]. rewrite !sum_by_cons, zlen_cons. unfold declared_bytes at 1, text8_field, text16_field. len. }
  assert (sum_by (fun a => zlen (named_bytes a)) (pc_named p) <= 50 * zlen (pc_named p)) as Hn.
  { clear -pf_named_small0. induction pf_named_small0 as [|e l ? _ IH]; [done|]. rewrite sum_by_cons, zlen_cons. unfold named_bytes at 1, text8_field. len. }
  rewrite <- zlen_concat_sum in He, Hn. rewrite <- (zlen_concat_sum declared_bytes) in Hd.
  autorewrite with len. unfold MAX_PERSON_COMMAND_PAYLOAD, MAX_PERSON_COMMAND, MAX_PERSON_CWD, MAX_SEARCH_PATH, MAX_DECLARED,
    MAX_DECLARED_BYTES, MAX_PERSON_NAMED, MAX_TOOL_NUMBERS in *. lia.
Qed.
Lemma named_numbers_no_panic kinds first named :
  1 <= first -> first + zlen named <= zlen kinds + 1 -> named_numbers kinds first named <> Panic.
Proof.
  revert first. induction named as [|[n x] named IH]; intros first Hf Hl; [done|]. rewrite zlen_cons in Hl. pose proof (zlen_nonneg named).
  cbn [named_numbers]. destruct (Z.eqb_spec n first) as [->|]; [|done].
  destruct (lookup_lt_is_Some_2 kinds (Z.to_nat (first - 1))) as [k Hk]; [unfold zlen in *; lia|]. rewrite Hk. cbn [obind].
  case_decide; [apply IH; lia|done].
Qed.
Lemma person_validate_no_panic p : person_validate p <> Panic.
Proof.
  unfold person_validate. apply obind_not_panic; [apply require_not_panic|]. intros [] Hr. apply obind_not_panic.
  - destruct (_ && _) eqn:E; [|done]. apply andb_true_iff in E as [_ E]. apply named_numbers_no_panic; unfold saturating_sub; lia.
  - intros named _. destruct (_ && _); [|done]. apply obind_not_panic; [|intros; apply require_not_panic].
    unfold request_digest, request_bytes. by rewrite Hr.
Qed.
Lemma person_command_written : written_by read_person_command person_command_ok write_person_command.
Proof.
  apply written_by_reads.
  - unfold read_person_command. do 11 field_next.
    eapply parses_bind; [apply parses_counted, parses_environment|]. intros env ? [[? He] ->].
    eapply parses_bind; [apply parses_counted, parses_declared|]. intros decl ? [[? Hd] ->].
    eapply parses_bind; [apply parses_counted, parses_named|]. intros named ? [[? Hn] ->].
    field_next. eapply parses_bind; [apply parses_kinds|]. intros kinds ? [Hk ->]. do 7 field_next.
    apply parses_result; [apply refusal_of_no_panic|]. intros r (-> & -> & ->)%refusal_of_Ok. cbv zeta.
    apply (parses_validate _ tt); [apply person_validate_no_panic|]. intros Hval. field_next.
    assert (word_ok r) as Hword by (intros x v -> Hx; match goal with H : forall v, _ ≫= er_word = Some v -> _ |- _ => by apply (H v) end).
    apply Forall_and in He as [He _]. apply Forall_and in Hd as [Hd _]. apply Forall_and in Hn as [Hn _].
    match goal with |- ?ok /\ _ => assert ok as Hok by (constructor; done) end.
    split; [done|]. pose proof (person_valid_fits _ Hval) as Hfit. unfold write_person_command.
    rewrite decide_False by (destruct Hfit; lia). rewrite Hval. cbn [obind]. rewrite person_command_layout by done. done.
  - intros p e Hok Hw. unfold write_person_command in Hw. case_decide; [done|]. field_wrote. subst e. destruct w.
    pose proof (person_valid_fits p Hw0) as Hf. rewrite person_command_layout by done.
    pose proof (word_fits _ (ok_pc_word p Hok) (pf_word p Hf)) as Hword. destruct Hok, Hf.
    assert (Forall named_small (pc_named p)) as Hns by (eapply Forall_impl; [exact pf_named_small0|]; unfold named_small; intros; lia).
    unfold person_command_bytes. repeat match goal with F : Forall _ _ |- _ => rewrite Forall_forall in F end. split.
    + unfold read_person_command. do 11 byte_next.
      eapply reads_bind; [apply reads_counted; [done|]; apply Forall_forall; intros; apply reads_environment; auto|cbv beta].
      eapply reads_bind; [apply reads_counted; [done|]; apply Forall_forall; intros; apply reads_declared; auto|cbv beta].
      eapply reads_bind; [apply reads_counted; [done|]; apply Forall_forall; intros; apply reads_named; auto|cbv beta].
      byte_next. eapply reads_bind; [by apply reads_kinds|cbv beta]. do 4 byte_next. unfold exec_refusal_bytes. do 3 byte_next.
      eapply (reads_bind _ _ [] []).
      { rewrite (proj2 (refusal_of_Ok _ _ _ (pc_fallback p))) by done. apply reads_lift. }
      cbv beta zeta. destruct p. eapply reads_last; [|apply reads_ret]. cbn in *. rewrite Hw0. apply reads_lift.
    + unfold TERMINAL_COUNT, MAX_DECLARED, MAX_PERSON_NAMED in *.
      repeat first [bytes_next|apply bytes_ok_kinds|apply bytes_ok_exec_refusal
                   |apply bytes_ok_counted; [lia|apply Forall_forall; intros ? Hin]].
      * destruct (ok_pc_environment0 _ Hin). apply bytes_ok_cons; [done|by apply bytes_ok_text16].
      * destruct (ok_pc_declared0 _ Hin), (pf_declared_small0 _ Hin). unfold declared_bytes. bytes_next; [by apply bytes_ok_text8|by apply bytes_ok_text16].
      * destruct (ok_pc_named0 _ Hin). apply bytes_ok_cons; [done|]. apply bytes_ok_text8; [done|]. by apply Hns.
Qed.
End Person.
