(* ===== verification/RecordCodec.v ===== *)
(** * The record codec (conversation/codec.rs): [payload] and [decode_record].

    The two dispatches over the record kinds, put together from the kinds of
    Records.v, JobRecords.v, CallRecords.v, PathGuard.v and Policy.v, and the
    instance of the interface [RecordCodec] that the frame and journal code
    use. Every kind keeps one contract: what its arm decodes is exactly what
    its writer wrote. *)
From Stdlib Require Import ZArith Lia String.
From stdpp Require Import prelude list.
From S2P Require Import Prelude PayloadId Codec Fields Envelope Policy PathGuard Types Text Rules Tables Records JobRecords CallRecords.

(** ** [payload]. *)
Definition payload `{Hasher, Unicode} (record : JournalRecord) : Result Writer :=
  match record with
  | RInputQueued p => write_input_queued p
  | RInputReordered p => write_input_reordered p
  | RInputDecision p => write_input_decision p
  | RInputPromoted p => write_input_promoted p
  | RToolCall p => write_tool_call p
  | RToolResult p => write_tool_result p
  | RPendingInit p => write_pending_init p
  | RActiveBinding p => write_active_binding p
  | ROwnerGeneration => Ok []
  | RProjectRegistered p => write_project_registered p
  | RProjectRequestAlias p => write_project_alias p
  | RProjectRenamed p => write_project_renamed p
  | RTurnAccepted p => write_turn_accepted p
  | RStartAuthorized p => write_start_authorized p
  | RRequestStarted p => write_request_started p
  | RCancelRequested p => write_cancel_requested p
  | RTurnTerminal p => write_turn_terminal p
  | RPersonCommandQueued p => write_person_command p
  | RJobIntent p => write_job_intent p
  | RJobCancelRequested p => write_job_cancel p
  | RJobSettled p => write_job_settled p
  | RJobResult p => write_job_result p
  | RJobRetention p => write_job_retention p
  | RExecutionPath p => write_execution_path [] p
  | RPolicyDecision p => write_policy_decision [] p
  | RPolicyRevision p => write_policy_revision [] p
  | RResponseText p | RThinkingText p => write_response_text p
  end.

(** ** [decode_record]. *)
Definition r_as {A} (record : A -> JournalRecord) (p : reader A) : reader JournalRecord :=
  read a := p in rret (record a).
(** [require(payload.len() <= bound)?] and the [Limit] of the policy kinds. *)
Definition within (size bound : Z) (p : reader JournalRecord) : reader JournalRecord :=
  read _ := rlift (require (size <=? bound)) in p.
Definition limited (size bound : Z) (p : reader JournalRecord) : reader JournalRecord :=
  read _ := rlift (if decide (size > bound) then Err Limit else Ok tt) in p.
Definition read_record `{Hasher, Unicode} (k size : Z) : reader JournalRecord :=
  if k =? 18 then r_as RInputQueued read_input_queued
  else if k =? 19 then r_as RInputReordered read_input_reordered
  else if k =? 13 then r_as RInputDecision read_input_decision
  else if k =? 16 then r_as RInputPromoted read_input_promoted
  else if k =? 10 then r_as RPendingInit read_pending_init
  else if k =? 11 then r_as RActiveBinding read_active_binding
  else if k =? 3 then rret ROwnerGeneration
  else if k =? 4 then r_as RProjectRegistered read_project_registered
  else if k =? 9 then r_as RProjectRequestAlias read_project_alias
  else if k =? 20 then r_as RProjectRenamed read_project_renamed
  else if k =? 21 then r_as RTurnAccepted read_turn_accepted
  else if k =? 6 then r_as RStartAuthorized read_start_authorized
  else if k =? 33 then r_as RRequestStarted read_request_started
  else if k =? 7 then r_as RCancelRequested read_cancel_requested
  else if k =? 8 then r_as RTurnTerminal read_turn_terminal
  else if k =? 24 then r_as RResponseText read_response_text
  else if k =? 25 then r_as RThinkingText read_response_text
  else if k =? 14 then within size MAX_TOOL_CALL_PAYLOAD (r_as RToolCall read_tool_call)
  else if k =? 15 then r_as RToolResult read_tool_result
  else if k =? 26 then within size MAX_JOB_INTENT_PAYLOAD (r_as RJobIntent read_job_intent)
  else if k =? 27 then read _ := rlift (require (size =? JOB_CANCEL_PAYLOAD)) in r_as RJobCancelRequested read_job_cancel
  else if k =? 28 then within size MAX_JOB_SETTLED_PAYLOAD (r_as RJobSettled read_job_settled)
  else if k =? 29 then within size MAX_JOB_RESULT_PAYLOAD (r_as RJobResult read_job_result)
  else if k =? 30 then within size MAX_JOB_RETENTION_PAYLOAD (r_as RJobRetention read_job_retention)
  else if k =? 31 then within size MAX_PERSON_COMMAND_PAYLOAD (r_as RPersonCommandQueued read_person_command)
  else if k =? 32 then within size MAX_EXECUTION_PATH_PAYLOAD (r_as RExecutionPath read_execution_path)
  else if k =? 34 then limited size MAX_POLICY_DECISION_PAYLOAD (r_as RPolicyDecision read_policy_decision)
  else if k =? 35 then limited size MAX_POLICY_REVISION_PAYLOAD (r_as RPolicyRevision read_policy_revision)
  else rlift (Err UnsupportedFormat).
(** The reader stands at the end of the payload when it is done. *)
Definition read_whole {A} (p : reader A) (b : bytes) : Result A :=
  let? (record, r) := p (mkReader b 0) in
  if decide (rd_offset r <> zlen b) then Err Corrupt else Ok record.
Definition decode_journal_record `{Hasher, Unicode} (k : Z) (b : bytes) : Result JournalRecord :=
  if decide (zlen b > MAX_FRAME - HEADER - TRAILER) then Err Limit else read_whole (read_record k (zlen b)) b.
#[export] Instance record_codec `{Hasher, Unicode} : RecordCodec JournalRecord := {|
  record_kind := kind;
  record_payload := payload;
  decode_record := decode_journal_record;
|}.

(** ** The widths of a record's fields. *)
Definition record_ok (record : JournalRecord) : Prop :=
  match record with
  | RInputQueued p => input_queued_ok p
  | RInputReordered p => input_reordered_ok p
  | RInputDecision p => input_decision_ok p
  | RInputPromoted p => input_promoted_ok p
  | RToolCall p => tool_call_ok p
  | RToolResult p => tool_result_ok p
  | RPendingInit p => pending_init_ok p
  | RActiveBinding p => active_binding_ok p
  | ROwnerGeneration => True
  | RProjectRegistered p => project_registered_ok p
  | RProjectRequestAlias p => project_alias_ok p
  | RProjectRenamed p => project_renamed_ok p
  | RTurnAccepted p => turn_accepted_ok p
  | RStartAuthorized p => start_authorized_ok p
  | RRequestStarted p => request_started_ok p
  | RCancelRequested p => cancel_requested_ok p
  | RTurnTerminal p => turn_terminal_ok p
  | RPersonCommandQueued p => person_command_ok p
  | RJobIntent p => job_intent_ok p
  | RJobCancelRequested p => job_cancel_ok p
  | RJobSettled p => job_settled_ok p
  | RJobResult p => job_result_ok p
  | RJobRetention p => job_retention_ok p
  | RExecutionPath p => path_record_ok p
  | RPolicyDecision p => decision_ok p
  | RPolicyRevision p => revision_ok p
  | RResponseText p | RThinkingText p => response_text_ok p
  end.

Section Codec.
Context `{Hasher, Unicode}.

(** ** The contract of one arm on one payload. *)
Definition decodes {A} (p : reader A) (b : bytes) (good : A -> Prop) : Prop :=
  read_whole p b <> Panic /\ forall a, read_whole p b = Ok a <-> good a.
Lemma parses_whole {A} (p : reader A) Q b a :
  bytes_ok b -> parses p Q -> read_whole p b = Ok a -> Q a b.
Proof.
  intros Hb Hp. specialize (Hp b 0 Hb ltac:(pose proof (zlen_nonneg b); lia)). unfold read_whole.
  destruct (p _) as [[x r]|e|]; cbn [obind]; [|done..]. destruct Hp as (e & HQ & Hle & -> & Hd).
  cbn [rd_offset]. destruct (decide _) as [|Hn]; [done|]. intros [= ->]. apply dec_stable in Hn.
  rewrite Z.add_0_l in Hd, Hn. rewrite Hn in Hd. change (zdrop 0 b) with b in Hd.
  replace (zdrop (zlen b) b) with (@nil Z) in Hd by (unfold zdrop, zlen; by rewrite drop_ge by lia).
  rewrite app_nil_r in Hd. by rewrite Hd.
Qed.
Lemma parses_whole_no_panic {A} (p : reader A) Q b : bytes_ok b -> parses p Q -> read_whole p b <> Panic.
Proof.
  intros Hb Hp. specialize (Hp b 0 Hb ltac:(pose proof (zlen_nonneg b); lia)). unfold read_whole.
  destruct (p _) as [[x r]|e|]; cbn [obind]; [by case_decide|done..].
Qed.
Lemma reads_whole {A} (p : reader A) b a : reads_end p b a -> read_whole p b = Ok a.
Proof.
  intros Hr. specialize (Hr []). cbn [app] in Hr. rewrite zlen_nil in Hr. unfold read_whole. rewrite Hr. cbn [obind rd_offset].
  by rewrite decide_False by lia.
Qed.
Lemma written_decodes {A} (p : reader A) ok write b :
  bytes_ok b -> written_by p ok write -> decodes p b (fun a => ok a /\ write a = Ok b).
Proof.
  intros Hb [Hp Hr _]. split; [by eapply parses_whole_no_panic|]. intros a. split.
  - intros Hd. by apply (parses_whole p _ b a Hb Hp) in Hd.
  - intros [Hok Hw]. by apply reads_whole, Hr.
Qed.
Lemma decodes_weaken {A} (p : reader A) b (P Q : A -> Prop) :
  decodes p b P -> (forall a, P a <-> Q a) -> decodes p b Q.
Proof. intros [Hn Hi] HPQ. split; [done|]. intros a. by rewrite Hi. Qed.
(** An arm decodes the records of its kind. *)
Definition arm (k : Z) (p : reader JournalRecord) (b : bytes) : Prop :=
  decodes p b (fun r => kind r = k /\ record_ok r /\ payload r = Ok b).
Lemma arm_as {A} k (record : A -> JournalRecord) p b (good : A -> Prop) :
  decodes p b good -> (forall a, good a -> kind (record a) = k /\ record_ok (record a) /\ payload (record a) = Ok b) ->
  (forall r, kind r = k -> record_ok r -> payload r = Ok b -> exists a, r = record a /\ good a) ->
  arm k (r_as record p) b.
Proof.
  intros [Hn Hi] Hg Hk. unfold r_as. assert (forall x, read_whole (rbind p (fun a => rret (record a))) b = x ->
    x = (let? a := read_whole p b in Ok (record a))) as E.
  { intros x <-. unfold read_whole, rbind. destruct (p _) as [[a r]|e|]; cbn; [|done..]. by case_decide. }
  specialize (E _ eq_refl). split.
  - rewrite E. destruct (read_whole p b) as [a|e|]; done.
  - intros r. rewrite E, obind_Ok. split.
    + intros (a & Ha & [= <-]). by apply Hg, Hi.
    + intros (H1 & H2 & H3). destruct (Hk r H1 H2 H3) as (a & -> & Ha). exists a. split; [by apply Hi|done].
Qed.
(** A guard that every record of the kind passes. *)
Lemma arm_guard k (guard : Result unit) p b :
  guard <> Panic -> (guard = Ok tt -> arm k p b) ->
  (forall r, kind r = k -> record_ok r -> payload r = Ok b -> guard = Ok tt) ->
  arm k (read _ := rlift guard in p) b.
Proof.
  intros Hn Ha Hg. destruct guard as [[]|e|] eqn:Eg; [by apply Ha| |done]. split; [done|].
  intros r. split; [done|]. intros (H1 & H2 & H3). by specialize (Hg r H1 H2 H3).
Qed.

(** The arms, kind by kind. *)
Ltac same_kind :=
  let r := fresh "r" in let Hk := fresh "Hk" in
  intros r Hk ? ?; destruct r; try discriminate Hk; eexists; split; [reflexivity|split; assumption].
Ltac plain_arm H := eapply arm_as; [eapply written_decodes; [assumption|exact H]|intros ? []; split; [reflexivity|by split]|same_kind].
(** A bound on the payload that the writer keeps by itself. *)
Ltac kept_bound :=
  let r := fresh "r" in let Hk := fresh "Hk" in
  intros r Hk ? ?; destruct r; try discriminate Hk; cbn [record_ok payload] in *; apply require_Ok; rewrite ?Z.leb_le, ?Z.eqb_eq.
Lemma tool_call_size p e : tool_call_ok p -> write_tool_call p = Ok e -> zlen e <= MAX_TOOL_CALL_PAYLOAD.
Proof.
  intros Hok Hw. unfold write_tool_call in Hw. case_decide; [done|]. field_wrote. subst e. destruct w.
  pose proof (call_valid_fits p Hw0) as Hf. rewrite tool_call_layout by done. by apply tool_call_len.
Qed.
Lemma person_command_size p e : person_command_ok p -> write_person_command p = Ok e -> zlen e <= MAX_PERSON_COMMAND_PAYLOAD.
Proof.
  intros Hok Hw. unfold write_person_command in Hw. case_decide; [done|]. field_wrote. subst e. destruct w.
  pose proof (person_valid_fits p Hw0) as Hf. rewrite person_command_layout by done. by apply person_command_len.
Qed.
Lemma job_intent_size p e : job_intent_ok p -> write_job_intent p = Ok e -> zlen e <= MAX_JOB_INTENT_PAYLOAD.
Proof. intros Hok Hw. unfold write_job_intent in Hw. field_wrote. subst e. by apply job_intent_len. Qed.
Lemma job_cancel_size p e : job_cancel_ok p -> write_job_cancel p = Ok e -> zlen e = JOB_CANCEL_PAYLOAD.
Proof. intros Hok Hw. unfold write_job_cancel in Hw. field_wrote. subst e. by apply job_cancel_len. Qed.
Lemma job_settled_size p e : job_settled_ok p -> write_job_settled p = Ok e -> zlen e <= MAX_JOB_SETTLED_PAYLOAD.
Proof.
  intros Hok Hw. unfold write_job_settled in Hw. field_wrote. subst e. destruct w.
  pose proof (settled_valid_fits p Hw0). rewrite job_settled_layout by done. by apply job_settled_len.
Qed.
Lemma job_result_size p e : job_result_ok p -> write_job_result p = Ok e -> zlen e <= MAX_JOB_RESULT_PAYLOAD.
Proof.
  intros Hok Hw. unfold write_job_result in Hw. field_wrote. subst e. destruct w.
  pose proof (result_valid_fits p Hw0). rewrite job_result_layout by done. by apply job_result_len.
Qed.
Lemma job_retention_size p e : job_retention_ok p -> write_job_retention p = Ok e -> zlen e <= MAX_JOB_RETENTION_PAYLOAD.
Proof.
  intros Hok Hw. unfold write_job_retention in Hw. case_decide; [done|]. field_wrote. subst e. destruct w.
  apply job_retention_len; [done|lia|done].
Qed.
Lemma execution_path_size p e : path_record_ok p -> write_execution_path [] p = Ok e -> zlen e <= MAX_EXECUTION_PATH_PAYLOAD.
Proof. intros Hok [Hv ->]%write_path_Ok. by apply path_bytes_len. Qed.
(** The kinds whose codecs are modelled with the policy and the guard. *)
Lemma path_bytes_ok p : path_record_ok p -> path_validate p = Ok tt -> bytes_ok (path_bytes p).
Proof.
  intros [] Hv. destruct (path_valid_facts p Hv) as (Hn & Hl & _). pose proof (zlen_nonneg (ep_entries p)).
  unfold path_bytes, MAX_PATH_ENTRIES in *. cbn [app]. apply bytes_ok_cons; [by destruct (ep_action p); by_decide|]. bytes_solve.
  apply bytes_ok_cons; [unfold uint; lia|]. bytes_solve. apply bytes_ok_concat. rewrite Forall_forall in *. intros e He.
  destruct (po_entries e He). unfold path_entry_bytes. cbn [app].
  apply bytes_ok_cons; [destruct (pe_kind e); by_decide|bytes_solve].
Qed.
Lemma execution_path_written : written_by read_execution_path path_record_ok (write_execution_path []).
Proof.
  split.
  - eapply parses_weaken; [apply read_path_parses|]. intros p e [[? ?] ->]. split; [done|]. by apply write_path_Ok.
  - intros p e Hok [Hv ->]%write_path_Ok. by apply reads_reads_end, reads_path.
  - intros p e Hok [Hv ->]%write_path_Ok. by apply path_bytes_ok.
Qed.
Lemma bounded_whole {A} bound (p : reader A) b :
  zlen b <= bound -> decode_bounded bound p b = read_whole p b.
Proof. intros Hl. unfold decode_bounded. by rewrite decide_False by lia. Qed.
Lemma decision_decodes b : bytes_ok b -> zlen b <= MAX_POLICY_DECISION_PAYLOAD ->
  decodes read_policy_decision b (fun p => decision_ok p /\ write_policy_decision [] p = Ok b).
Proof.
  intros Hb Hl. split; [by eapply parses_whole_no_panic, read_decision_parses|]. intros p.
  rewrite <- decode_decision_iff by done. unfold decode_decision. by rewrite bounded_whole.
Qed.
Lemma revision_decodes b : bytes_ok b -> zlen b <= MAX_POLICY_REVISION_PAYLOAD ->
  decodes read_policy_revision b (fun p => revision_ok p /\ write_policy_revision [] p = Ok b).
Proof.
  intros Hb Hl. split; [by eapply parses_whole_no_panic, read_revision_parses|]. intros p.
  rewrite <- decode_revision_iff by done. unfold decode_revision. by rewrite bounded_whole.
Qed.

Lemma read_record_arm k b : bytes_ok b -> arm k (read_record k (zlen b)) b.
Proof.
  intros Hb. unfold read_record, within, limited.
  destruct (Z.eqb_spec k 18) as [->|?]; [plain_arm input_queued_written|].
  destruct (Z.eqb_spec k 19) as [->|?]; [plain_arm input_reordered_written|].
  destruct (Z.eqb_spec k 13) as [->|?]; [plain_arm input_decision_written|].
  destruct (Z.eqb_spec k 16) as [->|?]; [plain_arm input_promoted_written|].
  destruct (Z.eqb_spec k 10) as [->|?]; [plain_arm pending_init_written|].
  destruct (Z.eqb_spec k 11) as [->|?]; [plain_arm active_binding_written|].
  destruct (Z.eqb_spec k 3) as [->|?].
  { split; [by unfold read_whole; cbn; case_decide|]. intros r. unfold read_whole. cbn. split.
    - case_decide as Hd; [done|]. intros [= <-]. split; [done|]. split; [done|].
      destruct b; [done|]. unfold zlen in Hd. cbn in Hd. lia.
    - intros (Hk & _ & Hp). destruct r; try discriminate Hk. cbn in Hp. by injection Hp as <-. }
  destruct (Z.eqb_spec k 4) as [->|?]; [plain_arm project_registered_written|].
  destruct (Z.eqb_spec k 9) as [->|?]; [plain_arm project_alias_written|].
  destruct (Z.eqb_spec k 20) as [->|?]; [plain_arm project_renamed_written|].
  destruct (Z.eqb_spec k 21) as [->|?]; [plain_arm turn_accepted_written|].
  destruct (Z.eqb_spec k 6) as [->|?]; [plain_arm start_authorized_written|].
  destruct (Z.eqb_spec k 33) as [->|?]; [plain_arm request_started_written|].
  destruct (Z.eqb_spec k 7) as [->|?]; [plain_arm cancel_requested_written|].
  destruct (Z.eqb_spec k 8) as [->|?]; [plain_arm turn_terminal_written|].
  destruct (Z.eqb_spec k 24) as [->|?]; [plain_arm response_text_written|].
  destruct (Z.eqb_spec k 25) as [->|?]; [plain_arm response_text_written|].
  destruct (Z.eqb_spec k 14) as [->|?].
  { apply arm_guard; [apply require_not_panic|intros _; plain_arm tool_call_written|]. kept_bound. by eapply tool_call_size. }
  destruct (Z.eqb_spec k 15) as [->|?]; [plain_arm tool_result_written|].
  destruct (Z.eqb_spec k 26) as [->|?].
  { apply arm_guard; [apply require_not_panic|intros _; plain_arm job_intent_written|]. kept_bound. by eapply job_intent_size. }
  destruct (Z.eqb_spec k 27) as [->|?].
  { apply arm_guard; [apply require_not_panic|intros _; plain_arm job_cancel_written|]. kept_bound. by eapply job_cancel_size. }
  destruct (Z.eqb_spec k 28) as [->|?].
  { apply arm_guard; [apply require_not_panic|intros _; plain_arm job_settled_written|]. kept_bound. by eapply job_settled_size. }
  destruct (Z.eqb_spec k 29) as [->|?].
  { apply arm_guard; [apply require_not_panic|intros _; plain_arm job_result_written|]. kept_bound. by eapply job_result_size. }
  destruct (Z.eqb_spec k 30) as [->|?].
  { apply arm_guard; [apply require_not_panic|intros _; plain_arm job_retention_written|]. kept_bound. by eapply job_retention_size. }
  destruct (Z.eqb_spec k 31) as [->|?].
  { apply arm_guard; [apply require_not_panic|intros _; plain_arm person_command_written|]. kept_bound. by eapply person_command_size. }
  destruct (Z.eqb_spec k 32) as [->|?].
  { apply arm_guard; [apply require_not_panic|intros _; plain_arm execution_path_written|]. kept_bound. by eapply execution_path_size. }
  destruct (Z.eqb_spec k 34) as [->|?].
  { apply arm_guard; [by case_decide|case_decide; [done|]; intros _|].
    - eapply arm_as; [apply decision_decodes; [done|lia]|intros ? []; split; [reflexivity|by split]|same_kind].
    - intros r Hk Hok Hw. destruct r; try discriminate Hk. cbn in Hw. apply write_decision_Ok in Hw as (_ & (_ & _ & Hl) & ->).
      by rewrite decide_False by (cbn [app]; lia). }
  destruct (Z.eqb_spec k 35) as [->|?].
  { apply arm_guard; [by case_decide|case_decide; [done|]; intros _|].
    - eapply arm_as; [apply revision_decodes; [done|lia]|intros ? []; split; [reflexivity|by split]|same_kind].
    - intros r Hk Hok Hw. destruct r; try discriminate Hk. cbn in Hw. apply write_revision_Ok in Hw as (_ & (_ & _ & _ & Hl) & ->).
      by rewrite decide_False by (cbn [app]; lia). }
  split; [done|]. intros r. split; [done|]. intros (Hk & _). destruct r; cbn in Hk; subst k; done.
Qed.

(** ** The whole codec. *)
Definition RECORD_KINDS : list Z :=
  [3; 4; 6; 7; 8; 9; 10; 11; 13; 14; 15; 16; 18; 19; 20; 21; 24; 25; 26; 27; 28; 29; 30; 31; 32; 33; 34; 35].
Lemma kind_known r : kind r ∈ RECORD_KINDS.
Proof. destruct r; by_decide. Qed.
Lemma decode_journal_record_iff k b r :
  bytes_ok b ->
  decode_journal_record k b = Ok r <->
  kind r = k /\ record_ok r /\ payload r = Ok b /\ HEADER + zlen b + TRAILER <= MAX_FRAME.
Proof.
  intros Hb. unfold decode_journal_record. destruct (read_record_arm k b Hb) as [_ Hi].
  case_decide; [split; [done|]; unfold HEADER, TRAILER in *; lia|]. rewrite Hi. split; [|tauto].
  intros (? & ? & ?). split_and!; try done. unfold HEADER, TRAILER in *. lia.
Qed.
Lemma payload_ok_bytes r b : record_ok r -> payload r = Ok b -> bytes_ok b.
Proof.
  destruct r; cbn [record_ok payload]; intros Hok Hw;
    first [by apply write_decision_Ok in Hw as (? & _ & ->); apply decision_bytes_ok
          |by apply write_revision_Ok in Hw as (? & _ & ->); apply revision_bytes_ok
          |by injection Hw as <-; constructor|idtac].
  all: revert Hok Hw; (apply pending_init_written || apply active_binding_written || apply project_registered_written
    || apply project_alias_written || apply project_renamed_written || apply turn_accepted_written || apply start_authorized_written
    || apply request_started_written || apply cancel_requested_written || apply turn_terminal_written || apply input_queued_written
    || apply input_reordered_written || apply input_decision_written || apply input_promoted_written || apply tool_call_written
    || apply tool_result_written || apply response_text_written || apply person_command_written || apply job_intent_written
    || apply job_cancel_written || apply job_settled_written || apply job_result_written || apply job_retention_written
    || apply execution_path_written).
Qed.
#[export] Instance record_codec_ok : RecordCodecOk JournalRecord record_ok.
Proof.
  split.
  - intros []; by_decide.
  - apply payload_ok_bytes.
  - intros r p Hok Hw Hl. by apply decode_journal_record_iff; [eapply payload_ok_bytes|].
Qed.


(** [decode_record] is total: no kind and no payload make it panic, and a
    kind that has no record is [UnsupportedFormat], the retired kinds 17, 22
    and 23 included. *)
Theorem decode_record_total k b :
  bytes_ok b ->
  decode_journal_record k b <> Panic /\
  (k ∉ RECORD_KINDS -> HEADER + zlen b + TRAILER <= MAX_FRAME -> decode_journal_record k b = Err UnsupportedFormat).
Proof.
  intros Hb. unfold decode_journal_record. destruct (read_record_arm k b Hb) as [Hn _]. split; [by case_decide|].
  intros Hk Hl. rewrite decide_False by (unfold HEADER, TRAILER in *; lia). unfold read_record.
  repeat match goal with |- context [k =? ?n] => destruct (Z.eqb_spec k n) as [->|_]; [exfalso; apply Hk; unfold RECORD_KINDS; set_solver|] end. done.
Qed.

(** A record of any kind, written as a journal frame, is read back through
    its locator as the same record: the record codec keeps the laws that the
    frame code asks of it. *)
Theorem journal_frame_roundtrip `{!HasherOk} c r f loc :
  context_ok c -> record_ok r -> encode_frame c r = Ok f ->
  l_length loc = zlen f -> l_sequence loc = sequence c ->
  verified_record f loc = Ok r.
Proof.
  intros Hc Hr Hf Hl Hs. destruct (frame_roundtrip record_ok c r f loc Hc Hr Hf Hl Hs) as (d & Hv & _).
  unfold verified_record. by rewrite Hv.
Qed.
End Codec.

(** ** The codec evaluated. *)
Module RecordDemo.
#[export] Instance hasher : Hasher := poly_hasher.
#[export] Instance unicode : Unicode := ascii_unicode.
Definition operation : Id := replicate 16 4.
Definition intent : JobIntent := mkJobIntent (ByModel operation 3 1) 0 1700.
Definition intent_payload : bytes := match payload (RJobIntent intent) with Ok b => b | _ => [] end.
Lemma intent_ok : record_ok (RJobIntent intent).
Proof. constructor; [split; [|split]; by_decide|by_decide|by_decide]. Qed.
Lemma decode_record_total_witness :
  decode_journal_record 14 intent_payload <> Panic /\ decode_journal_record 23 intent_payload = Err UnsupportedFormat.
Proof.
  split; [apply (decode_record_total 14 intent_payload); by_decide|].
  apply (decode_record_total 23 intent_payload); [by_decide|by_decide|by_decide].
Defined.
Definition frame : bytes := match encode_frame Demo.context (RJobIntent intent) with Ok f => f | _ => [] end.
Lemma journal_frame_roundtrip_witness :
  verified_record frame (mkLocator 1 1 0 (zlen frame)) = Ok (RJobIntent intent).
Proof.
  apply (@journal_frame_roundtrip poly_hasher ascii_unicode poly_hasher_ok Demo.context);
    [apply Demo.context_wf|apply intent_ok|by vm_compute|reflexivity|reflexivity].
Defined.
End RecordDemo.
