(* ===== verification/ReplayState.v ===== *)
(** * The replay state and its reads (conversation/state.rs).

    [Replay] is the bounded live state plus the delta of frames after the
    newest checkpoint. This file holds the state, the lookups that read live
    state and delta first and the index runs after ([get], [entry], [range],
    [find_project], [find_conversation], [outcome], ...), and the queries on
    the live state ([input_status], the lane rules, [ready_input]). The
    [Index] trait is a record of functions: its readers take [&mut self] for
    their caches only, so an answer depends on the arguments. Sizes and charges
    ([usize]) stay below [MAX_MEMORY] plus one record, far from wrapping, and
    are plain integers. *)
From Stdlib Require Import ZArith Lia String.
From stdpp Require Import prelude list gmap.
From S2P Require Import Prelude Collections PayloadId Codec Fields Envelope Index Run Policy PathGuard Types.
From S2P Require Import PolicyReplay Text Rules.

Definition TERMINAL_CAPACITY : Z := HEADER + TRAILER + 51 + MAX_TEXT.
Definition PIECE_CHARGE : Z := 64.
Definition START_CAPACITY : Z := HEADER + TRAILER + 72.
Definition CANCEL_CAPACITY : Z := HEADER + TRAILER + 25.
Definition OWNER_CAPACITY : Z := HEADER + TRAILER.
Definition RESULT_CAPACITY : Z := HEADER + TRAILER + 43 + 16384.
Definition JOB_RESULT_CAPACITY : Z := HEADER + TRAILER + MAX_JOB_RESULT_PAYLOAD.
Definition MODEL_NOTE_CAPACITY : Z := HEADER + TRAILER + MODEL_NOTE_PAYLOAD.
Definition JOB_SETTLED_CAPACITY : Z := HEADER + TRAILER + MAX_JOB_SETTLED_PAYLOAD.
Definition JOB_CANCEL_CAPACITY : Z := HEADER + TRAILER + JOB_CANCEL_PAYLOAD.
Definition JOB_CHARGE : Z := 512.
Definition MAX_MEMORY : Z := 16 * 1024 * 1024.
Definition DELTA_CHARGE : Z := 4 * 1024 * 1024.
Definition FRAME_CHARGE : Z := 128.
Definition ENTRY_CHARGE : Z := 192.
Definition REQUEST_CHARGE : Z := 384.
Definition GENERATED_CHARGE : Z := 128.

(** ** Keys as map keys. *)
#[export] Instance Tag_countable : Countable Tag.
Proof. refine (inj_countable tag_byte tag_from_byte _). by intros []. Defined.
#[export] Instance Key_countable : Countable Key.
Proof.
  refine (inj_countable' (fun k => (k_tag k, k_id k, k_disc k)) (fun t => mkKey t.1.1 t.1.2 t.2) _). by intros [].
Defined.

(** ** The [Index] trait: runs and verified frames. *)
Class JournalIndex := {
  ix_get : Key -> Result (option Value);
  ix_range : Key -> Key -> bool -> Z -> Result (list (Key * Value));
  ix_frame : Locator -> Result JournalRecord;
  ix_frame_owner : Locator -> Result (Z * JournalRecord);
  ix_frame_command : Locator -> Result (Hash * JournalRecord);
}.
Record Activity : Type := mkActivity {
  ac_project : Id; ac_conversation : option Id; ac_operation : option Id; ac_generation : Z; ac_sequence : Z;
  ac_settled : bool;
}.
Record Replay : Type := mkState {
  st_installation_id : Id; st_sequence : Z; st_last_digest : Hash; st_last_frame : Locator; st_revision : Z;
  st_owner_generation : Z; st_initialization : PendingInit; st_binding : option ActiveBinding; st_projects :
  gmap Id ProjectEntry; st_conversations : gmap Id Conversation; st_operations : gmap Id Operation; st_active
  : option Id; st_inputs : gmap Id QueuedInput; st_jobs : gmap Id UnsettledJob; st_order_revision : Z;
  st_last_lane : option Id; st_reserved_bytes : Z; st_reserved_frames : Z; st_requests : gmap Id
  RequestResult; st_policy : PolicyReplay; st_base : Z; st_activity : option Activity; st_generated : gmap Id
  (Generated * Locator); st_entries : gmap Key Value; st_transition_ids : gset Id; st_claimed : gset Id;
  st_delta_charge : Z; st_piece_limit : Z;
}.
(** Assignment to one field. *)
Definition set_sequence (v : Z) (s : Replay) : Replay :=
  mkState (st_installation_id s) v (st_last_digest s) (st_last_frame s) (st_revision s) (st_owner_generation
    s) (st_initialization s) (st_binding s) (st_projects s) (st_conversations s) (st_operations s) (st_active
    s) (st_inputs s) (st_jobs s) (st_order_revision s) (st_last_lane s) (st_reserved_bytes s)
    (st_reserved_frames s) (st_requests s) (st_policy s) (st_base s) (st_activity s) (st_generated s)
    (st_entries s) (st_transition_ids s) (st_claimed s) (st_delta_charge s) (st_piece_limit s).
Definition set_last_digest (v : Hash) (s : Replay) : Replay :=
  mkState (st_installation_id s) (st_sequence s) v (st_last_frame s) (st_revision s) (st_owner_generation s)
    (st_initialization s) (st_binding s) (st_projects s) (st_conversations s) (st_operations s) (st_active s)
    (st_inputs s) (st_jobs s) (st_order_revision s) (st_last_lane s) (st_reserved_bytes s) (st_reserved_frames
    s) (st_requests s) (st_policy s) (st_base s) (st_activity s) (st_generated s) (st_entries s)
    (st_transition_ids s) (st_claimed s) (st_delta_charge s) (st_piece_limit s).
Definition set_last_frame (v : Locator) (s : Replay) : Replay :=
  mkState (st_installation_id s) (st_sequence s) (st_last_digest s) v (st_revision s) (st_owner_generation s)
    (st_initialization s) (st_binding s) (st_projects s) (st_conversations s) (st_operations s) (st_active s)
    (st_inputs s) (st_jobs s) (st_order_revision s) (st_last_lane s) (st_reserved_bytes s) (st_reserved_frames
    s) (st_requests s) (st_policy s) (st_base s) (st_activity s) (st_generated s) (st_entries s)
    (st_transition_ids s) (st_claimed s) (st_delta_charge s) (st_piece_limit s).
Definition set_revision (v : Z) (s : Replay) : Replay :=
  mkState (st_installation_id s) (st_sequence s) (st_last_digest s) (st_last_frame s) v (st_owner_generation
    s) (st_initialization s) (st_binding s) (st_projects s) (st_conversations s) (st_operations s) (st_active
    s) (st_inputs s) (st_jobs s) (st_order_revision s) (st_last_lane s) (st_reserved_bytes s)
    (st_reserved_frames s) (st_requests s) (st_policy s) (st_base s) (st_activity s) (st_generated s)
    (st_entries s) (st_transition_ids s) (st_claimed s) (st_delta_charge s) (st_piece_limit s).
Definition set_owner_generation (v : Z) (s : Replay) : Replay :=
  mkState (st_installation_id s) (st_sequence s) (st_last_digest s) (st_last_frame s) (st_revision s) v
    (st_initialization s) (st_binding s) (st_projects s) (st_conversations s) (st_operations s) (st_active s)
    (st_inputs s) (st_jobs s) (st_order_revision s) (st_last_lane s) (st_reserved_bytes s) (st_reserved_frames
    s) (st_requests s) (st_policy s) (st_base s) (st_activity s) (st_generated s) (st_entries s)
    (st_transition_ids s) (st_claimed s) (st_delta_charge s) (st_piece_limit s).
Definition set_binding (v : option ActiveBinding) (s : Replay) : Replay :=
  mkState (st_installation_id s) (st_sequence s) (st_last_digest s) (st_last_frame s) (st_revision s)
    (st_owner_generation s) (st_initialization s) v (st_projects s) (st_conversations s) (st_operations s)
    (st_active s) (st_inputs s) (st_jobs s) (st_order_revision s) (st_last_lane s) (st_reserved_bytes s)
    (st_reserved_frames s) (st_requests s) (st_policy s) (st_base s) (st_activity s) (st_generated s)
    (st_entries s) (st_transition_ids s) (st_claimed s) (st_delta_charge s) (st_piece_limit s).
Definition set_projects (v : gmap Id ProjectEntry) (s : Replay) : Replay :=
  mkState (st_installation_id s) (st_sequence s) (st_last_digest s) (st_last_frame s) (st_revision s)
    (st_owner_generation s) (st_initialization s) (st_binding s) v (st_conversations s) (st_operations s)
    (st_active s) (st_inputs s) (st_jobs s) (st_order_revision s) (st_last_lane s) (st_reserved_bytes s)
    (st_reserved_frames s) (st_requests s) (st_policy s) (st_base s) (st_activity s) (st_generated s)
    (st_entries s) (st_transition_ids s) (st_claimed s) (st_delta_charge s) (st_piece_limit s).
Definition set_conversations (v : gmap Id Conversation) (s : Replay) : Replay :=
  mkState (st_installation_id s) (st_sequence s) (st_last_digest s) (st_last_frame s) (st_revision s)
    (st_owner_generation s) (st_initialization s) (st_binding s) (st_projects s) v (st_operations s)
    (st_active s) (st_inputs s) (st_jobs s) (st_order_revision s) (st_last_lane s) (st_reserved_bytes s)
    (st_reserved_frames s) (st_requests s) (st_policy s) (st_base s) (st_activity s) (st_generated s)
    (st_entries s) (st_transition_ids s) (st_claimed s) (st_delta_charge s) (st_piece_limit s).
Definition set_operations (v : gmap Id Operation) (s : Replay) : Replay :=
  mkState (st_installation_id s) (st_sequence s) (st_last_digest s) (st_last_frame s) (st_revision s)
    (st_owner_generation s) (st_initialization s) (st_binding s) (st_projects s) (st_conversations s) v
    (st_active s) (st_inputs s) (st_jobs s) (st_order_revision s) (st_last_lane s) (st_reserved_bytes s)
    (st_reserved_frames s) (st_requests s) (st_policy s) (st_base s) (st_activity s) (st_generated s)
    (st_entries s) (st_transition_ids s) (st_claimed s) (st_delta_charge s) (st_piece_limit s).
Definition set_active (v : option Id) (s : Replay) : Replay :=
  mkState (st_installation_id s) (st_sequence s) (st_last_digest s) (st_last_frame s) (st_revision s)
    (st_owner_generation s) (st_initialization s) (st_binding s) (st_projects s) (st_conversations s)
    (st_operations s) v (st_inputs s) (st_jobs s) (st_order_revision s) (st_last_lane s) (st_reserved_bytes s)
    (st_reserved_frames s) (st_requests s) (st_policy s) (st_base s) (st_activity s) (st_generated s)
    (st_entries s) (st_transition_ids s) (st_claimed s) (st_delta_charge s) (st_piece_limit s).
Definition set_inputs (v : gmap Id QueuedInput) (s : Replay) : Replay :=
  mkState (st_installation_id s) (st_sequence s) (st_last_digest s) (st_last_frame s) (st_revision s)
    (st_owner_generation s) (st_initialization s) (st_binding s) (st_projects s) (st_conversations s)
    (st_operations s) (st_active s) v (st_jobs s) (st_order_revision s) (st_last_lane s) (st_reserved_bytes s)
    (st_reserved_frames s) (st_requests s) (st_policy s) (st_base s) (st_activity s) (st_generated s)
    (st_entries s) (st_transition_ids s) (st_claimed s) (st_delta_charge s) (st_piece_limit s).
Definition set_jobs (v : gmap Id UnsettledJob) (s : Replay) : Replay :=
  mkState (st_installation_id s) (st_sequence s) (st_last_digest s) (st_last_frame s) (st_revision s)
    (st_owner_generation s) (st_initialization s) (st_binding s) (st_projects s) (st_conversations s)
    (st_operations s) (st_active s) (st_inputs s) v (st_order_revision s) (st_last_lane s) (st_reserved_bytes
    s) (st_reserved_frames s) (st_requests s) (st_policy s) (st_base s) (st_activity s) (st_generated s)
    (st_entries s) (st_transition_ids s) (st_claimed s) (st_delta_charge s) (st_piece_limit s).
Definition set_order_revision (v : Z) (s : Replay) : Replay :=
  mkState (st_installation_id s) (st_sequence s) (st_last_digest s) (st_last_frame s) (st_revision s)
    (st_owner_generation s) (st_initialization s) (st_binding s) (st_projects s) (st_conversations s)
    (st_operations s) (st_active s) (st_inputs s) (st_jobs s) v (st_last_lane s) (st_reserved_bytes s)
    (st_reserved_frames s) (st_requests s) (st_policy s) (st_base s) (st_activity s) (st_generated s)
    (st_entries s) (st_transition_ids s) (st_claimed s) (st_delta_charge s) (st_piece_limit s).
Definition set_last_lane (v : option Id) (s : Replay) : Replay :=
  mkState (st_installation_id s) (st_sequence s) (st_last_digest s) (st_last_frame s) (st_revision s)
    (st_owner_generation s) (st_initialization s) (st_binding s) (st_projects s) (st_conversations s)
    (st_operations s) (st_active s) (st_inputs s) (st_jobs s) (st_order_revision s) v (st_reserved_bytes s)
    (st_reserved_frames s) (st_requests s) (st_policy s) (st_base s) (st_activity s) (st_generated s)
    (st_entries s) (st_transition_ids s) (st_claimed s) (st_delta_charge s) (st_piece_limit s).
Definition set_reserved_bytes (v : Z) (s : Replay) : Replay :=
  mkState (st_installation_id s) (st_sequence s) (st_last_digest s) (st_last_frame s) (st_revision s)
    (st_owner_generation s) (st_initialization s) (st_binding s) (st_projects s) (st_conversations s)
    (st_operations s) (st_active s) (st_inputs s) (st_jobs s) (st_order_revision s) (st_last_lane s) v
    (st_reserved_frames s) (st_requests s) (st_policy s) (st_base s) (st_activity s) (st_generated s)
    (st_entries s) (st_transition_ids s) (st_claimed s) (st_delta_charge s) (st_piece_limit s).
Definition set_reserved_frames (v : Z) (s : Replay) : Replay :=
  mkState (st_installation_id s) (st_sequence s) (st_last_digest s) (st_last_frame s) (st_revision s)
    (st_owner_generation s) (st_initialization s) (st_binding s) (st_projects s) (st_conversations s)
    (st_operations s) (st_active s) (st_inputs s) (st_jobs s) (st_order_revision s) (st_last_lane s)
    (st_reserved_bytes s) v (st_requests s) (st_policy s) (st_base s) (st_activity s) (st_generated s)
    (st_entries s) (st_transition_ids s) (st_claimed s) (st_delta_charge s) (st_piece_limit s).
Definition set_requests (v : gmap Id RequestResult) (s : Replay) : Replay :=
  mkState (st_installation_id s) (st_sequence s) (st_last_digest s) (st_last_frame s) (st_revision s)
    (st_owner_generation s) (st_initialization s) (st_binding s) (st_projects s) (st_conversations s)
    (st_operations s) (st_active s) (st_inputs s) (st_jobs s) (st_order_revision s) (st_last_lane s)
    (st_reserved_bytes s) (st_reserved_frames s) v (st_policy s) (st_base s) (st_activity s) (st_generated s)
    (st_entries s) (st_transition_ids s) (st_claimed s) (st_delta_charge s) (st_piece_limit s).
Definition set_policy (v : PolicyReplay) (s : Replay) : Replay :=
  mkState (st_installation_id s) (st_sequence s) (st_last_digest s) (st_last_frame s) (st_revision s)
    (st_owner_generation s) (st_initialization s) (st_binding s) (st_projects s) (st_conversations s)
    (st_operations s) (st_active s) (st_inputs s) (st_jobs s) (st_order_revision s) (st_last_lane s)
    (st_reserved_bytes s) (st_reserved_frames s) (st_requests s) v (st_base s) (st_activity s) (st_generated
    s) (st_entries s) (st_transition_ids s) (st_claimed s) (st_delta_charge s) (st_piece_limit s).
Definition set_base (v : Z) (s : Replay) : Replay :=
  mkState (st_installation_id s) (st_sequence s) (st_last_digest s) (st_last_frame s) (st_revision s)
    (st_owner_generation s) (st_initialization s) (st_binding s) (st_projects s) (st_conversations s)
    (st_operations s) (st_active s) (st_inputs s) (st_jobs s) (st_order_revision s) (st_last_lane s)
    (st_reserved_bytes s) (st_reserved_frames s) (st_requests s) (st_policy s) v (st_activity s) (st_generated
    s) (st_entries s) (st_transition_ids s) (st_claimed s) (st_delta_charge s) (st_piece_limit s).
Definition set_activity (v : option Activity) (s : Replay) : Replay :=
  mkState (st_installation_id s) (st_sequence s) (st_last_digest s) (st_last_frame s) (st_revision s)
    (st_owner_generation s) (st_initialization s) (st_binding s) (st_projects s) (st_conversations s)
    (st_operations s) (st_active s) (st_inputs s) (st_jobs s) (st_order_revision s) (st_last_lane s)
    (st_reserved_bytes s) (st_reserved_frames s) (st_requests s) (st_policy s) (st_base s) v (st_generated s)
    (st_entries s) (st_transition_ids s) (st_claimed s) (st_delta_charge s) (st_piece_limit s).
Definition set_generated (v : gmap Id (Generated * Locator)) (s : Replay) : Replay :=
  mkState (st_installation_id s) (st_sequence s) (st_last_digest s) (st_last_frame s) (st_revision s)
    (st_owner_generation s) (st_initialization s) (st_binding s) (st_projects s) (st_conversations s)
    (st_operations s) (st_active s) (st_inputs s) (st_jobs s) (st_order_revision s) (st_last_lane s)
    (st_reserved_bytes s) (st_reserved_frames s) (st_requests s) (st_policy s) (st_base s) (st_activity s) v
    (st_entries s) (st_transition_ids s) (st_claimed s) (st_delta_charge s) (st_piece_limit s).
Definition set_entries (v : gmap Key Value) (s : Replay) : Replay :=
  mkState (st_installation_id s) (st_sequence s) (st_last_digest s) (st_last_frame s) (st_revision s)
    (st_owner_generation s) (st_initialization s) (st_binding s) (st_projects s) (st_conversations s)
    (st_operations s) (st_active s) (st_inputs s) (st_jobs s) (st_order_revision s) (st_last_lane s)
    (st_reserved_bytes s) (st_reserved_frames s) (st_requests s) (st_policy s) (st_base s) (st_activity s)
    (st_generated s) v (st_transition_ids s) (st_claimed s) (st_delta_charge s) (st_piece_limit s).
Definition set_transition_ids (v : gset Id) (s : Replay) : Replay :=
  mkState (st_installation_id s) (st_sequence s) (st_last_digest s) (st_last_frame s) (st_revision s)
    (st_owner_generation s) (st_initialization s) (st_binding s) (st_projects s) (st_conversations s)
    (st_operations s) (st_active s) (st_inputs s) (st_jobs s) (st_order_revision s) (st_last_lane s)
    (st_reserved_bytes s) (st_reserved_frames s) (st_requests s) (st_policy s) (st_base s) (st_activity s)
    (st_generated s) (st_entries s) v (st_claimed s) (st_delta_charge s) (st_piece_limit s).
Definition set_claimed (v : gset Id) (s : Replay) : Replay :=
  mkState (st_installation_id s) (st_sequence s) (st_last_digest s) (st_last_frame s) (st_revision s)
    (st_owner_generation s) (st_initialization s) (st_binding s) (st_projects s) (st_conversations s)
    (st_operations s) (st_active s) (st_inputs s) (st_jobs s) (st_order_revision s) (st_last_lane s)
    (st_reserved_bytes s) (st_reserved_frames s) (st_requests s) (st_policy s) (st_base s) (st_activity s)
    (st_generated s) (st_entries s) (st_transition_ids s) v (st_delta_charge s) (st_piece_limit s).
Definition set_delta_charge (v : Z) (s : Replay) : Replay :=
  mkState (st_installation_id s) (st_sequence s) (st_last_digest s) (st_last_frame s) (st_revision s)
    (st_owner_generation s) (st_initialization s) (st_binding s) (st_projects s) (st_conversations s)
    (st_operations s) (st_active s) (st_inputs s) (st_jobs s) (st_order_revision s) (st_last_lane s)
    (st_reserved_bytes s) (st_reserved_frames s) (st_requests s) (st_policy s) (st_base s) (st_activity s)
    (st_generated s) (st_entries s) (st_transition_ids s) (st_claimed s) v (st_piece_limit s).
Definition set_piece_limit (v : Z) (s : Replay) : Replay :=
  mkState (st_installation_id s) (st_sequence s) (st_last_digest s) (st_last_frame s) (st_revision s)
    (st_owner_generation s) (st_initialization s) (st_binding s) (st_projects s) (st_conversations s)
    (st_operations s) (st_active s) (st_inputs s) (st_jobs s) (st_order_revision s) (st_last_lane s)
    (st_reserved_bytes s) (st_reserved_frames s) (st_requests s) (st_policy s) (st_base s) (st_activity s)
    (st_generated s) (st_entries s) (st_transition_ids s) (st_claimed s) (st_delta_charge s) v.
Definition next (n : Z) : Result Z := ok_or Limit (checked_add64 n 1).
(** [text.is_char_boundary(end)] for [end <= text.len()]. *)
Definition char_boundary (text : bytes) (e : nat) : bool :=
  match text !! e with Some b => negb (Utf8.continuation b) | None => true end.
Fixpoint back_to_boundary (text : bytes) (e : nat) : nat :=
  match e with
  | O => O
  | S e' => if char_boundary text e then e else back_to_boundary text e'
  end.
Definition display_prefix (text : bytes) (limit : Z) : bytes :=
  take (back_to_boundary text (Z.to_nat (Z.min (zlen text) limit))) text.
Definition hex_digit (n : Z) : Z := if n <? 10 then 48 + n else 87 + n.
Definition hex_byte (b : Z) : bytes := [hex_digit (b / 16); hex_digit (b mod 16)].
Definition default_project_name `{Unicode} (project : Id) (location : bytes) : bytes :=
  let component := default [] (last (split_on 47 location)) in
  match capitalize_project_name component with
  | Ok name => name
  | _ => lit "Project " ++ concat (hex_byte <$> ztake 4 project)
  end.
Definition op_charge (op : Operation) : Z :=
  512 + foldr (fun tool a => 1536 + zlen (to_name tool) + a) 0 (op_tools op) +
  (zlen (re_pieces (op_response op)) + zlen (re_pieces (op_thinking op))) * PIECE_CHARGE.
Definition turn_range (conversation : Id) : Key * Key :=
  (mkKey TTurn conversation 0, mkKey TTurn conversation U64_MAX).
Definition has {V} (m : gmap Id V) (id : Id) : bool := bool_decide (is_Some (m !! id)).

(** ** Charges. *)
Definition project_charge (p : ProjectEntry) : Z :=
  512 + zlen (pr_location (pj_registration p)) + match pj_name p with Some n => zlen (nm_name n) | None => 0 end.
Definition zsize {V} (m : gmap Id V) : Z := Z.of_nat (size m).
Definition live_charge (s : Replay) : Z :=
  MAX_FRAME + 4096 + foldr (fun p a => project_charge p + a) 0 (btree_values (st_projects s)) +
  zsize (st_conversations s) * 256 + zsize (st_inputs s) * 512 + zsize (st_jobs s) * JOB_CHARGE +
  match st_active s ≫= (fun id => st_operations s !! id) with Some op => op_charge op | None => 0 end +
  st_reserved_frames s * 128.
Definition memory_charge (s : Replay) : Z := live_charge s + st_delta_charge s.
Definition delta_is_empty (s : Replay) : bool :=
  bool_decide (st_requests s = ∅) && bool_decide (st_generated s = ∅) && bool_decide (st_entries s = ∅) &&
  forallb (fun id => bool_decide (Some id = st_active s)) (btree_keys (st_operations s)).

(** ** The delta. *)
Definition add_charge (n : Z) (s : Replay) : Replay := set_delta_charge (st_delta_charge s + n) s.
Definition generate (s : Replay) (id : Id) (entity : Generated) (frame : Locator) : Result Replay :=
  let? _ := require (nonzero_id id) in
  Ok (add_charge GENERATED_CHARGE (set_generated (<[id := (entity, frame)]> (st_generated s)) s)).
Definition emit (s : Replay) (key : Key) (entry : Entry) : Result Replay :=
  let? value := entry_encode entry in
  let? _ := require (bool_decide (st_entries s !! key = None)) in
  Ok (add_charge ENTRY_CHARGE (set_entries (<[key := value]> (st_entries s)) s)).
Definition insert_request (s : Replay) (id : Id) (digest : Hash) (result : Outcome) (kind : Z) (frame : Locator) : Replay :=
  add_charge REQUEST_CHARGE (set_requests (<[id := mkRequestResult digest result kind frame]> (st_requests s)) s).
(** The entries of one terminal operation under one tag. *)
Definition piece_items (tag : Tag) (id : Id) (pieces : list ResponsePiece) (entry : Z -> Locator -> Entry) : list (Key * Entry) :=
  (fun p => (mkKey tag id (rp_start p), entry (rp_kept p) (rp_frame p))) <$> pieces.
Fixpoint call_items (id : Id) (index : Z) (tools : list ToolRecord) : list (Key * Entry) :=
  match tools with
  | [] => []
  | t :: tools =>
      (mkKey TCall id (index + 1),
       ECall (decision_code (to_decision t)) (to_intent_frame t) (default locator_none (to_result_frame t)))
      :: call_items id (index + 1) tools
  end.
Definition operation_items (tag : Tag) (id : Id) (op : Operation) : list (Key * Entry) :=
  match op_terminal op with
  | None => []
  | Some terminal =>
      match tag with
      | TOperation =>
          [(mkKey TOperation id 0,
            EOperation (mkFacts (op_conversation op) (op_generation op) (te_kind terminal) (te_cause terminal)
              (re_len (op_response op)) (wrap 32 (zlen (re_pieces (op_response op)))) (wrap 32 (zlen (op_tools op)))
              (op_accepted_frame op) (te_frame terminal)))]
      | TPiece => piece_items TPiece id (re_pieces (op_response op)) EPiece
      | TThinking => piece_items TThinking id (re_pieces (op_thinking op)) EThinking
      | TCall => call_items id 0 (op_tools op)
      | TTurn =>
          [(mkKey TTurn (op_conversation op) (op_generation op),
            ETurn id (te_kind terminal) (op_accepted_frame op) (te_completed terminal) (op_notice_through op))]
      | _ => []
      end
  end.
Definition operation_entries (operations : gmap Id Operation) (tag : Tag) : list (Key * Entry) :=
  concat ((fun io => operation_items tag io.1 io.2) <$> btree_iter operations).
(** [.encode()] of every entry. *)
Fixpoint encode_all (l : list (Key * Entry)) : Result (list (Key * Value)) :=
  match l with
  | [] => Ok []
  | (k, e) :: l => let? v := entry_encode e in let? r := encode_all l in Ok ((k, v) :: r)
  end.
Definition request_items (s : Replay) : list (Key * Entry) :=
  (fun ir => (mkKey TRequest ir.1 0, ERequest (rr_kind ir.2) (rr_digest ir.2) (rr_frame ir.2))) <$> btree_iter (st_requests s).
Definition generated_items (s : Replay) : list (Key * Entry) :=
  (fun ig => (mkKey TGenerated ig.1 0, EGenerated ig.2.1 ig.2.2)) <$> btree_iter (st_generated s).
Definition by_key (l : list (Key * Value)) : list (Key * Value) := sort_by (fun a b => cmp a.1 b.1) l.
Definition delta_tag (s : Replay) (tag : Tag) : Result (list (Key * Value)) :=
  let? out :=
    match tag with
    | TRequest => encode_all (request_items s)
    | TGenerated => encode_all (generated_items s)
    | TOperation | TPiece | TThinking | TCall | TTurn => encode_all (operation_entries (st_operations s) tag)
    | _ => Ok (filter (fun kv => geb kv.1 (key_first tag) = true /\ geb (key_last tag) kv.1 = true)
                 (btree_iter (st_entries s)))
    end in
  Ok (by_key out).
Fixpoint collect {A B} (f : A -> Result (list B)) (l : list A) : Result (list B) :=
  match l with
  | [] => Ok []
  | a :: l => let? x := f a in let? y := collect f l in Ok (x ++ y)
  end.
Definition delta_entries (s : Replay) : Result (list (Key * Value)) := collect (delta_tag s) tag_all.
Definition delta_entry_count (s : Replay) : Z :=
  zsize (st_requests s) + zsize (st_generated s) + Z.of_nat (size (st_entries s)) +
  foldr (fun op a => 2 + zlen (re_pieces (op_response op)) + zlen (re_pieces (op_thinking op)) + zlen (op_tools op) + a) 0
    (filter (fun op => op_terminal op <> None) (btree_values (st_operations s))).
Definition find_key (key : Key) (l : list (Key * Value)) : option Value :=
  (fun r => snd (snd r)) <$> list_find (fun kv => kv.1 = key) l.
Definition delta_get (s : Replay) (key : Key) : Result (option Value) :=
  match k_tag key with
  | TRequest | TGenerated | TTurn => let? l := delta_tag s (k_tag key) in Ok (find_key key l)
  | TOperation | TPiece | TThinking | TCall =>
      match st_operations s !! k_id key with
      | Some op =>
          if decide (op_terminal op = None) then Ok None else
          let? l := encode_all (operation_entries {[k_id key := op]} (k_tag key)) in
          Ok (find_key key l)
      | None => Ok None
      end
  | _ => Ok (st_entries s !! key)
  end.

Section Reads.
Context `{Hasher, Unicode, JournalIndex}.
Implicit Types s : Replay.

(** ** Reads: the delta first, then the runs. *)
Definition get s (key : Key) : Result (option Value) :=
  let? found := delta_get s key in
  match found with Some value => Ok (Some value) | None => ix_get key end.
Definition entry s (key : Key) : Result (option Entry) :=
  let? found := get s key in
  match found with
  | Some value => let? e := entry_decode (k_tag key) value in Ok (Some e)
  | None => Ok None
  end.
Definition range s (lo hi : Key) (descending : bool) (limit : Z) : Result (list (Key * Value)) :=
  let? delta := delta_tag s (k_tag lo) in
  let? runs := ix_range lo hi descending limit in
  let merged := by_key (filter (fun kv => geb kv.1 lo = true /\ ltb kv.1 hi = true) delta ++ runs) in
  if negb (windows_all (fun a b => bool_decide (a.1 <> b.1)) merged) then Err Corrupt else
  Ok (ztake limit (if descending then reverse merged else merged)).
Definition last_under s (tag : Tag) (id : Id) : Result (option (Z * Entry)) :=
  let? found := range s (mkKey tag id 0) (mkKey tag id U64_MAX) true 1 in
  match found with
  | (k, v) :: _ => let? e := entry_decode tag v in Ok (Some (k_disc k, e))
  | [] => Ok None
  end.
(** [for tag in [Generated, Project, Conversation] { require(get(..).is_none()) }]. *)
Definition absent s (key : Key) : Result unit :=
  let? found := get s key in require (is_none found).
Definition fresh s (id : Id) : Result Replay :=
  let? _ := require (nonzero_id id && bool_decide (id ∉ st_claimed s)) in
  let s := set_claimed ({[id]} ∪ st_claimed s) s in
  let? _ := absent s (mkKey TGenerated id 0) in
  let? _ := absent s (mkKey TProject id 0) in
  let? _ := absent s (mkKey TConversation id 0) in
  Ok s.
Definition request s (id : Id) (digest : Hash) (result : Outcome) (kind : Z) (frame : Locator) : Result Replay :=
  let? _ := if negb (nonzero_id id) then Err Corrupt else absent s (mkKey TRequest id 0) in
  let? _ :=
    match result with
    | OTurn _ _ _ _ => Ok tt
    | _ =>
        let? e := entry s (mkKey TGenerated id 0) in
        match e with
        | Some (EGenerated entity _) => require (bool_decide (entity <> GDispatch))
        | _ => Ok tt
        end
    end in
  Ok (insert_request s id digest result kind frame).
Definition project_location s (project : Id) : Result (bytes * Locator) :=
  match st_projects s !! project with
  | Some e => Ok (pr_location (pj_registration e), pj_registered e)
  | None =>
      let? e := entry s (mkKey TProject project 0) in
      match e with
      | Some (EProject _ _ _ frame) =>
          let? r := ix_frame frame in
          match r with RProjectRegistered p => Ok (pr_location p, frame) | _ => Err Corrupt end
      | _ => Err Corrupt
      end
  end.
(** The outcome that the record of a stored request gives. *)
Definition outcome_of s (record : JournalRecord) : Result Outcome :=
  match record with
  | RPendingInit _ => Ok (OInitialization (is_some (st_binding s)))
  | RProjectRegistered p => Ok (OProject (pr_project p))
  | RProjectRequestAlias p => Ok (OProject (pa_project p))
  | RProjectRenamed p =>
      let? prior :=
        if pn_expected_name_revision p =? 0 then
          let? (location, _) := project_location s (pn_project p) in
          Ok (default_project_name (pn_project p) location)
        else
          let? e := entry s (mkKey TName (pn_project p) (pn_expected_name_revision p)) in
          match e with
          | Some (EName frame) =>
              let? r := ix_frame frame in
              match r with RProjectRenamed prior => Ok (pn_name prior) | _ => Err Corrupt end
          | _ => Err Corrupt
          end in
      Ok (OProjectRename (pn_project p) (pn_name p) (pn_name_revision p) (bool_decide (prior <> pn_name p)))
  | RInputQueued p => Ok (OQueueInput (iq_input p) (iq_conversation p) (iq_order_revision p))
  | RPersonCommandQueued p => Ok (OQueueInput (pc_input p) (pc_conversation p) (pc_order_revision p))
  | RInputReordered p => Ok (OReorderInput (ir_input p) (ir_order_revision p))
  | RInputDecision p => Ok (OInputDecision (id_input p))
  | RInputPromoted p => Ok (OInputDecision (ip_input p))
  | RTurnAccepted p => Ok (OTurn (ta_conversation p) (ta_generation p) (ta_task p) (ta_operation p))
  | _ => Err Corrupt
  end.
Definition outcome s (id : Id) : Result (option RequestResult) :=
  match st_requests s !! id with
  | Some r =>
      match rr_result r with
      | OInitialization _ =>
          Ok (Some (mkRequestResult (rr_digest r) (OInitialization (is_some (st_binding s))) (rr_kind r) (rr_frame r)))
      | _ => Ok (Some r)
      end
  | None =>
      let? e := entry s (mkKey TRequest id 0) in
      match e with
      | Some (ERequest k digest frame) =>
          let? record := ix_frame frame in
          let? _ := require (kind record =? k) in
          let? result := outcome_of s record in
          Ok (Some (mkRequestResult digest result k frame))
      | _ => Ok None
      end
  end.
Definition find_name s (project : Id) : Result (option ProjectName) :=
  let? found := last_under s TName project in
  match found with
  | Some (revision, EName frame) =>
      let? r := ix_frame frame in
      match r with
      | RProjectRenamed p =>
          let? _ := require (bool_decide (pn_project p = project) && (pn_name_revision p =? revision)) in
          Ok (Some (mkName (pn_name p) revision))
      | _ => Err Corrupt
      end
  | Some _ => Err Corrupt
  | None => Ok None
  end.
Definition find_latest s (project : Id) : Result (option ProjectLatest) :=
  let? found := last_under s TActivity project in
  match found with
  | Some (accepted, EActivity conversation operation generation) =>
      let? terminal :=
        match st_operations s !! operation with
        | Some op => Ok (l_sequence ∘ te_frame <$> op_terminal op)
        | None =>
            let? e := entry s (mkKey TOperation operation 0) in
            match e with
            | Some (EOperation o) => Ok (Some (l_sequence (o_terminal_frame o)))
            | Some _ => Err Corrupt
            | None => Ok None
            end
        end in
      Ok (Some (mkProjectLatest conversation operation generation accepted terminal))
  | Some _ => Err Corrupt
  | None => Ok None
  end.
Definition find_project s (project : Id) : Result (option ProjectEntry) :=
  match st_projects s !! project with
  | Some e => Ok (Some e)
  | None =>
      let? e := entry s (mkKey TProject project 0) in
      match e with
      | Some (EProject _ _ _ frame) =>
          let? r := ix_frame frame in
          match r with
          | RProjectRegistered registration =>
              let? _ := require (bool_decide (pr_project registration = project)) in
              let? name := find_name s project in
              let? latest := find_latest s project in
              Ok (Some (mkProjectEntry registration frame name latest 0))
          | _ => Err Corrupt
          end
      | _ => Ok None
      end
  end.
Definition find_conversation s (conversation : Id) : Result (option Conversation) :=
  match st_conversations s !! conversation with
  | Some c => Ok (Some c)
  | None =>
      let? e := entry s (mkKey TConversation conversation 0) in
      match e with
      | Some (EConversation project frame) =>
          let '(lo, hi) := turn_range conversation in
          let? newest := range s lo hi true 1 in
          let? (generation, latest, completed) :=
            match newest with
            | (key, value) :: _ =>
                let? t := entry_decode TTurn value in
                match t with
                | ETurn operation terminal accepted completed notice_through =>
                    Ok (k_disc key, Some (mkLatest operation (Some terminal) accepted notice_through), completed)
                | _ => Err Corrupt
                end
            | [] => Ok (0, None, 0)
            end in
          Ok (Some (mkConversation project generation frame latest completed 0))
      | _ => Ok None
      end
  end.
Definition load_project s (project : Id) : Result (bool * Replay) :=
  if has (st_projects s) project then Ok (true, s) else
  let? found := find_project s project in
  match found with
  | Some e => Ok (true, set_projects (<[project := e]> (st_projects s)) s)
  | None => Ok (false, s)
  end.
Definition load_conversation s (conversation : Id) : Result (bool * Replay) :=
  if has (st_conversations s) conversation then Ok (true, s) else
  let? found := find_conversation s conversation in
  match found with
  | Some c => Ok (true, set_conversations (<[conversation := c]> (st_conversations s)) s)
  | None => Ok (false, s)
  end.
Definition operation_facts s (operation : Id) : Result (option OperationFacts) :=
  let? e := entry s (mkKey TOperation operation 0) in
  match e with
  | Some (EOperation facts) => Ok (Some facts)
  | Some _ => Err Corrupt
  | None => Ok None
  end.
Definition job_state s (job : Id) : Result (option JobState) :=
  match st_jobs s !! job with
  | Some j => Ok (Some (Unsettled j))
  | None =>
      let? e := entry s (mkKey TJob job 0) in
      match e with
      | Some (EJob conversation origin intent cancel settled) =>
          Ok (Some (Settled (mkSettledJob job conversation origin intent cancel settled)))
      | Some _ => Err Corrupt
      | None => Ok None
      end
  end.
Definition job_retention_summary s (job : Id) : Result JobRetentionSummary :=
  let? l := range s (mkKey TRetention job 0) (mkKey TRetention job U64_MAX) false (Z.of_nat MAX_JOB_RETENTION_RECORDS + 1) in
  if decide (MAX_JOB_RETENTION_RECORDS < length l)%nat then Err Limit else
  foldl (fun c kv =>
    let? summary := c in
    let? e := entry_decode TRetention kv.2 in
    match e with
    | ERetention action _ _ =>
        let? action := ok_or Corrupt (retention_action_from_code action) in
        Ok (summary_apply summary action)
    | _ => Err Corrupt
    end) (Ok summary_default) l.
Definition project_name s (project : Id) : option (bytes * Z) :=
  e ← st_projects s !! project;
  Some (match pj_name e with
        | Some n => (nm_name n, nm_revision n)
        | None => (default_project_name project (pr_location (pj_registration e)), 0)
        end).
End Reads.

(** ** Queries on the live state. *)
Section Queries.
Implicit Types s : Replay.
Definition latest_conversation s (project : Id) : option Id :=
  p ← st_projects s !! project; px_conversation <$> pj_latest p.
Definition active s : option (Id * Operation) :=
  id ← st_active s; op ← st_operations s !! id; Some (id, op).
Definition unresolved_creates s : list CreateNoteCall :=
  match st_active s ≫= (fun id => st_operations s !! id) with
  | Some op => omap to_create (filter (fun t => to_result_frame t = None) (op_tools op))
  | None => []
  end.
Definition project_memory_blocked s (project : Id) : bool :=
  existsb (fun intent => bool_decide (cc_project intent = project)) (unresolved_creates s).
(** [operation_mut]: the operation that the guards admit. *)
Definition operation_mut s (id : Id) (generation : Z) : Result Operation :=
  let? _ := require (bool_decide (st_active s = Some id)) in
  let? op := ok_or Corrupt (st_operations s !! id) in
  let? _ := require ((op_generation op =? generation) && is_none (op_terminal op)) in
  Ok op.
Definition input_operation s (id : Id) : option (Id * Z) := q ← st_inputs s !! id; qi_dispatched q.
Definition person_status (person : PersonFacts) : option InputStatus :=
  match pf_job person, pf_outcome person with
  | _, Some JExited | _, Some JSignalled => Some SComplete
  | _, Some _ => Some SFailed
  | Some _, None => Some SRunning
  | None, None => None
  end.
Definition lane_status s (input : QueuedInput) : InputStatus :=
  match qi_kind input with
  | ISteer =>
      match qi_target_terminal input with
      | None => SQueued
      | Some (TCancelled, Steering) =>
          if qi_owner_generation input =? st_owner_generation s then SQueued else SHeld
      | Some _ => SHeld
      end
  | _ =>
      match (c ← st_conversations s !! qi_conversation input; t ← cv_latest c; lt_terminal t) with
      | Some Interrupted => SHeld
      | _ => SQueued
      end
  end.
Definition status_of s (input : QueuedInput) : InputStatus :=
  match qi_person input ≫= person_status with
  | Some status => status
  | None =>
      match qi_dispatched input with
      | Some _ => match qi_dispatched_terminal input with
                  | None => SRunning
                  | Some Complete => SComplete
                  | Some _ => SFailed
                  end
      | None =>
          if qi_dropped input then SDropped
          else if qi_held input then SHeld
          else if qi_resumed input then SQueued
          else lane_status s input
      end
  end.
Definition input_status s (id : Id) : option InputStatus := status_of s <$> st_inputs s !! id.
Definition waiting (status : option InputStatus) : bool :=
  match status with Some SQueued | Some SHeld => true | _ => false end.
Definition unresolved_input s (id : Id) : bool :=
  match input_status s id with Some SQueued | Some SHeld | Some SRunning => true | _ => false end.
Definition steering_input s (operation : Id) : option Id :=
  (fun r => qi_request (snd r)) <$>
  list_find (fun q => qi_kind q = ISteer /\ qi_target_operation q = operation /\
                      input_status s (qi_request q) = Some SQueued) (btree_values (st_inputs s)).
Definition can_promote_input s (input target : Id) (generation : Z) : bool :=
  match st_inputs s !! input with
  | None => false
  | Some q =>
      bool_decide (qi_kind q = IQueue) && waiting (input_status s (qi_request q)) && is_none (qi_dispatched q) &&
      bool_decide (st_active s = Some target) &&
      is_some_and (fun op => bool_decide (op_conversation op = qi_conversation q) && (op_generation op =? generation) &&
                             is_none (op_terminal op) && is_none (op_cancel op)) (st_operations s !! target) &&
      is_none (steering_input s target)
  end.
(** [prior] blocks [input] in its lane. *)
Definition blocks s (released : option (gset Id)) (id : Id) (input prior : QueuedInput) : bool :=
  bool_decide (qi_conversation prior = qi_conversation input) && bool_decide (qi_request prior <> id) &&
  match input_status s (qi_request prior) with
  | Some SQueued | Some SHeld => qi_order_position prior <? qi_order_position input
  | Some SRunning =>
      if is_none (qi_person prior) then true
      else match released with None => false | Some released => bool_decide (qi_request prior ∉ released) end
  | _ => false
  end.
Definition lane_ready s (id : Id) (released : option (gset Id)) : bool :=
  match st_inputs s !! id with
  | None => false
  | Some input =>
      if bool_decide (input_status s id <> Some SQueued) then false
      else if decide (qi_kind input = ISteer) then is_some (qi_target_terminal input)
      else negb (existsb (blocks s released id input) (btree_values (st_inputs s)))
  end.
Definition input_ready s (id : Id) : bool := lane_ready s id None.
Definition input_ready_with s (id : Id) (released : gset Id) : bool := lane_ready s id (Some released).
(** [.map(|q| q.sequence).min().unwrap_or(fallback)] over the lane. *)
Definition lane_sequence s (input : QueuedInput) : Z :=
  match qi_sequence <$> filter (fun q => qi_conversation q = qi_conversation input) (btree_values (st_inputs s)) with
  | [] => qi_sequence input
  | x :: l => foldl Z.min x l
  end.
Definition lane_key (q : QueuedInput) : Z * Z := (Z.b2z (bool_decide (qi_kind q <> ISteer)), qi_order_position q).
Definition lane_enter s (lanes : gmap Id (QueuedInput * Z)) (input : QueuedInput) : gmap Id (QueuedInput * Z) :=
  match lanes !! qi_conversation input with
  | Some (current, sequence) =>
      if ltb (lane_key input) (lane_key current)
      then <[qi_conversation input := (input, sequence)]> lanes else lanes
  | None => <[qi_conversation input := (input, lane_sequence s input)]> lanes
  end.
Definition ready_lanes s (released : gset Id) : list (QueuedInput * Z) :=
  let ready := filter (fun q => qi_kind q <> IPerson /\ input_ready_with s (qi_request q) released = true)
                 (btree_values (st_inputs s)) in
  sort_by (fun a b => cmp a.2 b.2) (btree_values (foldl (lane_enter s) ∅ ready)).
Definition ready_input_with s (released : gset Id) : option Id :=
  if is_some (st_active s) then None else
  let lanes := ready_lanes s released in
  let position := lane ← st_last_lane s; fst <$> list_find (fun l => qi_conversation l.1 = lane) lanes in
  let pick := match position with Some i => ((i + 1) mod length lanes)%nat | None => 0%nat end in
  (fun l => qi_request l.1) <$> lanes !! pick.
Definition ready_input s : option Id := ready_input_with s ∅.
Definition ready_person_inputs s (released : gset Id) : list Id :=
  let busy := (fun o => op_conversation o.2) <$> active s in
  let ready := filter (fun q => qi_kind q = IPerson /\ busy <> Some (qi_conversation q) /\
                                input_ready_with s (qi_request q) released = true) (btree_values (st_inputs s)) in
  (sort_by (fun a b => cmp a b) ((fun q => (lane_sequence s q, qi_request q)) <$> ready)).*2.
End Queries.
