(* ===== verification/Replay.v ===== *)
(** * Frame application (conversation/state.rs, conversation/execution_path.rs).

    [apply] is the whole of [Replay::apply], one arm per record kind, with the
    handlers it calls; [apply_frame], [evict] and [reserve] around it;
    [apply_next] and the in-memory [replay] of a journal's bytes. An error
    leaves the caller's copy unusable, so a handler returns the new state or an
    error and never both. *)
From Stdlib Require Import ZArith Lia String.
From stdpp Require Import prelude list gmap.
From S2P Require Import Prelude Collections PayloadId Codec Fields Envelope Index Run Policy PathGuard Types.
From S2P Require Import PolicyReplay Text Rules ReplayState.

(** ** Field updates of the entities. *)
Definition op_update (op : Operation) (helper : option Id) (cancel : option Cause) (terminal : option Terminal)
    (tools : list ToolRecord) (request_starts : list Z) (response thinking : Response) : Operation :=
  mkOperation (op_conversation op) (op_generation op) (op_task op) (op_owner_generation op) (op_input_digest op)
    (op_accepted_frame op) (op_notice_through op) helper cancel terminal tools request_starts response thinking.
Definition op_set_helper (helper : Id) (starts : list Z) (op : Operation) : Operation :=
  op_update op (Some helper) (op_cancel op) (op_terminal op) (op_tools op) starts (op_response op) (op_thinking op).
Definition op_set_starts (starts : list Z) (op : Operation) : Operation :=
  op_update op (op_helper op) (op_cancel op) (op_terminal op) (op_tools op) starts (op_response op) (op_thinking op).
Definition op_set_cancel (cause : Cause) (op : Operation) : Operation :=
  op_update op (op_helper op) (Some cause) (op_terminal op) (op_tools op) (op_request_starts op) (op_response op) (op_thinking op).
Definition op_set_tools (tools : list ToolRecord) (op : Operation) : Operation :=
  op_update op (op_helper op) (op_cancel op) (op_terminal op) tools (op_request_starts op) (op_response op) (op_thinking op).
Definition op_set_response (response : Response) (op : Operation) : Operation :=
  op_update op (op_helper op) (op_cancel op) (op_terminal op) (op_tools op) (op_request_starts op) response (op_thinking op).
Definition op_set_thinking (thinking : Response) (op : Operation) : Operation :=
  op_update op (op_helper op) (op_cancel op) (op_terminal op) (op_tools op) (op_request_starts op) (op_response op) thinking.
Definition op_set_terminal (terminal : Terminal) (response : Response) (op : Operation) : Operation :=
  op_update op (op_helper op) (op_cancel op) (Some terminal) (op_tools op) (op_request_starts op) response (op_thinking op).
Definition project_set_latest (latest : option ProjectLatest) (p : ProjectEntry) : ProjectEntry :=
  mkProjectEntry (pj_registration p) (pj_registered p) (pj_name p) latest (pj_activity p).
Definition project_set_name (name : ProjectName) (p : ProjectEntry) : ProjectEntry :=
  mkProjectEntry (pj_registration p) (pj_registered p) (Some name) (pj_latest p) (pj_activity p).
Definition project_set_activity (sequence : Z) (p : ProjectEntry) : ProjectEntry :=
  mkProjectEntry (pj_registration p) (pj_registered p) (pj_name p) (pj_latest p) sequence.
Definition conversation_set_activity (sequence : Z) (c : Conversation) : Conversation :=
  mkConversation (cv_project c) (cv_generation c) (cv_created c) (cv_latest c) (cv_completed c) sequence.
Definition conversation_set_turn (generation : Z) (latest : LatestTurn) (c : Conversation) : Conversation :=
  mkConversation (cv_project c) generation (cv_created c) (Some latest) (cv_completed c) (cv_activity c).
Definition input_update (q : QueuedInput) (target_operation : Id) (target_generation : Z) (kind : InputKind)
    (owner_generation : Z) (held dropped resumed : bool) (order_position : Z) (promoted : option Locator)
    (dispatched : option (Id * Z)) (dispatched_terminal : option TerminalKind)
    (target_terminal : option (TerminalKind * Cause)) (settled : option Z) (person : option PersonFacts) : QueuedInput :=
  mkInput (qi_request q) (qi_dispatch_request q) (qi_project q) (qi_conversation q) target_operation target_generation kind
    (qi_frame q) (qi_sequence q) owner_generation held dropped resumed order_position promoted dispatched
    dispatched_terminal target_terminal settled person.
Definition input_set_flags (held dropped resumed : bool) (owner : Z) (q : QueuedInput) : QueuedInput :=
  input_update q (qi_target_operation q) (qi_target_generation q) (qi_kind q) owner held dropped resumed
    (qi_order_position q) (qi_promoted q) (qi_dispatched q) (qi_dispatched_terminal q) (qi_target_terminal q) (qi_settled q)
    (qi_person q).
Definition input_promote (p : InputPromoted) (generation : Z) (frame : Locator) (q : QueuedInput) : QueuedInput :=
  input_update q (ip_target_operation p) (ip_target_generation p) ISteer generation false (qi_dropped q) false
    (qi_order_position q) (Some frame) (qi_dispatched q) (qi_dispatched_terminal q) (qi_target_terminal q) (qi_settled q)
    (qi_person q).
Definition input_set_position (position : Z) (q : QueuedInput) : QueuedInput :=
  input_update q (qi_target_operation q) (qi_target_generation q) (qi_kind q) (qi_owner_generation q) (qi_held q)
    (qi_dropped q) (qi_resumed q) position (qi_promoted q) (qi_dispatched q) (qi_dispatched_terminal q)
    (qi_target_terminal q) (qi_settled q) (qi_person q).
Definition input_set_dispatched (dispatched : Id * Z) (q : QueuedInput) : QueuedInput :=
  input_update q (qi_target_operation q) (qi_target_generation q) (qi_kind q) (qi_owner_generation q) (qi_held q)
    (qi_dropped q) (qi_resumed q) (qi_order_position q) (qi_promoted q) (Some dispatched) (qi_dispatched_terminal q)
    (qi_target_terminal q) (qi_settled q) (qi_person q).
Definition input_set_settled (settled : Z) (q : QueuedInput) : QueuedInput :=
  input_update q (qi_target_operation q) (qi_target_generation q) (qi_kind q) (qi_owner_generation q) (qi_held q)
    (qi_dropped q) (qi_resumed q) (qi_order_position q) (qi_promoted q) (qi_dispatched q) (qi_dispatched_terminal q)
    (qi_target_terminal q) (Some settled) (qi_person q).
Definition input_set_terminals (dispatched_terminal : option TerminalKind) (target_terminal : option (TerminalKind * Cause))
    (q : QueuedInput) : QueuedInput :=
  input_update q (qi_target_operation q) (qi_target_generation q) (qi_kind q) (qi_owner_generation q) (qi_held q)
    (qi_dropped q) (qi_resumed q) (qi_order_position q) (qi_promoted q) (qi_dispatched q) dispatched_terminal
    target_terminal (qi_settled q) (qi_person q).
Definition input_set_person (person : option PersonFacts) (q : QueuedInput) : QueuedInput :=
  input_update q (qi_target_operation q) (qi_target_generation q) (qi_kind q) (qi_owner_generation q) (qi_held q)
    (qi_dropped q) (qi_resumed q) (qi_order_position q) (qi_promoted q) (qi_dispatched q) (qi_dispatched_terminal q)
    (qi_target_terminal q) (qi_settled q) person.
Definition job_set_cancel (cancel : JobCancel) (j : UnsettledJob) : UnsettledJob :=
  mkUnsettled (uj_job j) (uj_origin j) (uj_agent j) (uj_conversation j) (uj_project j) (uj_owner_generation j) (uj_time j)
    (uj_intent j) (Some cancel) (uj_payloads j).
(** The fields of a tool record that later records set. *)
Definition tool_update (t : ToolRecord) (result_status : option Z) (result_frame : option Locator) (result_bytes : Z)
    (preview : option bytes) (truncated : option bool) (exec_cmd : option ExecCmdCall) (job_result : option JobResult)
    (note : option (Id * Locator)) : ToolRecord :=
  mkToolRecord (to_name t) (to_tool t) (to_tool_operation t) (to_decision t) (to_fault t) (to_reason t) (to_refusal t)
    (to_policy t) (to_whole_command t) (to_form t) (to_arguments_bytes t) (to_arguments t) result_status (to_intent_frame t)
    result_frame result_bytes preview truncated (to_create t) exec_cmd job_result note.
(** [tools.last_mut()] assigned. *)
Definition set_last {A} (x : A) (l : list A) : list A := <[pred (length l) := x]> l.
Definition with_inputs (f : gmap Id QueuedInput -> gmap Id QueuedInput) (s : Replay) : Replay := set_inputs (f (st_inputs s)) s.
Definition with_op (id : Id) (f : Operation -> Operation) (s : Replay) : Replay :=
  set_operations (alter f id (st_operations s)) s.

Section Replaying.
Context `{Hasher, Unicode, JournalIndex}.
Implicit Types s : Replay.

(** ** Activity. *)
Definition touch s (project : Id) (conversation : option Id) (sequence : Z) : Replay :=
  let s := set_projects (alter (project_set_activity sequence) project (st_projects s)) s in
  match conversation with
  | Some id => set_conversations (alter (conversation_set_activity sequence) id (st_conversations s)) s
  | None => s
  end.
Definition record_activity s (project : Id) (conversation : option Id) (sequence : Z) : Replay :=
  let s := touch s project conversation sequence in
  let '(operation, generation, settled) :=
    match (id ← conversation; c ← st_conversations s !! id; l ← cv_latest c; Some (l, cv_generation c)) with
    | Some (latest, generation) => (Some (lt_operation latest), generation, is_some (lt_terminal latest))
    | None => (None, 0, false)
    end in
  set_activity (Some (mkActivity project conversation operation generation sequence settled)) s.
Definition active_activity s (sequence : Z) : Replay :=
  match active s with
  | Some (_, op) =>
      match cv_project <$> st_conversations s !! op_conversation op with
      | Some project => record_activity s project (Some (op_conversation op)) sequence
      | None => s
      end
  | None => s
  end.
(** An input whose status became final: its [I] entry. *)
Definition settle_input s (id : Id) (sequence : Z) : Result Replay :=
  let? status := ok_or Corrupt (input_status s id) in
  let? q := ok_or Corrupt (st_inputs s !! id) in
  let? _ := require (is_none (qi_settled q)) in
  let s := with_inputs (insert id (input_set_settled sequence q)) s in
  emit s (mkKey TInput id 0)
    (EInput (input_status_code status) (qi_frame q) (default locator_none (qi_promoted q))
       (match qi_dispatched q with Some (op, _) => op | None => zeros 16 end)).

(** ** Tool calls: kinds 14 and 15. *)
(** [format!("captured {} bytes", n)]. *)
Fixpoint decimal_fuel (fuel : nat) (n : Z) (acc : bytes) : bytes :=
  match fuel with
  | O => acc
  | S fuel => let acc := (48 + n mod 10) :: acc in if n / 10 =? 0 then acc else decimal_fuel fuel (n / 10) acc
  end.
Definition decimal (n : Z) : bytes := decimal_fuel 20 n [].
Definition apply_result_projection (t : ToolRecord) (operation : ToolOperation) (p : ToolResult) (frame : Locator) : ToolRecord :=
  tool_update t (Some (tr_status p)) (Some frame) (zlen (tr_text p))
    (Some (match operation with
           | GetNote => lit "captured " ++ decimal (zlen (tr_text p)) ++ lit " bytes"
           | CreateNote => []
           | _ => display_prefix (tr_text p) 128
           end))
    (Some (tr_truncated p)) (to_exec_cmd t) (to_job_result t) (to_note t).
Definition exec_cmd_call (installation : Id) (p : ToolCall) (sequence : Z) : ExecCmdCall :=
  let job := exec_cmd_job_id (tc_operation p) (tc_generation p) (tc_ordinal p) in
  let payloads := job_payloads installation job in
  mkExecCall (if tc_whole_command p then Some WHOLE_COMMAND else None)
    (if tc_whole_command p then 1 else wrap 16 (zlen (tc_number_kinds p))) job payloads.1 payloads.2 sequence None.
Definition tool_record (p : ToolCall) (frame : Locator) (create : option CreateNoteCall) (exec_cmd : option ExecCmdCall) : ToolRecord :=
  mkToolRecord (tc_name p) (tool_lookup (tc_name p)) (tc_tool_operation p) (tc_decision p) (tc_fault p) (tc_reason p)
    (tc_refusal p) (tc_policy p) (tc_whole_command p) (tc_form p) (tc_arguments_bytes p) (display_prefix (tc_arguments p) 192)
    None frame None 0 None None create exec_cmd None None.
Definition tool_call s (p : ToolCall) (frame : Locator) : Result Replay :=
  let '(answer, policy) := replay_tool_call p (st_policy s) in
  let? _ := answer in
  let s := set_policy policy s in
  let run := bool_decide (tc_decision p = TRun) in
  let? create :=
    if run && bool_decide (tc_tool_operation p = Some CreateNote) then
      if decide (32 <= length (unresolved_creates s))%nat then Err Limit else
      let? op := ok_or Corrupt (st_operations s !! tc_operation p) in
      let? c := ok_or Corrupt (st_conversations s !! op_conversation op) in
      let? _ := require (has (st_projects s) (cv_project c) && negb (project_memory_blocked s (cv_project c))) in
      let? call := note_call (st_installation_id s, pi_graph (st_initialization s), pi_request (st_initialization s))
                     (cv_project c) (tc_operation p) (tc_generation p) (tc_ordinal p) in
      Ok (Some call)
    else Ok None in
  let? op := operation_mut s (tc_operation p) (tc_generation p) in
  let? _ := require ((op_owner_generation op =? st_owner_generation s) && is_some (op_helper op) &&
                     (tc_ordinal p =? zlen (op_tools op) + 1) && forallb (fun t => negb (unresolved t)) (op_tools op) &&
                     (is_none (op_cancel op) || bool_decide (tc_decision p = TdCancelled))) in
  let exec_cmd := if run && bool_decide (tc_tool_operation p = Some ExecCmd)
                  then Some (exec_cmd_call (st_installation_id s) p (l_sequence frame)) else None in
  Ok (with_op (tc_operation p) (op_set_tools (op_tools op ++ [tool_record p frame create exec_cmd])) s).
Definition tool_result s (p : ToolResult) (frame : Locator) : Result Replay :=
  let? op := operation_mut s (tr_operation p) (tr_generation p) in
  let? _ := require (tr_ordinal p =? zlen (op_tools op)) in
  let? _ := require ((op_owner_generation op =? st_owner_generation s) ||
                     is_some_and (fun t => is_some (to_create t) && is_none (to_result_frame t)) (last (op_tools op))) in
  let? tool := ok_or Corrupt (last (op_tools op)) in
  let? _ := require (unresolved tool) in
  let? operation := ok_or Corrupt (to_tool_operation tool) in
  let? _ := require (negb (op_job_result operation)) in
  let? _ :=
    match operation with
    | CreateNote =>
        require (is_none (tr_next_offset p) && negb (tr_truncated p) && bool_decide (tr_text p = []) &&
                 bool_decide (tr_status p ∈ [1; 2; 4; 5; 6; 7]))
    | _ =>
        if negb (tr_status p =? 1) then require (is_none (tr_next_offset p) && negb (tr_truncated p))
        else match operation with
             | ReadFile | GetNote => require (is_some (tr_next_offset p))
             | ListDirectory => require (is_none (tr_next_offset p))
             | _ => require (is_none (tr_next_offset p) && negb (tr_truncated p))
             end
    end in
  Ok (with_op (tr_operation p) (op_set_tools (set_last (apply_result_projection tool operation p frame) (op_tools op))) s).

(** ** Kinds 29 and 30. *)
Definition conversation_job s (job conversation : Id) : Result (Z * bool) :=
  let? state := job_state s job in
  match state with
  | Some (Unsettled j) => if decide (uj_conversation j = conversation) then Ok (l_sequence (uj_intent j), false) else Err Corrupt
  | Some (Settled j) => if decide (sj_conversation j = conversation) then Ok (l_sequence (sj_intent j), true) else Err Corrupt
  | None => Err Corrupt
  end.
(** JR12: the body form of the code and outcome. *)
Definition body_form (body : JobResultBody) (code : ToolOperation) (outcome : JobResultOutcome) : bool :=
  match body, code with
  | BodyState _, ExecCmd => bool_decide (outcome ∈ [RoOk; RoCancelled])
  | BodyState _, JobStatus | BodyState _, JobCancelOp => bool_decide (outcome = RoOk)
  | BodyList _ _, JobList => bool_decide (outcome = RoOk)
  | BodyPage _, JobRead => bool_decide (outcome = RoOk)
  | BodyWait _ _, JobWait => bool_decide (outcome = RoOk)
  | BodyNone, ExecCmd => bool_decide (outcome = RoPrivate)
  | BodyNone, JobNote => true
  | BodyNone, _ => bool_decide (outcome <> RoOk)
  | _, _ => false
  end.
Fixpoint list_entries_ok s (conversation : Id) (last : Z) (entries : list JobListEntry) : Result unit :=
  match entries with
  | [] => Ok tt
  | e :: entries =>
      let? (intent, settled) := conversation_job s (le_job e) conversation in
      let? _ := require ((intent <? last) && (bool_decide (le_state e <> RsSettled) || settled)) in
      list_entries_ok s conversation intent entries
  end.
Definition job_result s (p : JobResult) (frame : Locator) : Result Replay :=
  let? _ := result_validate p in
  let? op := operation_mut s (jr_operation p) (jr_generation p) in
  let? _ := require ((op_owner_generation op =? st_owner_generation s) && (jr_ordinal p =? zlen (op_tools op))) in
  let conversation := op_conversation op in
  let? tool := ok_or Corrupt (last (op_tools op)) in
  let? _ := require (unresolved tool) in
  let? code := ok_or Corrupt (to_tool_operation tool) in
  let? _ := require (op_job_result code && result_outcome_allows (jr_outcome p) code) in
  let? _ := require (body_form (jr_body p) code (jr_outcome p)) in
  let? _ := require (bool_decide (jr_view p = []) || bool_decide (code ∈ [ExecCmd; JobStatus; JobWait])) in
  let named := negb (bool_decide (code ∈ [ExecCmd; JobList])) && bool_decide (jr_outcome p <> RoNotFound) in
  let? _ := require (Bool.eqb (nonzero_id (jr_job p)) named) in
  let? job :=
    match code with
    | ExecCmd =>
        let? exec := ok_or Corrupt (to_exec_cmd tool) in
        let? _ := require (is_some (ec_job_intent exec)) in
        Ok (Some (ec_job exec))
    | _ => Ok (if named then Some (jr_job p) else None)
    end in
  let? _ :=
    if decide (code = JobNote /\ jr_outcome p = RoOk)
    then require (is_some_and (fun n => bool_decide (n.1 = jr_job p)) (to_note tool)) else Ok tt in
  let? settled :=
    match job with
    | Some job => let? (_, settled) := conversation_job s job conversation in Ok settled
    | None => Ok false
    end in
  let? _ :=
    match jr_body p with
    | BodyState b | BodyWait b _ => require (bool_decide (sn_state b <> RsSettled) || settled)
    | BodyList _ entries => list_entries_ok s conversation U64_MAX entries
    | BodyPage _ | BodyNone => Ok tt
    end in
  let tool := tool_update tool (Some (jr_status p)) (Some frame) (to_result_bytes tool) (to_preview tool) (to_truncated tool)
                (to_exec_cmd tool) (Some p) (to_note tool) in
  Ok (with_op (jr_operation p) (op_set_tools (set_last tool (op_tools op))) s).
Definition job_retention s (p : JobRetention) (frame : Locator) : Result Replay :=
  let? _ := retention_validate p in
  let? state := job_state s (jn_job p) in
  let? (project, conversation, settled) :=
    match state with
    | Some (Unsettled j) => Ok (uj_project j, uj_conversation j, false)
    | Some (Settled j) =>
        let? found := find_conversation s (sj_conversation j) in
        let? c := ok_or Corrupt found in
        Ok (cv_project c, sj_conversation j, true)
    | None => Err Corrupt
    end in
  let? summary := job_retention_summary s (jn_job p) in
  let? _ := require (summary_allows summary (jn_action p) settled) in
  let? s :=
    match jn_author p with
    | ModelAuthor operation generation ordinal =>
        let? op := operation_mut s operation generation in
        let? _ := require ((op_owner_generation op =? st_owner_generation s) &&
                           bool_decide (op_conversation op = conversation) && (ordinal =? zlen (op_tools op))) in
        let? tool := ok_or Corrupt (last (op_tools op)) in
        let? _ := require (unresolved tool && bool_decide (to_tool_operation tool = Some JobNote) && is_none (to_note tool)) in
        let tool := tool_update tool (to_result_status tool) (to_result_frame tool) (to_result_bytes tool) (to_preview tool)
                      (to_truncated tool) (to_exec_cmd tool) (to_job_result tool) (Some (jn_job p, frame)) in
        Ok (with_op operation (op_set_tools (set_last tool (op_tools op))) s)
    | PersonAuthor _ => Ok s
    end in
  let? s := emit s (mkKey TRetention (jn_job p) (l_sequence frame))
              (ERetention (retention_action_code (jn_action p)) (retention_author_code (jn_author p)) frame) in
  Ok (record_activity s project (Some conversation) (l_sequence frame)).

(** ** Turns: kinds 21 and 8. *)
Definition create_conversation s (id project : Id) (frame : Locator) : Result Replay :=
  let? s := emit s (mkKey TConversation id 0) (EConversation project frame) in
  let? s := emit s (mkKey TProjectConversation project (l_sequence frame)) (EProjectConversation id) in
  Ok (set_conversations (<[id := mkConversation project 0 frame None 0 (l_sequence frame)]> (st_conversations s)) s).
(** The shown prior turns: completed turns of the conversation, in order, once each. *)
Fixpoint prior_ok s (conversation : Id) (seen : list Id) (last_generation : Z) (ids : list Id) : Result unit :=
  match ids with
  | [] => Ok tt
  | id :: ids =>
      let? found := operation_facts s id in
      let? facts := ok_or Corrupt found in
      let? _ := require (bool_decide (id ∉ seen) && bool_decide (o_conversation facts = conversation) &&
                         (last_generation <? o_generation facts) && bool_decide (o_terminal facts = Complete)) in
      prior_ok s conversation (id :: seen) (o_generation facts) ids
  end.
Definition dispatched_input s (request : Id) : option QueuedInput :=
  snd <$> list_find (fun q => qi_dispatch_request q = request /\ qi_dispatched q = None) (btree_values (st_inputs s)).
Definition accept s (p : TurnAccepted) (owner kind : Z) (frame : Locator) : Result Replay :=
  let? s :=
    if is_some (st_binding s) && is_none (st_active s) then
      let? (known, s) := load_project s (ta_project p) in
      let? _ := require known in Ok s
    else Err Corrupt in
  let dispatched := qi_request <$> dispatched_input s (ta_request p) in
  let? _ :=
    match dispatched ≫= (fun id => st_inputs s !! id) with
    | Some input =>
        require (bool_decide (qi_project input = ta_project p) &&
                 bool_decide (Some (qi_conversation input) = ta_original_conversation p) &&
                 input_ready s (qi_request input))
    | None => Ok tt
    end in
  let? _ := require ((ta_event_cursor p =? 1) && bool_decide (ta_model p <> [])) in
  let? digest := request_digest (QSubmit (ta_project p) (ta_original_conversation p) (ta_expected_generation p) (ta_prompt p)) in
  let? _ := require (bool_decide (ta_digest p = digest)) in
  let? (s, completed, previous) :=
    match ta_original_conversation p with
    | None =>
        let? _ := require (ta_generation p =? 1) in
        let? s := fresh s (ta_conversation p) in
        Ok (s, 0, 0)
    | Some id =>
        let? (known, s) := load_conversation s id in
        let? _ := require known in
        let? c := match st_conversations s !! id with Some c => Ok c | None => Panic end in
        let? _ :=
          if bool_decide (id = ta_conversation p) && bool_decide (cv_project c = ta_project p) &&
             (cv_generation c =? ta_expected_generation p)
          then let? n := next (cv_generation c) in require (ta_generation p =? n)
          else Err Corrupt in
        let? _ :=
          if cv_generation c =? 0 then
            match dispatched with
            | Some input =>
                match st_inputs s !! input with
                | Some q => require (bool_decide (qi_conversation q = id))
                | None => Panic
                end
            | None => Err Corrupt
            end
          else Ok tt in
        Ok (s, cv_completed c, match cv_latest c with Some l => lt_notice_through l | None => 0 end)
    end in
  let notice_through := co_notice_through (ta_composition p) in
  let? _ := require ((notice_through <? l_sequence frame) && (previous <=? notice_through)) in
  let? _ := require (co_notice_live (ta_composition p) <=? Z.of_nat MAX_UNSETTLED_JOBS) in
  let? _ := prior_ok s (ta_conversation p) [] 0 (ta_prior_operations p) in
  let? _ := require (zlen (ta_prior_operations p) + co_omitted_turns (ta_composition p) =? completed) in
  let? s := fresh s (ta_task p) in
  let? s := fresh s (ta_operation p) in
  let? s := request s (ta_request p) (ta_digest p)
              (OTurn (ta_conversation p) (ta_generation p) (ta_task p) (ta_operation p)) kind frame in
  let? s := generate s (ta_task p) GTask frame in
  let? s := generate s (ta_operation p) GOperation frame in
  let? s := if is_none (ta_original_conversation p) then create_conversation s (ta_conversation p) (ta_project p) frame else Ok s in
  let? c := ok_or Corrupt (st_conversations s !! ta_conversation p) in
  let latest := mkLatest (ta_operation p) None frame notice_through in
  let s := set_conversations (<[ta_conversation p := conversation_set_turn (ta_generation p) latest c]> (st_conversations s)) s in
  let? s := emit s (mkKey TActivity (ta_project p) (l_sequence frame))
              (EActivity (ta_conversation p) (ta_operation p) (ta_generation p)) in
  let? project := ok_or Corrupt (st_projects s !! ta_project p) in
  let platest := mkProjectLatest (ta_conversation p) (ta_operation p) (ta_generation p) (l_sequence frame) None in
  let s := set_projects (<[ta_project p := project_set_latest (Some platest) project]> (st_projects s)) s in
  let op := mkOperation (ta_conversation p) (ta_generation p) (ta_task p) owner (ta_input_digest p) frame notice_through
              None None None [] [] response_default response_default in
  let s := set_operations (<[ta_operation p := op]> (st_operations s)) s in
  let s := set_active (Some (ta_operation p)) s in
  let s := set_last_lane (Some (ta_conversation p)) s in
  let? s :=
    match dispatched with
    | Some input =>
        let? q := ok_or Corrupt (st_inputs s !! input) in
        let s := with_inputs (insert input (input_set_dispatched (ta_operation p, ta_generation p) q)) s in
        let? n := next (st_order_revision s) in
        Ok (set_order_revision n s)
    | None => Ok s
    end in
  Ok (record_activity s (ta_project p) (Some (ta_conversation p)) (l_sequence frame)).
Definition dispatched_to (operation : Id) (q : QueuedInput) : bool :=
  is_some_and (fun d => bool_decide (d.1 = operation)) (qi_dispatched q).
(** What one terminal does to one input. *)
Definition input_end (p : TurnTerminal) (q : QueuedInput) : QueuedInput :=
  let dispatched_terminal :=
    if dispatched_to (tt_operation p) q then Some (tt_kind p) else qi_dispatched_terminal q in
  let target_terminal :=
    if bool_decide (qi_kind q = ISteer) && bool_decide (qi_target_operation q = tt_operation p)
    then Some (tt_kind p, tt_cause p) else qi_target_terminal q in
  input_set_terminals dispatched_terminal target_terminal q.
Fixpoint settle_inputs s (ids : list Id) (sequence : Z) : Result Replay :=
  match ids with
  | [] => Ok s
  | id :: ids => let? s := settle_input s id sequence in settle_inputs s ids sequence
  end.
Definition terminal_allowed s (op : Operation) (response : Response) (p : TurnTerminal) : Result unit :=
  let owned := op_owner_generation op =? st_owner_generation s in
  match tt_kind p with
  | Complete =>
      require (is_some (op_helper op) && forallb (fun t => negb (unresolved t)) (op_tools op) && is_none (op_cancel op) &&
               bool_decide (tt_cause p = CNone) && (0 <? re_len response) && owned)
  | Interrupted =>
      let? _ := require (bool_decide (tt_cause p = Restart) && (op_owner_generation op <? st_owner_generation s)) in
      if is_some (op_helper op) then require (negb (tt_usage_known p)) else Ok tt
  | TCancelled => require (is_some_and (fun c => bool_decide (tt_cause p = c)) (op_cancel op) && owned)
  | Failed => require (bool_decide (tt_cause p <> CNone) && bool_decide (tt_cause p <> Restart) && owned)
  end.
Definition terminal s (p : TurnTerminal) (frame : Locator) : Result Replay :=
  let '(answer, policy) := replay_terminal (tt_operation p) (tt_generation p) (bool_decide (tt_kind p = Interrupted)) (st_policy s) in
  let? _ := answer in
  let s := set_policy policy s in
  let? op := operation_mut s (tt_operation p) (tt_generation p) in
  let? _ := require (tt_final_cursor p =? U64_MAX) in
  let? _ := require (forallb (fun t => is_none (to_create t) || is_some (to_result_frame t)) (op_tools op)) in
  let? _ := if negb (tt_usage_known p) then require (tt_output_tokens p =? 0) else Ok tt in
  let? _ := if is_none (op_helper op) then require (tt_usage_known p && (tt_output_tokens p =? 0)) else Ok tt in
  let? response := ok_or Corrupt (response_apply (op_response op) (tt_text_offset p) (zlen (tt_text p)) frame) in
  if decide (st_piece_limit s < zlen (re_pieces response)) then Err Limit else
  let? _ := terminal_allowed s op response p in
  let? c := ok_or Corrupt (st_conversations s !! op_conversation op) in
  let? completed := if decide (tt_kind p = Complete) then next (cv_completed c) else Ok (cv_completed c) in
  let latest := (fun l => if decide (lt_operation l = tt_operation p)
                          then mkLatest (lt_operation l) (Some (tt_kind p)) (lt_accepted l) (lt_notice_through l) else l)
                <$> cv_latest c in
  let c := mkConversation (cv_project c) (cv_generation c) (cv_created c) latest completed (cv_activity c) in
  let s := set_conversations (<[op_conversation op := c]> (st_conversations s)) s in
  let facts := mkTerminalFacts (tt_kind p) (tt_cause p) (tt_usage_known p) (tt_output_tokens p) frame completed in
  let op' := op_set_terminal facts response op in
  let s := set_operations (<[tt_operation p := op']> (st_operations s)) s in
  let s := add_charge (op_charge op') s in
  let s := set_active None s in
  let ended (e : ProjectEntry) :=
    project_set_latest ((fun l => if decide (px_operation l = tt_operation p)
                                  then mkProjectLatest (px_conversation l) (px_operation l) (px_generation l) (px_accepted l)
                                         (Some (l_sequence frame)) else l) <$> pj_latest e) e in
  let s := set_projects (alter ended (cv_project c) (st_projects s)) s in
  let settled := qi_request <$> filter (fun q => dispatched_to (tt_operation p) q = true) (btree_values (st_inputs s)) in
  let s := with_inputs (fmap (input_end p)) s in
  let? s := settle_inputs s settled (l_sequence frame) in
  Ok (record_activity s (cv_project c) (Some (op_conversation op)) (l_sequence frame)).

(** ** Queued inputs: kinds 18, 31 and 19. *)
(** [Enqueued]: the lane facts shared by kinds 18 and 31. *)
Record Enqueued : Type := mkEnqueued {
  en_request : Id; en_digest : Hash; en_input : Id; en_dispatch_request : option Id; en_project : Id;
  en_conversation : Id; en_expected_generation : Z; en_new_conversation : bool; en_order_revision : Z;
  en_person : option PersonFacts;
}.
(** A waiting input of the project in a conversation without a turn. *)
Definition waiting_new s (project : Id) (q : QueuedInput) : bool :=
  bool_decide (qi_project q = project) &&
  is_some_and (fun c => cv_generation c =? 0) (st_conversations s !! qi_conversation q) &&
  waiting (input_status s (qi_request q)).
(** [.map(|q| q.order_position).max().unwrap_or(0)] over a lane. *)
Definition lane_max s (conversation : Id) : Z :=
  foldr Z.max 0 (qi_order_position <$> filter (fun q => qi_conversation q = conversation) (btree_values (st_inputs s))).
Definition queued_input (p : Enqueued) (owner : Z) (frame : Locator) (order_position : Z) : QueuedInput :=
  mkInput (en_input p) (default (zeros 16) (en_dispatch_request p)) (en_project p) (en_conversation p) (zeros 16)
    (en_expected_generation p) (if is_some (en_person p) then IPerson else IQueue) frame (l_sequence frame) owner
    false false false order_position None None None None None (en_person p).
Definition enqueue_entry s (p : Enqueued) (owner kind : Z) (frame : Locator) : Result Replay :=
  let? s :=
    if is_some (st_binding s) then
      let? (known, s) := load_project s (en_project p) in
      let? _ := require known in Ok s
    else Err Corrupt in
  let? _ := require (nonzero_id (en_input p) && bool_decide (en_input p <> en_request p)) in
  let? n := next (st_order_revision s) in
  let? _ := require (en_order_revision p =? n) in
  let? s :=
    if en_new_conversation p then
      let? _ := require (en_expected_generation p =? 0) in
      let? s := fresh s (en_conversation p) in
      let? _ := require (negb (existsb (waiting_new s (en_project p)) (btree_values (st_inputs s)))) in
      Ok s
    else
      let? (known, s) := load_conversation s (en_conversation p) in
      let? _ := require known in
      let? _ := require (is_some_and (fun c => bool_decide (cv_project c = en_project p) &&
                                               (en_expected_generation p <=? cv_generation c))
                           (st_conversations s !! en_conversation p)) in
      Ok s in
  if decide (MAX_INPUTS <= length (filter (fun id => unresolved_input s id = true) (btree_keys (st_inputs s))))%nat then Err Limit else
  let? _ := require (negb (has (st_inputs s) (en_input p))) in
  let? _ := match en_dispatch_request p with Some dispatch => absent s (mkKey TRequest dispatch 0) | None => Ok tt end in
  let? s := fresh s (en_input p) in
  let? s := match en_dispatch_request p with Some dispatch => fresh s dispatch | None => Ok s end in
  let? s := generate s (en_input p) GInput frame in
  let? s := match en_dispatch_request p with Some dispatch => generate s dispatch GDispatch frame | None => Ok s end in
  let? s := if en_new_conversation p then create_conversation s (en_conversation p) (en_project p) frame else Ok s in
  let? s := request s (en_request p) (en_digest p) (OQueueInput (en_input p) (en_conversation p) (en_order_revision p)) kind frame in
  let? order_position := ok_or Limit (checked_add64 (lane_max s (en_conversation p)) 1) in
  let s := with_inputs (insert (en_input p) (queued_input p owner frame order_position)) s in
  let s := set_order_revision (en_order_revision p) s in
  Ok (record_activity s (en_project p) (Some (en_conversation p)) (l_sequence frame)).
Definition enqueue s (p : InputQueued) (owner kind : Z) (frame : Locator) : Result Replay :=
  let? _ := require (bool_decide (iq_input p <> iq_dispatch_request p) && bool_decide (iq_dispatch_request p <> iq_request p)) in
  let original := if iq_new_conversation p then None else Some (iq_conversation p) in
  let? digest := request_digest (QQueueInput (iq_project p) original (iq_expected_generation p) (iq_new_conversation p) (iq_prompt p)) in
  let? _ := require (bool_decide (iq_digest p = digest)) in
  enqueue_entry s (mkEnqueued (iq_request p) (iq_digest p) (iq_input p) (Some (iq_dispatch_request p)) (iq_project p)
    (iq_conversation p) (iq_expected_generation p) (iq_new_conversation p) (iq_order_revision p) None) owner kind frame.
Definition enqueue_person s (p : PersonCommandQueued) (owner kind : Z) (frame : Locator) : Result Replay :=
  let? _ := person_validate p in
  enqueue_entry s (mkEnqueued (pc_request p) (pc_digest p) (pc_input p) None (pc_project p) (pc_conversation p)
    (pc_expected_generation p) (pc_new_conversation p) (pc_order_revision p)
    (Some (mkPerson (pc_outside_sandbox p) None None))) owner kind frame.
(** The waiting inputs of a lane in order. *)
Definition lane_order s (lane : Id) : list Id :=
  (sort_by (fun a b => cmp a b)
     ((fun q => (qi_order_position q, qi_request q)) <$>
        filter (fun q => qi_conversation q = lane /\ waiting (input_status s (qi_request q)) = true) (btree_values (st_inputs s)))).*2.
(** [for (index, id) in ids.into_iter().enumerate() { .. = (index + 1) as u64 }]. *)
Fixpoint set_positions (inputs : gmap Id QueuedInput) (index : Z) (ids : list Id) : Result (gmap Id QueuedInput) :=
  match ids with
  | [] => Ok inputs
  | id :: ids =>
      let? q := ok_or Corrupt (inputs !! id) in
      set_positions (<[id := input_set_position (index + 1) q]> inputs) (index + 1) ids
  end.
(** [ids.insert(position, id)]. *)
Definition insert_at {A} (position : nat) (x : A) (l : list A) : list A := take position l ++ x :: drop position l.
Definition reorder_input s (p : InputReordered) (kind : Z) (frame : Locator) : Result Replay :=
  let? _ :=
    if ir_expected_order_revision p =? st_order_revision s
    then let? n := next (st_order_revision s) in require (ir_order_revision p =? n)
    else Err Corrupt in
  let? digest := request_digest (QReorderInput (ir_input p) (ir_after p) (ir_expected_order_revision p)) in
  let? _ := require (bool_decide (ir_digest p = digest)) in
  let? q := ok_or Corrupt (st_inputs s !! ir_input p) in
  let? _ := require (waiting (input_status s (ir_input p))) in
  let lane := qi_conversation q in
  let? _ :=
    match ir_after p with
    | Some after =>
        let? anchor := ok_or Corrupt (st_inputs s !! after) in
        require (bool_decide (qi_conversation anchor = lane) && waiting (input_status s after))
    | None => Ok tt
    end in
  let ids := filter (fun id => id <> ir_input p) (lane_order s lane) in
  let position :=
    match ir_after p with
    | None => Some 0%nat
    | Some after => S ∘ fst <$> list_find (fun id => id = after) ids
    end in
  let? position := match position with
                   | Some n => let? _ := require (n <=? length ids)%nat in Ok n
                   | None => Err Corrupt
                   end in
  let ids := insert_at position (ir_input p) ids in
  let? s := request s (ir_request p) (ir_digest p) (OReorderInput (ir_input p) (ir_order_revision p)) kind frame in
  let? inputs := set_positions (st_inputs s) 0 ids in
  let s := set_order_revision (ir_order_revision p) (set_inputs inputs s) in
  Ok (record_activity s (qi_project q) (Some lane) (l_sequence frame)).

(** ** Jobs: kinds 26, 27 and 28. *)
Definition derive_job s (p : JobIntent) (owner : Z) (frame : Locator) : Result UnsettledJob :=
  let? (conversation, project) :=
    match ji_origin p with
    | ByModel operation _ _ =>
        let? conversation :=
          match st_operations s !! operation with
          | Some op => Ok (op_conversation op)
          | None =>
              let? found := operation_facts s operation in
              let? facts := ok_or Corrupt found in
              Ok (o_conversation facts)
          end in
        let? found := find_conversation s conversation in
        let? c := ok_or Corrupt found in
        Ok (conversation, cv_project c)
    | ByPerson input =>
        let? q := ok_or Corrupt (st_inputs s !! input) in
        let? _ := require (is_some (qi_person q)) in
        Ok (qi_conversation q, qi_project q)
    end in
  let job := job_id (ji_origin p) in
  Ok (mkUnsettled job (ji_origin p) (ji_agent p) conversation project owner (ji_time p) frame None
        (job_payload_ids (st_installation_id s) job)).
(** JR5 and JR9. *)
Definition job_unused s (job : Id) : Result unit :=
  let? _ := if has (st_jobs s) job then Err Corrupt else absent s (mkKey TJob job 0) in
  if decide (MAX_UNSETTLED_JOBS <= size (st_jobs s))%nat then Err Limit else Ok tt.
Definition person_job_intent s (p : JobIntent) (input : Id) (owner : Z) (frame : Locator) : Result Replay :=
  let? q := ok_or Corrupt (st_inputs s !! input) in
  let? person := ok_or Corrupt (qi_person q) in
  let? _ := require (is_none (pf_job person) && negb (qi_dropped q) && input_ready s input) in
  let '(answer, policy) := person_job input (st_policy s) in
  let? _ := answer in
  let s := set_policy policy s in
  let? job := derive_job s p owner frame in
  let? _ := job_unused s (uj_job job) in
  let s := set_jobs (<[uj_job job := job]> (st_jobs s)) s in
  let q := input_set_person (Some (mkPerson (pf_outside_sandbox person) (Some frame) (pf_outcome person))) q in
  let s := with_inputs (insert input q) s in
  let? s := emit s (mkKey TPersonCommand (uj_conversation job) (l_sequence frame))
              (EPersonCommand input (uj_job job) (qi_target_generation q) (qi_frame q)) in
  let? n := next (st_order_revision s) in
  let s := set_last_lane (Some (uj_conversation job)) (set_order_revision n s) in
  Ok (record_activity s (uj_project job) (Some (uj_conversation job)) (l_sequence frame)).
Definition exec_set_intent (frame : Locator) (payloads : Id * Id) (e : ExecCmdCall) : ExecCmdCall :=
  mkExecCall (ec_fixed_command e) (ec_secret_variables e) (ec_job e) payloads.1 payloads.2 (ec_intent_sequence e) (Some frame).
Definition job_intent s (p : JobIntent) (owner : Z) (frame : Locator) : Result Replay :=
  let? _ := intent_validate p in
  match ji_origin p with
  | ByPerson input => person_job_intent s p input owner frame
  | ByModel operation generation ordinal =>
      let? op := operation_mut s operation generation in
      let? _ := require ((op_owner_generation op =? owner) && (ordinal =? zlen (op_tools op))) in
      let? tool := ok_or Corrupt (last (op_tools op)) in
      let? _ := require (bool_decide (to_decision tool = TRun) && bool_decide (to_tool_operation tool = Some ExecCmd) &&
                         is_none (to_result_frame tool) &&
                         is_some_and (fun e => is_none (ec_job_intent e)) (to_exec_cmd tool)) in
      let? job := derive_job s p owner frame in
      let? _ := job_unused s (uj_job job) in
      let? exec := ok_or Corrupt (to_exec_cmd tool) in
      let tool := tool_update tool (to_result_status tool) (to_result_frame tool) (to_result_bytes tool) (to_preview tool)
                    (to_truncated tool) (Some (exec_set_intent frame (uj_payloads job) exec)) (to_job_result tool) (to_note tool) in
      let s := with_op operation (op_set_tools (set_last tool (op_tools op))) s in
      let s := set_jobs (<[uj_job job := job]> (st_jobs s)) s in
      Ok (active_activity s (l_sequence frame))
  end.
Definition person_outside s (job : UnsettledJob) : Result (option bool) :=
  match uj_origin job with
  | ByModel _ _ _ => Ok None
  | ByPerson input =>
      let? person := ok_or Corrupt (st_inputs s !! input ≫= qi_person) in
      Ok (Some (pf_outside_sandbox person))
  end.
Definition job_cancel s (p : JobCancelRequested) (owner : Z) (frame : Locator) : Result Replay :=
  let? _ := cancel_validate p in
  let? job := ok_or Corrupt (st_jobs s !! jc_job p) in
  let? _ := require (is_none (uj_cancel job) && (uj_owner_generation job =? owner)) in
  let job := job_set_cancel (mkJobCancel (jc_requester p) (jc_reason p) (jc_kill p) frame) job in
  let s := set_jobs (<[jc_job p := job]> (st_jobs s)) s in
  Ok (record_activity s (uj_project job) (Some (uj_conversation job)) (l_sequence frame)).
Definition job_settled s (p : JobSettled) (owner : Z) (frame : Locator) : Result Replay :=
  let? _ := settled_validate p in
  let? job := ok_or Corrupt (st_jobs s !! jd_job p) in
  let? _ := require (if decide (jd_outcome p = JInterrupted) then uj_owner_generation job <? owner
                     else owner =? uj_owner_generation job) in
  let? flag := person_outside s job in
  let outside := bool_decide (flag = Some true) in
  let? _ := require (outside || (bool_decide (jd_reason p <> OutsideSandboxOff) &&
                                 bool_decide (jd_capture_reason p <> ClosedAfterCancel))) in
  let? _ := require (bool_decide (jd_reason p <> EnforcementMismatch) ||
                     match uj_origin job with ByModel _ _ _ => true | ByPerson _ => false end) in
  let s := set_jobs (delete (jd_job p) (st_jobs s)) s in
  let? s :=
    match uj_origin job with
    | ByPerson input =>
        let? q := ok_or Corrupt (st_inputs s !! input) in
        let? person := ok_or Corrupt (qi_person q) in
        let? _ := require (bool_decide (pf_job person = Some (uj_intent job)) && is_none (pf_outcome person)) in
        let q := input_set_person (Some (mkPerson (pf_outside_sandbox person) (pf_job person) (Some (jd_outcome p)))) q in
        settle_input (with_inputs (insert input q) s) input (l_sequence frame)
    | ByModel _ _ _ => Ok s
    end in
  let cancel := match uj_cancel job with Some c => ja_frame c | None => locator_none end in
  let sequence := l_sequence frame in
  let? s := emit s (mkKey TJob (uj_job job) 0)
              (EJob (uj_conversation job) (job_origin_code (uj_origin job)) (uj_intent job) cancel frame) in
  let payload := EJobPayload (uj_job job) (uj_intent job) frame sequence in
  let? s := emit s (mkKey TPayload (uj_payloads job).1 0) payload in
  let? s := emit s (mkKey TPayload (uj_payloads job).2 0) payload in
  let at_ := l_sequence (uj_intent job) in
  let? s := emit s (mkKey TConversationJob (uj_conversation job) at_) (EConversationJob (uj_job job)) in
  let? s := emit s (mkKey TProjectJob (uj_project job) at_) (EProjectJob (uj_job job) (uj_conversation job)) in
  let? s := emit s (mkKey TAllJobs (zeros 16) at_) (EAllJobs (uj_job job) (uj_project job)) in
  let? s := emit s (mkKey TSettlement (uj_conversation job) sequence) (ESettlement (uj_job job)) in
  Ok (record_activity s (uj_project job) (Some (uj_conversation job)) sequence).
(** Restores one unsettled job of a checkpoint. *)
Definition load_job s (intent cancel : Locator) : Result Replay :=
  let? _ := require (negb (locator_is_none intent) && (l_sequence intent <=? st_sequence s) &&
                     bool_decide (size (st_jobs s) < MAX_UNSETTLED_JOBS)%nat &&
                     forallb (fun j => l_sequence (uj_intent j) <? l_sequence intent) (btree_values (st_jobs s))) in
  let? (owner, r) := ix_frame_owner intent in
  let? p := match r with RJobIntent p => Ok p | _ => Err Corrupt end in
  let? _ := intent_validate p in
  let? job := derive_job s p owner intent in
  let? _ :=
    match ji_origin p with
    | ByPerson input =>
        require (is_some_and (fun person => bool_decide (pf_job person = Some intent) && is_none (pf_outcome person))
                   (st_inputs s !! input ≫= qi_person))
    | ByModel _ _ _ => Ok tt
    end in
  let? job :=
    if locator_is_none cancel then Ok job else
    let? (cancel_owner, r) := ix_frame_owner cancel in
    let? c := match r with RJobCancelRequested c => Ok c | _ => Err Corrupt end in
    let? _ := cancel_validate c in
    let? _ := require (bool_decide (jc_job c = uj_job job) && (cancel_owner =? owner) &&
                       (l_sequence intent <? l_sequence cancel) && (l_sequence cancel <=? st_sequence s)) in
    Ok (job_set_cancel (mkJobCancel (jc_requester c) (jc_reason c) (jc_kill c) cancel) job) in
  let? _ := require (negb (has (st_jobs s) (uj_job job))) in
  Ok (set_jobs (<[uj_job job := job]> (st_jobs s)) s).

(** ** Kind 32 (execution_path.rs). *)
Definition project_known s (project : Id) : Result bool :=
  if has (st_projects s) project then Ok true else
  let? found := get s (mkKey TProject project 0) in Ok (is_some found).
Definition last_change s (project : Id) : Result (option (Z * Z)) :=
  let? found := last_under s TPathChange project in
  match found with
  | Some (sequence, EPathChange _ number _) => Ok (Some (sequence, number))
  | Some _ => Err Corrupt
  | None => Ok None
  end.
Definition last_acknowledgement s (project : Id) : Result (option (Id * Z * Z * Locator)) :=
  let? found := last_under s TPathAck project in
  match found with
  | Some (_, EPathAck input through covered frame) => Ok (Some (input, through, covered, frame))
  | Some _ => Err Corrupt
  | None => Ok None
  end.
Definition execution_path s (p : ExecutionPathRecord) (frame : Locator) : Result Replay :=
  let? _ := path_validate p in
  let sequence := l_sequence frame in
  let? known := project_known s (ep_project p) in
  let? _ := require known in
  let reference := mkKey TPathReference (ep_reference p) 0 in
  let? _ := absent s reference in
  let? (s, conversation) :=
    match ep_action p with
    | AModelChanged =>
        let? state := job_state s (ep_reference p) in
        match state with
        | Some (Settled job) =>
            let? found := find_conversation s (sj_conversation job) in
            let? c := ok_or Corrupt found in
            let? _ := require ((sj_origin job =? 1) && bool_decide (cv_project c = ep_project p)) in
            let? change := last_change s (ep_project p) in
            let? number := match change with Some (_, n) => ok_or Corrupt (checked_add64 n 1) | None => Ok 1 end in
            let? s := emit s (mkKey TPathChange (ep_project p) sequence) (EPathChange (ep_reference p) number frame) in
            Ok (s, Some (sj_conversation job))
        | _ => Err Corrupt
        end
    | AAcknowledged =>
        let? q := ok_or Corrupt (st_inputs s !! ep_reference p) in
        let? _ := require (bool_decide (qi_project q = ep_project p) && negb (qi_dropped q) &&
                           is_some_and (fun person => is_none (pf_job person)) (qi_person q)) in
        let? previous := last_acknowledgement s (ep_project p) in
        let '(prior_through, prior_covered) :=
          match previous with Some (_, through, covered, _) => (through, covered) | None => (0, 0) end in
        let? covered :=
          if ep_through p =? prior_through then Ok prior_covered else
          let? _ := require (prior_through <? ep_through p) in
          let? e := entry s (mkKey TPathChange (ep_project p) (ep_through p)) in
          match e with Some (EPathChange _ number _) => Ok number | _ => Err Corrupt end in
        let? s := emit s (mkKey TPathAck (ep_project p) sequence) (EPathAck (ep_reference p) (ep_through p) covered frame) in
        Ok (s, Some (qi_conversation q))
    | AApproved | ARevoked =>
        let? stored := range s (mkKey TPathApproval (ep_project p) 0) (mkKey TPathApproval (ep_project p) U64_MAX) false
                         (Z.of_nat MAX_PATH_APPROVAL_RECORDS + 1) in
        let? e := admit_approval stored.*2 p frame in
        let? s := emit s (mkKey TPathApproval (ep_project p) sequence) e in
        Ok (s, None)
    end in
  let? s := emit s reference (EPathReference (action_code (ep_action p)) (ep_project p) frame) in
  Ok (record_activity s (ep_project p) conversation sequence).

(** ** [apply]. *)
(** While the active operation belongs to an earlier owner generation, only
    the records that close it or do not depend on it are accepted. *)
Definition old_owner_allows s (id : Id) (record : JournalRecord) : bool :=
  match record with
  | RToolResult result =>
      is_some_and (fun op =>
        bool_decide (tr_operation result = id) && (tr_generation result =? op_generation op) &&
        (tr_ordinal result =? zlen (op_tools op)) &&
        is_some_and (fun tool => is_some (to_create tool) && is_none (to_result_frame tool)) (last (op_tools op)))
        (st_operations s !! id)
  | RJobRetention p => match jn_author p with PersonAuthor _ => true | ModelAuthor _ _ _ => false end
  | RExecutionPath _ | RPolicyRevision _ => true
  | ROwnerGeneration | RTurnTerminal _ | RJobCancelRequested _ | RJobSettled _ => true
  | _ => false
  end.
Definition owner_guard s (record : JournalRecord) (generation : Z) : Result unit :=
  let? _ := match record with
            | ROwnerGeneration => Ok tt
            | _ => require (generation =? st_owner_generation s)
            end in
  match st_active s with
  | Some id =>
      let? op := ok_or Corrupt (st_operations s !! id) in
      if negb (op_owner_generation op =? st_owner_generation s) then require (old_owner_allows s id record) else Ok tt
  | None => Ok tt
  end.
Definition apply_binding s (p : ActiveBinding) : Result Replay :=
  let? _ := require (is_none (st_binding s) && bool_decide (ab_request p = pi_request (st_initialization s)) &&
                     (ab_generation p =? 1) && bool_decide (ab_graph p = pi_graph (st_initialization s)) &&
                     bool_decide (ab_configuration_digest p = pi_configuration_digest (st_initialization s))) in
  let? found := get s (mkKey TRequest (ab_request p) 0) in
  let? _ := require (is_some found) in
  let active (r : RequestResult) := mkRequestResult (rr_digest r) (OInitialization true) (rr_kind r) (rr_frame r) in
  Ok (set_binding (Some p) (set_requests (alter active (ab_request p) (st_requests s)) s)).
(** An undispatched input is held under the new owner. *)
Definition owner_hold (q : QueuedInput) : QueuedInput :=
  if is_none (qi_dispatched q) && negb (qi_dropped q) && is_none_or (fun p => is_none (pf_job p)) (qi_person q)
  then input_set_flags true (qi_dropped q) false (qi_owner_generation q) q else q.
Definition apply_owner s (generation : Z) : Result Replay :=
  let? n := next (st_owner_generation s) in
  let? _ := require (generation =? n) in
  Ok (with_inputs (fmap owner_hold) (set_owner_generation generation s)).
Definition apply_registered s (p : ProjectRegistered) (kind : Z) (frame : Locator) : Result Replay :=
  let sequence := l_sequence frame in
  let? _ := require (is_some (st_binding s) && (pr_registry_revision p =? 1) && (pr_visibility p =? 1)) in
  let? digest := request_digest (QRegister (pr_location p)) in
  let? _ := require (bool_decide (pr_digest p = digest)) in
  let identity := mkKey TIdentity (identity_id (pr_device p) (pr_inode p)) 0 in
  let? _ := absent s identity in
  let? s := fresh s (pr_project p) in
  let? s := request s (pr_request p) (pr_digest p) (OProject (pr_project p)) kind frame in
  let? s := emit s (mkKey TProject (pr_project p) 0) (EProject (pr_device p) (pr_inode p) (pr_visibility p) frame) in
  let? s := emit s identity (EIdentity (pr_project p)) in
  let s := set_projects (<[pr_project p := mkProjectEntry p frame None None sequence]> (st_projects s)) s in
  Ok (record_activity s (pr_project p) None sequence).
Definition loaded_project s (project : Id) : Result Replay :=
  if is_some (st_binding s) then
    let? (known, s) := load_project s project in
    let? _ := require known in Ok s
  else Err Corrupt.
Definition apply_alias s (p : ProjectRequestAlias) (kind : Z) (frame : Locator) : Result Replay :=
  let? s := loaded_project s (pa_project p) in
  let? project := match st_projects s !! pa_project p with Some e => Ok e | None => Panic end in
  let? _ :=
    if pa_registry_revision p =? pr_registry_revision (pj_registration project) then
      let? digest := request_digest (QRegister (pa_location p)) in
      require (bool_decide (pa_digest p = digest))
    else Err Corrupt in
  let? s := request s (pa_request p) (pa_digest p) (OProject (pa_project p)) kind frame in
  Ok (record_activity s (pa_project p) None (l_sequence frame)).
Definition apply_renamed s (p : ProjectRenamed) (kind : Z) (frame : Locator) : Result Replay :=
  let? s := loaded_project s (pn_project p) in
  let? digest := request_digest (QRenameProject (pn_project p) (pn_expected_name_revision p) (pn_requested_name p)) in
  let? _ :=
    if bool_decide (pn_digest p = digest) then
      let? name := capitalize_project_name (pn_requested_name p) in
      require (bool_decide (pn_name p = name))
    else Err Corrupt in
  let? (prior_name, prior_revision) := ok_or Corrupt (project_name s (pn_project p)) in
  let? _ :=
    if pn_expected_name_revision p =? prior_revision
    then let? n := next prior_revision in require (pn_name_revision p =? n)
    else Err Corrupt in
  let changed := bool_decide (prior_name <> pn_name p) in
  let? s := request s (pn_request p) (pn_digest p)
              (OProjectRename (pn_project p) (pn_name p) (pn_name_revision p) changed) kind frame in
  let? s := emit s (mkKey TName (pn_project p) (pn_name_revision p)) (EName frame) in
  let? e := ok_or Corrupt (st_projects s !! pn_project p) in
  let s := set_projects (<[pn_project p := project_set_name (mkName (pn_name p) (pn_name_revision p)) e]> (st_projects s)) s in
  Ok (record_activity s (pn_project p) None (l_sequence frame)).
Definition apply_promoted s (p : InputPromoted) (generation kind : Z) (frame : Locator) : Result Replay :=
  let? digest := request_digest (QPromoteInput (ip_input p) (ip_target_operation p) (ip_target_generation p)) in
  let? _ := require (bool_decide (ip_digest p = digest)) in
  let? _ := require (can_promote_input s (ip_input p) (ip_target_operation p) (ip_target_generation p)) in
  let? s := request s (ip_request p) (ip_digest p) (OInputDecision (ip_input p)) kind frame in
  let? q := ok_or Corrupt (st_inputs s !! ip_input p) in
  let s := with_inputs (insert (ip_input p) (input_promote p generation frame q)) s in
  let? n := next (st_order_revision s) in
  Ok (record_activity (set_order_revision n s) (qi_project q) (Some (qi_conversation q)) (l_sequence frame)).
Definition input_decide (action : InputAction) (generation : Z) (q : QueuedInput) : QueuedInput :=
  match action with
  | AResume => input_set_flags false (qi_dropped q) true generation q
  | ADrop => input_set_flags (qi_held q) true (qi_resumed q) (qi_owner_generation q) q
  | AHold => input_set_flags true (qi_dropped q) (qi_resumed q) (qi_owner_generation q) q
  end.
Definition apply_input_decision s (p : InputDecision) (generation kind : Z) (frame : Locator) : Result Replay :=
  let? digest := request_digest (QInputDecision (id_input p) (id_action p)) in
  let? _ := require (bool_decide (id_digest p = digest)) in
  let? status := ok_or Corrupt (input_status s (id_input p)) in
  let? _ := require (if decide (id_action p = AHold) then bool_decide (status = SQueued) else bool_decide (status = SHeld)) in
  let? s := request s (id_request p) (id_digest p) (OInputDecision (id_input p)) kind frame in
  let? q := ok_or Corrupt (st_inputs s !! id_input p) in
  let s := with_inputs (insert (id_input p) (input_decide (id_action p) generation q)) s in
  let s := if decide (id_action p <> AResume) then set_policy (person_settled (id_input p) (st_policy s)) s else s in
  let? n := next (st_order_revision s) in
  let s := set_order_revision n s in
  let? s := if decide (id_action p = ADrop) then settle_input s (id_input p) (l_sequence frame) else Ok s in
  Ok (record_activity s (qi_project q) (Some (qi_conversation q)) (l_sequence frame)).
Definition apply_start s (p : StartAuthorized) (sequence : Z) : Result Replay :=
  let? op := operation_mut s (sa_operation p) (sa_generation p) in
  let? _ := require ((op_owner_generation op =? st_owner_generation s) && is_none (op_helper op) && is_none (op_cancel op) &&
                     bool_decide (op_input_digest op = sa_input_digest p) && nonzero_id (sa_helper p)) in
  let op' := op_set_helper (sa_helper p) (op_request_starts op ++ [zlen (op_tools op)]) in
  Ok (active_activity (with_op (sa_operation p) op' s) sequence).
Definition apply_request_started s (p : RequestStarted) (sequence : Z) : Result Replay :=
  let? op := operation_mut s (rs_operation p) (rs_generation p) in
  let previous := last (op_request_starts op) in
  let starts := zlen (op_request_starts op) in
  let? _ := require ((op_owner_generation op =? st_owner_generation s) && is_some (op_helper op) && is_none (op_cancel op) &&
                     is_none (op_terminal op) &&
                     bool_decide ((if decide (starts < 2 ^ 32) then Some starts else None) =
                                  (if decide (1 <= rs_request p) then Some (rs_request p - 1) else None)) &&
                     (2 <=? rs_request p) && is_some_and (fun start => start <? zlen (op_tools op)) previous &&
                     forallb (fun t => negb (unresolved t)) (op_tools op)) in
  let op' := op_set_starts (op_request_starts op ++ [zlen (op_tools op)]) in
  Ok (active_activity (with_op (rs_operation p) op' s) sequence).
Definition apply_cancel s (p : CancelRequested) (sequence : Z) : Result Replay :=
  let? _ := require (bool_decide (cr_cause p ∈ [UserCancel; Steering; Deadline; OutputLimit; ServiceShutdown])) in
  let? op := operation_mut s (cr_operation p) (cr_generation p) in
  let? _ := require (is_none (op_cancel op)) in
  Ok (active_activity (with_op (cr_operation p) (op_set_cancel (cr_cause p)) s) sequence).
Definition apply_policy_revision s (p : PolicyRevision) : Result Replay :=
  let '(answer, policy) := replay_revision p (st_policy s) in
  let? _ := answer in Ok (set_policy policy s).
Definition apply_policy_decision s (p : PolicyDecision) (sequence : Z) : Result Replay :=
  match decision_call p with
  | None =>
      match pd_subject p with
      | PersonInput input =>
          let? q := ok_or Corrupt (st_inputs s !! input) in
          let? person := ok_or Corrupt (qi_person q) in
          let? _ := require (is_none (pf_job person) && negb (qi_dropped q) && negb (qi_held q) &&
                             bool_decide (input_status s input = Some SQueued) &&
                             (pd_profile p =? if pf_outside_sandbox person then 3 else 2) &&
                             bool_decide (pd_project p = qi_project q) &&
                             bool_decide (pd_task_conversation p = qi_conversation q)) in
          let '(answer, policy) := replay_decision p (st_policy s) in
          let? _ := answer in Ok (set_policy policy s)
      | ModelCall _ _ _ => Err Corrupt
      end
  | Some (operation, generation, ordinal) =>
      let? op := operation_mut s operation generation in
      let? _ := require ((op_owner_generation op =? st_owner_generation s) && is_some (op_helper op) &&
                         (ordinal =? zlen (op_tools op) + 1) && forallb (fun t => negb (unresolved t)) (op_tools op)) in
      let '(answer, policy) := replay_decision p (st_policy s) in
      let? _ := answer in Ok (active_activity (set_policy policy s) sequence)
  end.
Definition apply_text (thinking : bool) s (p : ResponseText) (frame : Locator) : Result Replay :=
  let? op := operation_mut s (rt_operation p) (rt_generation p) in
  let? _ := require (is_some (op_helper op)) in
  let text := if thinking then op_thinking op else op_response op in
  let? _ := require ((rt_offset p <? re_len text) || bool_decide (rt_text p <> [])) in
  let? text := ok_or Corrupt (response_apply text (rt_offset p) (zlen (rt_text p)) frame) in
  if decide (st_piece_limit s < zlen (re_pieces text)) then Err Limit else
  Ok (active_activity (with_op (rt_operation p) (if thinking then op_set_thinking text else op_set_response text) s)
        (l_sequence frame)).
Definition apply s (record : JournalRecord) (generation : Z) (frame : Locator) : Result Replay :=
  let sequence := l_sequence frame in
  let? _ := owner_guard s record generation in
  let k := kind record in
  match record with
  | RPendingInit _ => Err Corrupt
  | RActiveBinding p => apply_binding s p
  | ROwnerGeneration => apply_owner s generation
  | RProjectRegistered p => apply_registered s p k frame
  | RProjectRequestAlias p => apply_alias s p k frame
  | RProjectRenamed p => apply_renamed s p k frame
  | RInputQueued p => enqueue s p generation k frame
  | RPersonCommandQueued p => enqueue_person s p generation k frame
  | RInputReordered p => reorder_input s p k frame
  | RInputPromoted p => apply_promoted s p generation k frame
  | RInputDecision p => apply_input_decision s p generation k frame
  | RTurnAccepted p => accept s p generation k frame
  | RStartAuthorized p => apply_start s p sequence
  | RRequestStarted p => apply_request_started s p sequence
  | RCancelRequested p => apply_cancel s p sequence
  | RToolCall p => let? s := tool_call s p frame in Ok (active_activity s sequence)
  | RJobResult p => let? s := job_result s p frame in Ok (active_activity s sequence)
  | RJobRetention p => job_retention s p frame
  | RExecutionPath p => execution_path s p frame
  | RPolicyRevision p => apply_policy_revision s p
  | RPolicyDecision p => apply_policy_decision s p sequence
  | RToolResult p => let? s := tool_result s p frame in Ok (active_activity s sequence)
  | RTurnTerminal p => terminal s p frame
  | RJobIntent p => job_intent s p generation frame
  | RJobCancelRequested p => job_cancel s p generation frame
  | RJobSettled p => job_settled s p generation frame
  | RResponseText p => apply_text false s p frame
  | RThinkingText p => apply_text true s p frame
  end.

(** ** Eviction and reservation. *)
Definition pinned s : gset Id * gset Id :=
  let '(projects, conversations) :=
    match active s with
    | Some (_, op) =>
        (match st_conversations s !! op_conversation op with Some c => {[cv_project c]} | None => ∅ end,
         {[op_conversation op]})
    | None => (∅, ∅)
    end in
  let inputs := filter (fun q => unresolved_input s (qi_request q) = true) (btree_values (st_inputs s)) in
  let jobs := btree_values (st_jobs s) in
  (projects ∪ list_to_set (qi_project <$> inputs) ∪ list_to_set (uj_project <$> jobs),
   conversations ∪ list_to_set (qi_conversation <$> inputs) ∪ list_to_set (uj_conversation <$> jobs)).
(** The identifiers past the [keep] with the newest activity, ties by
    identifier: what [order.into_iter().skip(keep)] yields. *)
Definition stale {V} (activity : V -> Z) (keep : nat) (m : gmap Id V) : list Id :=
  (drop keep (sort_by (fun a b => cmp a b) ((fun iv => (- activity iv.2, iv.1)) <$> btree_iter m))).*2.
Definition evict_map {V} (activity : V -> Z) (keep : nat) (pinned : gset Id) (m : gmap Id V) : gmap Id V :=
  if decide (keep < size m)%nat
  then foldl (fun m id => if decide (id ∈ pinned) then m else delete id m) m (stale activity keep m)
  else m.
Definition evictable s : list (Z * Id) :=
  omap (fun q =>
    match qi_settled q with
    | Some at_ =>
        if is_some_and (fun d => bool_decide (Some d.1 = st_active s)) (qi_dispatched q) then None
        else Some (- at_, qi_request q)
    | None => None
    end) (btree_values (st_inputs s)).
Definition evict_inputs s : gmap Id QueuedInput :=
  let settled := evictable s in
  if decide (RECENT_SETTLED_INPUTS < length settled)%nat
  then foldl (fun m id => delete id m) (st_inputs s) (drop RECENT_SETTLED_INPUTS (sort_by (fun a b => cmp a b) settled)).*2
  else st_inputs s.
Definition evict s : Replay :=
  let '(pinned_projects, pinned_conversations) := pinned s in
  let s := set_projects (evict_map pj_activity RECENT_PROJECTS pinned_projects (st_projects s)) s in
  let s := set_conversations (evict_map cv_activity RECENT_CONVERSATIONS pinned_conversations (st_conversations s)) s in
  set_inputs (evict_inputs s) s.
Definition job_ledger (jobs : list UnsettledJob) : Z * Z :=
  foldl (fun a job =>
    if is_some (uj_cancel job) then (a.1 + JOB_SETTLED_CAPACITY, a.2 + 1)
    else (a.1 + JOB_SETTLED_CAPACITY + JOB_CANCEL_CAPACITY, a.2 + 2)) (0, 0) jobs.
(** Bytes and frames held for the records that close the active operation. *)
Definition operation_reserve s (op : Operation) : Result (Z * Z) :=
  let a := (TERMINAL_CAPACITY, 1) in
  let? a :=
    match last (op_tools op) with
    | Some tool =>
        if unresolved tool then
          let? code := ok_or Corrupt (to_tool_operation tool) in
          let a := (a.1 + (if op_job_result code then JOB_RESULT_CAPACITY else RESULT_CAPACITY), a.2 + 1) in
          Ok (if bool_decide (code = JobNote) && is_none (to_note tool) then (a.1 + MODEL_NOTE_CAPACITY, a.2 + 1) else a)
        else Ok a
    | None => Ok a
    end in
  if op_owner_generation op =? st_owner_generation s then
    let a := (a.1 + OWNER_CAPACITY, a.2 + 1) in
    let a := if is_none (op_helper op) && is_none (op_cancel op) then (a.1 + START_CAPACITY, a.2 + 1) else a in
    Ok (if is_none (op_cancel op) then (a.1 + CANCEL_CAPACITY, a.2 + 1) else a)
  else Ok a.
Definition input_frames s (q : QueuedInput) : Z :=
  match input_status s (qi_request q) with Some SQueued => 2 | Some SHeld => 1 | _ => 0 end.
Definition reserve s : Result Replay :=
  let? (bytes, frames) :=
    match st_active s with
    | Some id => let? op := ok_or Corrupt (st_operations s !! id) in operation_reserve s op
    | None => Ok (0, 0)
    end in
  let '(bytes, frames) :=
    foldl (fun a q => (a.1 + input_frames s q * (HEADER + TRAILER + 65), a.2 + input_frames s q)) (bytes, frames)
      (btree_values (st_inputs s)) in
  let ledger := job_ledger (btree_values (st_jobs s)) in
  let s := set_reserved_frames (frames + ledger.2) (set_reserved_bytes (bytes + ledger.1) s) in
  if decide (MAX_MEMORY < memory_charge s) then Err Limit else Ok s.
Definition clear_delta s : Replay :=
  let s := set_transition_ids ∅ (set_entries ∅ (set_generated ∅ (set_requests ∅ s))) in
  let s := set_operations (filter (fun io => Some io.1 = st_active s) (st_operations s)) s in
  set_base (st_sequence s) (set_delta_charge 0 s).
Definition recompute s : Result Replay := reserve (set_activity None (set_delta_charge 0 s)).

(** ** Frames. *)
Definition apply_frame s (context : FrameContext) (record : JournalRecord) (digest : Hash) (frame : Locator) : Result Replay :=
  let? n := next (st_sequence s) in
  let? _ := require ((sequence context =? n) && (l_sequence frame =? sequence context) &&
                     bool_decide (prior_digest context = st_last_digest s) && (expected_revision context =? st_revision s) &&
                     bool_decide (installation_id context = st_installation_id s) &&
                     bool_decide (transition_id context ∉ st_transition_ids s)) in
  let s := set_transition_ids ({[transition_id context]} ∪ st_transition_ids s) s in
  let s := set_claimed ∅ (set_activity None (add_charge FRAME_CHARGE s)) in
  let? s := apply s record (owner_generation context) frame in
  let? revision := next (expected_revision context) in
  let s := set_last_frame frame (set_last_digest digest (set_revision revision (set_sequence (sequence context) s))) in
  reserve (evict s).
Definition empty_state (installation : Id) (initialization : PendingInit) : Replay :=
  mkState installation 0 (zeros 32) locator_none 0 1 initialization None ∅ ∅ ∅ None ∅ ∅ 0 None 0 0 ∅ replay_default 0 None
    ∅ ∅ ∅ ∅ 0 MAX_RESPONSE_PIECES.
Definition genesis (context : FrameContext) (init : PendingInit) (frame : Locator) : Result Replay :=
  let? _ := require ((sequence context =? 1) && (expected_revision context =? 0) && (owner_generation context =? 1) &&
                     bool_decide (prior_digest context = zeros 32)) in
  let? _ :=
    if (0 <? pi_configuration_revision init) && nonzero_id (pi_graph init) &&
       bool_decide (pi_graph init <> installation_id context)
    then let? digest := request_digest (QInitialize (pi_mode init)) in require (bool_decide (pi_digest init = digest))
    else Err Corrupt in
  let s := empty_state (installation_id context) init in
  let s := add_charge FRAME_CHARGE (set_transition_ids {[transition_id context]} s) in
  let? s := generate s (installation_id context) GInstallation frame in
  let? s := generate s (pi_graph init) GGraph frame in
  Ok (insert_request s (pi_request init) (pi_digest init) (OInitialization false) 10 frame).
Definition apply_next (state : option Replay) (context : FrameContext) (record : JournalRecord) (digest : Hash)
    (frame : Locator) : Result Replay :=
  match state with
  | Some s => apply_frame s context record digest frame
  | None =>
      match record with
      | RPendingInit p =>
          let? s := genesis context p frame in
          let? revision := next (expected_revision context) in
          let s := set_last_frame frame (set_last_digest digest (set_revision revision (set_sequence (sequence context) s))) in
          reserve s
      | _ => Err Corrupt
      end
  end.
End Replaying.
