(* ===== verification/Effects.v ===== *)
(** * What the replay handlers change.

    [Books s s']: the step from [s] to [s'] touches only the bookkeeping of
    replay (the delta, the caches of projects and conversations, the activity
    and the identifiers claimed by the frame), and never loses a key of it. The
    handlers of Replay.v are sequences of such steps and of assignments to the
    live state; the lemmas here give each handler's effect on the live state. *)
From Stdlib Require Import ZArith Lia String.
From stdpp Require Import prelude list gmap.
From S2P Require Import Prelude Collections PayloadId Codec Fields Envelope Index Run Policy PathGuard Types.
From S2P Require Import PolicyReplay Text Rules ReplayState Replay.

Record Books (s s' : Replay) : Prop := mkBooks {
  bk_installation : st_installation_id s' = st_installation_id s;
  bk_sequence : st_sequence s' = st_sequence s;
  bk_last_digest : st_last_digest s' = st_last_digest s;
  bk_last_frame : st_last_frame s' = st_last_frame s;
  bk_revision : st_revision s' = st_revision s;
  bk_owner : st_owner_generation s' = st_owner_generation s;
  bk_initialization : st_initialization s' = st_initialization s;
  bk_binding : st_binding s' = st_binding s;
  bk_operations : st_operations s' = st_operations s;
  bk_active : st_active s' = st_active s;
  bk_inputs : st_inputs s' = st_inputs s;
  bk_jobs : st_jobs s' = st_jobs s;
  bk_order : st_order_revision s' = st_order_revision s;
  bk_lane : st_last_lane s' = st_last_lane s;
  bk_policy : st_policy s' = st_policy s;
  bk_base : st_base s' = st_base s;
  bk_transitions : st_transition_ids s' = st_transition_ids s;
  bk_piece_limit : st_piece_limit s' = st_piece_limit s;
  bk_generated : dom (st_generated s) ⊆ dom (st_generated s');
  bk_entries : st_entries s ⊆ st_entries s';
  bk_projects : dom (st_projects s) ⊆ dom (st_projects s');
  bk_conversations : dom (st_conversations s) ⊆ dom (st_conversations s');
  bk_charge : st_delta_charge s <= st_delta_charge s';
}.
#[export] Instance Books_preorder : PreOrder Books.
Proof.
  split; [intros s; by constructor|].
  intros s1 s2 s3 [] []. constructor; first [congruence | lia | by etrans].
Qed.
(** Proves [Books] for explicit assignments to bookkeeping fields. *)
Ltac books := constructor; cbn; try reflexivity; rewrite ?dom_insert_L, ?dom_alter_L; try apply union_subseteq_r; try reflexivity;
  try (unfold GENERATED_CHARGE, ENTRY_CHARGE, REQUEST_CHARGE; lia).

Section Primitives.
Context `{Hasher, Unicode, JournalIndex}.
Implicit Types s : Replay.

Lemma add_charge_books n s : 0 <= n -> Books s (add_charge n s).
Proof. intros. books. Qed.
Lemma generate_books s id entity frame s' : generate s id entity frame = Ok s' -> Books s s'.
Proof. unfold generate. intros. inv_ok. subst. books. Qed.
Lemma emit_books s key e s' : emit s key e = Ok s' -> Books s s'.
Proof.
  unfold emit, require. intros. inv_ok. case_bool_decide; [|done]. subst. books. by apply insert_subseteq.
Qed.
Lemma insert_request_books s id digest result kind frame : Books s (insert_request s id digest result kind frame).
Proof. books. Qed.
Lemma fresh_books s id s' : fresh s id = Ok s' -> Books s s'.
Proof. unfold fresh. intros. inv_ok. subst. books. Qed.
Lemma request_books s id digest result kind frame s' : request s id digest result kind frame = Ok s' -> Books s s'.
Proof. unfold request. intros. inv_ok. subst. apply insert_request_books. Qed.
Lemma load_project_books s id known s' : load_project s id = Ok (known, s') -> Books s s'.
Proof.
  unfold load_project. destruct (has _ _); [naive_solver|]. intros. inv_ok. case_match; inv_ok; subst; books.
Qed.
Lemma load_conversation_books s id known s' : load_conversation s id = Ok (known, s') -> Books s s'.
Proof.
  unfold load_conversation. destruct (has _ _); [naive_solver|]. intros. inv_ok. case_match; inv_ok; subst; books.
Qed.
Lemma touch_books s project conversation sequence : Books s (touch s project conversation sequence).
Proof. unfold touch. destruct conversation; books. Qed.
Lemma record_activity_books s project conversation sequence :
  Books s (record_activity s project conversation sequence).
Proof.
  unfold record_activity. destruct (match _ with Some _ => _ | None => _ end) as [[??]?].
  etrans; [apply touch_books|]. books.
Qed.
Lemma active_activity_books s sequence : Books s (active_activity s sequence).
Proof.
  unfold active_activity. repeat case_match; try done. apply record_activity_books.
Qed.
Lemma create_conversation_books s id project frame s' : create_conversation s id project frame = Ok s' -> Books s s'.
Proof.
  unfold create_conversation. intros. inv_ok. subst. etrans; [by eapply emit_books|].
  etrans; [by eapply emit_books|]. books.
Qed.
Lemma loaded_project_books s project s' : loaded_project s project = Ok s' -> Books s s'.
Proof.
  unfold loaded_project. destruct (is_some _); [|done]. intros. inv_ok. destruct x. inv_ok. subst.
  by eapply load_project_books.
Qed.
End Primitives.

(** ** Inverting a successful handler.
    [inv_run] opens binds, guards and error branches of the hypotheses;
    [guards] turns boolean guards into propositions. *)
Lemma ok_or_Ok {E A} (e : E) (o : option A) a : ok_or e o = Ok a <-> o = Some a.
Proof. destruct o; simpl; naive_solver. Qed.
Lemma next_Ok n m : next n = Ok m <-> m = n + 1 /\ n + 1 <= U64_MAX.
Proof. unfold next. rewrite ok_or_Ok. apply checked_add64_Some. Qed.
Lemma is_some_true {A} (o : option A) : is_some o = true <-> is_Some o.
Proof. by destruct o. Qed.
Lemma is_none_true {A} (o : option A) : is_none o = true <-> o = None.
Proof. by destruct o. Qed.
Lemma has_true {V} (m : gmap Id V) id : has m id = true <-> is_Some (m !! id).
Proof. unfold has. apply bool_decide_eq_true. Qed.
Lemma is_some_and_true {A} (f : A -> bool) o : is_some_and f o = true <-> exists a, o = Some a /\ f a = true.
Proof. destruct o; simpl; naive_solver. Qed.
Lemma alter_is_insert {A} (m : gmap Id A) (f : A -> A) id a : m !! id = Some a -> alter f id m = <[id := f a]> m.
Proof. intros Hm. apply map_eq. intros j. destruct (decide (id = j)) as [->|]; by simplify_map_eq. Qed.

Ltac inv_step :=
  match goal with
  | H : obind _ _ = Ok _ |- _ => apply obind_Ok in H as (? & ? & H)
  | H : Ok _ = Ok _ |- _ => apply (inj Ok) in H
  | H : Err _ = Ok _ |- _ => discriminate H
  | H : Panic = Ok _ |- _ => discriminate H
  | H : (_, _) = (_, _) |- _ => apply pair_eq in H as [? ?]
  | H : require _ = Ok _ |- _ => apply require_Ok in H
  | H : ok_or _ _ = Ok _ |- _ => apply ok_or_Ok in H
  | H : next _ = Ok _ |- _ => apply next_Ok in H as [? ?]
  | H : (let '(_, _) := ?p in _) = Ok _ |- _ => destruct p eqn:?
  | H : (if decide ?P then Err _ else _) = Ok _ |- _ => destruct (decide P); [discriminate H|]
  | H : (if ?b then Err _ else _) = Ok _ |- _ => destruct b eqn:?; [discriminate H|]
  | H : (if ?b then _ else Err _) = Ok _ |- _ => destruct b eqn:?; [|discriminate H]
  | H : match ?o with Some _ => _ | None => Err _ end = Ok _ |- _ => destruct o eqn:?; [|discriminate H]
  | H : match ?o with Some _ => _ | None => Panic end = Ok _ |- _ => destruct o eqn:?; [|discriminate H]
  | x : unit |- _ => destruct x
  | H : ?x = ?y |- _ => is_var x; subst x
  | H : ?x = ?y |- _ => is_var y; subst y
  end.
Ltac inv_run := repeat inv_step.
Ltac guard_step :=
  match goal with
  | H : _ && _ = true |- _ => apply andb_true_iff in H as [? ?]
  | H : negb _ = true |- _ => apply negb_true_iff in H
  | H : bool_decide _ = true |- _ => apply bool_decide_eq_true in H
  | H : bool_decide _ = false |- _ => apply bool_decide_eq_false in H
  | H : is_some _ = true |- _ => apply is_some_true in H
  | H : is_none _ = true |- _ => apply is_none_true in H
  | H : has _ _ = true |- _ => apply has_true in H
  | H : is_some_and _ _ = true |- _ => apply is_some_and_true in H as (? & ? & ?)
  | H : (_ =? _) = true |- _ => apply Z.eqb_eq in H
  | H : (_ =? _) = false |- _ => apply Z.eqb_neq in H
  | H : (_ <? _) = true |- _ => apply Z.ltb_lt in H
  | H : (_ <=? _) = true |- _ => apply Z.leb_le in H
  end.
Ltac guards := repeat guard_step.

(** The bookkeeping steps of a handler. *)
Create HintDb books.
#[export] Hint Resolve generate_books emit_books fresh_books request_books load_project_books load_conversation_books
  create_conversation_books loaded_project_books record_activity_books active_activity_books touch_books
  add_charge_books insert_request_books : books.
Ltac books_step :=
  match goal with
  | H : generate _ _ _ _ = Ok _ |- _ => apply generate_books in H
  | H : emit _ _ _ = Ok _ |- _ => apply emit_books in H
  | H : fresh _ _ = Ok _ |- _ => apply fresh_books in H
  | H : request _ _ _ _ _ _ = Ok _ |- _ => apply request_books in H
  | H : load_project _ _ = Ok (_, _) |- _ => apply load_project_books in H
  | H : load_conversation _ _ = Ok (_, _) |- _ => apply load_conversation_books in H
  | H : create_conversation _ _ _ _ = Ok _ |- _ => apply create_conversation_books in H
  | H : loaded_project _ _ = Ok _ |- _ => apply loaded_project_books in H
  end.

(** Composes the bookkeeping steps of the context. *)
Ltac books_trans :=
  repeat books_step;
  repeat match goal with
  | H1 : Books ?a ?b, H2 : Books ?b ?c |- _ =>
      let H := fresh "HB" in assert (Books a c) as H by (etrans; eassumption); clear H1 H2
  end.

(** Follows the bookkeeping steps from one state to another. *)
Ltac books_chain := repeat books_step; repeat first [reflexivity | eassumption | etrans; [eassumption|]].

Section Handlers.
Context `{Hasher, Unicode, JournalIndex}.
Implicit Types s : Replay.

(** The operation that [accept] starts, and what it does to the live state. *)
Definition accepted_operation (p : TurnAccepted) (owner : Z) (frame : Locator) : Operation :=
  mkOperation (ta_conversation p) (ta_generation p) (ta_task p) owner (ta_input_digest p) frame
    (co_notice_through (ta_composition p)) None None None [] [] response_default response_default.
Definition accepted (p : TurnAccepted) (owner : Z) (frame : Locator) s : Replay :=
  set_last_lane (Some (ta_conversation p))
    (set_active (Some (ta_operation p))
       (set_operations (<[ta_operation p := accepted_operation p owner frame]> (st_operations s)) s)).
Definition dispatched_to_turn (p : TurnAccepted) (dispatched : option (Id * QueuedInput)) s : Replay :=
  match dispatched with
  | Some (id, q) => set_order_revision (st_order_revision s + 1)
                      (with_inputs (insert id (input_set_dispatched (ta_operation p, ta_generation p) q)) s)
  | None => s
  end.
Lemma set_conversations_books m s : dom (st_conversations s) ⊆ dom m -> Books s (set_conversations m s).
Proof. intros. books. done. Qed.
Lemma set_projects_books m s : dom (st_projects s) ⊆ dom m -> Books s (set_projects m s).
Proof. intros. books. done. Qed.
Lemma dom_insert_subseteq {V} (m : gmap Id V) id v : dom m ⊆ dom (<[id := v]> m).
Proof. rewrite dom_insert_L. apply union_subseteq_r. Qed.
Lemma accept_effect s p owner kind frame s' :
  accept s p owner kind frame = Ok s' ->
  exists a s0 s2 d,
    st_active s = None /\ Books s a /\ Books a s0 /\ nonzero_id (ta_request p) = true /\
    (exists s0', fresh s0 (ta_operation p) = Ok s0') /\ Books s0 s2 /\
    ta_operation p ∈ dom (st_generated s2) /\ ta_conversation p ∈ dom (st_conversations s2) /\
    fst <$> d = qi_request <$> dispatched_input a (ta_request p) /\
    match d with
    | Some (id, q) => st_inputs s !! id = Some q /\ input_ready a (qi_request q) = true /\ st_order_revision s + 1 <= U64_MAX
    | None => True
    end /\
    Books (dispatched_to_turn p d (accepted p owner frame s2)) s'.
Proof.
  unfold accept. intros Hr. inv_res Hr.
  destruct (is_some _ && _) eqn:Hbind in Ha; [|done]. guards. inv_ok. destruct x. inv_ok. subst.
  assert (Books a r) as HBr
    by (clear -Ha4; destruct (ta_original_conversation p); inv_run; books_step; done).
  assert (nonzero_id (ta_request p) = true) as Hnz
    by (unfold request in Ha11; destruct (nonzero_id _); [done|]; inv_ok; done).
  assert (ta_operation p ∈ dom (st_generated a12)) as Hg
    by (unfold generate in Ha13; inv_ok; subst; cbn; set_solver).
  assert (Books a12 a13) as HB13 
    by (clear -Ha14; destruct (is_none (ta_original_conversation p)); [by eapply create_conversation_books|by inv_run]).
  apply ok_or_Ok in Ha15, Ha17.
  set (s2 := set_projects _ a15) in Ha18.
  pose proof (fresh_books _ _ _ Ha9) as HB8. pose proof (fresh_books _ _ _ Ha10) as HB9.
  apply request_books in Ha11. apply generate_books in Ha12. pose proof (generate_books _ _ _ _ _ Ha13) as HB12.
  apply emit_books in Ha16. apply load_project_books in H4.
  assert (Books a12 s2) as HB2.
  { etrans; [exact HB13|]. etrans; [|apply set_projects_books, dom_insert_subseteq].
    etrans; [|exact Ha16]. apply set_conversations_books, dom_insert_subseteq. }
  assert (Books a8 s2) by (etrans; [exact HB9|]; etrans; [exact Ha11|]; etrans; [exact Ha12|]; etrans; [exact HB12|done]).
  assert (ta_conversation p ∈ dom (st_conversations s2)) as Hc.
  { apply (bk_conversations _ _ HB13) || idtac. cbn. pose proof (bk_conversations _ _ Ha16) as Hd. cbn in Hd. set_solver. }
  apply (bk_generated _ _ HB2) in Hg.
  change (mkOperation _ _ _ _ _ _ _ _ _ _ _ _ _ _) with (accepted_operation p owner frame) in Ha18.
  change (set_last_lane _ _) with (accepted p owner frame s2) in Ha18.
  assert (Books s a8) by (etrans; [exact H4|]; by etrans).
  assert (exists d : option (Id * QueuedInput), fst <$> d = qi_request <$> dispatched_input a (ta_request p) /\
    match d with Some (id, q) => st_inputs s2 !! id = Some q /\ st_order_revision s2 + 1 <= U64_MAX | None => True end /\
    a17 = dispatched_to_turn p d (accepted p owner frame s2)) as (d & Hd & Hq & ->).
  { destruct (qi_request <$> _) as [id|]; [|inv_run; by exists None].
    inv_run. match goal with Hq : _ !! id = Some ?q |- _ => by exists (Some (id, q)) end. }
  exists a, a8, s2, d. repeat (split; [eauto; by etrans|]). split; [|apply record_activity_books].
  destruct d as [[id q]|]; [|done]. destruct Hq as [Hq Hord]. rewrite <- Hd in Ha0. cbn in Ha0.
  rewrite (bk_inputs _ _ H4), <- (bk_inputs s s2) in Ha0 by by etrans. rewrite Hq in Ha0. inv_run. guards.
  split; [rewrite <- Hq; f_equal; symmetry; apply bk_inputs; by etrans|]. split; [done|].
  rewrite <- (bk_order s s2) by by etrans. done.
Qed.

(** ** What no handler assigns, and what only grows. *)
Lemma op_charge_nonneg op : 0 <= op_charge op.
Proof.
  unfold op_charge, PIECE_CHARGE. pose proof (zlen_nonneg (re_pieces (op_response op))).
  pose proof (zlen_nonneg (re_pieces (op_thinking op))).
  enough (0 <= foldr (fun tool a => 1536 + zlen (to_name tool) + a) 0 (op_tools op)) by lia.
  induction (op_tools op) as [|t l IH]; cbn; [done|]. pose proof (zlen_nonneg (to_name t)). lia.
Qed.
Record Grows (s s' : Replay) : Prop := mkGrows {
  gr_installation : st_installation_id s' = st_installation_id s;
  gr_sequence : st_sequence s' = st_sequence s;
  gr_initialization : st_initialization s' = st_initialization s;
  gr_base : st_base s' = st_base s;
  gr_piece_limit : st_piece_limit s' = st_piece_limit s;
  gr_generated : dom (st_generated s) ⊆ dom (st_generated s');
  gr_entries : st_entries s ⊆ st_entries s';
  gr_projects : dom (st_projects s) ⊆ dom (st_projects s');
  gr_conversations : dom (st_conversations s) ⊆ dom (st_conversations s');
  gr_charge : st_delta_charge s <= st_delta_charge s';
}.
#[export] Instance Grows_preorder : PreOrder Grows.
Proof.
  split; [intros s; by constructor|]. intros s1 s2 s3 [] []. constructor; first [congruence | lia | by etrans].
Qed.
Lemma books_grows s s' : Books s s' -> Grows s s'.
Proof. intros []. by constructor. Qed.
Lemma grows_books s t s' : Grows s t -> Books t s' -> Grows s s'.
Proof. intros ? ?%books_grows. by etrans. Qed.
Lemma settle_input_grows s id n s' : settle_input s id n = Ok s' -> Grows s s'.
Proof. unfold settle_input. intros. inv_run. books_step. eapply grows_books; [|eassumption]. by constructor. Qed.
Lemma settle_inputs_grows ids s n s' : settle_inputs s ids n = Ok s' -> Grows s s'.
Proof.
  revert s. induction ids as [|id ids IH]; intros s; cbn; intros; inv_run; [done|].
  etrans; [by eapply settle_input_grows|]. by apply IH.
Qed.
(** An assignment to the live part. *)
Lemma grows_set s t f :
  (forall u, Grows u (f u)) -> Grows s t -> Grows s (f t).
Proof. intros Hf ?. etrans; [done|]. apply Hf. Qed.
Ltac grows_step :=
  match goal with
  | |- Grows ?s ?s => reflexivity
  | |- Grows _ (set_policy ?v ?t) => apply (grows_set _ t (set_policy v)); [by constructor|]
  | |- Grows _ (set_operations ?v ?t) => apply (grows_set _ t (set_operations v)); [by constructor|]
  | |- Grows _ (set_inputs ?v ?t) => apply (grows_set _ t (set_inputs v)); [by constructor|]
  | |- Grows _ (set_jobs ?v ?t) => apply (grows_set _ t (set_jobs v)); [by constructor|]
  | |- Grows _ (set_active ?v ?t) => apply (grows_set _ t (set_active v)); [by constructor|]
  | |- Grows _ (set_order_revision ?v ?t) => apply (grows_set _ t (set_order_revision v)); [by constructor|]
  | |- Grows _ (set_last_lane ?v ?t) => apply (grows_set _ t (set_last_lane v)); [by constructor|]
  | |- Grows _ (set_binding ?v ?t) => apply (grows_set _ t (set_binding v)); [by constructor|]
  | |- Grows _ (set_requests ?v ?t) => apply (grows_set _ t (set_requests v)); [by constructor|]
  | |- Grows _ (set_owner_generation ?v ?t) => apply (grows_set _ t (set_owner_generation v)); [by constructor|]
  | |- Grows _ (with_inputs ?v ?t) => apply (grows_set _ t (with_inputs v)); [by constructor|]
  | |- Grows _ (with_op ?i ?v ?t) => apply (grows_set _ t (with_op i v)); [by constructor|]
  | |- Grows _ (add_charge (op_charge ?o) ?t) =>
      etrans; [|apply books_grows, add_charge_books, op_charge_nonneg]
  | |- Grows _ (set_conversations ?v ?t) =>
      etrans; [|apply books_grows, set_conversations_books; rewrite ?dom_alter_L; first [apply dom_insert_subseteq | reflexivity]]
  | |- Grows _ (set_projects ?v ?t) =>
      etrans; [|apply books_grows, set_projects_books; rewrite ?dom_alter_L; first [apply dom_insert_subseteq | reflexivity]]
  | |- Grows _ (record_activity _ _ _ _) => eapply grows_books; [|apply record_activity_books]
  | |- Grows _ (active_activity _ _) => eapply grows_books; [|apply active_activity_books]
  | HB : Books _ ?x |- Grows _ ?x => eapply grows_books; [|exact HB]
  | HS : settle_input _ _ _ = Ok ?x |- Grows _ ?x => etrans; [|exact (settle_input_grows _ _ _ _ HS)]
  | HS : settle_inputs _ _ _ = Ok ?x |- Grows _ ?x => etrans; [|exact (settle_inputs_grows _ _ _ _ HS)]
  end.
Ltac grows := inv_run; repeat books_step; repeat grows_step.
Lemma accept_grows s p owner kind frame s' : accept s p owner kind frame = Ok s' -> Grows s s'.
Proof.
  intros Hr. apply accept_effect in Hr as (a & s0 & s2 & d & _ & HB1 & HB2 & _ & _ & HB3 & _ & _ & _ & _ & HB4).
  eapply grows_books; [|exact HB4]. unfold dispatched_to_turn, accepted. destruct d as [[]|]; grows.
Qed.
Lemma enqueue_entry_grows s p owner kind frame s' : enqueue_entry s p owner kind frame = Ok s' -> Grows s s'.
Proof. unfold enqueue_entry. intros. inv_run. destruct (en_new_conversation p), (en_dispatch_request p); grows. Qed.
Lemma terminal_grows s p frame s' : terminal s p frame = Ok s' -> Grows s s'.
Proof. unfold terminal. destruct (replay_terminal _ _ _ _). intros. grows. Qed.
Lemma tool_call_grows s p frame s' : tool_call s p frame = Ok s' -> Grows s s'.
Proof. unfold tool_call. destruct (replay_tool_call _ _). intros. grows. Qed.
Lemma job_intent_grows s p owner frame s' : job_intent s p owner frame = Ok s' -> Grows s s'.
Proof.
  unfold job_intent, person_job_intent. intros. inv_run. destruct (ji_origin p); [grows|].
  inv_run. destruct (person_job _ _). grows.
Qed.
Lemma job_settled_grows s p owner frame s' : job_settled s p owner frame = Ok s' -> Grows s s'.
Proof. unfold job_settled. intros. inv_run. destruct (uj_origin _); grows. Qed.
Lemma apply_input_decision_grows s p generation kind frame s' :
  apply_input_decision s p generation kind frame = Ok s' -> Grows s s'.
Proof. unfold apply_input_decision. intros. inv_run. do 2 case_decide; grows. Qed.
Lemma apply_policy_decision_grows s p n s' : apply_policy_decision s p n = Ok s' -> Grows s s'.
Proof.
  unfold apply_policy_decision. intros. destruct (decision_call p) as [[[??]?]|].
  - inv_run. destruct (replay_decision _ _). grows.
  - destruct (pd_subject p); [done|]. inv_run. destruct (replay_decision _ _). grows.
Qed.
Lemma execution_path_grows s p frame s' : execution_path s p frame = Ok s' -> Grows s s'.
Proof. unfold execution_path. intros. inv_run. destruct (ep_action p); grows; destruct j; grows. Qed.
Lemma job_retention_grows s p frame s' : job_retention s p frame = Ok s' -> Grows s s'.
Proof. unfold job_retention. intros. inv_run. destruct (jn_author p); grows. Qed.
Lemma apply_grows s record generation frame s' : apply s record generation frame = Ok s' -> Grows s s'.
Proof.
  unfold apply. intros Hr. apply obind_Ok in Hr as ([] & _ & Hr). destruct record; try done.
  all: eauto using accept_grows, terminal_grows, job_intent_grows, job_settled_grows, apply_input_decision_grows,
         apply_policy_decision_grows, execution_path_grows, job_retention_grows.
  all: unfold apply_binding, apply_owner, apply_registered, apply_alias, apply_renamed, enqueue, enqueue_person,
         apply_policy_revision, job_cancel, apply_start, apply_request_started, apply_cancel, apply_text,
         tool_result, job_result, reorder_input, apply_promoted in Hr; inv_run; eauto using enqueue_entry_grows.
  all: try (grows; done).
  - eapply grows_books; [|apply active_activity_books]. by eapply tool_call_grows.
Qed.

(** ** One frame: its guards, [apply] on the opened state, then eviction and
    the reserve. *)
Definition opened (c : FrameContext) s : Replay :=
  set_claimed ∅ (set_activity None (add_charge FRAME_CHARGE
    (set_transition_ids ({[transition_id c]} ∪ st_transition_ids s) s))).
Definition numbered (c : FrameContext) (digest : Hash) (frame : Locator) s : Replay :=
  set_last_frame frame (set_last_digest digest (set_revision (expected_revision c + 1) (set_sequence (sequence c) s))).
Lemma reserve_Ok s s' :
  reserve s = Ok s' ->
  exists bytes frames, s' = set_reserved_frames frames (set_reserved_bytes bytes s) /\ memory_charge s' <= MAX_MEMORY.
Proof.
  unfold reserve. intros Hr. apply obind_Ok in Hr as ([b0 f0] & _ & Hr). destruct (foldl _ _ _) as [b1 f1].
  inv_run. eexists _, _. split; [done|]. lia.
Qed.
Lemma evict_eq s :
  evict s = set_inputs (evict_inputs s)
    (set_conversations (evict_map cv_activity RECENT_CONVERSATIONS (pinned s).2 (st_conversations s))
       (set_projects (evict_map pj_activity RECENT_PROJECTS (pinned s).1 (st_projects s)) s)).
Proof. unfold evict. by destruct (pinned s). Qed.
Lemma apply_frame_Ok s c record digest frame s' :
  apply_frame s c record digest frame = Ok s' ->
  exists s1 bytes frames,
    sequence c = st_sequence s + 1 /\ sequence c <= U64_MAX /\ l_sequence frame = sequence c /\
    prior_digest c = st_last_digest s /\ expected_revision c = st_revision s /\
    installation_id c = st_installation_id s /\ transition_id c ∉ st_transition_ids s /\
    apply (opened c s) record (owner_generation c) frame = Ok s1 /\
    s' = set_reserved_frames frames (set_reserved_bytes bytes (evict (numbered c digest frame s1))) /\
    memory_charge s' <= MAX_MEMORY.
Proof.
  unfold apply_frame. intros Hr. inv_run. guards.
  match goal with HR : reserve _ = Ok _ |- _ => apply reserve_Ok in HR as (bytes & frames & -> & ?) end.
  match goal with HA : apply _ _ _ _ = Ok ?s1 |- _ => exists s1, bytes, frames end.
  repeat (split; [first [done | lia]|]). done.
Qed.
End Handlers.
