(* ===== verification/Delta.v ===== *)
(** * The delta as one sorted run.

    A roll writes [delta_entries] to an index run and clears the delta. The
    lookup [delta_get] never builds that list: it goes to the map of the key's
    tag. Here the two are shown equal, and a lookup before a roll equal to the
    lookup after it. *)
From Stdlib Require Import ZArith Lia String.
From stdpp Require Import prelude list gmap.
From S2P Require Import Prelude Collections PayloadId Codec Fields Envelope Index Run Policy PathGuard Types.
From S2P Require Import PolicyReplay Text Rules ReplayState Replay Effects.

(** ** Lookup in a list of entries. *)
Lemma find_key_cons key k v l : find_key key ((k, v) :: l) = if decide (k = key) then Some v else find_key key l.
Proof. unfold find_key. cbn. case_decide; [done|]. by destruct (list_find _ l) as [[]|]. Qed.
Lemma find_key_app key l1 l2 :
  find_key key (l1 ++ l2) = match find_key key l1 with Some v => Some v | None => find_key key l2 end.
Proof. induction l1 as [|[k v] l1 IH]; [done|]. cbn [app]. rewrite !find_key_cons. by case_decide. Qed.
Lemma find_key_None key l : find_key key l = None <-> key ∉ l.*1.
Proof.
  induction l as [|[k v] l IH]; [cbn; split; [intros _; apply not_elem_of_nil|done]|].
  rewrite find_key_cons. cbn. rewrite not_elem_of_cons, <- IH. case_decide; naive_solver.
Qed.
Lemma find_key_insert key x l :
  find_key key (insert_by (fun y z => match cmp z.1 y.1 with Gt => true | _ => false end) x l) = find_key key (x :: l).
Proof.
  destruct x as [k v]. induction l as [|[k' v'] l IH]; [done|]. cbn [insert_by fst].
  destruct (cmp k k') eqn:Hc; [done|done|]. rewrite find_key_cons, IH, !find_key_cons.
  case_decide as H1; [|done]. case_decide as H2; [|done]. subst. by rewrite cmp_refl in Hc.
Qed.
(** The sort is stable: the first entry of a key stays the first. *)
Lemma find_key_by_key key l : find_key key (by_key l) = find_key key l.
Proof.
  unfold by_key. induction l as [|x l IH]; [done|]. cbn [sort_by foldr]. fold (sort_by (fun a b : Key * Value => cmp a.1 b.1) l).
  rewrite find_key_insert. destruct x as [k v]. by rewrite !find_key_cons, IH.
Qed.
Lemma find_key_filter (P : Key * Value -> Prop) `{!forall x, Decision (P x)} key l :
  (forall v, P (key, v)) -> find_key key (filter P l) = find_key key l.
Proof.
  intros HP. induction l as [|[k v] l IH]; [done|]. rewrite filter_cons. case_decide as Hd; rewrite !find_key_cons, ?IH.
  - done.
  - case_decide as Hk; [|done]. subst. by destruct Hd.
Qed.
Lemma find_key_map key (m : gmap Key Value) : find_key key (btree_iter m) = m !! key.
Proof.
  unfold btree_iter. change (sort_by _ (map_to_list m)) with (by_key (map_to_list m)). rewrite find_key_by_key.
  destruct (m !! key) as [v|] eqn:Hm.
  - assert (exists w, find_key key (map_to_list m) = Some w) as [w Hw].
    { destruct (find_key _ _) eqn:Hf; [by eexists|]. apply find_key_None in Hf. destruct Hf.
      apply list_elem_of_fmap. exists (key, v). split; [done|]. by apply elem_of_map_to_list. }
    rewrite Hw. unfold find_key in Hw. apply fmap_Some in Hw as ([i [k u]] & Hf & ->).
    apply list_find_Some in Hf as (Hl & Hk & _). cbn in *. subst k.
    apply list_elem_of_lookup_2, elem_of_map_to_list in Hl. congruence.
  - apply find_key_None. intros Hin. apply list_elem_of_fmap in Hin as ([k v] & -> & Hin).
    apply elem_of_map_to_list in Hin. cbn in *. congruence.
Qed.

(** ** Encoding keeps the keys. *)
Lemma encode_all_keys l l' : encode_all l = Ok l' -> l'.*1 = l.*1.
Proof.
  revert l'. induction l as [|[k e] l IH]; intros l'; cbn; [naive_solver|]. intros. inv_run. cbn. by rewrite (IH x0).
Qed.
Lemma encode_all_app l1 l2 l' :
  encode_all (l1 ++ l2) = Ok l' <-> exists l1' l2', encode_all l1 = Ok l1' /\ encode_all l2 = Ok l2' /\ l' = l1' ++ l2'.
Proof.
  revert l'. induction l1 as [|[k e] l1 IH]; intros l'; cbn.
  - split; [intros; by eexists [], _|]. intros (? & ? & [= <-] & ? & ->). done.
  - split.
    + intros Hr. inv_res Hr. apply (inj Ok) in Hr as <-. apply IH in Ha0 as (l1' & l2' & H1 & H2 & ->).
      exists ((k, a) :: l1'), l2'. by rewrite Ha, H1.
    + intros (l1' & l2' & H1 & H2 & ->). inv_res H1. apply (inj Ok) in H1 as <-. rewrite Ha. cbn.
      rewrite (proj2 (IH (a0 ++ l2'))); [done|]. by eexists _, _.
Qed.

(** ** The delta of one tag. *)
Section Tags.
Implicit Types s : Replay.
(** The tags whose entries come from maps other than [entries]. *)
Definition derived_tag (tag : Tag) : bool :=
  match tag with TRequest | TGenerated | TOperation | TPiece | TThinking | TCall | TTurn => true | _ => false end.
Lemma operation_items_tag tag id op k e : (k, e) ∈ operation_items tag id op -> k_tag k = tag.
Proof.
  unfold operation_items, piece_items. destruct (op_terminal op); [|by intros ?%elem_of_nil].
  assert (forall i tools, (k, e) ∈ call_items id i tools -> k_tag k = TCall) as Hcall.
  { intros i tools. revert i. induction tools as [|tool tools IH]; intros i; cbn; [by intros ?%elem_of_nil|].
    rewrite elem_of_cons. intros [[= -> _]|Hin]; [done|by eapply IH]. }
  destruct tag; try (by intros ?%elem_of_nil);
    try (rewrite list_elem_of_singleton; by intros [= -> _]);
    try (rewrite list_elem_of_fmap; intros (? & [= -> _] & _); done).
  by apply Hcall.
Qed.
Lemma operation_entries_tag m tag k e : (k, e) ∈ operation_entries m tag -> k_tag k = tag.
Proof.
  unfold operation_entries. rewrite list_elem_of_In, in_concat. intros (l & Hl & Hk).
  apply list_elem_of_In, list_elem_of_fmap in Hl as ([id op] & -> & _). apply list_elem_of_In in Hk.
  by eapply operation_items_tag.
Qed.
Lemma encode_all_tag l l' tag :
  encode_all l = Ok l' -> (forall k e, (k, e) ∈ l -> k_tag k = tag) -> forall k, k ∈ l'.*1 -> k_tag k = tag.
Proof.
  intros He Ht k Hk. rewrite (encode_all_keys _ _ He) in Hk. apply list_elem_of_fmap in Hk as ([k' e] & -> & Hk). by eapply Ht.
Qed.
Lemma by_key_keys l k : k ∈ (by_key l).*1 <-> k ∈ l.*1.
Proof. unfold by_key. by rewrite sort_by_perm. Qed.
(** The keys between the first and the last key of a tag carry the tag. *)
Lemma key_between tag k : geb k (key_first tag) = true -> geb (key_last tag) k = true -> k_tag k = tag.
Proof.
  rewrite !geb_true. intros H1 H2.
  assert (forall a b : Key, a ≺ b -> tag_byte (k_tag a) <= tag_byte (k_tag b)) as Hle.
  { intros a b Hab. unfold cmp, key_cmp in Hab. apply cmp_then_Lt in Hab as [Hab|[Hab _]].
    - apply Z.lt_le_incl. by apply Z.compare_lt_iff.
    - apply cmp_eq in Hab as ->. lia. }
  assert (tag_byte tag <= tag_byte (k_tag k)) by (destruct H1 as [->|H1%Hle]; [done|by cbn in H1]).
  assert (tag_byte (k_tag k) <= tag_byte tag) by (destruct H2 as [<-|H2%Hle]; [done|by cbn in H2]).
  apply (cmp_eq (k_tag k) tag). apply Z.compare_eq_iff. lia.
Qed.
Lemma delta_tag_tag s tag l k : delta_tag s tag = Ok l -> k ∈ l.*1 -> k_tag k = tag.
Proof.
  unfold delta_tag. intros Hl Hk. inv_res Hl. apply (inj Ok) in Hl as <-. rewrite by_key_keys in Hk.
  destruct tag;
    try (eapply encode_all_tag in Hk; [exact Hk|exact Ha|intros ? ?; apply operation_entries_tag]);
    try (eapply encode_all_tag in Hk; [exact Hk|exact Ha|intros ? ? Hin]; unfold request_items, generated_items in Hin;
         apply list_elem_of_fmap in Hin as (? & [= -> _] & _); done);
    try (apply (inj Ok) in Ha as <-; apply list_elem_of_fmap in Hk as ([k' v] & -> & Hk);
         apply list_elem_of_filter in Hk as [[??] _]; by apply key_between).
Qed.
Lemma tag_all_full tag : tag ∈ tag_all.
Proof. by destruct tag; apply (bool_decide_unpack _); vm_compute. Qed.
Lemma tag_all_nodup : NoDup tag_all.
Proof. by_decide. Qed.
Lemma collect_missing s tags l key :
  collect (delta_tag s) tags = Ok l -> k_tag key ∉ tags -> find_key key l = None.
Proof.
  revert l. induction tags as [|tag tags IH]; intros l Hl Hk; cbn in Hl; [by inv_run|].
  rewrite not_elem_of_cons in Hk. destruct Hk as [Hne Hk]. inv_res Hl. apply (inj Ok) in Hl as <-.
  rewrite find_key_app, (IH a0 Ha0 Hk). enough (find_key key a = None) as -> by done.
  apply find_key_None. intros Hin. by apply Hne, (delta_tag_tag s tag a).
Qed.
Lemma collect_tag s tags l key :
  collect (delta_tag s) tags = Ok l -> k_tag key ∈ tags -> NoDup tags ->
  exists lt, delta_tag s (k_tag key) = Ok lt /\ find_key key l = find_key key lt.
Proof.
  revert l. induction tags as [|tag tags IH]; intros l Hl Hk Hn; cbn in Hl; [by apply elem_of_nil in Hk|].
  apply NoDup_cons in Hn as [Hn1 Hn2]. inv_res Hl. apply (inj Ok) in Hl as <-. rewrite find_key_app.
  apply elem_of_cons in Hk as [<-|Hk].
  - exists a. split; [done|]. rewrite (collect_missing s tags a0 key) by done. by destruct (find_key key a).
  - destruct (IH a0 Ha0 Hk Hn2) as (lt & Hlt & Hf). exists lt. split; [done|]. rewrite Hf.
    enough (find_key key a = None) as -> by done. apply find_key_None. intros Hin.
    pose proof (delta_tag_tag s tag a _ Ha Hin) as E. by rewrite E in Hk.
Qed.

(** The entries of one operation. *)
Definition own_tag (tag : Tag) : bool := match tag with TOperation | TPiece | TThinking | TCall => true | _ => false end.
Lemma operation_items_id tag id op k e : own_tag tag = true -> (k, e) ∈ operation_items tag id op -> k_id k = id.
Proof.
  unfold operation_items, piece_items. destruct (op_terminal op); [|by intros _ ?%elem_of_nil].
  assert (forall i tools, (k, e) ∈ call_items id i tools -> k_id k = id) as Hcall.
  { intros i tools. revert i. induction tools as [|tool tools IH]; intros i; cbn; [by intros ?%elem_of_nil|].
    rewrite elem_of_cons. intros [[= -> _]|Hin]; [done|by eapply IH]. }
  destruct tag; try done; intros _;
    try (rewrite list_elem_of_singleton; by intros [= -> _]);
    try (rewrite list_elem_of_fmap; intros (? & [= -> _] & _); done).
  by apply Hcall.
Qed.
Definition items_of (tag : Tag) (l : list (Id * Operation)) : list (Key * Entry) :=
  concat ((fun io => operation_items tag io.1 io.2) <$> l).
Lemma items_missing tag l out key :
  own_tag tag = true -> encode_all (items_of tag l) = Ok out -> k_id key ∉ l.*1 -> find_key key out = None.
Proof.
  intros Ht He Hk. apply find_key_None. rewrite (encode_all_keys _ _ He). intros Hin.
  apply list_elem_of_fmap in Hin as ([k e] & -> & Hin). unfold items_of in Hin.
  rewrite list_elem_of_In, in_concat in Hin. destruct Hin as (x & Hx & Hin).
  apply list_elem_of_In, list_elem_of_fmap in Hx as ([id op] & -> & Hx). apply list_elem_of_In in Hin. cbn in *.
  apply Hk. rewrite (operation_items_id _ _ _ _ _ Ht Hin). by apply (list_elem_of_fmap_2 fst) in Hx.
Qed.
Lemma items_own tag l out key op :
  own_tag tag = true -> NoDup l.*1 -> (k_id key, op) ∈ l -> encode_all (items_of tag l) = Ok out ->
  exists own, encode_all (operation_items tag (k_id key) op) = Ok own /\ find_key key out = find_key key own.
Proof.
  intros Ht. revert out. induction l as [|[id op'] l IH]; intros out Hn Hin He; [by apply elem_of_nil in Hin|].
  cbn in Hn. apply NoDup_cons in Hn as [Hn1 Hn2]. unfold items_of in He. cbn in He.
  apply encode_all_app in He as (o1 & o2 & H1 & H2 & ->). rewrite find_key_app. apply elem_of_cons in Hin as [[= <- <-]|Hin].
  - exists o1. split; [done|]. rewrite (items_missing tag l o2 key Ht H2) by done. by destruct (find_key key o1).
  - destruct (IH o2 Hn2 Hin H2) as (own & Ho & ->). exists own. split; [done|].
    enough (find_key key o1 = None) as -> by done. apply find_key_None. rewrite (encode_all_keys _ _ H1). intros Hk.
    apply list_elem_of_fmap in Hk as ([k e] & -> & Hk). cbn in Hk. apply (operation_items_id _ _ _ _ _ Ht) in Hk. subst.
    apply Hn1. by apply (list_elem_of_fmap_2 fst) in Hin.
Qed.

(** Keys with a 16-byte identifier lie between the bounds of their tag. *)
Lemma pointwise_not_lt (l k : list Z) : Forall2 Z.le k l -> ltb l k = false.
Proof.
  induction 1 as [|x y k l Hxy Hf IH]; [done|]. unfold ltb, cmp, list_Cmp. cbn. unfold cmp, Z_cmp at 1.
  destruct (Z.compare_spec y x); cbn; [exact IH|lia|done].
Qed.
Lemma id_bounds id : Id_ok id -> ltb id (zeros 16) = false /\ ltb (replicate 16 0xff) id = false.
Proof.
  intros [Hl Hb]. unfold zlen in Hl. assert (length id = 16%nat) as Hlen by lia.
  assert (forall (x : Z) (n : nat) l, length l = n -> Forall (fun b => x <= b) l -> Forall2 Z.le (replicate n x) l) as Hlo.
  { intros x n l <- Hf. induction Hf; cbn; constructor; auto. }
  assert (forall (x : Z) (n : nat) l, length l = n -> Forall (fun b => b <= x) l -> Forall2 Z.le l (replicate n x)) as Hhi.
  { intros x n l <- Hf. induction Hf; cbn; constructor; auto. }
  change (zeros 16) with (replicate 16 0). split; apply pointwise_not_lt.
  - apply Hlo; [done|]. eapply Forall_impl; [exact Hb|]. intros b; unfold uint; lia.
  - apply Hhi; [done|]. eapply Forall_impl; [exact Hb|]. intros b; unfold uint; lia.
Qed.
Lemma key_in_bounds key : key_ok key -> geb key (key_first (k_tag key)) = true /\ geb (key_last (k_tag key)) key = true.
Proof.
  intros [Hid Hd]. destruct (id_bounds _ Hid) as [H1 H2]. destruct key as [tag id disc]. cbn [k_id k_disc k_tag] in *.
  unfold key_first, key_last. generalize dependent (replicate 16 0xff). generalize dependent (zeros 16). intros lo H1 hi H2.
  unfold geb. unfold uint in Hd. split; apply negb_true_iff; unfold ltb, cmp, key_cmp; cbn [k_id k_disc k_tag]; rewrite cmp_refl; cbn [cmp_then].
  - unfold ltb in H1. destruct (cmp id lo); [cbn|done|done]. unfold cmp, Z_cmp. destruct (Z.compare_spec disc 0); [done|lia|done].
  - unfold ltb in H2. destruct (cmp hi id); [cbn|done|done]. unfold cmp, Z_cmp, U64_MAX.
    destruct (Z.compare_spec (2 ^ 64 - 1) disc); [done|lia|done].
Qed.

Lemma delta_get_find s key l : key_ok key -> delta_entries s = Ok l -> delta_get s key = Ok (find_key key l).
Proof.
  intros Hk Hl. destruct (collect_tag s tag_all l key Hl (tag_all_full _) tag_all_nodup) as (lt & Hlt & ->).
  unfold delta_get. destruct (derived_tag (k_tag key)) eqn:Hd.
  - destruct (own_tag (k_tag key)) eqn:Ho.
    2: destruct (k_tag key); try done; by rewrite Hlt.
    assert (exists out, encode_all (items_of (k_tag key) (btree_iter (st_operations s))) = Ok out /\
      find_key key lt = find_key key out) as (out & Hout & ->).
    { unfold delta_tag in Hlt. inv_res Hlt. apply (inj Ok) in Hlt as <-. exists a. rewrite find_key_by_key.
      split; [|done]. by destruct (k_tag key). }
    replace (match k_tag key with TOperation | _ => _ end) with
      (match st_operations s !! k_id key with
       | Some op => if decide (op_terminal op = None) then Ok None else
                    let? l := encode_all (operation_entries {[k_id key := op]} (k_tag key)) in Ok (find_key key l)
       | None => Ok None
       end) by (by destruct (k_tag key)).
    pose proof (btree_iter_nodup (st_operations s)) as Hn.
    destruct (st_operations s !! k_id key) as [op|] eqn:Hop.
    + apply btree_iter_elem in Hop. destruct (items_own _ _ _ _ _ Ho Hn Hop Hout) as (own & Hown & ->).
      case_decide as Hterm; [unfold operation_items in Hown; rewrite Hterm in Hown; cbn in Hown; by injection Hown as <-|].
      unfold operation_entries, btree_iter. rewrite map_to_list_singleton. cbn. rewrite app_nil_r. cbn in Hown. by rewrite Hown.
    + rewrite (items_missing _ _ _ _ Ho Hout); [done|]. intros Hin%btree_keys_elem. rewrite Hop in Hin. by destruct Hin.
  - rewrite <- find_key_map. unfold delta_tag in Hlt. destruct (k_tag key) eqn:Ht; try done;
      cbn in Hlt; apply (inj Ok) in Hlt as <-; rewrite find_key_by_key, find_key_filter; try done;
      intros v; cbn [fst]; rewrite <- Ht; by apply key_in_bounds.
Qed.

(** ** Clearing the delta. *)
Definition active_open s : Prop :=
  forall id op, st_active s = Some id -> st_operations s !! id = Some op -> op_terminal op = None.
Lemma items_open tag l : Forall (fun io : Id * Operation => op_terminal io.2 = None) l -> items_of tag l = [].
Proof.
  unfold items_of. induction 1 as [|[id op] l Ho Hl IH]; [done|]. cbn in *. rewrite IH. unfold operation_items. by rewrite Ho.
Qed.
Lemma clear_delta_open s : active_open s ->
  Forall (fun io : Id * Operation => op_terminal io.2 = None) (btree_iter (st_operations (clear_delta s))).
Proof.
  intros Ha. apply Forall_forall. intros [id op] Hin%btree_iter_elem. cbn in *.
  apply map_lookup_filter_Some in Hin as [Hop Hact]. by eapply Ha.
Qed.
Lemma delta_get_clear s key : active_open s -> delta_get (clear_delta s) key = Ok None.
Proof.
  intros Ha. pose proof (clear_delta_open s Ha) as Ho. unfold delta_get.
  assert (forall tag, operation_entries (st_operations (clear_delta s)) tag = []) as He by (intros tag; by apply items_open).
  destruct (k_tag key) eqn:Ht; try (cbn; apply lookup_empty).
  all: try (unfold delta_tag; rewrite ?He; done).
  all: destruct (st_operations (clear_delta s) !! k_id key) as [op|] eqn:Hop; [|done];
    apply btree_iter_elem in Hop; rewrite Forall_forall in Ho; specialize (Ho _ Hop); cbn in Ho; by rewrite decide_True.
Qed.

(** Every identifier the delta generated is an entry of it. *)
Lemma generated_keys s l id :
  delta_tag s TGenerated = Ok l -> mkKey TGenerated id 0 ∈ l.*1 <-> is_Some (st_generated s !! id).
Proof.
  unfold delta_tag. intros Hl. inv_res Hl. apply (inj Ok) in Hl as <-. rewrite by_key_keys, (encode_all_keys _ _ Ha).
  rewrite <- btree_keys_elem. unfold generated_items, btree_keys. rewrite !list_elem_of_fmap. split.
  - intros ([k e] & E & Hk). cbn in E. apply list_elem_of_fmap in Hk as (ig & [= Ek _] & Hk). exists ig. split; [congruence|done].
  - intros (ig & -> & Hk). eexists. split; [|by apply list_elem_of_fmap; exists ig]. done.
Qed.
Lemma generated_in_delta s l id :
  delta_entries s = Ok l -> is_Some (st_generated s !! id) -> mkKey TGenerated id 0 ∈ l.*1.
Proof.
  intros Hl Hi. destruct (collect_tag s tag_all l (mkKey TGenerated id 0) Hl (tag_all_full _) tag_all_nodup) as (lt & Hlt & E).
  apply (generated_keys s lt id Hlt) in Hi. destruct (decide (mkKey TGenerated id 0 ∈ l.*1)) as [|Hn]; [done|].
  apply find_key_None in Hn. rewrite E in Hn. by apply find_key_None in Hn.
Qed.

(** The rolled index answers from the new run first. Entries of segment files
    are the journal driver's; replay looks none of them up. *)
Definition rolled (ix : JournalIndex) s (ix' : JournalIndex) : Prop :=
  exists l, delta_entries s = Ok l /\
  forall key, k_tag key <> TSegment -> @ix_get ix' key = match find_key key l with Some v => Ok (Some v) | None => @ix_get ix key end.
Lemma rolled_get ix s ix' key :
  key_ok key -> k_tag key <> TSegment -> active_open s -> rolled ix s ix' -> @get ix' (clear_delta s) key = @get ix s key.
Proof.
  intros Hk Ht Ha (l & Hl & Hix). unfold get. rewrite (delta_get_clear s key Ha), (delta_get_find s key l Hk Hl). cbn.
  rewrite Hix by done. by destruct (find_key key l).
Qed.
End Tags.
