(* ===== verification/Reach.v ===== *)
(** * Reachable states of replay.

    [reached ix s]: replay arrives at [s] with the index [ix], from the first
    frame by frames and rolls. [apply_frames] replays a list of frames. *)
From Stdlib Require Import ZArith Lia String.
From stdpp Require Import prelude list gmap.
From S2P Require Import Prelude Collections PayloadId Codec Fields Envelope Index Run Policy PathGuard Types.
From S2P Require Import PolicyReplay Text Rules ReplayState Replay Effects Delta.

Section Reach.
Context `{Hasher, Unicode}.
(** The [u64] offsets of the text records. *)
Definition offsets_ok (record : JournalRecord) : Prop :=
  match record with
  | RResponseText p | RThinkingText p => 0 <= rt_offset p
  | RTurnTerminal p => 0 <= tt_text_offset p
  | _ => True
  end.
Inductive reached : JournalIndex -> Replay -> Prop :=
| reached_genesis (ix : JournalIndex) c p digest frame s :
    apply_next None c (RPendingInit p) digest frame = Ok s -> reached ix s
| reached_frame (ix : JournalIndex) s c record digest frame s' :
    reached ix s -> offsets_ok record -> apply_next (Some s) c record digest frame = Ok s' -> reached ix s'
| reached_roll (ix ix' : JournalIndex) s : reached ix s -> rolled ix s ix' -> reached ix' (clear_delta s).

Lemma genesis_state (ix : JournalIndex) c p digest frame s :
  apply_next None c (RPendingInit p) digest frame = Ok s ->
  st_operations s = ∅ /\ st_active s = None /\ st_inputs s = ∅ /\ st_jobs s = ∅ /\ st_policy s = replay_default /\
  st_sequence s = 1 /\ st_last_digest s = digest /\ st_installation_id s = installation_id c /\ st_entries s = ∅ /\
  st_piece_limit s = MAX_RESPONSE_PIECES /\ st_owner_generation s = 1 /\ sequence c = 1 /\ prior_digest c = zeros 32 /\
  memory_charge s <= MAX_MEMORY.
Proof.
  unfold apply_next, genesis. intros. inv_run. guards.
  match goal with HR : reserve _ = Ok _ |- _ => apply reserve_Ok in HR as (? & ? & -> & ?) end.
  unfold generate in *. inv_run. cbn. repeat (split; [done|]). done.
Qed.

(** A frame with what replay needs of it. *)
Record JournalFrame : Type := mkFrame {
  fr_context : FrameContext; fr_record : JournalRecord; fr_digest : Hash; fr_locator : Locator;
}.
Fixpoint apply_frames `{JournalIndex} (state : option Replay) (l : list JournalFrame) : Result (option Replay) :=
  match l with
  | [] => Ok state
  | f :: l =>
      let? s := apply_next state (fr_context f) (fr_record f) (fr_digest f) (fr_locator f) in
      apply_frames (Some s) l
  end.
Lemma apply_frames_snoc `{JournalIndex} state l f :
  apply_frames state (l ++ [f]) =
  let? s := apply_frames state l in
  let? s := apply_next s (fr_context f) (fr_record f) (fr_digest f) (fr_locator f) in Ok (Some s).
Proof.
  revert state. induction l as [|g l IH]; intros state; cbn; [done|].
  destruct (apply_next _ _ _ _ _); cbn; [apply IH|done|done].
Qed.
Lemma apply_frames_reached (ix : JournalIndex) l s :
  Forall (fun f => offsets_ok (fr_record f)) l -> apply_frames None l = Ok (Some s) -> reached ix s.
Proof.
  revert s. induction l as [|f l IH] using rev_ind; intros s Hw Hs; [done|].
  apply Forall_app in Hw as [Hw Hf]. rewrite Forall_singleton in Hf. rewrite apply_frames_snoc in Hs.
  inv_res Hs. injection Hs as <-. destruct a as [s0|].
  - eapply reached_frame; [by apply IH|exact Hf|exact Ha0].
  - destruct (fr_record f) eqn:E; try done. by eapply reached_genesis.
Qed.
End Reach.

(** An identifier that was issued is never fresh again. *)
Section Issued.
Context `{Hasher, Unicode, JournalIndex}.
Implicit Types s : Replay.
Definition issued s (id : Id) : Prop :=
  is_Some (st_generated s !! id) \/ ix_get (mkKey TGenerated id 0) <> Ok None.
Lemma fresh_not_issued s id s' : fresh s id = Ok s' -> ~ issued s id.
Proof.
  unfold fresh. intros Hf. inv_res Hf. clear Ha Ha1 Ha2 Hf. unfold absent in Ha0. inv_res Ha0.
  apply require_Ok, is_none_true in Ha0 as ->. unfold get in Ha. inv_res Ha. unfold delta_get in Ha0. cbn [k_tag] in Ha0.
  inv_res Ha0. match type of Ha with match ?o with _ => _ end = _ => destruct o; [done|] end.
  apply (inj Ok), find_key_None in Ha0. intros [Hi|Hi]; [|done]. by apply Ha0, (generated_keys _ _ _ Ha1).
Qed.
Lemma books_issued s s' id : Books s s' -> issued s id -> issued s' id.
Proof.
  intros HB [Hi|Hi]; [left|by right]. apply elem_of_dom. apply (bk_generated _ _ HB). by apply elem_of_dom.
Qed.
End Issued.
