(* ===== verification/ReplayDemo.v ===== *)
(** * A small journal, replayed.

    Seventeen frames: initialisation, a project, a turn with one tool call and
    text, two inputs queued behind it and reordered, the turn cancelled,
    the first input of the lane dispatched and the other one held, then dropped. The theorems on replay are
    evaluated on its states. *)
From Stdlib Require Import ZArith Lia String.
From stdpp Require Import prelude list gmap.
From S2P Require Import Prelude Collections PayloadId Codec Fields Envelope Index Run Policy PathGuard Types.
From S2P Require Import PolicyReplay Text Rules ReplayState Replay Effects Delta Reach.

Module ReplayDemo.
#[export] Instance hasher : Hasher := poly_hasher.
#[export] Instance unicode : Unicode := ascii_unicode.
(** An index without runs. *)
#[export] Instance no_runs : JournalIndex := {|
  ix_get := fun _ => Ok None;
  ix_range := fun _ _ _ _ => Ok [];
  ix_frame := fun _ => Err Corrupt;
  ix_frame_owner := fun _ => Err Corrupt;
  ix_frame_command := fun _ => Err Corrupt;
|}.
Definition id (n : Z) : Id := zeros 15 ++ [n].
Definition digest (n : Z) : Hash := zeros 31 ++ [n].
Definition request_hash (q : Request) : Hash := match request_digest q with Ok d => d | _ => [] end.
Definition frame (n : Z) (record : JournalRecord) : JournalFrame :=
  mkFrame (mkContext (id 1) (id (100 + n)) n (digest (n - 1)) (n - 1) 1) record (digest n) (mkLocator n 1 (1000 * n) 300).
Definition init : PendingInit := mkInit (id 2) (request_hash (QInitialize 1)) 1 1 (digest 50) (id 3).
Definition composition : Composition := mkComposition 0 (digest 51) 1 1 1 1 1 0 0 0.
Definition turn_record (request : Id) (original : option Id) (expected generation : Z) (task operation : Id) : TurnAccepted :=
  mkAccepted request (request_hash (QSubmit (id 5) original expected (lit "hello"))) (id 5) original expected (id 7) generation
    task operation (lit "model") (digest 52) (digest 53) (digest 54) [] (lit "hello") 1 composition 0 0.
Definition queued (request input dispatch : Id) (order : Z) : InputQueued :=
  mkQueued request (request_hash (QQueueInput (id 5) (Some (id 7)) 1 false (lit "next"))) input dispatch (id 5) (id 7) 1 false
    (lit "next") order.
Definition call : ToolCall :=
  mkToolCall (id 9) 1 1 GeneratedContent (lit "project") 7 (Some ReadFile) TRun None None Verbatim 2 (lit "{}") [] 0 1
    (digest 60) false false None None.
Definition reorder : InputReordered :=
  mkReordered (id 17) (request_hash (QReorderInput (id 15) None 2)) (id 15) None 2 3.
Definition decision_record (request : Id) (action : InputAction) : InputDecision :=
  mkInputDecision request (request_hash (QInputDecision (id 12) action)) (id 12) action.
Definition cancelled : TurnTerminal := mkTerminal (id 9) 1 TCancelled UserCancel U64_MAX false 0 2 [].
Definition records : list JournalRecord :=
  [ RPendingInit init;
    RActiveBinding (mkBinding (id 2) 1 (id 3) (digest 50));
    RProjectRegistered (mkRegistered (id 4) (request_hash (QRegister (lit "/w"))) (id 5) (lit "/w") 1 2 1 1);
    RTurnAccepted (turn_record (id 6) None 0 1 (id 8) (id 9));
    RStartAuthorized (mkStart (id 9) 1 (id 10) (digest 54));
    RToolCall call;
    RToolResult (mkToolResult (id 9) 1 1 1 (lit "text") (Some 4) false);
    RResponseText (mkResponseText (id 9) 1 0 (lit "hi"));
    RInputQueued (queued (id 11) (id 12) (id 13) 1);
    RInputQueued (queued (id 14) (id 15) (id 16) 2);
    RInputReordered reorder;
    RCancelRequested (mkCancel (id 9) 1 UserCancel);
    RTurnTerminal cancelled;
    RTurnAccepted (turn_record (id 16) (Some (id 7)) 1 2 (id 18) (id 19));
    RInputDecision (decision_record (id 20) AHold);
    RInputDecision (decision_record (id 21) ADrop);
    RStartAuthorized (mkStart (id 19) 2 (id 22) (digest 54)) ].
Fixpoint number (n : Z) (l : list JournalRecord) : list JournalFrame :=
  match l with [] => [] | r :: l => frame n r :: number (n + 1) l end.
Definition journal : list JournalFrame := number 1 records.
(** The state after [n] frames. *)
Definition state (n : nat) : Replay :=
  match apply_frames None (take n journal) with Ok (Some s) => s | _ => empty_state [] init end.
(** Every prefix of the journal replays. *)
Definition replays (n : nat) : bool := match apply_frames None (take n journal) with Ok (Some _) => true | _ => false end.
Lemma state_ok n : replays n = true -> apply_frames None (take n journal) = Ok (Some (state n)).
Proof. unfold replays, state. by destruct (apply_frames _ _) as [[s|]| |]. Qed.
Lemma journal_offsets n : Forall (fun f => offsets_ok (fr_record f)) (take n journal).
Proof.
  apply Forall_take. unfold journal, records. cbn [number]. repeat constructor; cbn; lia.
Qed.
Lemma state_reached n : replays n = true -> reached no_runs (state n).
Proof. intros Hn. eapply apply_frames_reached; [apply (journal_offsets n)|]. by apply state_ok. Qed.
Lemma state_step n : replays n = true -> replays (S n) = true -> (S n <= length journal)%nat ->
  exists f, journal !! n = Some f /\
    apply_next (Some (state n)) (fr_context f) (fr_record f) (fr_digest f) (fr_locator f) = Ok (state (S n)).
Proof.
  intros H1%state_ok H2%state_ok Hl. destruct (lookup_lt_is_Some_2 journal n) as [f Hf]; [lia|]. exists f. split; [done|].
  rewrite (take_S_r _ _ _ Hf), apply_frames_snoc, H1 in H2. cbn [obind] in H2.
  apply obind_Ok in H2 as (s & Hs & H2). rewrite Hs. apply (inj Ok), (inj Some) in H2. by rewrite H2.
Qed.
(** The journal up to the cancelled turn, then an input for a new conversation. *)
Definition branch : list JournalFrame :=
  take 13 journal ++ [frame 14 (RInputQueued (mkQueued (id 24) (request_hash (QQueueInput (id 5) None 0 true (lit "next")))
    (id 25) (id 26) (id 5) (id 23) 0 true (lit "next") 4))].
Definition two_lanes : Replay := match apply_frames None branch with Ok (Some s) => s | _ => empty_state [] init end.
Lemma two_lanes_reached : reached no_runs two_lanes.
Proof.
  apply (apply_frames_reached no_runs branch).
  - apply Forall_app. split; [apply journal_offsets|]. by repeat constructor.
  - assert (match apply_frames None branch with Ok (Some _) => true | _ => false end = true) as Hb by (vm_compute; reflexivity).
    unfold two_lanes. by destruct (apply_frames None branch) as [[s|]| |].
Qed.
(** The frame after [n] frames, with what the theorems ask of it. *)
Lemma demo_frame n : replays n && replays (S n) && (S n <=? length journal)%nat = true ->
  exists f, journal !! n = Some f /\ reached no_runs (state n) /\ offsets_ok (fr_record f) /\
    apply_next (Some (state n)) (fr_context f) (fr_record f) (fr_digest f) (fr_locator f) = Ok (state (S n)).
Proof.
  intros H. guards. match goal with H : (_ <=? _)%nat = true |- _ => apply Nat.leb_le in H end.
  destruct (state_step n) as (f & Hf & Hs); [done..|]. exists f. split; [done|]. split; [by apply state_reached|].
  split; [|done]. pose proof (journal_offsets 17) as Ho. rewrite firstn_all2 in Ho by (cbn; lia).
  by eapply (Forall_lookup_1 _ _ _ _ Ho).
Qed.
(** A computed success. *)
Definition is_ok {A} (c : Result A) : bool := match c with Ok _ => true | _ => false end.
Lemma demo_ok {A} (c : Result A) : is_ok c = true -> exists a, c = Ok a.
Proof. destruct c; [eauto|done..]. Qed.
(** A looked-up value with a computed property. *)
Lemma demo_lookup {V} (m : gmap Id V) i (f : V -> bool) : is_some_and f (m !! i) = true -> exists v, m !! i = Some v /\ f v = true.
Proof. intros (v & ? & ?)%is_some_and_true. eauto. Qed.
End ReplayDemo.
