(* ===== verification/Turns.v ===== *)
(** * The turn machine: what replay does to operations.

    [op_step] is the life of one operation, one constructor per record kind
    that touches it; [turn_step] is the life of the table of operations with
    the one that is active. [apply_turn] shows that [Replay::apply] makes
    exactly one such step per frame, so what holds of [turn_step] by rule
    induction holds of every journal that replays. *)
From Stdlib Require Import ZArith Lia String.
From stdpp Require Import prelude list gmap sorting.
From S2P Require Import Prelude Collections PayloadId Codec Fields Envelope Index Run Policy PathGuard Types.
From S2P Require Import PolicyReplay Text Rules ReplayState Replay Effects Delta Reach ReplayDemo.

(** ** The life of a tool call: its follow-up record, then its one result. *)
Inductive tool_step : ToolRecord -> ToolRecord -> Prop :=
| tool_step_result t operation p frame :
    unresolved t = true -> to_tool_operation t = Some operation -> op_job_result operation = false ->
    tool_step t (apply_result_projection t operation p frame)
| tool_step_job_result t operation p frame :
    unresolved t = true -> to_tool_operation t = Some operation -> op_job_result operation = true ->
    tool_step t (tool_update t (Some (jr_status p)) (Some frame) (to_result_bytes t) (to_preview t) (to_truncated t)
                   (to_exec_cmd t) (Some p) (to_note t))
| tool_step_note t job frame :
    unresolved t = true -> to_tool_operation t = Some JobNote -> to_note t = None ->
    tool_step t (tool_update t (to_result_status t) (to_result_frame t) (to_result_bytes t) (to_preview t) (to_truncated t)
                   (to_exec_cmd t) (to_job_result t) (Some (job, frame)))
| tool_step_intent t e frame payloads :
    unresolved t = true -> to_tool_operation t = Some ExecCmd -> to_exec_cmd t = Some e -> ec_job_intent e = None ->
    tool_step t (tool_update t (to_result_status t) (to_result_frame t) (to_result_bytes t) (to_preview t) (to_truncated t)
                   (Some (exec_set_intent frame payloads e)) (to_job_result t) (to_note t)).

(** ** The life of an operation under the owner generation [owner]. *)
Definition all_resolved (op : Operation) : Prop := Forall (fun t => unresolved t = false) (op_tools op).
Definition end_allowed (owner : Z) (op : Operation) (response : Response) (kind : TerminalKind) (cause : Cause) : Prop :=
  match kind with
  | Complete => is_Some (op_helper op) /\ all_resolved op /\ op_cancel op = None /\ cause = CNone /\ 0 < re_len response /\
                op_owner_generation op = owner
  | Interrupted => cause = Restart /\ op_owner_generation op < owner
  | TCancelled => op_cancel op = Some cause /\ op_owner_generation op = owner
  | Failed => cause <> CNone /\ cause <> Restart /\ op_owner_generation op = owner
  end.
Inductive op_step (owner limit : Z) : Operation -> Operation -> Prop :=
| op_step_start op helper :
    op_terminal op = None -> op_owner_generation op = owner -> op_helper op = None -> op_cancel op = None ->
    op_step owner limit op (op_set_helper helper (op_request_starts op ++ [zlen (op_tools op)]) op)
| op_step_request op previous :
    op_terminal op = None -> op_owner_generation op = owner -> is_Some (op_helper op) -> op_cancel op = None ->
    all_resolved op -> last (op_request_starts op) = Some previous -> previous < zlen (op_tools op) ->
    op_step owner limit op (op_set_starts (op_request_starts op ++ [zlen (op_tools op)]) op)
| op_step_cancel op cause :
    op_terminal op = None -> op_cancel op = None -> cause <> CNone -> cause <> Restart ->
    op_step owner limit op (op_set_cancel cause op)
| op_step_call op t :
    op_terminal op = None -> op_owner_generation op = owner -> is_Some (op_helper op) -> all_resolved op ->
    to_result_frame t = None -> (op_cancel op = None \/ to_decision t = TdCancelled) ->
    op_step owner limit op (op_set_tools (op_tools op ++ [t]) op)
| op_step_tool op t t' :
    op_terminal op = None -> last (op_tools op) = Some t -> tool_step t t' ->
    (op_owner_generation op = owner \/ is_Some (to_create t)) ->
    op_step owner limit op (op_set_tools (set_last t' (op_tools op)) op)
| op_step_text (thinking : bool) op offset appended frame text :
    op_terminal op = None -> is_Some (op_helper op) -> 0 <= offset -> 0 <= appended ->
    response_apply (if thinking then op_thinking op else op_response op) offset appended frame = Some text ->
    zlen (re_pieces text) <= limit ->
    op_step owner limit op ((if thinking then op_set_thinking text else op_set_response text) op)
| op_step_end op facts offset appended response :
    op_terminal op = None -> 0 <= offset -> 0 <= appended ->
    response_apply (op_response op) offset appended (te_frame facts) = Some response ->
    zlen (re_pieces response) <= limit ->
    Forall (fun t => to_create t = None \/ is_Some (to_result_frame t)) (op_tools op) ->
    end_allowed owner op response (te_kind facts) (te_cause facts) ->
    op_step owner limit op (op_set_terminal facts response op).

(** A turn as [accept] starts it. *)
Definition new_operation (owner : Z) (op : Operation) : Prop :=
  op_owner_generation op = owner /\ op_helper op = None /\ op_cancel op = None /\ op_terminal op = None /\
  op_tools op = [] /\ op_request_starts op = [] /\ op_response op = response_default /\ op_thinking op = response_default.
Inductive turn_step (owner limit : Z) (new : Id -> Prop) : option Id * gmap Id Operation -> option Id * gmap Id Operation -> Prop :=
| turn_step_idle t : turn_step owner limit new t t
| turn_step_accept id op m : new id -> new_operation owner op -> turn_step owner limit new (None, m) (Some id, <[id := op]> m)
| turn_step_active id op op' m :
    m !! id = Some op -> op_step owner limit op op' -> op_terminal op' = None ->
    turn_step owner limit new (Some id, m) (Some id, <[id := op']> m)
| turn_step_end id op op' m :
    m !! id = Some op -> op_step owner limit op op' -> is_Some (op_terminal op') ->
    turn_step owner limit new (Some id, m) (None, <[id := op']> m).
Definition turn (s : Replay) : option Id * gmap Id Operation := (st_active s, st_operations s).

(** ** Replay makes turn steps. *)
Section Refinement.
Context `{Hasher, Unicode, JournalIndex}.
Implicit Types s : Replay.

Lemma books_turn s s' : Books s s' -> turn s' = turn s.
Proof. intros HB. unfold turn. by rewrite (bk_operations _ _ HB), (bk_active _ _ HB). Qed.
Lemma turn_books s s1 s' owner limit new :
  turn_step owner limit new (turn s) (turn s1) -> Books s1 s' -> turn_step owner limit new (turn s) (turn s').
Proof. intros ? HB. by rewrite (books_turn _ _ HB). Qed.
Lemma turn_active_activity s s1 n owner limit new :
  turn_step owner limit new (turn s) (turn s1) -> turn_step owner limit new (turn s) (turn (active_activity s1 n)).
Proof. intros. eapply turn_books; [done|apply active_activity_books]. Qed.
Lemma turn_record_activity s s1 p c n owner limit new :
  turn_step owner limit new (turn s) (turn s1) -> turn_step owner limit new (turn s) (turn (record_activity s1 p c n)).
Proof. intros. eapply turn_books; [done|apply record_activity_books]. Qed.
Lemma operation_mut_Ok s id generation op :
  operation_mut s id generation = Ok op ->
  st_active s = Some id /\ st_operations s !! id = Some op /\ op_generation op = generation /\ op_terminal op = None.
Proof. unfold operation_mut. intros. inv_run. guards. done. Qed.
(** An update of the active operation. *)
Lemma turn_with_op s id op f owner limit new :
  st_active s = Some id -> st_operations s !! id = Some op -> op_step owner limit op (f op) -> op_terminal (f op) = None ->
  turn_step owner limit new (turn s) (turn (with_op id f s)).
Proof.
  intros Ha Hm Hs Ht. unfold turn, with_op. cbn. rewrite Ha, (alter_is_insert _ _ _ _ Hm). by econstructor.
Qed.
Lemma forallb_resolved op : forallb (fun t => negb (unresolved t)) (op_tools op) = true -> all_resolved op.
Proof.
  rewrite forallb_forall. intros Hf. apply Forall_forall. intros t Ht. apply negb_true_iff, Hf. by apply list_elem_of_In.
Qed.
Ltac open_op :=
  repeat match goal with
  | H : operation_mut _ _ _ = Ok _ |- _ => apply operation_mut_Ok in H as (? & ? & ? & ?)
  | H : forallb (fun t => negb (unresolved t)) (op_tools _) = true |- _ => apply forallb_resolved in H
  end.

Lemma tool_call_turn s p frame s' new :
  tool_call s p frame = Ok s' -> turn_step (st_owner_generation s) (st_piece_limit s) new (turn s) (turn s').
Proof.
  unfold tool_call. destruct (replay_tool_call _ _) as [answer policy]. intros. inv_run. guards. open_op. cbn in *.
  eapply (turn_with_op (set_policy policy s)); [done..| |done]. eapply op_step_call; try done.
  match goal with H : _ || _ = true |- _ => apply orb_true_iff in H as [?|?]; guards; auto end.
Qed.
Lemma tool_result_turn s p frame s' new :
  tool_result s p frame = Ok s' -> turn_step (st_owner_generation s) (st_piece_limit s) new (turn s) (turn s').
Proof.
  unfold tool_result. intros Hr. inv_run. guards. open_op. eapply turn_with_op; [done..| |done].
  eapply op_step_tool; [done|eassumption|by apply tool_step_result|].
  match goal with H : _ || _ = true |- _ => apply orb_true_iff in H as [?|?]; guards; simplify_eq; auto end.
Qed.
Lemma job_result_turn s p frame s' new :
  job_result s p frame = Ok s' -> turn_step (st_owner_generation s) (st_piece_limit s) new (turn s) (turn s').
Proof.
  unfold job_result. intros Hr. inv_run. guards. open_op. eapply turn_with_op; [done..| |done].
  eapply op_step_tool; [done|eassumption|by eapply tool_step_job_result|auto].
Qed.
Lemma job_retention_turn s p frame s' new :
  job_retention s p frame = Ok s' -> turn_step (st_owner_generation s) (st_piece_limit s) new (turn s) (turn s').
Proof.
  unfold job_retention. intros Hr. inv_run. apply turn_record_activity.
  books_step. eapply turn_books; [|eassumption]. destruct (jn_author p); inv_run; [constructor|]. guards. open_op.
  eapply turn_with_op; [done..| |done]. eapply op_step_tool; [done|eassumption|by apply tool_step_note|auto].
Qed.
Lemma person_job_intent_turn s p input owner frame s' :
  person_job_intent s p input owner frame = Ok s' -> turn s' = turn s.
Proof.
  unfold person_job_intent. destruct (person_job _ _) as [answer policy]. intros. inv_run. books_step.
  rewrite (books_turn _ _ (record_activity_books _ _ _ _)).
  match goal with H : Books _ _ |- _ => apply books_turn in H end. done.
Qed.
Lemma job_intent_turn s p owner frame s' new :
  job_intent s p owner frame = Ok s' -> owner = st_owner_generation s ->
  turn_step (st_owner_generation s) (st_piece_limit s) new (turn s) (turn s').
Proof.
  unfold job_intent. intros Hr Ho. inv_run. destruct (ji_origin p) as [operation generation ordinal|input].
  - inv_run. guards. open_op. apply turn_active_activity.
    match goal with |- turn_step _ _ _ _ (turn (set_jobs _ ?x)) => change (turn (set_jobs _ x)) with (turn x) end.
    simplify_eq. eapply turn_with_op; [done..| |done]. eapply op_step_tool; [done|eassumption| |auto].
    eapply tool_step_intent; try done. unfold unresolved. rewrite !bool_decide_true by done. done.
  - apply person_job_intent_turn in Hr as ->. constructor.
Qed.
Lemma apply_start_turn s p n s' new :
  apply_start s p n = Ok s' -> turn_step (st_owner_generation s) (st_piece_limit s) new (turn s) (turn s').
Proof.
  unfold apply_start. intros. inv_run. guards. open_op. apply turn_active_activity.
  eapply turn_with_op; [done..| |done]. by apply op_step_start.
Qed.
Lemma apply_request_started_turn s p n s' new :
  apply_request_started s p n = Ok s' -> turn_step (st_owner_generation s) (st_piece_limit s) new (turn s) (turn s').
Proof.
  unfold apply_request_started. intros. inv_run. guards. open_op. apply turn_active_activity.
  eapply turn_with_op; [done..| |done]. by eapply op_step_request.
Qed.
Lemma cancel_causes (c : Cause) :
  c ∈ [UserCancel; Steering; Deadline; OutputLimit; ServiceShutdown] -> c <> CNone /\ c <> Restart.
Proof. rewrite !elem_of_cons, elem_of_nil. intros Hc. destruct_or! Hc; by subst. Qed.
Lemma apply_cancel_turn s p n s' new :
  apply_cancel s p n = Ok s' -> turn_step (st_owner_generation s) (st_piece_limit s) new (turn s) (turn s').
Proof.
  unfold apply_cancel. intros. inv_run. guards. open_op. apply turn_active_activity.
  eapply turn_with_op; [done..| |done]. match goal with H : _ ∈ _ |- _ => apply cancel_causes in H as Hc end.
  apply op_step_cancel; try done; naive_solver.
Qed.
Lemma apply_text_turn thinking s p frame s' new :
  apply_text thinking s p frame = Ok s' -> 0 <= rt_offset p -> turn_step (st_owner_generation s) (st_piece_limit s) new (turn s) (turn s').
Proof.
  unfold apply_text. intros. inv_run. guards. open_op. apply turn_active_activity.
  eapply turn_with_op; [done..| |by destruct thinking].
  match goal with |- op_step _ _ ?op _ =>
    pose proof (op_step_text (st_owner_generation s) (st_piece_limit s) thinking op) as Hs end.
  destruct thinking; (eapply Hs; [done|done|done| |eassumption|]; [apply zlen_nonneg|lia]).
Qed.
Lemma settle_input_turn s id n s' : settle_input s id n = Ok s' -> turn s' = turn s.
Proof. unfold settle_input. intros. inv_run. books_step. match goal with H : Books _ _ |- _ => by apply books_turn in H end. Qed.
Lemma settle_inputs_turn ids s n s' : settle_inputs s ids n = Ok s' -> turn s' = turn s.
Proof.
  revert s. induction ids as [|id ids IH]; intros s; cbn; [naive_solver|]. intros. inv_run.
  etrans; [by apply IH|]. by eapply settle_input_turn.
Qed.
Lemma terminal_allowed_end s op response p u :
  terminal_allowed s op response p = Ok u -> end_allowed (st_owner_generation s) op response (tt_kind p) (tt_cause p).
Proof.
  unfold terminal_allowed, end_allowed. destruct (tt_kind p); intros; inv_run; guards; open_op; by subst.
Qed.
Lemma terminal_turn s p frame s' new :
  terminal s p frame = Ok s' -> 0 <= tt_text_offset p -> turn_step (st_owner_generation s) (st_piece_limit s) new (turn s) (turn s').
Proof.
  unfold terminal. destruct (replay_terminal _ _ _ _) as [answer policy]. intros. inv_run. open_op. cbn in *.
  apply turn_record_activity.
  match goal with H : settle_inputs _ _ _ = Ok _ |- _ => apply settle_inputs_turn in H as -> end. cbn.
  match goal with H : terminal_allowed _ _ _ _ = Ok _ |- _ => apply terminal_allowed_end in H as Hend end. cbn in Hend.
  match goal with H : st_active s = Some _ |- _ => unfold turn at 1; rewrite H end.
  match goal with |- context [op_set_terminal ?f ?r ?o] =>
    refine (turn_step_end _ _ _ _ o (op_set_terminal f r o) _ _ _ _) end; [done| |done].
  eapply op_step_end; [done|done|apply (zlen_nonneg (tt_text p))|eassumption|lia| |done].
  match goal with H : forallb _ _ = true |- _ => rewrite forallb_forall in H; rename H into Hf end.
  apply Forall_forall. intros t Ht. apply list_elem_of_In, Hf, orb_true_iff in Ht as [?|?]; guards; auto.
Qed.
Lemma accept_turn s p owner kind frame s' :
  accept s p owner kind frame = Ok s' ->
  turn_step owner (st_piece_limit s) (fun id => ~ issued s id /\ id ∈ dom (st_generated s')) (turn s) (turn s').
Proof.
  intros Hr. apply accept_effect in Hr as (a & s0 & s2 & d & Ha & HB1 & HB2 & _ & [s0' Hf] & HB3 & Hg & _ & _ & _ & HB4).
  rewrite (books_turn _ _ HB4).
  assert (turn (dispatched_to_turn p d (accepted p owner frame s2)) = turn (accepted p owner frame s2)) as ->
    by (by destruct d as [[]|]).
  unfold turn, accepted. cbn. rewrite Ha. rewrite (bk_operations s s2) by (etrans; [exact HB1|]; by etrans).
  constructor; [|done]. split.
  - intros Hi. apply (fresh_not_issued _ _ _ Hf). eapply books_issued; [|exact Hi]. by etrans.
  - apply (bk_generated _ _ HB4). by destruct d as [[]|].
Qed.
(** Handlers that leave the operations alone. *)
Ltac idle :=
  inv_run; repeat books_step; rewrite ?(books_turn _ _ (record_activity_books _ _ _ _)), ?(books_turn _ _ (active_activity_books _ _));
  repeat match goal with HB : Books _ _ |- _ => apply books_turn in HB end; unfold turn in *; cbn in *; try congruence.
Lemma execution_path_turn s p frame s' : execution_path s p frame = Ok s' -> turn s' = turn s.
Proof. unfold execution_path. intros. destruct (ep_action p); idle; destruct j; idle. Qed.
Lemma enqueue_entry_turn s p owner kind frame s' : enqueue_entry s p owner kind frame = Ok s' -> turn s' = turn s.
Proof. unfold enqueue_entry. intros. inv_run. destruct (en_new_conversation p), (en_dispatch_request p); idle. Qed.
Lemma reorder_input_turn s p kind frame s' : reorder_input s p kind frame = Ok s' -> turn s' = turn s.
Proof. unfold reorder_input. intros. idle. Qed.
Lemma apply_promoted_turn s p generation kind frame s' : apply_promoted s p generation kind frame = Ok s' -> turn s' = turn s.
Proof. unfold apply_promoted. intros. idle. Qed.
Lemma apply_input_decision_turn s p generation kind frame s' :
  apply_input_decision s p generation kind frame = Ok s' -> turn s' = turn s.
Proof.
  unfold apply_input_decision. intros. inv_run. rewrite (books_turn _ _ (record_activity_books _ _ _ _)).
  books_step. match goal with HB : Books _ _ |- _ => rewrite <- (books_turn _ _ HB) end.
  destruct (decide (id_action p = ADrop)); [|by idle; case_decide].
  match goal with Hs : settle_input _ _ _ = Ok _ |- _ => rewrite (settle_input_turn _ _ _ _ Hs) end. by case_decide.
Qed.
Lemma job_settled_turn s p owner frame s' : job_settled s p owner frame = Ok s' -> turn s' = turn s.
Proof.
  unfold job_settled. intros. inv_run.
  match goal with HJ : match uj_origin ?j with ByModel _ _ _ => _ | ByPerson _ => _ end = Ok ?x |- _ =>
    assert (turn x = turn s) as Ht; [destruct (uj_origin j); inv_run|] end; [done| |idle].
  match goal with Hs : settle_input _ _ _ = Ok _ |- _ => by rewrite (settle_input_turn _ _ _ _ Hs) end.
Qed.
Lemma apply_turn s record generation frame s' :
  apply s record generation frame = Ok s' -> offsets_ok record ->
  turn_step (st_owner_generation s) (st_piece_limit s) (fun id => ~ issued s id /\ id ∈ dom (st_generated s')) (turn s) (turn s').
Proof.
  unfold apply, owner_guard. intros Hr Hw. apply obind_Ok in Hr as ([] & Hg & Hr). apply obind_Ok in Hg as ([] & Hg & _).
  destruct record; try (apply require_Ok, Z.eqb_eq in Hg as ->).
  all: try (inv_run; try apply turn_active_activity; eauto using tool_call_turn, tool_result_turn, job_result_turn,
         job_retention_turn, job_intent_turn, apply_start_turn, apply_request_started_turn, apply_cancel_turn,
         apply_text_turn, terminal_turn, accept_turn; fail).
  all: assert (turn s' = turn s) as ->; [|constructor].
  all: eauto using execution_path_turn, reorder_input_turn, apply_promoted_turn, apply_input_decision_turn, job_settled_turn.
  all: unfold apply_binding, apply_owner, apply_registered, apply_alias, apply_renamed, enqueue, enqueue_person,
         apply_policy_revision, apply_policy_decision, job_cancel in Hr; inv_run; eauto using enqueue_entry_turn.
  all: repeat case_match; idle; done.
Qed.
End Refinement.

(** ** Responses: the pieces tile the text. *)
Fixpoint tiles (start : Z) (pieces : list ResponsePiece) (len : Z) : Prop :=
  match pieces with
  | [] => start = len
  | p :: pieces => rp_start p = start /\ 0 < rp_kept p /\ tiles (start + rp_kept p) pieces len
  end.
Definition response_ok (r : Response) : Prop := tiles 0 (re_pieces r) (re_len r) /\ 0 <= re_len r <= U64_MAX.

Lemma tiles_le start pieces len : tiles start pieces len -> start <= len.
Proof.
  revert start. induction pieces as [|p pieces IH]; cbn; [intros; lia|]. intros start (? & ? & Ht). apply IH in Ht. lia.
Qed.
Lemma tiles_app start l k mid len : tiles start l mid -> tiles mid k len -> tiles start (l ++ k) len.
Proof. revert start. induction l as [|p l IH]; cbn; [intros; by subst|]. intros start (? & ? & ?) ?. auto. Qed.
Lemma tiles_filter_done start pieces len offset :
  tiles start pieces len -> offset <= start -> filter (fun p => rp_start p < offset) pieces = [].
Proof.
  revert start. induction pieces as [|p pieces IH]; intros start; [done|]. cbn [tiles]. intros (Hs & Hk & Ht) Ho.
  rewrite filter_cons_False by lia. by apply (IH _ Ht); lia.
Qed.
(** Keeping [offset] bytes: whole pieces, the last one trimmed. *)
Lemma tiles_trim start pieces len offset :
  tiles start pieces len -> start <= offset <= len ->
  tiles start (trim_last offset (filter (fun p => rp_start p < offset) pieces)) offset.
Proof.
  revert start. induction pieces as [|p pieces IH]; intros start; cbn [tiles]; [cbn; lia|]. intros (Hs & Hk & Ht) Ho.
  destruct (decide (rp_start p < offset)) as [Hlt|Hge].
  2: { rewrite filter_cons_False by done. rewrite (tiles_filter_done _ _ _ _ Ht) by lia. cbn. lia. }
  rewrite filter_cons_True by done. destruct (decide (start + rp_kept p < offset)) as [Hm|Hm].
  - assert (start + rp_kept p <= offset <= len) as Hr by lia. specialize (IH _ Ht Hr).
    destruct (filter _ pieces) as [|p' rest] eqn:Hf; cbn in IH |- *; [lia|]. done.
  - rewrite (tiles_filter_done _ _ _ _ Ht) by lia. cbn. lia.
Qed.
Lemma response_apply_ok r offset appended frame r' :
  response_ok r -> 0 <= offset -> 0 <= appended -> response_apply r offset appended frame = Some r' -> response_ok r'.
Proof.
  intros [Ht Hl] Ho Ha. unfold response_apply. case_decide; [done|]. intros Hr.
  apply fmap_Some in Hr as (n & Hn & ->). apply checked_add64_Some in Hn as [-> ?].
  pose proof (tiles_trim 0 _ _ offset Ht ltac:(lia)) as Hk. split; cbn; [|lia].
  case_decide; [|by replace (offset + appended) with offset by lia].
  eapply tiles_app; [exact Hk|]. cbn. lia.
Qed.
Lemma response_default_ok : response_ok response_default.
Proof. unfold response_ok, U64_MAX. cbn. lia. Qed.

(** ** The invariant of an operation. *)
Record op_inv (limit : Z) (op : Operation) : Prop := mkOpInv {
  oi_pending i t : op_tools op !! i = Some t -> unresolved t = true -> S i = length (op_tools op);
  oi_response : response_ok (op_response op) /\ zlen (re_pieces (op_response op)) <= limit;
  oi_thinking : response_ok (op_thinking op) /\ zlen (re_pieces (op_thinking op)) <= limit;
  oi_starts : StronglySorted Z.lt (op_request_starts op) /\ Forall (fun n => 0 <= n <= zlen (op_tools op)) (op_request_starts op);
  oi_helper : op_helper op = None -> op_tools op = [] /\ op_request_starts op = [];
  oi_complete f : op_terminal op = Some f -> te_kind f = Complete ->
    is_Some (op_helper op) /\ op_cancel op = None /\ all_resolved op /\ 0 < re_len (op_response op) /\ te_cause f = CNone;
  oi_cancelled f : op_terminal op = Some f -> te_kind f = TCancelled -> op_cancel op = Some (te_cause f);
  oi_creates : is_Some (op_terminal op) -> Forall (fun t => to_create t = None \/ is_Some (to_result_frame t)) (op_tools op);
}.
Lemma new_operation_inv owner limit op : 0 <= limit -> new_operation owner op -> op_inv limit op.
Proof.
  intros Hl (_ & Hh & Hc & Ht & Htools & Hs & Hr & Hk). constructor; rewrite ?Htools, ?Hr, ?Hs, ?Hk, ?Ht; try done;
    try (split; [apply response_default_ok|done]).
  split; constructor.
Qed.
Lemma last_split {A} (l : list A) x : last l = Some x -> exists k, l = k ++ [x].
Proof. apply last_Some. Qed.
Lemma set_last_snoc {A} (k : list A) x y : set_last y (k ++ [x]) = k ++ [y].
Proof.
  unfold set_last. rewrite length_app. cbn. rewrite Nat.add_1_r. cbn.
  replace (length k) with (length k + 0)%nat at 1 by lia. by rewrite insert_app_r.
Qed.
Lemma tool_step_facts t t' :
  tool_step t t' -> unresolved t = true /\ to_create t' = to_create t /\ to_decision t' = to_decision t /\
    to_name t' = to_name t /\ to_tool_operation t' = to_tool_operation t /\ to_intent_frame t' = to_intent_frame t.
Proof. by destruct 1. Qed.
(** The calls that were let run, by their intent frames. *)
Definition run_calls (op : Operation) : list Locator :=
  to_intent_frame <$> filter (fun t => to_decision t = TRun) (op_tools op).
Lemma run_calls_set_last op k t t' :
  op_tools op = k ++ [t] -> to_decision t' = to_decision t -> to_intent_frame t' = to_intent_frame t ->
  run_calls (op_set_tools (set_last t' (op_tools op)) op) = run_calls op.
Proof.
  intros Hk Hd Hi. unfold run_calls. cbn. rewrite Hk, set_last_snoc, !filter_app, !fmap_app. f_equal.
  rewrite !filter_cons, Hd. case_decide; cbn; by rewrite ?Hi.
Qed.
(** A cancelled operation stays cancelled, runs nothing more and never completes. *)
Lemma op_step_cancelled owner limit op op' c :
  op_step owner limit op op' -> op_cancel op = Some c ->
  op_cancel op' = Some c /\ run_calls op' = run_calls op /\
  forall f, op_terminal op' = Some f -> te_kind f = Complete -> False.
Proof.
  intros Hs Hc. destruct Hs as [| | |op t Ht Ho Hh Ha Hr Hd|op t t' Ht Hl Hts Ho|thinking op off app f text Ht|op facts off app r Ht Hof Hap Hr Hlim Hcr Hend];
    try congruence.
  - split; [done|]. split; [|by cbn; rewrite Ht]. destruct Hd as [?|Hd]; [congruence|]. unfold run_calls. cbn.
    rewrite filter_app, filter_cons, Hd. cbn. by rewrite app_nil_r.
  - apply last_split in Hl as [k Hk]. destruct (tool_step_facts _ _ Hts) as (_ & _ & Hd & _ & _ & Hi).
    split; [done|]. split; [by eapply run_calls_set_last|by cbn; rewrite Ht].
  - destruct thinking; (split; [done|]; split; [done|by cbn; rewrite Ht]).
  - split; [done|]. split; [done|]. cbn. intros f [= <-] Hk. unfold end_allowed in Hend. rewrite Hk in Hend.
    destruct Hend as (_ & _ & E & _). congruence.
Qed.
Lemma sorted_snoc l x n : StronglySorted Z.lt l -> last l = Some x -> x < n -> StronglySorted Z.lt (l ++ [n]).
Proof.
  intros Hs [k ->]%last_split Hx. apply StronglySorted_app_2; [|done|repeat constructor].
  intros y z Hy Hz%list_elem_of_singleton. subst z. apply elem_of_app in Hy as [Hy|Hy%list_elem_of_singleton]; [|by subst].
  enough (y < x) by lia. eapply (StronglySorted_app_1_elem_of Z.lt); [exact Hs|done|by apply list_elem_of_singleton].
Qed.
Lemma resolved_pending tools i (t : ToolRecord) :
  Forall (fun t => unresolved t = false) tools -> tools !! i = Some t -> unresolved t = true -> False.
Proof. intros Hf Hi Hu. eapply Forall_lookup_1 in Hf; [|done]. congruence. Qed.
Lemma Forall_grow (l : list Z) n m : n <= m -> Forall (fun x => 0 <= x <= n) l -> Forall (fun x => 0 <= x <= m) l.
Proof. intros ? Hf. eapply Forall_impl; [exact Hf|]. cbn. intros. lia. Qed.
Lemma op_step_inv owner limit op op' : op_inv limit op -> op_step owner limit op op' -> op_inv limit op'.
Proof.
  intros [Hp Hr Hk Hs Hh Hc Hcc Hcr] Hstep.
  destruct Hstep as [op helper Ht Ho Hn Hcn|op prev Ht Ho Hn Hcn Ha Hl Hlt|op cause Ht Hcn ? ?|op tool Ht Ho Hn Ha Hrf Hd|
    op tool tool' Ht Hl Hts Hoc|thinking op off app frame text Ht Hn Hof Hap Hre Hlim|op facts off app resp Ht Hof Hap Hre Hlim Hct Hend].
  - destruct (Hh Hn) as [E1 E2]. constructor; cbn; rewrite ?E1, ?E2, ?Ht in *; try done. split; cbn; repeat constructor; done.
  - destruct Hs as [Hs1 Hs2]. constructor; cbn; rewrite ?Ht in *; try done.
    + split; [by eapply sorted_snoc|]. apply Forall_app. split; [done|]. repeat constructor; [apply zlen_nonneg|lia].
    + intros Hn'. rewrite Hn' in Hn. by destruct Hn.
  - constructor; cbn; rewrite ?Ht in *; done.
  - constructor; cbn; rewrite ?Ht in *; try done; try (by intros [? ?]).
    + intros i x Hi Hu. rewrite length_app. cbn. apply lookup_app_Some in Hi as [Hi|[Hge Hi]].
      * by destruct (resolved_pending _ _ _ Ha Hi Hu).
      * apply list_lookup_singleton_Some in Hi as [? _]. lia.
    + destruct Hs as [Hs1 Hs2]. split; [done|]. eapply Forall_grow; [|exact Hs2]. rewrite zlen_app. pose proof (zlen_nonneg [tool]). lia.
    + intros Hn'. rewrite Hn' in Hn. by destruct Hn.
  - apply last_split in Hl as [k Hk']. destruct (tool_step_facts _ _ Hts) as (Hu & _).
    assert (length (set_last tool' (op_tools op)) = length (op_tools op)) as Hlen by (unfold set_last; by rewrite length_insert).
    constructor; cbn; unfold zlen; rewrite ?Ht, ?Hlen in *; try done; try (by intros [? ?]).
    + intros i x Hi Hx. rewrite Hk', set_last_snoc in Hi. rewrite Hk', length_app. cbn.
      apply lookup_app_Some in Hi as [Hi|[Hge Hi]]; [|apply list_lookup_singleton_Some in Hi as [? _]; lia].
      enough (S i = length (op_tools op)) as E by (rewrite Hk', length_app in E; cbn in E; lia).
      apply (Hp i x); [rewrite Hk'; by apply lookup_app_l_Some|done].
    + intros Hn. destruct (Hh Hn) as [E _]. rewrite E in Hk'. by destruct k.
  - assert (response_ok text) as Hok
      by (refine (response_apply_ok _ _ _ _ _ _ Hof Hap Hre); by destruct thinking, Hr, Hk).
    destruct thinking; constructor; cbn; rewrite ?Ht in *; try done.
  - assert (response_ok resp) as Hok by (refine (response_apply_ok _ _ _ _ _ _ Hof Hap Hre); by destruct Hr).
    constructor; cbn; rewrite ?Ht in *; try done.
    + intros f [= <-] Hkind. unfold end_allowed in Hend. rewrite Hkind in Hend. naive_solver.
    + intros f [= <-] Hkind. unfold end_allowed in Hend. rewrite Hkind in Hend. naive_solver.
Qed.

(** ** The invariant of the table of operations. *)
Record turn_inv (limit : Z) (t : option Id * gmap Id Operation) : Prop := mkTurnInv {
  ti_active id : t.1 = Some id -> exists op, t.2 !! id = Some op /\ op_terminal op = None;
  ti_open id op : t.2 !! id = Some op -> op_terminal op = None -> t.1 = Some id;
  ti_ops id op : t.2 !! id = Some op -> op_inv limit op;
}.
Lemma turn_step_inv owner limit new t t' :
  0 <= limit -> turn_inv limit t -> turn_step owner limit new t t' -> turn_inv limit t'.
Proof.
  intros Hl [Ha Ho Hi] Hs. destruct Hs as [t|id op m _ Hn|id op op' m Hm Hs Ht|id op op' m Hm Hs Ht]; [done|..]; cbn in *.
  - constructor; cbn.
    + intros id' [= <-]. exists op. rewrite lookup_insert_eq. by destruct Hn as (_ & _ & _ & ? & _).
    + intros id' op'. destruct (decide (id = id')) as [->|]; [done|]. rewrite lookup_insert_ne by done. intros Hm Ht.
      by specialize (Ho _ _ Hm Ht).
    + intros id' op'. destruct (decide (id = id')) as [->|]; [|rewrite lookup_insert_ne by done; apply Hi].
      rewrite lookup_insert_eq. intros [= <-]. by eapply new_operation_inv.
  - constructor; cbn.
    + intros id' [= <-]. exists op'. by rewrite lookup_insert_eq.
    + intros id' op''. destruct (decide (id = id')) as [->|]; [done|]. rewrite lookup_insert_ne by done. intros Hm' Ht'.
      by specialize (Ho _ _ Hm' Ht').
    + intros id' op''. destruct (decide (id = id')) as [->|]; [|rewrite lookup_insert_ne by done; apply Hi].
      rewrite lookup_insert_eq. intros [= <-]. eapply op_step_inv; [|exact Hs]. by eapply Hi.
  - constructor; cbn; [done|..].
    + intros id' op''. destruct (decide (id = id')) as [->|].
      * rewrite lookup_insert_eq. intros [= <-] E. rewrite E in Ht. by destruct Ht.
      * rewrite lookup_insert_ne by done. intros Hm' Ht'. specialize (Ho _ _ Hm' Ht'). congruence.
    + intros id' op''. destruct (decide (id = id')) as [->|]; [|rewrite lookup_insert_ne by done; apply Hi].
      rewrite lookup_insert_eq. intros [= <-]. eapply op_step_inv; [|exact Hs]. by eapply Hi.
Qed.
Lemma turn_inv_open s limit : turn_inv limit (turn s) -> active_open s.
Proof. intros [Ha _ _] id op Hact Hop. destruct (Ha _ Hact) as (op' & Hop' & Ht). cbn in Hop'. congruence. Qed.

Lemma turn_step_dom owner limit new t t' id :
  turn_step owner limit new t t' -> is_Some (t'.2 !! id) -> is_Some (t.2 !! id) \/ new id.
Proof.
  destruct 1 as [t|id' op m Hn _|id' op op' m Hm _ _|id' op op' m Hm _ _]; cbn; [auto|..];
    (destruct (decide (id' = id)) as [->|]; [|rewrite lookup_insert_ne by done; auto]); rewrite ?Hm; eauto.
Qed.
(** A closed operation is left as it is. *)
Lemma turn_step_closed owner limit new t t' id op :
  turn_inv limit t -> (forall i, new i -> t.2 !! i = None) -> turn_step owner limit new t t' ->
  t.2 !! id = Some op -> is_Some (op_terminal op) -> t'.2 !! id = Some op.
Proof.
  intros [Ha _ _] Hn Hs Hop Ht. destruct Hs as [t|id' op' m Hnew _|id' op1 op' m Hm Hs _|id' op1 op' m Hm Hs _]; cbn in *; [done|..].
  - rewrite lookup_insert_ne; [done|]. intros ->. specialize (Hn _ Hnew). congruence.
  - rewrite lookup_insert_ne; [done|]. intros ->. destruct (Ha _ eq_refl) as (? & ? & E). simplify_eq. rewrite E in Ht. by destruct Ht.
  - rewrite lookup_insert_ne; [done|]. intros ->. destruct (Ha _ eq_refl) as (? & ? & E). simplify_eq. rewrite E in Ht. by destruct Ht.
Qed.

Section Frames.
Context `{Hasher, Unicode, JournalIndex}.
Implicit Types s : Replay.
Lemma frame_turn s c record digest frame s' :
  apply_frame s c record digest frame = Ok s' -> offsets_ok record ->
  turn_step (st_owner_generation s) (st_piece_limit s) (fun id => ~ issued s id /\ id ∈ dom (st_generated s')) (turn s) (turn s').
Proof.
  intros Hf Hw. apply apply_frame_Ok in Hf as (s1 & b & n & _ & _ & _ & _ & _ & _ & _ & Ha & -> & _).
  apply apply_turn in Ha; [|done]. rewrite evict_eq. exact Ha.
Qed.
Lemma frame_grows s c record digest frame s' :
  apply_frame s c record digest frame = Ok s' ->
  st_piece_limit s' = st_piece_limit s /\ dom (st_generated s) ⊆ dom (st_generated s') /\ st_entries s ⊆ st_entries s' /\
  st_installation_id s' = st_installation_id s.
Proof.
  intros Hf. apply apply_frame_Ok in Hf as (s1 & b & n & _ & _ & _ & _ & _ & _ & _ & Ha & -> & _).
  apply apply_grows in Ha as []. by rewrite evict_eq.
Qed.
Lemma frame_issued s c record digest frame s' id :
  apply_frame s c record digest frame = Ok s' -> issued s id -> issued s' id.
Proof.
  intros Hf [Hi|Hi]; [left|by right]. apply frame_grows in Hf as (_ & Hg & _). apply elem_of_dom, Hg. by apply elem_of_dom.
Qed.
End Frames.

Section Reached.
Context `{Hasher, Unicode}.
Definition ops_issued (ix : JournalIndex) (s : Replay) : Prop := forall id, is_Some (st_operations s !! id) -> issued s id.
Lemma reached_turn ix s :
  reached ix s -> st_piece_limit s = MAX_RESPONSE_PIECES /\ turn_inv MAX_RESPONSE_PIECES (turn s) /\ ops_issued ix s.
Proof.
  induction 1 as [ix c p digest frame s Hg|ix s c record digest frame s' Hr IH Hw Hf|ix ix' s Hr IH Hroll].
  - apply genesis_state in Hg as (Hops & Hact & _ & _ & _ & _ & _ & _ & _ & Hlim & _). split; [done|]. split.
    + unfold turn. rewrite Hops, Hact. by constructor.
    + intros id. rewrite Hops, lookup_empty. by intros [? ?].
  - destruct IH as (Hlim & Hinv & Hiss). pose proof (frame_turn _ _ _ _ _ _ Hf Hw) as Hs. rewrite Hlim in Hs.
    split; [|split].
    + cbn in Hf. apply frame_grows in Hf as [-> _]. done.
    + eapply turn_step_inv; [|exact Hinv|exact Hs]. done.
    + intros id Hid. destruct (turn_step_dom _ _ _ _ _ id Hs Hid) as [Hold|[_ Hnew]].
      * eapply frame_issued; [exact Hf|]. by apply Hiss.
      * left. by apply elem_of_dom.
  - destruct IH as (Hlim & Hinv & Hiss). split; [done|]. split.
    + destruct Hinv as [Ha Ho Hi]. constructor; cbn in *.
      * intros id Hact. destruct (Ha _ Hact) as (op & Hop & Ht). exists op. split; [|done].
        apply map_lookup_filter_Some. by cbn.
      * intros id op [Hop _]%map_lookup_filter_Some Ht. by eapply Ho.
      * intros id op [Hop _]%map_lookup_filter_Some. by eapply Hi.
    + intros id [op Hop]. cbn in Hop. apply map_lookup_filter_Some in Hop as [Hop _].
      destruct Hroll as (l & Hl & Hix). right. rewrite Hix by done. destruct (find_key _ l) eqn:Hk; [done|].
      destruct (Hiss id (ex_intro _ _ Hop)) as [Hgen|Hgen]; [|done]. exfalso.
      apply find_key_None in Hk. apply Hk. eapply generated_in_delta; [exact Hl|done].
Qed.
End Reached.

(** ** Properties of turns. *)
Section Properties.
Context `{Hasher, Unicode}.

(** C9: Every frame that replay accepts is one step of the turn machine: it
    leaves the operations alone, starts one turn when none is active under an
    identifier never issued before, makes one step of the active operation, or
    closes it. *)
Theorem frame_refines_turns (ix : JournalIndex) s c record digest frame s' :
  offsets_ok record -> apply_next (Some s) c record digest frame = Ok s' ->
  turn_step (st_owner_generation s) (st_piece_limit s) (fun id => ~ issued s id /\ id ∈ dom (st_generated s')) (turn s) (turn s').
Proof. intros Hw Hf. by apply (frame_turn s c record digest frame). Qed.

(** C10: In every state replay reaches, the active operation exists and is open
    and every other operation is closed; in each, only the last tool call can
    lack its result, the pieces of the response and of the thinking text tile
    the text in order within the piece limit, a completed turn had a helper, no
    cancel, no pending call and a non-empty text, and a cancelled one ended for
    the cause of its cancel. *)
Theorem turns_well_formed ix s : reached ix s -> turn_inv MAX_RESPONSE_PIECES (turn s).
Proof. intros Hr. by destruct (reached_turn ix s Hr) as (_ & ? & _). Qed.

(** C24: A closed turn is final: no later frame changes anything of it. *)
Theorem closed_turn_is_final (ix : JournalIndex) s c record digest frame s' id op :
  reached ix s -> offsets_ok record -> apply_next (Some s) c record digest frame = Ok s' ->
  (turn s).2 !! id = Some op -> is_Some (op_terminal op) -> (turn s').2 !! id = Some op.
Proof.
  intros Hr Hw Hf Hop Ht. destruct (reached_turn ix s Hr) as (Hlim & Hinv & Hiss).
  pose proof (frame_turn s c record digest frame s' Hf Hw) as Hs. rewrite Hlim in Hs.
  refine (turn_step_closed _ _ _ _ _ id op Hinv _ Hs Hop Ht). intros i [Hn _].
  destruct (st_operations s !! i) eqn:E; [|done]. destruct Hn. apply Hiss. by rewrite E.
Qed.

(** C25: A cancel is never lost: once a turn is cancelled, whatever frames follow
    keep the cancel and its cause, let no further call run, and do not end the
    turn as complete. *)
Theorem cancelled_turn_never_completes (ix : JournalIndex) s c record digest frame s' id op cause :
  reached ix s -> offsets_ok record -> apply_next (Some s) c record digest frame = Ok s' ->
  st_operations s !! id = Some op -> op_cancel op = Some cause ->
  exists op', st_operations s' !! id = Some op' /\ op_cancel op' = Some cause /\ run_calls op' = run_calls op /\
    forall f, op_terminal op' = Some f -> te_kind f <> Complete.
Proof.
  intros Hr Hw Hf Hop Hc. destruct (reached_turn ix s Hr) as (Hlim & Hinv & Hiss).
  pose proof (frame_turn s c record digest frame s' Hf Hw) as Hs. rewrite Hlim in Hs. unfold turn in Hs.
  assert (forall f, op_terminal op = Some f -> te_kind f <> Complete) as Hnc.
  { intros f Ht Hk. destruct (oi_complete _ _ (ti_ops _ _ Hinv id op Hop) f Ht Hk) as (_ & E & _). congruence. }
  remember (st_active s, st_operations s) as t0 eqn:E0. remember (st_active s', st_operations s') as t1 eqn:E1.
  destruct Hs as [t|i o m Hn Hnew|i o o' m Hm Hstep Ht|i o o' m Hm Hstep Ht]; [|injection E0 as Ea Em; injection E1 as Ea' Em'..]; subst.
  - injection E1 as _ <-. eauto.
  - exists op. split; [|done]. rewrite <- Em', lookup_insert_ne; [done|]. intros ->. destruct Hn as [Hn _]. apply Hn, Hiss. by rewrite Hop.
  - rewrite <- Em'. destruct (decide (i = id)) as [->|]; [|rewrite lookup_insert_ne by done; eauto].
    rewrite lookup_insert_eq. simplify_eq. exists o'. destruct (op_step_cancelled _ _ _ _ _ Hstep Hc) as (? & ? & Hk). split; [done|]. eauto.
  - rewrite <- Em'. destruct (decide (i = id)) as [->|]; [|rewrite lookup_insert_ne by done; eauto].
    rewrite lookup_insert_eq. simplify_eq. exists o'. destruct (op_step_cancelled _ _ _ _ _ Hstep Hc) as (? & ? & Hk). split; [done|]. eauto.
Qed.
End Properties.

Module TurnsDemo.
Import ReplayDemo.
(** The fourth frame starts the turn. *)
Lemma frame_refines_turns_witness :
  turn_step 1 MAX_RESPONSE_PIECES (fun i => ~ issued (state 3) i /\ i ∈ dom (st_generated (state 4))) (turn (state 3)) (turn (state 4)).
Proof.
  destruct (demo_frame 3) as (f & _ & _ & Hw & Hs); [vm_compute; reflexivity|].
  pose proof (frame_refines_turns no_runs _ _ _ _ _ _ Hw Hs) as Ht.
  replace (st_owner_generation (state 3)) with 1 in Ht by (vm_compute; reflexivity).
  replace (st_piece_limit (state 3)) with MAX_RESPONSE_PIECES in Ht by (vm_compute; reflexivity). exact Ht.
Defined.
(** The tenth state has the active turn with its call and text. *)
Lemma turns_well_formed_witness : st_active (state 10) = Some (id 9) /\ turn_inv MAX_RESPONSE_PIECES (turn (state 10)).
Proof. split; [vm_compute; reflexivity|]. apply (turns_well_formed no_runs), state_reached. vm_compute; reflexivity. Defined.
Lemma closed_turn_is_final_witness :
  exists op, (turn (state 13)).2 !! id 9 = Some op /\ (turn (state 14)).2 !! id 9 = Some op.
Proof.
  destruct (demo_frame 13) as (f & _ & Hr & Hw & Hs); [vm_compute; reflexivity|].
  destruct (demo_lookup (turn (state 13)).2 (id 9) (fun op => is_some (op_terminal op))) as (op & Hop & Ht%is_some_true);
    [vm_compute; reflexivity|].
  exists op. split; [exact Hop|]. exact (closed_turn_is_final no_runs _ _ _ _ _ _ _ _ Hr Hw Hs Hop Ht).
Defined.
(** The thirteenth frame closes the cancelled turn. *)
Lemma cancelled_turn_never_completes_witness :
  exists op, st_operations (state 13) !! id 9 = Some op /\ op_cancel op = Some UserCancel /\
    forall f, op_terminal op = Some f -> te_kind f <> Complete.
Proof.
  destruct (demo_frame 12) as (f & _ & Hr & Hw & Hs); [vm_compute; reflexivity|].
  destruct (demo_lookup (st_operations (state 12)) (id 9) (fun op => bool_decide (op_cancel op = Some UserCancel))) as (op & Hop & Ht);
    [vm_compute; reflexivity|]. apply bool_decide_eq_true in Ht.
  destruct (cancelled_turn_never_completes no_runs _ _ _ _ _ _ _ _ _ Hr Hw Hs Hop Ht) as (op' & ? & ? & _ & ?). eauto.
Defined.
End TurnsDemo.
