(* ===== verification/Queue.v ===== *)
(** * The queue machine: what replay does to inputs and jobs.

    [input_step] is the life of one queued input, [queue_step] the life of the
    inputs and of the unsettled jobs together, since a person's command is an
    input that becomes a job. [apply_queue] shows that [Replay::apply] makes
    one [queue_step] per frame. *)
From Stdlib Require Import ZArith Lia String.
From stdpp Require Import prelude list gmap sorting.
From S2P Require Import Prelude Collections PayloadId Codec Fields Envelope Index Run Policy PathGuard Types.
From S2P Require Import PolicyReplay Text Rules ReplayState Replay Effects Delta Reach ReplayDemo.

(** ** What of an input's status does not depend on its lane. *)
Definition person_final (person : PersonFacts) : bool := is_some (pf_outcome person).
(** An open input is queued, held or running. *)
Definition open_input (q : QueuedInput) : bool :=
  match qi_person q ≫= person_status with
  | Some SRunning => true
  | Some _ => false
  | None => if is_some (qi_dispatched q) then is_none (qi_dispatched_terminal q) else negb (qi_dropped q)
  end.
(** A waiting input is queued or held. *)
Definition waiting_input (q : QueuedInput) : bool :=
  is_none (qi_person q ≫= person_status) && is_none (qi_dispatched q) && negb (qi_dropped q).
Lemma lane_status_waiting s q : lane_status s q = SQueued \/ lane_status s q = SHeld.
Proof. unfold lane_status. repeat case_match; auto. Qed.
Lemma person_status_cases q status :
  qi_person q ≫= person_status = Some status -> status = SComplete \/ status = SFailed \/ status = SRunning.
Proof.
  destruct (qi_person q) as [[o j oc]|]; [|done]. unfold person_status. cbn.
  destruct j, oc as [[]|]; intros; simplify_eq; auto.
Qed.
Lemma unresolved_open s id : unresolved_input s id = is_some_and open_input (st_inputs s !! id).
Proof.
  unfold unresolved_input, input_status. destruct (st_inputs s !! id) as [q|]; [|done]. cbn.
  unfold status_of, open_input. destruct (qi_person q ≫= person_status) as [status|] eqn:E.
  { by destruct (person_status_cases q status E) as [->|[->| ->]]. }
  destruct (qi_dispatched q); [by destruct (qi_dispatched_terminal q) as [[]|]|].
  destruct (qi_dropped q), (qi_held q), (qi_resumed q); try done. by destruct (lane_status_waiting s q) as [->| ->].
Qed.
Lemma waiting_status s id : waiting (input_status s id) = is_some_and waiting_input (st_inputs s !! id).
Proof.
  unfold input_status. destruct (st_inputs s !! id) as [q|]; [|done]. cbn.
  unfold status_of, waiting_input. destruct (qi_person q ≫= person_status) as [status|] eqn:E.
  { by destruct (person_status_cases q status E) as [->|[->| ->]]. }
  destruct (qi_dispatched q); [by destruct (qi_dispatched_terminal q) as [[]|]|].
  destruct (qi_dropped q), (qi_held q), (qi_resumed q); try done. by destruct (lane_status_waiting s q) as [->| ->].
Qed.
Lemma waiting_open q : waiting_input q = true -> open_input q = true.
Proof.
  unfold waiting_input, open_input. intros Hw. guards. by rewrite H, H1, H0.
Qed.
(** The running job of a person's command. *)
Definition running (q : QueuedInput) : option Locator :=
  person ← qi_person q; if is_none (pf_outcome person) then pf_job person else None.

(** ** The life of an input. *)
Inductive input_step : QueuedInput -> QueuedInput -> Prop :=
| input_step_position q n : waiting_input q = true -> 1 <= n -> input_step q (input_set_position n q)
| input_step_promote q p generation frame :
    waiting_input q = true -> qi_kind q = IQueue -> input_step q (input_promote p generation frame q)
| input_step_resume q generation : waiting_input q = true -> input_step q (input_decide AResume generation q)
| input_step_hold q generation : waiting_input q = true -> input_step q (input_decide AHold generation q)
| input_step_drop q generation n :
    waiting_input q = true -> qi_settled q = None ->
    input_step q (input_set_settled n (input_decide ADrop generation q))
| input_step_owner q : input_step q (owner_hold q)
| input_step_dispatch q operation generation :
    waiting_input q = true -> qi_dispatch_request q <> zeros 16 ->
    input_step q (input_set_dispatched (operation, generation) q)
| input_step_target q p : dispatched_to (tt_operation p) q = false -> input_step q (input_end p q)
| input_step_finish q p n :
    dispatched_to (tt_operation p) q = true -> qi_settled q = None -> input_step q (input_set_settled n (input_end p q))
| input_step_job q person frame :
    waiting_input q = true -> qi_person q = Some person -> pf_job person = None ->
    input_step q (input_set_person (Some (mkPerson (pf_outside_sandbox person) (Some frame) (pf_outcome person))) q)
| input_step_outcome q person frame outcome n :
    qi_person q = Some person -> pf_job person = Some frame -> pf_outcome person = None -> qi_settled q = None ->
    input_step q (input_set_settled n
      (input_set_person (Some (mkPerson (pf_outside_sandbox person) (pf_job person) (Some outcome))) q)).
Definition new_input (id : Id) (q : QueuedInput) : Prop :=
  qi_request q = id /\ qi_dispatched q = None /\ qi_dispatched_terminal q = None /\ qi_target_terminal q = None /\
  qi_settled q = None /\ qi_dropped q = false /\ qi_held q = false /\ 1 <= qi_order_position q /\
  match qi_person q with
  | Some person => qi_kind q = IPerson /\ qi_dispatch_request q = zeros 16 /\ pf_job person = None /\ pf_outcome person = None
  | None => qi_kind q = IQueue
  end.

(** ** The invariant of an input. *)
Record input_ok (id : Id) (q : QueuedInput) : Prop := mkInputOk {
  io_request : qi_request q = id;
  io_person : is_Some (qi_person q) -> qi_kind q = IPerson /\ qi_dispatch_request q = zeros 16 /\ qi_dispatched q = None;
  io_plain : qi_person q = None -> qi_kind q <> IPerson;
  io_settled : is_Some (qi_settled q) <-> open_input q = false;
  io_outcome person : qi_person q = Some person -> is_Some (pf_outcome person) -> is_Some (pf_job person);
  io_dropped : qi_dropped q = true -> qi_dispatched q = None /\ (qi_person q ≫= person_status) = None;
  io_terminal : is_Some (qi_dispatched_terminal q) -> is_Some (qi_dispatched q);
  io_position : 1 <= qi_order_position q;
}.
Lemma new_input_ok id q : new_input id q -> input_ok id q.
Proof.
  intros (Hr & Hd & Hdt & Htt & Hs & Hdr & Hh & Hp & Hk).
  constructor; rewrite ?Hd, ?Hs; try done.
  - intros [person E]. rewrite E in Hk. naive_solver.
  - intros E. rewrite E in Hk. by rewrite Hk.
  - split; [by intros [? ?]|]. unfold open_input. rewrite Hd, Hdr. destruct (qi_person q) as [person|]; [|done]. cbn.
    destruct Hk as (_ & _ & Hj & Ho). unfold person_status. by rewrite Hj, Ho.
  - intros person E. rewrite E in Hk. destruct Hk as (_ & _ & _ & ->). by intros [? ?].
  - rewrite Hdr. done.
  - rewrite Hdt. by intros [? ?].
Qed.
Lemma dispatched_to_Some operation q : dispatched_to operation q = true -> exists d, qi_dispatched q = Some d.
Proof. unfold dispatched_to. intros (d & ? & _)%is_some_and_true. eauto. Qed.
Lemma waiting_facts q :
  waiting_input q = true ->
  qi_person q ≫= person_status = None /\ qi_dispatched q = None /\ qi_dropped q = false.
Proof. unfold waiting_input. intros. guards. done. Qed.
Lemma person_not_started q person :
  qi_person q = Some person -> qi_person q ≫= person_status = None -> pf_job person = None /\ pf_outcome person = None.
Proof. intros -> Hp. cbn in Hp. destruct person as [o j oc]. unfold person_status in Hp. cbn in *. by destruct j, oc as [[]|]. Qed.

(** The steps that leave the person's facts, the dispatch and the settlement alone. *)
Lemma input_ok_same id q q' :
  input_ok id q -> qi_request q' = qi_request q -> qi_person q' = qi_person q ->
  qi_dispatch_request q' = qi_dispatch_request q -> qi_dispatched q' = qi_dispatched q ->
  qi_dispatched_terminal q' = qi_dispatched_terminal q -> qi_settled q' = qi_settled q -> qi_dropped q' = qi_dropped q ->
  1 <= qi_order_position q' ->
  (is_Some (qi_person q) -> qi_kind q' = IPerson) -> (qi_person q = None -> qi_kind q' <> IPerson) -> input_ok id q'.
Proof.
  intros [] Hr Hp Hdr Hd Hdt Hs Hdp Hpos Hk1 Hk2.
  constructor; unfold open_input; rewrite ?Hr, ?Hp, ?Hdr, ?Hd, ?Hdt, ?Hs, ?Hdp; try done.
  intros Hper. split; [by apply Hk1|]. by apply io_person0.
Qed.
Lemma input_step_ok id q q' : input_ok id q -> input_step q q' -> input_ok id q'.
Proof.
  intros Hok Hstep. pose proof Hok as [Hreq Hper Hpl Hset Hout Hdrop Hterm Hpos].
  assert (forall q', qi_request q' = qi_request q -> qi_person q' = qi_person q ->
    qi_dispatch_request q' = qi_dispatch_request q -> qi_dispatched q' = qi_dispatched q ->
    qi_dispatched_terminal q' = qi_dispatched_terminal q -> qi_settled q' = qi_settled q -> qi_dropped q' = qi_dropped q ->
    1 <= qi_order_position q' -> qi_kind q' = qi_kind q -> input_ok id q') as Hsame.
  { intros. eapply input_ok_same; [exact Hok|done..| |]; [intros [? _]%Hper; congruence | intros ?%Hpl; congruence]. }
  destruct Hstep as [q n Hw Hn|q p g f Hw Hk|q g Hw|q g Hw|q g n Hw Hs|q|q op g Hw Hnz|q p Hd|q p n Hd Hs|q person f Hw Hp Hj|
    q person f oc n Hp Hj Ho Hs].
  - by apply Hsame.
  - eapply input_ok_same; [exact Hok|done..| |done]. intros Hper'. destruct (Hper Hper') as [E _]. congruence.
  - by apply Hsame.
  - by apply Hsame.
  - destruct (waiting_facts q Hw) as (Hps & Hdn & Hdr). constructor; cbn; try done. unfold open_input. cbn. by rewrite Hps, Hdn.
  - unfold owner_hold. case_match; [|done]. by apply Hsame.
  - destruct (waiting_facts q Hw) as (Hps & Hdn & Hdr). constructor; cbn; try done.
    + intros Hper'. destruct (Hper Hper') as (_ & ? & _). done.
    + rewrite Hset. unfold open_input. cbn. rewrite Hps, Hdn, Hdr. cbn. destruct (qi_dispatched_terminal q); [|done].
      destruct Hterm as [d Hterm]; [done|]. congruence.
    + by rewrite Hdr.
  - apply Hsame; try done. cbn. by rewrite Hd.
  - destruct (dispatched_to_Some _ _ Hd) as [d Hdd]. assert (qi_person q = None) as Hnp.
    { destruct (qi_person q); [|done]. destruct Hper as (_ & _ & E); [done|]. congruence. }
    constructor; cbn; rewrite ?Hd, ?Hnp; try done.
    + intros _. by apply Hpl.
    + unfold open_input. cbn. by rewrite Hnp, Hdd, Hd.
    + intros E. destruct (Hdrop E) as [E' _]. congruence.
  - destruct (waiting_facts q Hw) as (Hps & Hdn & Hdr). destruct (person_not_started q person Hp Hps) as [_ Ho].
    constructor; cbn; try done.
    + intros _. by apply Hper.
    + rewrite Hset. unfold open_input. cbn. rewrite Hp, Ho, Hdn, Hdr. cbn. unfold person_status. by rewrite Hj, Ho.
    + intros ? [= <-]. done.
    + by rewrite Hdr.
  - constructor; cbn; try done.
    + intros _. by apply Hper.
    + unfold open_input. cbn. unfold person_status. cbn. rewrite Hj. by destruct oc.
    + intros ? [= <-]. by rewrite Hj.
    + intros E. destruct (Hdrop E) as [_ E']. rewrite Hp in E'. cbn in E'. unfold person_status in E'. by rewrite Hj, Ho in E'.
Qed.

(** ** The life of the inputs and jobs together. *)
Definition inputs_ok (m : gmap Id QueuedInput) : Prop := forall id q, m !! id = Some q -> input_ok id q.
Definition open_count (m : gmap Id QueuedInput) : nat := size (filter (fun iq => open_input iq.2 = true) m).
Inductive life : option QueuedInput -> option QueuedInput -> Prop :=
| life_same o : life o o
| life_step q q' : input_step q q' -> running q' = running q -> life (Some q) (Some q').

Section Machine.
Context `{Hasher}.
(** A job as its intent record derives it. *)
Definition new_job (job : UnsettledJob) : Prop := uj_job job = job_id (uj_origin job) /\ uj_cancel job = None.
Inductive queue_step :
  gmap Id QueuedInput * gmap Id UnsettledJob -> gmap Id QueuedInput * gmap Id UnsettledJob -> Prop :=
| queue_step_inputs m m' j : (forall id, life (m !! id) (m' !! id)) -> queue_step (m, j) (m', j)
| queue_step_enqueue id q m j :
    m !! id = None -> new_input id q -> (open_count m < MAX_INPUTS)%nat -> queue_step (m, j) (<[id := q]> m, j)
| queue_step_model_job job operation generation ordinal m j :
    uj_origin job = ByModel operation generation ordinal -> new_job job -> j !! uj_job job = None ->
    (size j < MAX_UNSETTLED_JOBS)%nat -> queue_step (m, j) (m, <[uj_job job := job]> j)
| queue_step_person_job job input q person m j :
    uj_origin job = ByPerson input -> new_job job -> j !! uj_job job = None -> (size j < MAX_UNSETTLED_JOBS)%nat ->
    m !! input = Some q -> waiting_input q = true -> qi_person q = Some person -> pf_job person = None ->
    uj_conversation job = qi_conversation q -> uj_project job = qi_project q ->
    queue_step (m, j)
      (<[input := input_set_person (Some (mkPerson (pf_outside_sandbox person) (Some (uj_intent job)) (pf_outcome person))) q]> m,
       <[uj_job job := job]> j)
| queue_step_cancel id job cancel m j :
    j !! id = Some job -> uj_cancel job = None -> queue_step (m, j) (m, <[id := job_set_cancel cancel job]> j)
| queue_step_model_settled id job operation generation ordinal m j :
    j !! id = Some job -> uj_origin job = ByModel operation generation ordinal -> queue_step (m, j) (m, delete id j)
| queue_step_person_settled id job input q person outcome n m j :
    j !! id = Some job -> uj_origin job = ByPerson input -> m !! input = Some q -> qi_person q = Some person ->
    pf_job person = Some (uj_intent job) -> pf_outcome person = None -> qi_settled q = None ->
    queue_step (m, j)
      (<[input := input_set_settled n
           (input_set_person (Some (mkPerson (pf_outside_sandbox person) (pf_job person) (Some outcome))) q)]> m, delete id j).
End Machine.
Definition queue (s : Replay) : gmap Id QueuedInput * gmap Id UnsettledJob := (st_inputs s, st_jobs s).

(** ** Replay makes queue steps. *)
Section Refinement.
Context `{Hasher, Unicode, JournalIndex}.
Implicit Types s : Replay.

Lemma books_queue s s' : Books s s' -> queue s' = queue s.
Proof. intros HB. unfold queue. by rewrite (bk_inputs _ _ HB), (bk_jobs _ _ HB). Qed.
(** Handlers that leave inputs and jobs alone. *)
Ltac idle :=
  inv_run; repeat books_step; rewrite ?(books_queue _ _ (record_activity_books _ _ _ _)), ?(books_queue _ _ (active_activity_books _ _));
  repeat match goal with HB : Books _ _ |- _ => apply books_queue in HB end; unfold queue in *; cbn in *; try congruence.
Lemma queue_idle t : queue_step t t.
Proof. destruct t. constructor. constructor. Qed.
(** One input changes. *)
Lemma queue_one m j id q q' :
  m !! id = Some q -> input_step q q' -> running q' = running q -> queue_step (m, j) (<[id := q']> m, j).
Proof.
  intros Hm Hs Hr. constructor. intros id'. destruct (decide (id = id')) as [<-|].
  - rewrite lookup_insert_eq, Hm. by constructor.
  - rewrite lookup_insert_ne by done. constructor.
Qed.
Lemma settle_input_queue s id n s' :
  settle_input s id n = Ok s' ->
  exists q, st_inputs s !! id = Some q /\ qi_settled q = None /\ queue s' = (<[id := input_set_settled n q]> (st_inputs s), st_jobs s).
Proof.
  unfold settle_input. intros. inv_run. guards. books_step. eexists. split; [eassumption|]. split; [done|].
  match goal with HB : Books _ _ |- _ => by rewrite (books_queue _ _ HB) end.
Qed.
Lemma filter_keys_length s (l : list (Id * QueuedInput)) :
  (forall id q, (id, q) ∈ l -> unresolved_input s id = open_input q) ->
  length (filter (fun id => unresolved_input s id = true) l.*1) = length (filter (fun iq => open_input iq.2 = true) l).
Proof.
  induction l as [|[id q] l IH]; intros Hl; [done|]. rewrite fmap_cons, !filter_cons. cbn [fst snd].
  rewrite (Hl id q) by constructor. assert (forall i x, (i, x) ∈ l -> unresolved_input s i = open_input x) as Hl'
    by (intros; apply Hl; by constructor).
  specialize (IH Hl'). destruct (open_input q); cbn [decide]; rewrite ?decide_True, ?decide_False by done; cbn [length]; by rewrite IH.
Qed.
Lemma open_count_unresolved s :
  length (filter (fun id => unresolved_input s id = true) (btree_keys (st_inputs s))) = open_count (st_inputs s).
Proof.
  unfold open_count, btree_keys. rewrite filter_keys_length.
  - rewrite map_filter_alt, btree_iter_perm. symmetry. apply map_size_list_to_map.
    refine (sublist_NoDup _ _ (NoDup_fst_map_to_list (st_inputs s)) _). apply fmap_sublist, sublist_filter.
  - intros id q Hq%btree_iter_elem. by rewrite unresolved_open, Hq.
Qed.
Lemma lane_max_nonneg s c : 0 <= lane_max s c.
Proof. unfold lane_max. induction (qi_order_position <$> _) as [|x l IH]; cbn; lia. Qed.
Lemma enqueue_entry_queue s p owner kind frame s' :
  enqueue_entry s p owner kind frame = Ok s' ->
  match en_person p with Some person => en_dispatch_request p = None /\ pf_job person = None /\ pf_outcome person = None | None => True end ->
  queue_step (queue s) (queue s').
Proof.
  unfold enqueue_entry. intros Hr Hp. inv_res Hr.
  assert (Books s a) as HB1.
  { destruct (is_some _) in Ha; [|done]. clear -Ha. inv_run. by books_step. }
  assert (Books a a3) as HB2.
  { clear -Ha3. destruct (en_new_conversation p); inv_run; by books_step. }
  assert (Books a3 a11) as HB3.
  { clear -Ha6 Ha7 Ha8 Ha9 Ha10 Ha11. destruct (en_dispatch_request p), (en_new_conversation p); inv_run; books_chain. }
  apply ok_or_Ok, checked_add64_Some in Ha12 as [-> _]. apply (inj Ok) in Hr as <-. inv_run. guards.
  rewrite (books_queue _ _ (record_activity_books _ _ _ _)). unfold queue. cbn.
  rewrite open_count_unresolved in Hd. pose proof (lane_max_nonneg a11 (en_conversation p)) as Hm.
  rewrite (bk_inputs _ _ HB3), (bk_jobs _ _ HB3), (bk_inputs _ _ HB2), (bk_jobs _ _ HB2), (bk_inputs _ _ HB1), (bk_jobs _ _ HB1) in *.
  constructor; [| |lia].
  - destruct (st_inputs s !! en_input p) eqn:E; [|done]. unfold has in Ha4. by rewrite E in Ha4.
  - unfold new_input, queued_input. cbn. repeat (split; [first [done|lia]|]). destruct (en_person p) as [person|]; [|done].
    destruct Hp as (-> & ? & ?). done.
Qed.
Lemma set_positions_life ids m i m' :
  set_positions m i ids = Ok m' -> 0 <= i ->
  (forall id q, id ∈ ids -> m !! id = Some q -> waiting_input q = true) ->
  forall id, m' !! id = m !! id \/ exists q n, m !! id = Some q /\ id ∈ ids /\ 1 <= n /\ m' !! id = Some (input_set_position n q).
Proof.
  revert m i. induction ids as [|x ids IH]; intros m i Hs Hi Hw id; cbn in Hs; [inv_run; by left|].
  inv_run. rename H2 into Hx.
  assert (forall id' q, id' ∈ ids -> <[x := input_set_position (i + 1) x0]> m !! id' = Some q -> waiting_input q = true) as Hw'.
  { intros id' q Hid. destruct (decide (x = id')) as [<-|].
    - rewrite lookup_insert_eq. intros [= <-]. change (waiting_input x0 = true). apply (Hw x); [constructor|done].
    - rewrite lookup_insert_ne by done. intros Hq. apply (Hw id'); [by constructor|done]. }
  destruct (IH _ _ Hs ltac:(lia) Hw' id) as [E|(q & n & Hq & Hid & Hn & E)].
  - destruct (decide (x = id)) as [<-|]; [|rewrite lookup_insert_ne in E by done; by left].
    rewrite lookup_insert_eq in E. right. exists x0, (i + 1). split; [done|]. split; [constructor|]. split; [lia|done].
  - right. destruct (decide (x = id)) as [<-|].
    + rewrite lookup_insert_eq in Hq. injection Hq as <-. exists x0, n. split; [done|]. split; [constructor|]. done.
    + rewrite lookup_insert_ne in Hq by done. exists q, n. split; [done|]. split; [by constructor|]. done.
Qed.
Lemma lane_order_elem s lane id :
  inputs_ok (st_inputs s) ->
  id ∈ lane_order s lane <->
  exists q, st_inputs s !! id = Some q /\ qi_conversation q = lane /\ waiting_input q = true.
Proof.
  intros Hok. unfold lane_order. rewrite sort_by_perm, list_elem_of_fmap. setoid_rewrite list_elem_of_fmap. split.
  - intros (x & -> & (q & -> & Hq)). cbn. apply list_elem_of_filter in Hq as [[Hl Hw] [k Hk]%btree_values_elem].
    rewrite (io_request _ _ (Hok _ _ Hk)) in *. exists q. rewrite waiting_status, Hk in Hw. done.
  - intros (q & Hq & Hl & Hw). exists (qi_order_position q, qi_request q). rewrite (io_request _ _ (Hok _ _ Hq)). split; [done|].
    exists q. rewrite (io_request _ _ (Hok _ _ Hq)). split; [done|]. apply list_elem_of_filter.
    rewrite (io_request _ _ (Hok _ _ Hq)), waiting_status, Hq. split; [done|]. apply btree_values_elem. eauto.
Qed.
Lemma insert_at_elem {A} n (x : A) l y : y ∈ insert_at n x l <-> y = x \/ y ∈ l.
Proof.
  unfold insert_at. rewrite elem_of_app, elem_of_cons. rewrite <- (take_drop n l) at 3. rewrite elem_of_app. naive_solver.
Qed.
Lemma reorder_input_queue s p kind frame s' :
  inputs_ok (st_inputs s) -> reorder_input s p kind frame = Ok s' -> queue_step (queue s) (queue s').
Proof.
  intros Hok. unfold reorder_input. intros Hr. inv_run. books_step.
  rewrite (books_queue _ _ (record_activity_books _ _ _ _)). unfold queue. cbn.
  match goal with HB : Books _ _ |- _ => rewrite (bk_inputs _ _ HB), ?(bk_jobs _ _ HB) in * end.
  constructor. intros id.
  match goal with HP : set_positions _ _ ?ids = Ok _ |- _ => pose proof (set_positions_life _ _ _ _ HP ltac:(lia)) as HL;
    set (order := ids) in * end.
  assert (forall id' q, id' ∈ order -> st_inputs s !! id' = Some q -> waiting_input q = true) as Hw.
  { intros id' q Hin Hq. apply insert_at_elem in Hin as [->|Hin].
    - match goal with HW : waiting (input_status s (ir_input p)) = true |- _ => rewrite waiting_status, Hq in HW; exact HW end.
    - apply list_elem_of_filter in Hin as [_ Hin]. apply lane_order_elem in Hin as (q' & Hq' & _ & ?); [|done]. congruence. }
  destruct (HL Hw id) as [->|(q & n & Hq & Hin & Hn & ->)]; [constructor|]. rewrite Hq. constructor; [|done].
  constructor; [by eapply Hw|done].
Qed.
Lemma apply_promoted_queue s p generation kind frame s' :
  inputs_ok (st_inputs s) -> apply_promoted s p generation kind frame = Ok s' -> queue_step (queue s) (queue s').
Proof.
  intros Hok. unfold apply_promoted. intros Hr. inv_run. books_step.
  rewrite (books_queue _ _ (record_activity_books _ _ _ _)). unfold queue. cbn.
  match goal with HB : Books _ _ |- _ => rewrite (bk_inputs _ _ HB), (bk_jobs _ _ HB) in * end.
  unfold can_promote_input in *. match goal with HQ : st_inputs s !! ip_input p = Some ?q |- _ => rewrite HQ in *; rename HQ into Hq end.
  guards. match goal with HW : waiting _ = true |- _ => rewrite (io_request _ _ (Hok _ _ Hq)), waiting_status, Hq in HW end.
  eapply queue_one; [done|by apply input_step_promote|done].
Qed.
Lemma apply_input_decision_queue s p generation kind frame s' :
  apply_input_decision s p generation kind frame = Ok s' -> queue_step (queue s) (queue s').
Proof.
  unfold apply_input_decision. intros Hr. inv_res Hr. apply (inj Ok) in Hr as <-. apply request_books in Ha3.
  apply ok_or_Ok in Ha1, Ha4. rewrite (books_queue _ _ (record_activity_books _ _ _ _)).
  rewrite (bk_inputs _ _ Ha3) in Ha4.
  assert (waiting_input a4 = true) as Hw.
  { pose proof (waiting_status s (id_input p)) as Hw. rewrite Ha4, Ha1 in Hw.
    cbn in Hw. rewrite <- Hw. destruct (decide (id_action p = AHold)); inv_run; guards; by subst. }
  assert (queue (if decide (id_action p <> AResume) then
       set_policy (person_settled (id_input p) (st_policy (with_inputs (insert (id_input p) (input_decide (id_action p) generation a4)) a3)))
         (with_inputs (insert (id_input p) (input_decide (id_action p) generation a4)) a3)
       else with_inputs (insert (id_input p) (input_decide (id_action p) generation a4)) a3) =
     (<[id_input p := input_decide (id_action p) generation a4]> (st_inputs s), st_jobs s)) as Hq.
  { destruct (decide (id_action p <> AResume)); unfold queue, with_inputs; cbn; by rewrite (bk_inputs _ _ Ha3), (bk_jobs _ _ Ha3). }
  match type of Hq with queue ?x = _ => generalize dependent x end. intros s5 Hn Hs5 Hq.
  destruct (decide (id_action p = ADrop)) as [Hd|Hd].
  - apply settle_input_queue in Hs5 as (q & Hq' & Hs & ->). cbn in Hq', Hs |- *. unfold queue in Hq.
    injection Hq as Hq1 Hq2. rewrite Hq1, ?Hq2 in *. rewrite lookup_insert_eq in Hq'. injection Hq' as <-. rewrite insert_insert_eq.
    rewrite Hd in *. eapply queue_one; [done|by apply input_step_drop|done].
  - inv_run. match goal with |- queue_step _ (queue (set_order_revision ?n ?x)) =>
      change (queue (set_order_revision n x)) with (queue x) end. rewrite Hq. destruct (id_action p); [|done|];
      (eapply queue_one; [done| |done]); by constructor.
Qed.
Lemma apply_owner_queue s generation s' : apply_owner s generation = Ok s' -> queue_step (queue s) (queue s').
Proof.
  unfold apply_owner. intros. inv_run. unfold queue. cbn. constructor. intros id. rewrite lookup_fmap.
  destruct (st_inputs s !! id) as [q|]; cbn; constructor; [constructor|]. unfold owner_hold. by case_match.
Qed.
Lemma accept_queue s p owner kind frame s' :
  inputs_ok (st_inputs s) -> accept s p owner kind frame = Ok s' -> queue_step (queue s) (queue s').
Proof.
  intros Hok Hr. apply accept_effect in Hr as (a & s0 & s2 & d & Ha & HB1 & HB2 & Hnz & _ & HB3 & _ & _ & Hd & Hq & HB4).
  rewrite (books_queue _ _ HB4). assert (queue s2 = queue s) as Hq2 by (apply books_queue; etrans; [exact HB1|]; by etrans).
  unfold queue in Hq2. injection Hq2 as E1 E2.
  destruct d as [[id q]|]; unfold queue, accepted; cbn; rewrite E1, E2; [|apply queue_idle]. destruct Hq as (Hq & Hready & _).
  cbn in Hd. symmetry in Hd. apply fmap_Some in Hd as (q0 & Hd & E0). subst id. unfold dispatched_input in Hd.
  apply fmap_Some in Hd as ([i q1] & Hf & ->). apply list_find_Some in Hf as (Hl & [Hdr Hdn] & _). cbn in *.
  apply list_elem_of_lookup_2, btree_values_elem in Hl as [k Hk]. rewrite (bk_inputs _ _ HB1) in Hk.
  rewrite (io_request _ _ (Hok _ _ Hk)), Hk in Hq. injection Hq as <-. rewrite (io_request _ _ (Hok _ _ Hk)) in *.
  eapply queue_one; [done| |done]. constructor.
  - unfold input_ready, lane_ready in Hready. rewrite (bk_inputs _ _ HB1), Hk in Hready.
    case_bool_decide as Hs; [done|]. pose proof (waiting_status a k) as Hw.
    rewrite (bk_inputs _ _ HB1), Hk, Hs in Hw. by cbn in Hw.
  - rewrite Hdr. intros E. by rewrite E in Hnz.
Qed.
Lemma settle_inputs_queue ids s n s' :
  settle_inputs s ids n = Ok s' ->
  st_jobs s' = st_jobs s /\ forall id,
    (id ∈ ids -> exists q, st_inputs s !! id = Some q /\ qi_settled q = None /\ st_inputs s' !! id = Some (input_set_settled n q)) /\
    (id ∉ ids -> st_inputs s' !! id = st_inputs s !! id).
Proof.
  revert s. induction ids as [|x ids IH]; intros s; cbn; intros Hr.
  { inv_run. split; [done|]. intros id. split; [by intros ?%elem_of_nil|done]. }
  inv_res Hr. apply settle_input_queue in Ha as (q & Hq & Hs & Ha). injection Ha as Hi Hj.
  destruct (IH a Hr) as [Hj' HI]. split; [congruence|]. intros id. destruct (HI id) as [Hin Hout]. rewrite Hi in *.
  destruct (decide (x = id)) as [<-|Hne].
  - split; [intros _|by intros []%not_elem_of_cons]. exists q. rewrite lookup_insert_eq in *. do 2 (split; [done|]).
    apply Hout. intros Hx. destruct (Hin Hx) as (q' & [= <-] & Hs' & _). done.
  - rewrite lookup_insert_ne in * by done. split; [intros [?|?]%elem_of_cons; [done|auto]|]. intros []%not_elem_of_cons. auto.
Qed.
Lemma terminal_queue s p frame s' :
  inputs_ok (st_inputs s) -> terminal s p frame = Ok s' -> queue_step (queue s) (queue s').
Proof.
  intros Hok. unfold terminal. destruct (replay_terminal _ _ _ _) as [answer policy]. intros Hr. inv_run.
  rewrite (books_queue _ _ (record_activity_books _ _ _ _)).
  match goal with HS : settle_inputs _ _ _ = Ok _ |- _ => apply settle_inputs_queue in HS as [Hj HI] end.
  cbn [st_inputs st_jobs with_inputs set_inputs set_projects set_active add_charge set_delta_charge set_operations set_conversations set_policy] in *.
  unfold queue. rewrite Hj. constructor. intros id. destruct (HI id) as [Hin Hout]. rewrite lookup_fmap in *.
  assert (forall q, st_inputs s !! id = Some q -> dispatched_to (tt_operation p) q = true ->
    id ∈ qi_request <$> filter (fun q => dispatched_to (tt_operation p) q = true) (btree_values (st_inputs s))) as Hmem.
  { intros q Hq Hd. apply list_elem_of_fmap. exists q. split; [by rewrite (io_request _ _ (Hok _ _ Hq))|].
    apply list_elem_of_filter. split; [done|]. apply btree_values_elem. eauto. }
  assert (forall q, st_inputs s !! id = Some q -> dispatched_to (tt_operation p) q = false ->
    id ∉ qi_request <$> filter (fun q => dispatched_to (tt_operation p) q = true) (btree_values (st_inputs s))) as Hnmem.
  { intros q Hq Hd (q' & -> & [Hd' [k Hk]%btree_values_elem]%list_elem_of_filter)%list_elem_of_fmap.
    rewrite (io_request _ _ (Hok _ _ Hk)) in Hq. congruence. }
  destruct (st_inputs s !! id) as [q|] eqn:Hq; cbn in *.
  - destruct (dispatched_to (tt_operation p) q) eqn:Hd.
    + destruct (Hin (Hmem q eq_refl Hd)) as (q' & [= <-] & Hs & ->). constructor; [|done]. by constructor.
    + rewrite (Hout (Hnmem q eq_refl Hd)). constructor; [|done]. by constructor.
  - rewrite Hout; [constructor|]. intros (q' & -> & [Hd' [k Hk]%btree_values_elem]%list_elem_of_filter)%list_elem_of_fmap.
    rewrite (io_request _ _ (Hok _ _ Hk)) in Hq. congruence.
Qed.
Lemma derive_job_Ok s p owner frame job :
  derive_job s p owner frame = Ok job ->
  new_job job /\ uj_origin job = ji_origin p /\ uj_intent job = frame /\ uj_owner_generation job = owner /\
  match ji_origin p with
  | ByPerson input => exists q, st_inputs s !! input = Some q /\ uj_conversation job = qi_conversation q /\ uj_project job = qi_project q
  | ByModel _ _ _ => True
  end.
Proof.
  unfold derive_job. intros Hr. inv_res Hr. apply (inj Ok) in Hr as <-. unfold new_job. cbn. repeat (split; [done|]).
  destruct (ji_origin p); [done|]. inv_run. eauto.
Qed.
Lemma job_unused_Ok s job u : job_unused s job = Ok u -> st_jobs s !! job = None /\ (size (st_jobs s) < MAX_UNSETTLED_JOBS)%nat.
Proof.
  unfold job_unused, has. intros Hr. inv_res Hr. inv_run. case_bool_decide as Hh; [done|]. split; [|lia]. by apply eq_None_not_Some.
Qed.
Lemma input_ready_waiting s id q :
  st_inputs s !! id = Some q -> input_ready s id = true -> waiting_input q = true.
Proof.
  intros Hq Hr. unfold input_ready, lane_ready in Hr. rewrite Hq in Hr. case_bool_decide as Hs; [done|].
  pose proof (waiting_status s id) as Hw. rewrite Hq, Hs in Hw. by cbn in Hw.
Qed.
Lemma job_intent_queue s p owner frame s' :
  job_intent s p owner frame = Ok s' -> queue_step (queue s) (queue s').
Proof.
  unfold job_intent. intros Hr. inv_res Hr. destruct (ji_origin p) as [operation generation ordinal|input] eqn:Ho.
  - inv_run. rewrite (books_queue _ _ (active_activity_books _ _)). unfold queue. cbn.
    match goal with HD : derive_job _ _ _ _ = Ok _ |- _ => apply derive_job_Ok in HD as (Hn & Horg & _) end.
    match goal with HU : job_unused _ _ = Ok _ |- _ => apply job_unused_Ok in HU as [? ?] end.
    rewrite Ho in Horg. by eapply queue_step_model_job.
  - unfold person_job_intent in Hr. destruct (person_job _ _) as [answer policy]. inv_run. guards. books_step.
    rewrite (books_queue _ _ (record_activity_books _ _ _ _)). unfold queue. cbn.
    match goal with HB : Books _ _ |- _ => apply books_queue in HB; unfold queue in HB; cbn in HB; injection HB as -> -> end.
    match goal with HD : derive_job _ _ _ _ = Ok _ |- _ => apply derive_job_Ok in HD as (Hn & Horg & Hint & _ & HP) end.
    match goal with HU : job_unused _ _ = Ok _ |- _ => apply job_unused_Ok in HU as [? ?] end. cbn in *.
    rewrite Ho in *. destruct HP as (q' & Hq' & ? & ?). simplify_eq. eapply queue_step_person_job; try done.
    by eapply input_ready_waiting.
Qed.
Lemma job_cancel_queue s p owner frame s' : job_cancel s p owner frame = Ok s' -> queue_step (queue s) (queue s').
Proof.
  unfold job_cancel. intros Hr. inv_run. guards. rewrite (books_queue _ _ (record_activity_books _ _ _ _)). unfold queue. cbn.
  by constructor.
Qed.
Lemma job_settled_queue s p owner frame s' : job_settled s p owner frame = Ok s' -> queue_step (queue s) (queue s').
Proof.
  unfold job_settled. intros Hr. inv_res Hr.
  assert (queue s' = queue a5) as ->.
  { clear Ha5. inv_run. repeat books_step. rewrite (books_queue _ _ (record_activity_books _ _ _ _)). apply books_queue. books_chain. }
  apply ok_or_Ok in Ha0. clear Hr. destruct (uj_origin a0) eqn:Ho.
  - inv_run. unfold queue. cbn. by eapply queue_step_model_settled.
  - inv_run. guards.
    match goal with HS : settle_input _ _ _ = Ok _ |- _ => apply settle_input_queue in HS as (q' & Hq' & Hs & ->) end.
    cbn in *. rewrite lookup_insert_eq in Hq'. injection Hq' as <-. rewrite insert_insert_eq. by eapply queue_step_person_settled.
Qed.
Lemma execution_path_queue s p frame s' : execution_path s p frame = Ok s' -> queue s' = queue s.
Proof. unfold execution_path. intros. destruct (ep_action p); idle; destruct j; idle. Qed.
Lemma job_retention_queue s p frame s' : job_retention s p frame = Ok s' -> queue s' = queue s.
Proof. unfold job_retention. intros. inv_run. destruct (jn_author p); idle. Qed.
Lemma apply_queue s record generation frame s' :
  inputs_ok (st_inputs s) -> apply s record generation frame = Ok s' -> queue_step (queue s) (queue s').
Proof.
  unfold apply. intros Hok Hr. apply obind_Ok in Hr as ([] & _ & Hr). destruct record; try done.
  all: eauto using accept_queue, terminal_queue, job_intent_queue, job_settled_queue, job_cancel_queue, apply_input_decision_queue,
         apply_promoted_queue, reorder_input_queue, apply_owner_queue.
  all: try (unfold enqueue, enqueue_person in Hr; inv_run; eapply enqueue_entry_queue; [eassumption|done]).
  all: assert (queue s' = queue s) as ->; [|apply queue_idle].
  all: eauto using execution_path_queue, job_retention_queue.
  all: unfold apply_binding, apply_registered, apply_alias, apply_renamed, apply_policy_revision, apply_policy_decision,
         tool_call, tool_result, job_result, apply_start, apply_request_started, apply_cancel, apply_text in Hr;
       inv_run; repeat case_match; idle; done.
Qed.
End Refinement.

(** ** The invariant of inputs and jobs. *)
Section Invariant.
Context `{Hasher}.
Record queue_inv (t : gmap Id QueuedInput * gmap Id UnsettledJob) : Prop := mkQueueInv {
  qv_inputs : inputs_ok t.1;
  qv_open : (open_count t.1 <= MAX_INPUTS)%nat;
  qv_jobs id job : t.2 !! id = Some job -> uj_job job = id /\ job_id (uj_origin job) = id;
  qv_size : (size t.2 <= MAX_UNSETTLED_JOBS)%nat;
  qv_person id job input : t.2 !! id = Some job -> uj_origin job = ByPerson input ->
    exists q, t.1 !! input = Some q /\ running q = Some (uj_intent job) /\
      qi_conversation q = uj_conversation job /\ qi_project q = uj_project job;
  qv_running input q frame : t.1 !! input = Some q -> running q = Some frame ->
    exists job, t.2 !! job_id (ByPerson input) = Some job /\ uj_origin job = ByPerson input /\ uj_intent job = frame;
}.
Lemma input_step_lane q q' : input_step q q' -> qi_conversation q' = qi_conversation q /\ qi_project q' = qi_project q.
Proof. destruct 1; try done. unfold owner_hold. by case_match. Qed.
(** A closed input stays closed, with the same status facts. *)
Lemma input_step_closed id q q' : input_ok id q -> input_step q q' -> open_input q = false -> open_input q' = false.
Proof.
  intros Hok Hs Hc. assert (waiting_input q = true -> False) as Hw by (intros Hw%waiting_open; congruence).
  pose proof (proj2 (io_settled _ _ Hok) Hc) as [n Hset].
  destruct Hs; try (by destruct Hw); try congruence.
  - unfold owner_hold. by case_match.
  - unfold open_input in *. cbn. rewrite H0. done.
Qed.
Lemma life_closed id o q' : (forall q, o = Some q -> input_ok id q) -> life o (Some q') -> open_input q' = true ->
  exists q, o = Some q /\ open_input q = true.
Proof.
  intros Hok Hl Ho. inversion Hl as [o' E1 E2|q q'' Hs Hr E1 E2]; subst; [eauto|]. exists q. split; [done|].
  destruct (open_input q) eqn:E; [done|]. by rewrite (input_step_closed id q q' (Hok _ eq_refl) Hs E) in Ho.
Qed.
Lemma open_count_mono m m' :
  (forall id q', m' !! id = Some q' -> open_input q' = true -> exists q, m !! id = Some q /\ open_input q = true) ->
  (open_count m' <= open_count m)%nat.
Proof.
  intros Hm. unfold open_count. rewrite <- !size_dom. apply subseteq_size. intros id.
  rewrite !elem_of_dom. intros [q' [Hq Ho]%map_lookup_filter_Some]. destruct (Hm _ _ Hq Ho) as (q & ? & ?).
  exists q. by apply map_lookup_filter_Some.
Qed.
Lemma open_count_insert m id q : (open_count (<[id := q]> m) <= S (open_count m))%nat.
Proof.
  unfold open_count. rewrite <- !size_dom.
  transitivity (size ({[id]} ∪ dom (filter (fun iq => open_input iq.2 = true) m))).
  - apply subseteq_size. intros i. rewrite elem_of_union, elem_of_singleton, !elem_of_dom.
    intros [q' [Hq Ho]%map_lookup_filter_Some]. destruct (decide (i = id)) as [->|]; [by left|]. right.
    rewrite lookup_insert_ne in Hq by done. exists q'. by apply map_lookup_filter_Some.
  - rewrite size_union_alt, size_singleton. pose proof (subseteq_size (dom (filter (fun iq : Id * QueuedInput => open_input iq.2 = true) m) ∖ {[id]})
      (dom (filter (fun iq => open_input iq.2 = true) m)) ltac:(set_solver)). lia.
Qed.
Lemma running_open q : is_Some (running q) -> open_input q = true.
Proof.
  unfold running, open_input. destruct (qi_person q) as [[o j oc]|]; cbn; [|by intros [? ?]]. unfold person_status. cbn.
  destruct oc, j; cbn; try done; by intros [? ?].
Qed.
Lemma waiting_not_running q : waiting_input q = true -> running q = None.
Proof.
  intros (Hp & _)%waiting_facts. unfold running. destruct (qi_person q) as [person|] eqn:E; [|done]. cbn.
  rewrite <- E in Hp. destruct (person_not_started q person E Hp) as [-> _]. by destruct (is_none _).
Qed.
Lemma inputs_ok_insert m id q : inputs_ok m -> input_ok id q -> inputs_ok (<[id := q]> m).
Proof.
  intros Hm Hq id' q'. destruct (decide (id = id')) as [<-|].
  - rewrite lookup_insert_eq. by intros [= <-].
  - rewrite lookup_insert_ne by done. apply Hm.
Qed.
(** A change of inputs only. *)
Lemma queue_inv_inputs m m' j :
  queue_inv (m, j) -> (forall id, life (m !! id) (m' !! id)) -> queue_inv (m', j).
Proof.
  intros [Hi Ho Hj Hs Hp Hr] Hl. cbn in *.
  assert (forall id q', m' !! id = Some q' -> exists q, m !! id = Some q /\ (q' = q \/ input_step q q' /\ running q' = running q)) as Hback.
  { intros id q' Hq'. specialize (Hl id). rewrite Hq' in Hl. inversion Hl; subst; eauto. }
  constructor; cbn; try done.
  - intros id q' Hq'. destruct (Hback _ _ Hq') as (q & Hq & [->|[Hstep _]]); [by apply Hi|].
    eapply input_step_ok; [by apply Hi|done].
  - etrans; [|exact Ho]. apply open_count_mono. intros id q' Hq' Hop. specialize (Hl id). rewrite Hq' in Hl.
    eapply (life_closed id); [|exact Hl|done]. intros q Hq. by apply Hi.
  - intros id job input Hjob Horg. destruct (Hp _ _ _ Hjob Horg) as (q & Hq & Hrun & Hc & Hpr).
    specialize (Hl input). rewrite Hq in Hl. inversion Hl as [o E1 E2|q0 q' Hstep Hrn E1 E2]; subst; [eauto|].
    exists q'. destruct (input_step_lane _ _ Hstep) as [-> ->]. by rewrite Hrn.
  - intros input q' frame Hq' Hrun. destruct (Hback _ _ Hq') as (q & Hq & [->|[_ Hrn]]); [by eapply Hr|].
    rewrite Hrn in Hrun. by eapply Hr.
Qed.
Lemma queue_inv_enqueue m j id q :
  queue_inv (m, j) -> m !! id = None -> new_input id q -> (open_count m < MAX_INPUTS)%nat -> queue_inv (<[id := q]> m, j).
Proof.
  intros [Hi Ho Hj Hs Hp Hr] Hn Hnew Hcount. cbn in *. constructor; cbn; try done.
  - apply inputs_ok_insert; [done|]. by apply new_input_ok.
  - pose proof (open_count_insert m id q). lia.
  - intros id' job input Hjob Horg. destruct (Hp _ _ _ Hjob Horg) as (q' & Hq' & ?).
    exists q'. rewrite lookup_insert_ne; [done|]. intros ->. congruence.
  - intros input q' frame. destruct (decide (id = input)) as [<-|]; [|rewrite lookup_insert_ne by done; apply Hr].
    rewrite lookup_insert_eq. intros [= <-]. destruct Hnew as (_ & _ & _ & _ & _ & _ & _ & _ & Hk). unfold running.
    destruct (qi_person q) as [person|]; [|done]. cbn. by destruct Hk as (_ & _ & -> & ->).
Qed.
Lemma jobs_insert_keys (j : gmap Id UnsettledJob) (job : UnsettledJob) :
  (forall id job, j !! id = Some job -> uj_job job = id /\ job_id (uj_origin job) = id) -> new_job job ->
  forall id job', <[uj_job job := job]> j !! id = Some job' -> uj_job job' = id /\ job_id (uj_origin job') = id.
Proof.
  intros Hj [Hn _] id job'. destruct (decide (uj_job job = id)) as [<-|]; [|rewrite lookup_insert_ne by done; apply Hj].
  rewrite lookup_insert_eq. by intros [= <-].
Qed.
Lemma queue_inv_model_job m j job operation generation ordinal :
  queue_inv (m, j) -> uj_origin job = ByModel operation generation ordinal -> new_job job -> j !! uj_job job = None ->
  (size j < MAX_UNSETTLED_JOBS)%nat -> queue_inv (m, <[uj_job job := job]> j).
Proof.
  intros [Hi Ho Hj Hs Hp Hr] Horg Hnj Hfree Hsz. cbn in *. constructor; cbn; try done.
  - by apply jobs_insert_keys.
  - rewrite map_size_insert_None by done. lia.
  - intros id' job' input. destruct (decide (uj_job job = id')) as [<-|]; [|rewrite lookup_insert_ne by done; apply Hp].
    rewrite lookup_insert_eq. intros [= <-]. congruence.
  - intros input q' frame Hq' Hrun. destruct (Hr _ _ _ Hq' Hrun) as (job' & Hjob' & ?). exists job'.
    rewrite lookup_insert_ne; [done|]. intros E. rewrite E in Hfree. congruence.
Qed.
Lemma queue_inv_person_job m j job input q person :
  queue_inv (m, j) -> uj_origin job = ByPerson input -> new_job job -> j !! uj_job job = None -> (size j < MAX_UNSETTLED_JOBS)%nat ->
  m !! input = Some q -> waiting_input q = true -> qi_person q = Some person -> pf_job person = None ->
  uj_conversation job = qi_conversation q -> uj_project job = qi_project q ->
  queue_inv (<[input := input_set_person (Some (mkPerson (pf_outside_sandbox person) (Some (uj_intent job)) (pf_outcome person))) q]> m,
             <[uj_job job := job]> j).
Proof.
  intros [Hi Ho Hj Hs Hp Hr] Horg Hnj Hfree Hsz Hq Hw Hper Hjob Hconv Hproj. cbn in *.
  destruct (person_not_started q person Hper (proj1 (waiting_facts q Hw))) as [_ Hout].
  constructor; cbn.
  - apply inputs_ok_insert; [done|]. eapply input_step_ok; [by apply Hi|]. by apply input_step_job.
  - etrans; [|exact Ho]. apply open_count_mono. intros id q'. destruct (decide (input = id)) as [<-|]; [|rewrite lookup_insert_ne by done; eauto].
    intros _ _. exists q. split; [done|]. by apply waiting_open.
  - by apply jobs_insert_keys.
  - rewrite map_size_insert_None by done. lia.
  - intros id' job' input'. destruct (decide (uj_job job = id')) as [<-|].
    + rewrite lookup_insert_eq. intros [= <-] E. rewrite Horg in E. injection E as <-. eexists. rewrite lookup_insert_eq. split; [done|].
      unfold running. cbn. by rewrite Hout.
    + rewrite lookup_insert_ne by done. intros Hj' Ho'. destruct (Hp _ _ _ Hj' Ho') as (q' & Hq' & Hrun & ?).
      destruct (decide (input = input')) as [<-|]; [|rewrite lookup_insert_ne by done; eauto].
      simplify_eq. rewrite waiting_not_running in Hrun; done.
  - intros input' q' frame. destruct (decide (input = input')) as [<-|].
    + rewrite lookup_insert_eq. intros [= <-]. unfold running. cbn. rewrite Hout. cbn. intros [= <-]. exists job.
      destruct Hnj as [E _]. rewrite <- Horg, <- E, lookup_insert_eq. done.
    + rewrite lookup_insert_ne by done. intros Hq' Hrun. destruct (Hr _ _ _ Hq' Hrun) as (job' & Hjob' & ?). exists job'.
      rewrite lookup_insert_ne; [done|]. intros E. rewrite E in Hfree. congruence.
Qed.
Lemma queue_inv_cancel m j id job cancel :
  queue_inv (m, j) -> j !! id = Some job -> queue_inv (m, <[id := job_set_cancel cancel job]> j).
Proof.
  intros [Hi Ho Hj Hs Hp Hr] Hjob. cbn in *. constructor; cbn; try done.
  - intros id' job'. destruct (decide (id = id')) as [<-|]; [|rewrite lookup_insert_ne by done; apply Hj].
    rewrite lookup_insert_eq. intros [= <-]. exact (Hj _ _ Hjob).
  - by rewrite map_size_insert_Some by done.
  - intros id' job' input. destruct (decide (id = id')) as [<-|]; [|rewrite lookup_insert_ne by done; apply Hp].
    rewrite lookup_insert_eq. intros [= <-]. exact (Hp _ _ input Hjob).
  - intros input q frame Hq Hrun. destruct (Hr _ _ _ Hq Hrun) as (job' & Hjob' & Horg & Hint).
    destruct (decide (id = job_id (ByPerson input))) as [->|]; [|exists job'; by rewrite lookup_insert_ne].
    simplify_eq. eexists. rewrite lookup_insert_eq. done.
Qed.
Lemma queue_inv_model_settled m j id job operation generation ordinal :
  queue_inv (m, j) -> j !! id = Some job -> uj_origin job = ByModel operation generation ordinal -> queue_inv (m, delete id j).
Proof.
  intros [Hi Ho Hj Hs Hp Hr] Hjob Horg. cbn in *. constructor; cbn; try done.
  - intros id' job' [_ ?]%lookup_delete_Some. by apply Hj.
  - rewrite map_size_delete, Hjob. cbn. lia.
  - intros id' job' input [_ ?]%lookup_delete_Some. by eapply Hp.
  - intros input q frame Hq Hrun. destruct (Hr _ _ _ Hq Hrun) as (job' & Hjob' & Ho' & ?). exists job'. split; [|done].
    apply lookup_delete_Some. split; [|done]. intros ->. congruence.
Qed.
Lemma queue_inv_person_settled m j id job input q person outcome n :
  queue_inv (m, j) -> j !! id = Some job -> uj_origin job = ByPerson input -> m !! input = Some q -> qi_person q = Some person ->
  pf_job person = Some (uj_intent job) -> pf_outcome person = None -> qi_settled q = None ->
  queue_inv (<[input := input_set_settled n
     (input_set_person (Some (mkPerson (pf_outside_sandbox person) (pf_job person) (Some outcome))) q)]> m, delete id j).
Proof.
  intros [Hi Ho Hj Hs Hp Hr] Hjob Horg Hq Hper Hpj Hpo Hset. cbn in *. constructor; cbn.
  - apply inputs_ok_insert; [done|]. eapply input_step_ok; [by apply Hi|]. by eapply input_step_outcome.
  - etrans; [|exact Ho]. apply open_count_mono. intros id' q'. destruct (decide (input = id')) as [<-|]; [|rewrite lookup_insert_ne by done; eauto].
    rewrite lookup_insert_eq. intros [= <-]. unfold open_input. cbn. unfold person_status. cbn. rewrite Hpj. by destruct outcome.
  - intros id' job' [_ ?]%lookup_delete_Some. by apply Hj.
  - rewrite map_size_delete, Hjob. cbn. lia.
  - intros id' job' input' [Hne Hj']%lookup_delete_Some Ho'. destruct (Hp _ _ _ Hj' Ho') as (q' & Hq' & ?). exists q'.
    rewrite lookup_insert_ne; [done|]. intros ->. destruct (Hj _ _ Hj') as [_ E1]. destruct (Hj _ _ Hjob) as [_ E2].
    apply Hne. by rewrite <- E1, <- E2, Horg, Ho'.
  - intros input' q' frame. destruct (decide (input = input')) as [<-|].
    + rewrite lookup_insert_eq. by intros [= <-].
    + rewrite lookup_insert_ne by done. intros Hq' Hrun. destruct (Hr _ _ _ Hq' Hrun) as (job' & Hjob' & Ho' & ?). exists job'.
      split; [|done]. apply lookup_delete_Some. split; [|done]. intros ->. congruence.
Qed.
Lemma queue_step_inv t t' : queue_inv t -> queue_step t t' -> queue_inv t'.
Proof.
  intros Hinv Hstep. destruct Hstep; eauto using queue_inv_inputs, queue_inv_enqueue, queue_inv_model_job, queue_inv_cancel,
    queue_inv_model_settled.
  - by eapply queue_inv_person_job.
  - by eapply queue_inv_person_settled.
Qed.
End Invariant.

(** ** Eviction forgets only settled inputs. *)
Lemma foldl_delete_lookup {V} (ids : list Id) (m : gmap Id V) k :
  foldl (fun m id => delete id m) m ids !! k = if decide (k ∈ ids) then None else m !! k.
Proof.
  revert m. induction ids as [|x ids IH]; intros m; [done|]. cbn [foldl]. rewrite IH.
  destruct (decide (k ∈ ids)) as [Hk|Hk].
  - by rewrite decide_True by by constructor.
  - destruct (decide (k = x)) as [->|Hne].
    + rewrite decide_True by constructor. apply lookup_delete_eq.
    + rewrite decide_False by (rewrite elem_of_cons; naive_solver). by apply lookup_delete_ne.
Qed.
Lemma evict_inputs_lookup s id :
  inputs_ok (st_inputs s) ->
  evict_inputs s !! id = st_inputs s !! id \/
  evict_inputs s !! id = None /\ exists q, st_inputs s !! id = Some q /\ is_Some (qi_settled q).
Proof.
  intros Hok. unfold evict_inputs. case_decide; [|by left]. rewrite foldl_delete_lookup. case_decide as Hin; [|by left].
  right. split; [done|]. apply list_elem_of_fmap in Hin as ([at_ i] & -> & Hin).
  apply subseteq_drop in Hin. rewrite sort_by_perm in Hin. unfold evictable in Hin.
  apply list_elem_of_omap in Hin as (q & [k Hk]%btree_values_elem & Hq). cbn.
  destruct (qi_settled q) as [n|] eqn:Hs; [|done]. destruct (is_some_and _ _); [done|]. injection Hq as <- <-.
  rewrite (io_request _ _ (Hok _ _ Hk)). exists q. by rewrite Hs.
Qed.

Section Reached.
Context `{Hasher, Unicode}.
Lemma queue_inv_evict s : queue_inv (queue s) -> queue_inv (evict_inputs s, st_jobs s).
Proof.
  intros [Hi Ho Hj Hs Hp Hr]. cbn in *.
  assert (forall id q, evict_inputs s !! id = Some q -> st_inputs s !! id = Some q) as Hsub
    by (intros id q Hq; destruct (evict_inputs_lookup s id Hi) as [E|[E _]]; congruence).
  constructor; cbn; try done.
  - intros id q Hq. by apply Hi, Hsub.
  - etrans; [|exact Ho]. apply open_count_mono. eauto.
  - intros id job input Hjob Horg. destruct (Hp _ _ _ Hjob Horg) as (q & Hq & Hrun & ?). exists q. split; [|done].
    destruct (evict_inputs_lookup s input Hi) as [->|[_ (q' & Hq' & Hset)]]; [done|]. simplify_eq.
    apply (io_settled _ _ (Hi _ _ Hq)) in Hset. by rewrite (running_open q) in Hset.
  - intros input q frame Hq. by apply Hr, Hsub.
Qed.
Lemma queue_clear s : queue (clear_delta s) = queue s.
Proof. done. Qed.
Lemma frame_queue (ix : JournalIndex) s c record digest frame s' :
  queue_inv (queue s) -> apply_frame s c record digest frame = Ok s' ->
  exists s1, queue_step (queue s) (queue s1) /\ queue_inv (queue s1) /\ queue s' = (evict_inputs (numbered c digest frame s1), st_jobs s1).
Proof.
  intros Hinv Hf. apply apply_frame_Ok in Hf as (s1 & b & n & _ & _ & _ & _ & _ & _ & _ & Ha & -> & _).
  exists s1. assert (queue_step (queue s) (queue s1)) as Hstep.
  { change (queue s) with (queue (opened c s)). eapply apply_queue; [|exact Ha]. apply (qv_inputs _ Hinv). }
  split; [done|]. split; [by eapply queue_step_inv|]. by rewrite evict_eq.
Qed.
Lemma reached_queue ix s : reached ix s -> queue_inv (queue s).
Proof.
  induction 1 as [ix c p digest frame s Hg|ix s c record digest frame s' Hr IH Hw Hf|ix ix' s Hr IH Hroll].
  - apply genesis_state in Hg as (_ & _ & Hi & Hj & _). unfold queue. rewrite Hi, Hj. constructor; cbn; try done.
    + unfold open_count. rewrite map_filter_empty, map_size_empty. lia.
    + rewrite map_size_empty. lia.
  - destruct (frame_queue _ _ _ _ _ _ _ IH Hf) as (s1 & _ & Hinv & ->).
    apply (queue_inv_evict (numbered c digest frame s1)). exact Hinv.
  - by rewrite queue_clear.
Qed.
End Reached.

(** ** A closed input keeps its status. *)
Lemma input_status_closed s q :
  open_input q = false ->
  status_of s q = match qi_person q ≫= person_status with
                  | Some status => status
                  | None => match qi_dispatched q with
                            | Some _ => if decide (qi_dispatched_terminal q = Some Complete) then SComplete else SFailed
                            | None => SDropped
                            end
                  end.
Proof.
  unfold open_input, status_of. intros Ho. destruct (qi_person q ≫= person_status) as [status|]; [done|].
  destruct (qi_dispatched q) as [d|]; cbn in Ho.
  - destruct (qi_dispatched_terminal q) as [[]|]; [by rewrite decide_True|by rewrite decide_False..|done].
  - by destruct (qi_dropped q).
Qed.
Lemma input_step_status id q q' s s' :
  input_ok id q -> input_step q q' -> open_input q = false -> status_of s' q' = status_of s q.
Proof.
  intros Hok Hs Hc. pose proof (input_step_closed id q q' Hok Hs Hc) as Hc'.
  rewrite !input_status_closed by done. assert (waiting_input q = true -> False) as Hw by (intros Hw%waiting_open; congruence).
  pose proof (proj2 (io_settled _ _ Hok) Hc) as [n Hset].
  destruct Hs; try (by destruct Hw); try congruence.
  - assert (qi_person (owner_hold q) = qi_person q /\ qi_dispatched (owner_hold q) = qi_dispatched q /\
      qi_dispatched_terminal (owner_hold q) = qi_dispatched_terminal q) as (-> & -> & ->) by (unfold owner_hold; by case_match).
    done.
  - cbn. by rewrite H.
Qed.

(** ** Properties of inputs and jobs. *)
Section Properties.
Context `{Hasher, Unicode}.

(** C11: Every frame that replay accepts is one step of the queue machine,
    followed by eviction, which forgets nothing but settled inputs. *)
Theorem frame_refines_queue (ix : JournalIndex) s c record digest frame s' :
  reached ix s -> apply_next (Some s) c record digest frame = Ok s' ->
  exists m, queue_step (queue s) (m, st_jobs s') /\
    forall id, st_inputs s' !! id = m !! id \/
               st_inputs s' !! id = None /\ exists q, m !! id = Some q /\ is_Some (qi_settled q).
Proof.
  intros Hr Hf. destruct (frame_queue ix s c record digest frame s' (reached_queue ix s Hr) Hf) as (s1 & Hs & Hinv & Hq).
  injection Hq as Hi Hj. exists (st_inputs s1). rewrite Hj. split; [done|]. intros id. rewrite Hi.
  apply (evict_inputs_lookup (numbered c digest frame s1)). apply (qv_inputs _ Hinv).
Qed.

(** C12: In every state replay reaches: each input is filed under its request,
    is settled exactly when it is closed, and a person's command is never
    dispatched to a turn; at most 16 inputs are open and at most 64 jobs
    unsettled; each job is filed under the identifier its origin derives; and
    the running commands of the person are exactly the jobs of a person's
    origin, with the same intent, conversation and project. *)
Theorem queue_well_formed ix s : reached ix s -> queue_inv (queue s).
Proof. apply reached_queue. Qed.

(** C26: A closed input is final: after any frame it has the same status, until
    it is evicted. *)
Theorem closed_input_is_final (ix : JournalIndex) s c record digest frame s' id status :
  reached ix s -> apply_next (Some s) c record digest frame = Ok s' ->
  input_status s id = Some status -> unresolved_input s id = false ->
  input_status s' id = Some status \/ (queue s').1 !! id = None.
Proof.
  intros Hr Hf Hst Hun. cbn [queue fst]. pose proof (reached_queue ix s Hr) as Hinv.
  destruct (frame_queue ix s c record digest frame s' Hinv Hf) as (s1 & Hs & Hinv1 & Hq). injection Hq as Hi Hj.
  unfold input_status in *. rewrite unresolved_open in Hun. destruct (st_inputs s !! id) as [q|] eqn:Hid; [|done].
  cbn in Hst, Hun. injection Hst as <-. pose proof (qv_inputs _ Hinv id q Hid) as Hok.
  assert (exists q', st_inputs s1 !! id = Some q' /\ status_of s' q' = status_of s q) as (q' & Hq' & Hst).
  { assert (open_input q = false -> status_of s' q = status_of s q) as Hsame by (intros E; by rewrite !input_status_closed).
    unfold queue in Hs. remember (st_inputs s, st_jobs s) as t0 eqn:E0. remember (st_inputs s1, st_jobs s1) as t1 eqn:E1.
    destruct Hs as [m m' j Hl|i x m j Hn|job op g o m j|job input x person m j Ho Hnj Hfree Hsz Hx Hw|i job cn m j|i job op g o m j|
      i job input x person oc n m j Hjob Ho Hx Hp Hpj Hpo Hset]; injection E0 as Em Ej; injection E1 as Em' Ej'; subst;
      try match goal with E : _ = st_inputs s1 |- _ => rewrite <- E in * end; eauto.
    - specialize (Hl id). rewrite Hid in Hl. inversion Hl as [o E1 E2|q0 q1 Hstep _ E1 E2]; subst; [eauto|].
      exists q1. split; [done|]. by eapply input_step_status.
    - exists q. split; [|auto]. rewrite lookup_insert_ne; [done|]. intros ->. congruence.
    - exists q. split; [|auto]. rewrite lookup_insert_ne; [done|]. intros ->. simplify_eq. by rewrite (waiting_open _ Hw) in Hun.
    - exists q. split; [|auto]. rewrite lookup_insert_ne; [done|]. intros ->. simplify_eq.
      rewrite running_open in Hun; [done|]. unfold running. rewrite Hp. cbn. rewrite Hpo, Hpj. by eexists. }
  rewrite Hi. destruct (evict_inputs_lookup (numbered c digest frame s1) id (qv_inputs _ Hinv1)) as [E|[E _]]; [left|by right].
  rewrite E. cbn. by rewrite Hq', <- Hst.
Qed.
End Properties.

Module QueueDemo.
Import ReplayDemo.
(** The fourteenth frame dispatches the input that was moved to the front. *)
Lemma frame_refines_queue_witness :
  exists m, queue_step (queue (state 13)) (m, st_jobs (state 14)) /\
    forall i, st_inputs (state 14) !! i = m !! i \/
              st_inputs (state 14) !! i = None /\ exists q, m !! i = Some q /\ is_Some (qi_settled q).
Proof.
  destruct (demo_frame 13) as (f & _ & Hr & _ & Hs); [vm_compute; reflexivity|].
  exact (frame_refines_queue no_runs _ _ _ _ _ _ Hr Hs).
Defined.
Lemma queue_well_formed_witness : size (st_inputs (state 14)) = 2%nat /\ queue_inv (queue (state 14)).
Proof. split; [vm_compute; reflexivity|]. apply (queue_well_formed no_runs), state_reached. vm_compute; reflexivity. Defined.
(** The dropped input stays dropped. *)
Lemma closed_input_is_final_witness :
  input_status (state 17) (id 12) = Some SDropped \/ (queue (state 17)).1 !! id 12 = None.
Proof.
  destruct (demo_frame 16) as (f & _ & Hr & _ & Hs); [vm_compute; reflexivity|].
  apply (closed_input_is_final no_runs _ _ _ _ _ _ (id 12) SDropped Hr Hs); vm_compute; reflexivity.
Defined.
End QueueDemo.
