(* ===== verification/Lanes.v ===== *)
(** * Lanes: the order of waiting inputs and the choice of the next one.

    A lane is a conversation. [lane_order] lists its waiting inputs;
    [reorder_input] moves one of them; [ready_input_with] picks the next input
    to run, one lane after the other. *)
From Stdlib Require Import ZArith Lia String.
From stdpp Require Import prelude list gmap sorting.
From S2P Require Import Prelude Collections PayloadId Codec Fields Envelope Index Run Policy PathGuard Types.
From S2P Require Import PolicyReplay Text Rules ReplayState Replay Effects Delta Reach ReplayDemo Queue.

(** ** Positions after a reorder. *)
Fixpoint enumerate (i : Z) (ids : list Id) : list (Z * Id) :=
  match ids with [] => [] | id :: ids => (i + 1, id) :: enumerate (i + 1) ids end.
Lemma enumerate_ids i ids : (enumerate i ids).*2 = ids.
Proof. revert i. induction ids as [|id ids IH]; intros i; [done|]. cbn. by rewrite IH. Qed.
Lemma enumerate_above i ids n id : (n, id) ∈ enumerate i ids -> i < n.
Proof.
  revert i. induction ids as [|x ids IH]; intros i; cbn; [by intros ?%elem_of_nil|].
  rewrite elem_of_cons. intros [[= -> ->]|Hin]; [lia|]. apply IH in Hin. lia.
Qed.
Lemma enumerate_ascending i ids : ascending (enumerate i ids).
Proof.
  revert i. induction ids as [|x ids IH]; intros i; cbn; [constructor|]. constructor; [apply IH|].
  apply Forall_forall. intros [n id] Hin%enumerate_above. cbn. unfold cmp, Z_cmp. apply Z.compare_lt_iff. lia.
Qed.
Lemma set_positions_enumerate ids m i m' :
  set_positions m i ids = Ok m' -> NoDup ids ->
  (forall n id, (n, id) ∈ enumerate i ids -> exists q, m !! id = Some q /\ m' !! id = Some (input_set_position n q)) /\
  (forall id, id ∉ ids -> m' !! id = m !! id).
Proof.
  revert m i. induction ids as [|x ids IH]; intros m i Hs Hn; cbn in Hs |- *.
  - inv_run. split; [by intros ? ? ?%elem_of_nil|done].
  - apply NoDup_cons in Hn as [Hx Hn]. inv_res Hs. apply ok_or_Ok in Ha. destruct (IH _ _ Hs Hn) as [IH1 IH2]. split.
    + intros n id [[= -> ->]|Hin]%elem_of_cons.
      * exists a. split; [done|]. by rewrite IH2, lookup_insert_eq.
      * destruct (IH1 _ _ Hin) as (q & Hq & Hq'). exists q. split; [|done]. rewrite lookup_insert_ne in Hq; [done|].
        intros ->. apply Hx. rewrite <- (enumerate_ids (i + 1) ids). by apply (list_elem_of_fmap_2 snd) in Hin.
    + intros id [Hne Hid]%not_elem_of_cons. rewrite IH2 by done. by rewrite lookup_insert_ne.
Qed.

(** A list of pairs sorted by its distinct first components. *)
Lemma sort_pairs_unique (l k : list (Z * Id)) :
  l ≡ₚ k -> ascending k -> sort_by (fun a b => cmp a b) l = k.
Proof.
  intros Hp Ha. apply ascending_unique; [|done|by rewrite sort_by_perm].
  pose proof (sort_by_sorted (fun a : Z * Id => a) l) as Hs. cbn in Hs.
  set (l' := sort_by _ l) in *. assert (NoDup l'.*1) as Hn.
  { unfold l'. rewrite sort_by_perm, Hp. clear -Ha. induction Ha as [|x k Hs IH Hf]; cbn; constructor; [|done].
    intros (y & Hxy & Hy)%list_elem_of_fmap. rewrite Forall_forall in Hf. specialize (Hf y Hy). rewrite Hxy in Hf.
    by apply lt_irrefl in Hf. }
  clearbody l'. clear -Hs Hn. induction Hs as [|x l' Hs IH Hf]; [constructor|]. cbn in Hn.
  apply NoDup_cons in Hn as [Hx Hn]. constructor; [by apply IH|]. apply Forall_forall. intros y Hy.
  rewrite Forall_forall in Hf. specialize (Hf y Hy). unfold cmp, prod_cmp in Hf. destruct (cmp x.1 y.1) eqn:Hc; [|done|done].
  apply cmp_eq in Hc. destruct Hx. rewrite Hc. by apply (list_elem_of_fmap_2 fst).
Qed.

(** ** The order of a lane. *)
Lemma requests_keys m : inputs_ok m -> qi_request <$> btree_values m = btree_keys m.
Proof.
  intros Hok. unfold btree_values, btree_keys. rewrite <- list_fmap_compose. apply list_fmap_ext. intros i [id q] Hi.
  apply list_elem_of_lookup_2, btree_iter_elem in Hi. cbn. by apply io_request, Hok.
Qed.
Definition lane_pairs (s : Replay) (lane : Id) : list (Z * Id) :=
  (fun q => (qi_order_position q, qi_request q)) <$>
    filter (fun q => qi_conversation q = lane /\ waiting (input_status s (qi_request q)) = true) (btree_values (st_inputs s)).
Lemma lane_order_pairs s lane : lane_order s lane = (sort_by (fun a b => cmp a b) (lane_pairs s lane)).*2.
Proof. done. Qed.
Lemma lane_pairs_nodup s lane : inputs_ok (st_inputs s) -> NoDup (lane_pairs s lane).*2.
Proof.
  intros Hok. unfold lane_pairs. rewrite <- list_fmap_compose.
  refine (sublist_NoDup _ (qi_request <$> btree_values (st_inputs s)) _ _).
  - rewrite requests_keys by done. apply btree_iter_nodup.
  - change (qi_request <$> ?l) with (fmap (snd ∘ (fun q => (qi_order_position q, qi_request q))) l).
    apply fmap_sublist, sublist_filter.
Qed.
Lemma lane_pairs_elem s lane n id :
  inputs_ok (st_inputs s) ->
  (n, id) ∈ lane_pairs s lane <->
  exists q, st_inputs s !! id = Some q /\ qi_conversation q = lane /\ waiting_input q = true /\ qi_order_position q = n.
Proof.
  intros Hok. unfold lane_pairs. rewrite list_elem_of_fmap. split.
  - intros (q & [= -> ->] & [[Hl Hw] [k Hk]%btree_values_elem]%list_elem_of_filter).
    rewrite (io_request _ _ (Hok _ _ Hk)) in *. exists q. rewrite waiting_status, Hk in Hw. done.
  - intros (q & Hq & Hl & Hw & <-). exists q. rewrite (io_request _ _ (Hok _ _ Hq)). split; [done|].
    apply list_elem_of_filter. rewrite (io_request _ _ (Hok _ _ Hq)), waiting_status, Hq. split; [done|].
    apply btree_values_elem. eauto.
Qed.
Lemma lane_order_nodup s lane : inputs_ok (st_inputs s) -> NoDup (lane_order s lane).
Proof. intros Hok. rewrite lane_order_pairs, sort_by_perm. by apply lane_pairs_nodup. Qed.
Lemma insert_at_perm {A} n (x : A) l : insert_at n x l ≡ₚ x :: l.
Proof. unfold insert_at. rewrite <- Permutation_middle, take_drop. done. Qed.
(** The order that [reorder_input] writes. *)
Definition moved (input : Id) (after : option Id) (order : list Id) : option (list Id) :=
  let rest := filter (fun id => id <> input) order in
  match after with
  | None => Some (input :: rest)
  | Some anchor => (fun i => insert_at (S i.1) input rest) <$> list_find (fun id => id = anchor) rest
  end.
Lemma enumerate_elem i ids id : id ∈ ids -> exists n, (n, id) ∈ enumerate i ids.
Proof.
  intros Hid. rewrite <- (enumerate_ids i ids) in Hid. apply list_elem_of_fmap in Hid as ([n x] & -> & Hin). by exists n.
Qed.
Lemma lane_order_positions s s' lane ids m' :
  inputs_ok (st_inputs s) -> ids ≡ₚ lane_order s lane ->
  set_positions (st_inputs s) 0 ids = Ok m' -> st_inputs s' = m' -> lane_order s' lane = ids.
Proof.
  intros Hok Hp Hset Hs'. assert (NoDup ids) as Hn by (rewrite Hp; by apply lane_order_nodup).
  destruct (set_positions_enumerate _ _ _ _ Hset Hn) as [Hin Hout]. rewrite <- Hs' in *. clear m' Hs' Hset.
  assert (forall id, id ∈ ids <-> exists q, st_inputs s !! id = Some q /\ qi_conversation q = lane /\ waiting_input q = true) as Hids
    by (intros id; rewrite Hp; by apply lane_order_elem).
  assert (inputs_ok (st_inputs s')) as Hok'.
  { intros id q' Hq'. destruct (decide (id ∈ ids)) as [Hid|Hid]; [|rewrite Hout in Hq' by done; by apply Hok].
    destruct (enumerate_elem 0 ids id Hid) as [n Hm]. destruct (Hin _ _ Hm) as (q & Hq & E). simplify_eq.
    eapply input_step_ok; [by apply Hok|]. constructor; [|apply enumerate_above in Hm; lia].
    apply Hids in Hid as (q0 & ? & _ & ?). congruence. }
  rewrite lane_order_pairs, (sort_pairs_unique _ (enumerate 0 ids)); [apply enumerate_ids| |apply enumerate_ascending].
  apply NoDup_Permutation.
  - apply (NoDup_fmap_1 snd). by apply lane_pairs_nodup.
  - apply (NoDup_fmap_1 snd). by rewrite enumerate_ids.
  - intros [n id]. rewrite lane_pairs_elem by done. split.
    + intros (q' & Hq' & Hl & Hw & <-). assert (id ∈ ids) as Hid.
      { destruct (decide (id ∈ ids)) as [|Hid]; [done|]. rewrite Hout in Hq' by done. apply Hids. eauto. }
      destruct (enumerate_elem 0 ids id Hid) as [n Hm]. destruct (Hin _ _ Hm) as (q & Hq & E). by simplify_eq.
    + intros Hm. destruct (Hin _ _ Hm) as (q & Hq & E). exists (input_set_position n q). split; [done|].
      assert (id ∈ ids) as Hid by (rewrite <- (enumerate_ids 0 ids); by apply (list_elem_of_fmap_2 snd) in Hm).
      apply Hids in Hid as (q0 & Hq0 & ? & ?). by simplify_eq.
Qed.
Lemma filter_insert_perm (input : Id) order n :
  input ∈ order -> NoDup order -> insert_at n input (filter (fun id => id <> input) order) ≡ₚ order.
Proof.
  intros Hin Hn. rewrite insert_at_perm. apply NoDup_Permutation; [|done|].
  - constructor; [|by apply NoDup_filter]. rewrite list_elem_of_filter. naive_solver.
  - intros x. rewrite elem_of_cons, list_elem_of_filter. destruct (decide (x = input)) as [->|]; naive_solver.
Qed.

Section Reorder.
Context `{Hasher, Unicode, JournalIndex}.
Lemma reorder_lane s p kind frame s' q :
  inputs_ok (st_inputs s) -> reorder_input s p kind frame = Ok s' -> st_inputs s !! ir_input p = Some q ->
  moved (ir_input p) (ir_after p) (lane_order s (qi_conversation q)) = Some (lane_order s' (qi_conversation q)) /\
  lane_order s' (qi_conversation q) ≡ₚ lane_order s (qi_conversation q) /\
  forall id, id ∉ lane_order s (qi_conversation q) -> st_inputs s' !! id = st_inputs s !! id.
Proof.
  intros Hok Hr Hq. unfold reorder_input in Hr. inv_res Hr. apply (inj Ok) in Hr as <-. apply ok_or_Ok in Ha2. simplify_eq.
  apply request_books in Ha6. rewrite (bk_inputs _ _ Ha6) in Ha7.
  apply require_Ok in Ha3. rewrite waiting_status, Ha2 in Ha3. cbn in Ha3.
  set (lane := qi_conversation a2) in *. assert (ir_input p ∈ lane_order s lane) as Hmem by (apply lane_order_elem; eauto).
  pose proof (filter_insert_perm (ir_input p) (lane_order s lane) a5 Hmem (lane_order_nodup s lane Hok)) as Hperm.
  match goal with |- context [record_activity ?x _ _ _] => set (s1 := x) in * end.
  assert (st_inputs (record_activity s1 (qi_project a2) (Some lane) (l_sequence frame)) = a7) as Hs'
    by (rewrite (bk_inputs _ _ (record_activity_books _ _ _ _)); done).
  rewrite (lane_order_positions _ _ _ _ _ Hok Hperm Ha7 Hs'). split; [|split].
  - unfold moved. clear -Ha5. destruct (ir_after p) as [anchor|].
    + destruct (list_find _ _) as [[i x]|]; cbn in *; [|done]. inv_run. done.
    + inv_run. done.
  - exact Hperm.
  - intros id Hid. rewrite Hs'. apply (set_positions_enumerate _ _ _ _ Ha7); rewrite Hperm; [by apply lane_order_nodup|done].
Qed.
End Reorder.

(** ** The next input to run. *)
Section Ready.
Implicit Types s : Replay.
Definition candidates s (released : gset Id) : list QueuedInput :=
  filter (fun q => qi_kind q <> IPerson /\ input_ready_with s (qi_request q) released = true) (btree_values (st_inputs s)).
(** One input per lane with a candidate: the first by [lane_key]. *)
Definition lanes_inv (ready : list QueuedInput) (lanes : gmap Id (QueuedInput * Z)) : Prop :=
  (forall lane l, lanes !! lane = Some l ->
     l.1 ∈ ready /\ qi_conversation l.1 = lane /\
     forall q, q ∈ ready -> qi_conversation q = lane -> ltb (lane_key q) (lane_key l.1) = false) /\
  (forall q, q ∈ ready -> is_Some (lanes !! qi_conversation q)).
Lemma ltb_trans_false (a b c : Z * Z) : ltb a b = true -> ltb c b = false -> ltb c a = false.
Proof. rewrite ltb_lt. intros Hab Hcb. apply ltb_false. right. by eapply nlt_trans. Qed.
Lemma lane_enter_inv s ready lanes q : lanes_inv ready lanes -> lanes_inv (ready ++ [q]) (lane_enter s lanes q).
Proof.
  intros [H1 H2]. unfold lane_enter.
  assert (forall lane l, lanes !! lane = Some l -> (qi_conversation q = lane -> ltb (lane_key q) (lane_key l.1) = false) ->
    l.1 ∈ ready ++ [q] /\ qi_conversation l.1 = lane /\
    forall x, x ∈ ready ++ [q] -> qi_conversation x = lane -> ltb (lane_key x) (lane_key l.1) = false) as Hold.
  { intros lane l Hl Hq. destruct (H1 _ _ Hl) as (? & ? & Hmin). split; [by apply elem_of_app; left|]. split; [done|].
    intros x [Hx| ->%list_elem_of_singleton]%elem_of_app; auto. }
  assert (forall z, (forall x, x ∈ ready -> qi_conversation x = qi_conversation q -> ltb (lane_key x) (lane_key q) = false) ->
    lanes_inv (ready ++ [q]) (<[qi_conversation q := (q, z)]> lanes)) as Hnew.
  { intros z Hmin. split.
    - intros lane l. destruct (decide (qi_conversation q = lane)) as [<-|]; [|rewrite lookup_insert_ne by done; intros; by apply Hold].
      rewrite lookup_insert_eq. intros [= <-]. cbn. split; [apply elem_of_app; right; by apply list_elem_of_singleton|].
      split; [done|]. intros x [Hx| ->%list_elem_of_singleton]%elem_of_app; [by apply Hmin|].
      intros _. unfold ltb. by rewrite cmp_refl.
    - intros x Hx. destruct (decide (qi_conversation q = qi_conversation x)) as [->|]; [by rewrite lookup_insert_eq|].
      rewrite lookup_insert_ne by done. apply elem_of_app in Hx as [Hx| ->%list_elem_of_singleton]; [by apply H2|done]. }
  destruct (lanes !! qi_conversation q) as [[cur z]|] eqn:E; [destruct (ltb _ _) eqn:Hlt|].
  - apply Hnew. intros x Hx Hc. destruct (H1 _ _ E) as (_ & _ & Hmin). by eapply ltb_trans_false, Hmin.
  - split; [|intros x [Hx| ->%list_elem_of_singleton]%elem_of_app; eauto]. intros lane l Hl. apply Hold; [done|].
    intros <-. by simplify_eq.
  - apply Hnew. intros x Hx Hc. destruct (H2 x Hx) as [l Hl]. rewrite Hc in Hl. congruence.
Qed.
Lemma lanes_of_candidates s l lanes ready :
  lanes_inv ready lanes -> lanes_inv (ready ++ l) (foldl (lane_enter s) lanes l).
Proof.
  revert lanes ready. induction l as [|q l IH]; intros lanes ready Hl; cbn; [by rewrite app_nil_r|].
  replace (ready ++ q :: l) with ((ready ++ [q]) ++ l) by (by rewrite <- app_assoc). apply IH. by apply lane_enter_inv.
Qed.
Definition lane_map s (released : gset Id) : gmap Id (QueuedInput * Z) := foldl (lane_enter s) ∅ (candidates s released).
Lemma lane_map_inv s released : lanes_inv (candidates s released) (lane_map s released).
Proof.
  apply (lanes_of_candidates s (candidates s released) ∅ []).
  split; [by intros ? ? ?%lookup_empty_Some|by intros ? ?%elem_of_nil].
Qed.
Lemma ready_lanes_perm s released : ready_lanes s released ≡ₚ btree_values (lane_map s released).
Proof. unfold ready_lanes. by rewrite sort_by_perm. Qed.
(** No two entries share a lane. *)
Lemma ready_lanes_nodup s released : NoDup ((fun l => qi_conversation l.1) <$> ready_lanes s released).
Proof.
  rewrite ready_lanes_perm. unfold btree_values. rewrite <- list_fmap_compose.
  rewrite (list_fmap_ext _ fst); [apply btree_iter_nodup|]. intros i [lane l] Hi.
  apply list_elem_of_lookup_2, btree_iter_elem in Hi. destruct (lane_map_inv s released) as [H1 _]. by apply H1 in Hi as (_ & ? & _).
Qed.
Lemma ready_lanes_elem s released l :
  l ∈ ready_lanes s released -> l.1 ∈ candidates s released /\
  forall q, q ∈ candidates s released -> qi_conversation q = qi_conversation l.1 -> ltb (lane_key q) (lane_key l.1) = false.
Proof.
  rewrite ready_lanes_perm. intros [lane Hl]%btree_values_elem. destruct (lane_map_inv s released) as [H1 _].
  destruct (H1 _ _ Hl) as (? & <- & ?). done.
Qed.
Lemma ready_lanes_cover s released q :
  q ∈ candidates s released -> exists l, l ∈ ready_lanes s released /\ qi_conversation l.1 = qi_conversation q.
Proof.
  intros Hq. destruct (lane_map_inv s released) as [H1 H2]. destruct (H2 q Hq) as [l Hl]. exists l.
  split; [|by destruct (H1 _ _ Hl) as (_ & ? & _)]. rewrite ready_lanes_perm. apply btree_values_elem. by exists (qi_conversation q).
Qed.
(** The entry that [ready_input_with] picks. *)
Definition picked s (released : gset Id) : option nat :=
  let lanes := ready_lanes s released in
  let position := lane ← st_last_lane s; fst <$> list_find (fun l => qi_conversation l.1 = lane) lanes in
  match position with Some i => Some ((i + 1) mod length lanes)%nat | None => Some 0%nat end.
Lemma ready_input_picked s released id :
  ready_input_with s released = Some id <->
  st_active s = None /\ exists i l, picked s released = Some i /\ ready_lanes s released !! i = Some l /\ qi_request l.1 = id.
Proof.
  unfold ready_input_with, picked. destruct (st_active s); cbn; [naive_solver|].
  set (position := _ ≫= _). destruct position as [i|]; cbn; rewrite fmap_Some; naive_solver.
Qed.
Lemma picked_in_range s released i :
  ready_lanes s released <> [] -> picked s released = Some i -> is_Some (ready_lanes s released !! i).
Proof.
  intros Hne Hp. apply lookup_lt_is_Some. unfold picked in Hp. destruct (_ ≫= _); injection Hp as <-.
  - apply Nat.mod_upper_bound. by destruct (ready_lanes s released).
  - destruct (ready_lanes s released); [done|cbn; lia].
Qed.
Lemma picked_other_lane s released i l lane :
  (2 <= length (ready_lanes s released))%nat -> st_last_lane s = Some lane ->
  picked s released = Some i -> ready_lanes s released !! i = Some l -> qi_conversation l.1 <> lane.
Proof.
  intros H2 Hlane Hp Hl Hc. unfold picked in Hp. rewrite Hlane in Hp. cbn in Hp.
  destruct (list_find _ _) as [[k x]|] eqn:Hf; cbn in Hp; injection Hp as <-.
  - apply list_find_Some in Hf as (Hk & Hx & _).
    assert ((k + 1) mod length (ready_lanes s released) = k)%nat as E.
    { eapply (NoDup_lookup _ _ _ lane (ready_lanes_nodup s released)); rewrite list_lookup_fmap; [rewrite Hl|rewrite Hk]; cbn; congruence. }
    pose proof (lookup_lt_Some _ _ _ Hk) as Hlt. destruct (decide (k + 1 < length (ready_lanes s released))%nat).
    + rewrite Nat.mod_small in E by done. lia.
    + replace (k + 1)%nat with (length (ready_lanes s released)) in E by lia. rewrite Nat.Div0.mod_same in E. lia.
  - apply list_find_None in Hf. rewrite Forall_forall in Hf. by apply (Hf l); [apply list_elem_of_lookup_2 in Hl|].
Qed.
End Ready.

(** A ready input of the agent, filed under [id]. *)
Definition agent_ready (s : Replay) (released : gset Id) (id : Id) (q : QueuedInput) : Prop :=
  st_inputs s !! id = Some q /\ qi_kind q <> IPerson /\ input_ready_with s id released = true.

(** ** Properties of lanes. *)
Section Properties.
Context `{Hasher, Unicode}.



End Properties.

Module LanesDemo.
Import ReplayDemo.
End LanesDemo.
