(* ===== verification/Rolls.v ===== *)
(** * Counters, memory and rolls.

    The counters of the state stay [u64]s and count the frames; the charge
    stays within the memory limit; a roll moves the delta into the index
    without changing a lookup. *)
From Stdlib Require Import ZArith Lia String.
From stdpp Require Import prelude list gmap sorting.
From S2P Require Import Prelude Collections PayloadId Codec Fields Envelope Index Run Policy PathGuard Types.
From S2P Require Import PolicyReplay Text Rules ReplayState Replay Effects Delta Reach ReplayDemo Turns.

(** ** Counters. *)
Definition counters_ok (s : Replay) : Prop := 1 <= st_owner_generation s <= U64_MAX /\ 0 <= st_order_revision s <= U64_MAX.
Section Counters.
Context `{Hasher, Unicode, JournalIndex}.
Implicit Types s : Replay.
Lemma books_counters s s' : Books s s' -> counters_ok s -> counters_ok s'.
Proof. intros HB. unfold counters_ok. by rewrite (bk_owner _ _ HB), (bk_order _ _ HB). Qed.
Lemma settle_input_counters s id n s' : settle_input s id n = Ok s' -> counters_ok s -> counters_ok s'.
Proof. unfold settle_input. intros. inv_run. books_step. match goal with HB : Books _ _ |- _ => by apply (books_counters _ _ HB) end. Qed.
Lemma settle_inputs_counters ids s n s' : settle_inputs s ids n = Ok s' -> counters_ok s -> counters_ok s'.
Proof.
  revert s. induction ids as [|id ids IH]; intros s; cbn; intros; inv_run; [done|].
  eapply IH; [eassumption|]. by eapply settle_input_counters.
Qed.
Lemma order_counters n s : 0 <= n <= U64_MAX -> counters_ok s -> counters_ok (set_order_revision n s).
Proof. unfold counters_ok. cbn. tauto. Qed.
(** Walks back over the steps of a handler. *)
Ltac counters_step :=
  match goal with
  | |- counters_ok (set_order_revision _ _) => apply order_counters
  | |- counters_ok (record_activity _ _ _ _) => eapply books_counters; [apply record_activity_books|]
  | |- counters_ok (active_activity _ _) => eapply books_counters; [apply active_activity_books|]
  | |- counters_ok (set_policy _ ?t) => change (counters_ok t)
  | |- counters_ok (set_operations _ ?t) => change (counters_ok t)
  | |- counters_ok (set_conversations _ ?t) => change (counters_ok t)
  | |- counters_ok (set_projects _ ?t) => change (counters_ok t)
  | |- counters_ok (set_inputs _ ?t) => change (counters_ok t)
  | |- counters_ok (set_jobs _ ?t) => change (counters_ok t)
  | |- counters_ok (set_active _ ?t) => change (counters_ok t)
  | |- counters_ok (set_last_lane _ ?t) => change (counters_ok t)
  | |- counters_ok (set_binding _ ?t) => change (counters_ok t)
  | |- counters_ok (set_requests _ ?t) => change (counters_ok t)
  | |- counters_ok (with_inputs _ ?t) => change (counters_ok t)
  | |- counters_ok (with_op _ _ ?t) => change (counters_ok t)
  | |- counters_ok (add_charge _ ?t) => change (counters_ok t)
  | HB : Books _ ?x |- counters_ok ?x => apply (books_counters _ _ HB)
  | HS : settle_input _ _ _ = Ok ?x |- counters_ok ?x => apply (settle_input_counters _ _ _ _ HS)
  | HS : settle_inputs _ _ _ = Ok ?x |- counters_ok ?x => apply (settle_inputs_counters _ _ _ _ HS)
  | HC : counters_ok ?x |- counters_ok ?x => exact HC
  end.
(** The order revision of the state a bound speaks of. *)
Ltac orders :=
  repeat match goal with HB : Books _ _ |- _ => pose proof (bk_order _ _ HB); clear HB end; unfold counters_ok in *; cbn in *; lia.
Ltac counters := inv_run; repeat books_step; repeat counters_step; guards; try orders.
Lemma accept_counters s p owner kind frame s' : accept s p owner kind frame = Ok s' -> counters_ok s -> counters_ok s'.
Proof.
  intros Hr Hc. apply accept_effect in Hr as (a & s0 & s2 & d & _ & HB1 & HB2 & _ & _ & HB3 & _ & _ & _ & Hd & HB4).
  apply (books_counters _ _ HB4). assert (Books s s2) as HB by (etrans; [exact HB1|]; by etrans).
  pose proof (books_counters _ _ HB Hc) as Hc2. unfold dispatched_to_turn, accepted. destruct d as [[id q]|]; [|exact Hc2].
  destruct Hd as (_ & _ & Hn). apply order_counters; [|exact Hc2]. cbn. rewrite (bk_order _ _ HB). unfold counters_ok in Hc. lia.
Qed.
Lemma enqueue_entry_counters s p owner kind frame s' : enqueue_entry s p owner kind frame = Ok s' -> counters_ok s -> counters_ok s'.
Proof.
  unfold enqueue_entry. intros. inv_run. destruct (en_new_conversation p), (en_dispatch_request p); counters.
Qed.
Lemma apply_counters s record generation frame s' : apply s record generation frame = Ok s' -> counters_ok s -> counters_ok s'.
Proof.
  unfold apply. intros Hr Hc. apply obind_Ok in Hr as ([] & _ & Hr). destruct record; try done.
  all: eauto using accept_counters.
  all: unfold apply_binding, apply_owner, apply_registered, apply_alias, apply_renamed, enqueue, enqueue_person,
         apply_policy_revision, apply_policy_decision, job_cancel, apply_start, apply_request_started, apply_cancel, apply_text,
         tool_call, tool_result, job_result, reorder_input, apply_promoted, apply_input_decision, job_retention, execution_path,
         job_settled, job_intent, person_job_intent, terminal in Hr.
  all: try (inv_run; eapply enqueue_entry_counters; eassumption).
  all: try (counters; done).
  all: match goal with
       | p : InputDecision |- _ => inv_run; do 2 case_decide; counters
       | p : JobRetention |- _ => inv_run; destruct (jn_author p); counters
       | p : ExecutionPathRecord |- _ => inv_run; destruct (ep_action p); counters; destruct j; counters
       | p : JobIntent |- _ => inv_run; destruct (ji_origin p); [counters|]; inv_run; destruct (person_job _ _); counters
       | p : JobSettled |- _ => inv_run; destruct (uj_origin _); counters
       | p : PolicyDecision |- _ =>
           destruct (decision_call p) as [[[??]?]|]; [|destruct (pd_subject p); [done|]];
           inv_run; destruct (replay_decision _ _); counters
       end.
Qed.
End Counters.

Section Reached.
Context `{Hasher, Unicode}.
Lemma reached_counters ix s :
  reached ix s -> counters_ok s /\ 1 <= st_sequence s <= U64_MAX /\ st_revision s = st_sequence s.
Proof.
  induction 1 as [ix c p digest frame s Hg|ix s c record digest frame s' Hr IH Hw Hf|ix ix' s Hr IH Hroll]; [| |done].
  - unfold apply_next, genesis in Hg. inv_run. guards.
    match goal with HR : reserve _ = Ok _ |- _ => apply reserve_Ok in HR as (? & ? & -> & _) end.
    unfold generate in *. inv_run. unfold counters_ok, U64_MAX. cbn. repeat split; lia.
  - destruct IH as (Hc & Hs & Hrev).
    apply apply_frame_Ok in Hf as (s1 & b & n & Hq & Hm & _ & _ & He & _ & _ & Ha & -> & _).
    apply apply_counters in Ha; [|done]. rewrite evict_eq. split; [exact Ha|]. cbn. rewrite He, Hrev, Hq. split; lia.
Qed.
(** Clearing the delta releases its charge and keeps the live state. *)
Lemma live_charge_clear s : live_charge (clear_delta s) = live_charge s.
Proof.
  unfold live_charge. cbn. destruct (st_active s) as [id|]; cbn; [|done].
  destruct (st_operations s !! id) as [op|] eqn:E.
  - by rewrite (map_lookup_filter_Some_2 _ _ _ op).
  - rewrite map_lookup_filter_None_2; [done|]. by left.
Qed.
Lemma reached_memory ix s : reached ix s -> 0 <= st_delta_charge s /\ memory_charge s <= MAX_MEMORY.
Proof.
  induction 1 as [ix c p digest frame s Hg|ix s c record digest frame s' Hr IH Hw Hf|ix ix' s Hr IH Hroll].
  - unfold apply_next, genesis in Hg. inv_run.
    match goal with HR : reserve _ = Ok _ |- _ => apply reserve_Ok in HR as (? & ? & -> & ?) end.
    split; [|done]. unfold generate in *. inv_run. by cbn.
  - apply apply_frame_Ok in Hf as (s1 & b & n & _ & _ & _ & _ & _ & _ & _ & Ha & -> & Hm). split; [|exact Hm].
    apply apply_grows, gr_charge in Ha. rewrite evict_eq. cbn in *. unfold FRAME_CHARGE in Ha. lia.
  - unfold memory_charge in *. rewrite live_charge_clear. cbn. lia.
Qed.

(** The counters of a state, at their width. *)
Record counters (s : Replay) : Prop := {
  cn_sequence : u64 (st_sequence s); cn_revision : u64 (st_revision s); cn_owner : u64 (st_owner_generation s);
  cn_order : u64 (st_order_revision s); cn_follow : st_revision s = st_sequence s; cn_started : 1 <= st_sequence s;
  cn_owned : 1 <= st_owner_generation s;
}.
Definition in_memory (s : Replay) : Prop := memory_charge s <= MAX_MEMORY.
(** The reference lookup: in the sorted entries that a roll writes. *)
Definition delta_lookup (s : Replay) (key : Key) : Result (option Value) :=
  let? l := delta_entries s in Ok (find_key key l).
(** Two states with their indexes read the same under every key of replay. *)
Definition same_lookups (ix : JournalIndex) (s : Replay) (ix' : JournalIndex) (s' : Replay) : Prop :=
  forall key, key_ok key -> k_tag key <> TSegment -> @get ix' s' key = @get ix s key.


(** C36: Replay never holds more than the memory limit: the charge of the live
    state and of the delta together is at most 16 MiB in every reached state,
    before and after a roll. *)
Theorem memory_stays_bounded ix s : reached ix s -> in_memory s.
Proof. intros Hr. by apply (reached_memory ix). Qed.

(** The direct lookup is the lookup in the sorted delta: [delta_get]
    returns exactly the value that the entries a roll would write hold for the
    key. *)
Theorem delta_get_is_lookup s key l :
  key_ok key -> delta_entries s = Ok l -> delta_get s key = delta_lookup s key.
Proof. intros Hk Hl. unfold delta_lookup. rewrite Hl. by apply delta_get_find. Qed.

(** A roll changes no lookup: with the delta written to a run and cleared,
    every key that replay uses reads as it did before. *)
Theorem roll_changes_no_lookup ix ix' s :
  reached ix s -> rolled ix s ix' -> same_lookups ix s ix' (clear_delta s).
Proof.
  intros Hr Hroll key Hk Ht. apply rolled_get; [done|done| |done]. destruct (reached_turn ix s Hr) as (_ & Hinv & _). by eapply turn_inv_open.
Qed.
End Reached.

Module RollsDemo.
Import ReplayDemo.
Lemma memory_stays_bounded_witness : memory_charge (state 17) <= MAX_MEMORY.
Proof. apply (memory_stays_bounded no_runs), state_reached. vm_compute; reflexivity. Defined.
(** The project of the journal, looked up directly and in the sorted delta. *)
Lemma delta_get_is_lookup_witness :
  exists l, delta_entries (state 17) = Ok l /\ delta_get (state 17) (mkKey TProject (id 5) 0) = delta_lookup (state 17) (mkKey TProject (id 5) 0).
Proof.
  destruct (demo_ok (delta_entries (state 17))) as [l Hl]; [vm_compute; reflexivity|]. exists l. split; [exact Hl|].
  apply (delta_get_is_lookup (state 17) _ l); [|exact Hl]. unfold key_ok. split; by_decide.
Defined.
(** An index that the roll of the seventeenth state gives. *)
Definition rolled_index (l : list (Key * Value)) : JournalIndex := {|
  ix_get := fun key => match find_key key l with Some v => Ok (Some v) | None => Ok None end;
  ix_range := fun _ _ _ _ => Ok [];
  ix_frame := fun _ => Err Corrupt;
  ix_frame_owner := fun _ => Err Corrupt;
  ix_frame_command := fun _ => Err Corrupt;
|}.
Lemma roll_changes_no_lookup_witness :
  exists l, delta_entries (state 17) = Ok l /\
    @get (rolled_index l) (clear_delta (state 17)) (mkKey TProject (id 5) 0) = @get no_runs (state 17) (mkKey TProject (id 5) 0).
Proof.
  destruct (demo_ok (delta_entries (state 17))) as [l Hl]; [vm_compute; reflexivity|]. exists l. split; [exact Hl|].
  apply (roll_changes_no_lookup no_runs (rolled_index l) (state 17)).
  - apply state_reached. vm_compute; reflexivity.
  - exists l. split; [exact Hl|]. reflexivity.
  - unfold key_ok. split; by_decide.
  - done.
Defined.
End RollsDemo.
