(* ===== verification/Journal.v ===== *)
(** * Replay of one journal held in memory (conversation/state.rs).

    [MemoryIndex] is the index of a journal without runs: lookups find nothing
    and a frame is read from the bytes its locator names. [replay] walks the
    bytes frame by frame. The cancel flag is another thread's: the parameter
    [cancelled] gives what each poll reads. The record codec is the interface
    [RecordCodec]. *)
From Stdlib Require Import ZArith Lia String.
From stdpp Require Import prelude list gmap.
From S2P Require Import Prelude Collections PayloadId Codec Fields Envelope Index Run Policy PathGuard Types.
From S2P Require Import PolicyReplay Text Rules Tables Records JobRecords CallRecords RecordCodec ReplayState Replay Effects Delta Reach ReplayDemo Turns Queue.

(** [authority::active]. *)
Definition poll (flag : bool) : Result unit := if flag then Err Cancelled else Ok tt.

Section Memory.
Context `{Hasher, Unicode, !RecordCodec JournalRecord}.

(** [MemoryIndex::bytes], for the one segment 1. *)
Definition memory_bytes (b : bytes) (locator : Locator) : Result bytes :=
  if l_segment locator =? 1
  then ok_or Corrupt (get_range (l_offset locator) (l_offset locator + l_length locator) b)
  else Err Corrupt.
Definition memory_index (b : bytes) : JournalIndex := {|
  ix_get := fun _ => Ok None;
  ix_range := fun _ _ _ _ => Ok [];
  ix_frame := fun l => let? f := memory_bytes b l in verified_record f l;
  ix_frame_owner := fun l =>
    let? f := memory_bytes b l in
    let? (context, record, _) := verified_frame f l in
    Ok (owner_generation context, record);
  ix_frame_command := fun l => let? f := memory_bytes b l in verified_command f l;
|}.

Definition u32_try_from (n : Z) : option Z := if decide (n < 2 ^ 32) then Some n else None.
(** The body of [while offset < bytes.len()]: one frame is taken. *)
Definition replay_round (b : bytes) (state : option Replay) (offset : Z) : Result (Replay * Z) :=
  let? rest := sub offset (zlen b) b in
  let? e := envelope rest in
  let? start := ok_or Limit (u32_try_from offset) in
  let locator := mkLocator (sequence (e_context e)) 1 start (wrap 32 (e_length e)) in
  let? record := decode_record (e_kind e) (e_payload e) in
  let? s := @apply_next _ _ (memory_index b) state (e_context e) record (e_digest e) locator in
  Ok (s, offset + e_length e).
(** The loop; [None] when the rounds run out. *)
Fixpoint replay_loop (fuel : nat) (cancelled : nat -> bool) (polls : nat) (b : bytes) (state : option Replay) (offset : Z) :
    option (Result Replay) :=
  match fuel with
  | O => None
  | S fuel =>
      if offset <? zlen b then
        match (let? _ := poll (cancelled polls) in replay_round b state offset) with
        | Ok (s, offset) => replay_loop fuel cancelled (S polls) b (Some s) offset
        | Err e => Some (Err e)
        | Panic => Some Panic
        end
      else Some (let? _ := poll (cancelled polls) in ok_or Empty state)
  end.
Definition replay (b : bytes) (cancelled : nat -> bool) : option (Result Replay) :=
  match poll (cancelled 0%nat) with
  | Ok _ => if bool_decide (b = []) then Some (Err Empty) else replay_loop (S (length b)) cancelled 1 b None 0
  | Err e => Some (Err e)
  | Panic => Some Panic
  end.

(** ** The loop. *)
Lemma envelope_length b e : envelope b = Ok e -> HEADER + TRAILER <= e_length e <= zlen b.
Proof.
  unfold envelope. intros He. inv_res He. injection He as <-. cbn [e_length]. lia.
Qed.
Lemma replay_round_Ok b state offset s offset' :
  0 <= offset -> replay_round b state offset = Ok (s, offset') <->
  exists e record, offset <= zlen b /\ envelope (zdrop offset b) = Ok e /\ offset < 2 ^ 32 /\
    decode_record (e_kind e) (e_payload e) = Ok record /\
    @apply_next _ _ (memory_index b) state (e_context e) record (e_digest e)
      (mkLocator (sequence (e_context e)) 1 offset (wrap 32 (e_length e))) = Ok s /\
    offset' = offset + e_length e.
Proof.
  intros Ho. unfold replay_round, u32_try_from. split.
  - intros Hr. inv_res Hr. apply sub_Ok in Ha as [[Hl _] ->]. destruct (decide (offset < 2 ^ 32)); [|done]. cbn in *. inv_ok. subst.
    exists a0, a2. rewrite ztake_all in Ha0 by (rewrite zlen_zdrop; lia). split; [lia|]. done.
  - intros (e & record & Hl & He & Hb & Hd & Ha & ->). rewrite sub_in by lia. cbn. rewrite ztake_all by (rewrite zlen_zdrop; lia).
    rewrite He. cbn. rewrite decide_True by done. cbn. rewrite Hd. cbn. by rewrite Ha.
Qed.
Lemma replay_loop_fuel fuel cancelled polls b state offset :
  0 <= offset -> (Z.to_nat (zlen b - offset) < fuel)%nat -> replay_loop fuel cancelled polls b state offset <> None.
Proof.
  revert polls state offset. induction fuel as [|fuel IH]; intros polls state offset Ho Hf; [lia|]. cbn.
  destruct (Z.ltb_spec offset (zlen b)) as [Hlt|]; [|done]. destruct (poll _); cbn; [|done|done].
  destruct (replay_round b state offset) as [[s offset']| |] eqn:Hr; [|done|done].
  apply replay_round_Ok in Hr as (e & record & _ & He & _ & _ & _ & ->); [|done].
  apply envelope_length in He. rewrite zlen_zdrop in He by lia. unfold HEADER, TRAILER in He. apply IH; lia.
Qed.

(** The frames that a walk over the bytes finds. *)
Fixpoint frames_at (offset : Z) (l : list (Envelope * JournalRecord)) : list JournalFrame :=
  match l with
  | [] => []
  | (e, record) :: l =>
      mkFrame (e_context e) record (e_digest e) (mkLocator (sequence (e_context e)) 1 offset (wrap 32 (e_length e)))
      :: frames_at (offset + e_length e) l
  end.
Definition envelope_bytes (e : Envelope) : bytes := frame_bytes (e_context e) (e_kind e) (e_payload e).
(** What the frame parser and the record decoder make sure of. *)
Record accepted (er : Envelope * JournalRecord) : Prop := {
  ac_record : decode_record (e_kind er.1) (e_payload er.1) = Ok er.2;
  ac_digest : e_digest er.1 = sha256 (frame_body (e_context er.1) (e_kind er.1) (e_payload er.1));
  ac_context : context_ok (e_context er.1);
  ac_bytes : bytes_ok (e_payload er.1);
  ac_length : e_length er.1 = HEADER + zlen (e_payload er.1) + TRAILER;
  ac_size : e_length er.1 <= MAX_FRAME;
  ac_revision : expected_revision (e_context er.1) + 1 <= U64_MAX;
  ac_installation : installation_id (e_context er.1) <> zeros 16;
  ac_transition : transition_id (e_context er.1) <> zeros 16;
  ac_owner : owner_generation (e_context er.1) <> 0;
}.
Lemma replay_loop_sound fuel cancelled polls b state offset s :
  0 <= offset <= zlen b -> bytes_ok b -> HasherOk ->
  replay_loop fuel cancelled polls b state offset = Some (Ok s) ->
  exists l, zdrop offset b = concat ((fun er => envelope_bytes er.1) <$> l) /\
    Forall accepted l /\
    @apply_frames _ _ (memory_index b) state (frames_at offset l) = Ok (Some s).
Proof.
  revert polls state offset. induction fuel as [|fuel IH]; intros polls state offset Ho Hb Hok Hl; cbn in Hl; [done|].
  destruct (Z.ltb_spec offset (zlen b)) as [Hlt|Hge].
  - destruct (poll _) as [[]| |]; cbn in Hl; [|done|done].
    destruct (replay_round b state offset) as [[s1 offset']| |] eqn:Hr; [|done|done].
    apply replay_round_Ok in Hr as (e & record & _ & He & _ & Hd & Ha & ->); [|lia].
    pose proof (envelope_length _ _ He) as Hlen. rewrite zlen_zdrop in Hlen by lia. unfold HEADER, TRAILER in Hlen.
    apply IH in Hl as (l & Hdrop & Hdec & Hap); [|lia|done|done]. exists ((e, record) :: l).
    destruct (envelope_sound _ _ (bytes_ok_zdrop offset b Hb) He) 
      as (Hbytes & _ & ? & _ & ? & ? & ? & ? & ? & ? & ? & ?).
    split; [|split; [by constructor; [by split|]|cbn; by rewrite Ha]]. cbn [fmap list_fmap concat fst].
    change (envelope_bytes e) with (frame_bytes (e_context e) (e_kind e) (e_payload e)). rewrite <- Hbytes.
    rewrite <- (ztake_zdrop (e_length e) (zdrop offset b)) at 1. f_equal.
    rewrite zdrop_zdrop, Z.add_comm by lia. exact Hdrop.
  - destruct (poll _) as [[]| |]; cbn in Hl; [|done|done]. destruct state as [s0|]; [|done]. injection Hl as ->.
    exists []. split; [|done]. assert (zlen (zdrop offset b) = 0) as E by (rewrite zlen_zdrop; lia).
    destruct (zdrop offset b); [done|]. unfold zlen in E. cbn in E. lia.
Qed.

(** ** Frames as the writer lays them out. *)
Definition frame_digest (f : bytes) : Hash := ztake 32 (zdrop (zlen f - 40) f).
Fixpoint written_frames (offset : Z) (l : list (FrameContext * JournalRecord)) (fs : list bytes) : list JournalFrame :=
  match l, fs with
  | (c, record) :: l, f :: fs =>
      mkFrame c record (frame_digest f) (mkLocator (sequence c) 1 offset (zlen f)) :: written_frames (offset + zlen f) l fs
  | _, _ => []
  end.
Context `{!HasherOk} (wf : JournalRecord -> Prop) `{!RecordCodecOk JournalRecord wf}.
Lemma frame_digest_bytes c k p : context_ok c -> frame_digest (frame_bytes c k p) = sha256 (frame_body c k p).
Proof.
  intros Hc. unfold frame_digest. rewrite frame_bytes_len by done. unfold frame_bytes. pose proof (sha256_array (frame_body c k p)).
  rewrite zdrop_app_l by (rewrite frame_body_len by done; unfold HEADER, TRAILER; lia). rewrite ztake_app_l; [done|]. by apply array_len.
Qed.
Definition written (cr : FrameContext * JournalRecord) (f : bytes) : Prop :=
  context_ok cr.1 /\ wf cr.2 /\ encode_frame cr.1 cr.2 = Ok f.
Lemma written_envelope c record f tail :
  written (c, record) f ->
  exists e, envelope (f ++ tail) = Ok e /\ e_context e = c /\ decode_record (e_kind e) (e_payload e) = Ok record /\
    e_digest e = frame_digest f /\ e_length e = zlen f /\ HEADER + TRAILER <= zlen f <= MAX_FRAME.
Proof.
  intros (Hc & Hw & He). cbn [fst snd] in *. apply encode_frame_Ok in He as (p & Hp & -> & (?&?&?&?) & Hsz & Hrev).
  rewrite envelope_frame by (done || apply kind_u16). eexists. split; [done|]. cbn [e_context e_kind e_payload e_digest e_length]. split; [done|].
  split; [by apply decode_payload|]. rewrite frame_bytes_len by done. pose proof (zlen_nonneg p). split; [by rewrite frame_digest_bytes|unfold HEADER, TRAILER in *; lia].
Qed.
Lemma written_count l fs : Forall2 written l fs -> (length fs <= length (concat fs))%nat.
Proof.
  induction 1 as [|[c r] f l fs Hw Hf IH]; [done|]. cbn. rewrite length_app.
  destruct (written_envelope c r f [] Hw) as (_ & _ & _ & _ & _ & _ & Hb & _). unfold zlen, HEADER, TRAILER in Hb. lia.
Qed.
(** The loop takes the written frames one by one. *)
Lemma replay_loop_written l fs cancelled pre tail polls fuel state :
  (forall n, cancelled n = false) -> Forall2 written l fs -> zlen (pre ++ concat fs ++ tail) < 2 ^ 32 ->
  replay_loop (length fs + fuel) cancelled polls (pre ++ concat fs ++ tail) state (zlen pre) =
  match @apply_frames _ _ (memory_index (pre ++ concat fs ++ tail)) state (written_frames (zlen pre) l fs) with
  | Ok s => replay_loop fuel cancelled (length fs + polls) (pre ++ concat fs ++ tail) s (zlen pre + zlen (concat fs))
  | Err e => Some (Err e)
  | Panic => Some Panic
  end.
Proof.
  intros Hnc Hf. revert pre polls state. induction Hf as [|[c record] f l fs Hw Hf IH]; intros pre polls state Hlen.
  { cbn. by rewrite Z.add_0_r. }
  destruct (written_envelope c record f (concat fs ++ tail) Hw) as (e & He & Hc & Hd & Hdig & Hl & Hb).
  set (b := pre ++ concat (f :: fs) ++ tail) in *. assert (b = pre ++ f ++ concat fs ++ tail) as Eb by (unfold b; cbn; by rewrite <- app_assoc).
  assert (zlen b = zlen pre + zlen f + zlen (concat fs ++ tail)) as Lb by (rewrite Eb, !zlen_app; lia).
  pose proof (zlen_nonneg pre). pose proof (zlen_nonneg (concat fs ++ tail)). unfold HEADER, TRAILER, MAX_FRAME in Hb.
  assert (zdrop (zlen pre) b = f ++ concat fs ++ tail) as Hdrop by (rewrite Eb; by apply zdrop_app_l).
  cbn [length Nat.add replay_loop]. rewrite (proj2 (Z.ltb_lt _ _)) by lia. rewrite Hnc. cbn [poll obind].
  assert (replay_round b state (zlen pre) =
    (let? s := @apply_next _ _ (memory_index b) state c record (frame_digest f) (mkLocator (sequence c) 1 (zlen pre) (zlen f)) in
     Ok (s, zlen pre + zlen f))) as ->.
  { unfold replay_round, u32_try_from. rewrite sub_in by lia. cbn [obind]. rewrite ztake_all by (rewrite zlen_zdrop; lia).
    rewrite Hdrop, He. cbn [obind]. rewrite decide_True by lia. cbn [ok_or obind]. rewrite Hd. cbn [obind].
    rewrite Hc, Hdig, Hl, wrap_small by (unfold uint; lia). done. }
  cbn [written_frames apply_frames fr_context fr_record fr_digest fr_locator].
  destruct (@apply_next _ _ (memory_index b) _ _ _ _ _) as [s| |]; cbn [obind]; [|done|done].
  assert (b = (pre ++ f) ++ concat fs ++ tail) as Eb2 by (by rewrite Eb, <- app_assoc).
  rewrite Eb2, <- zlen_app. rewrite IH by (by rewrite <- Eb2). rewrite <- Eb2, zlen_app.
  cbn [concat]. rewrite zlen_app, Nat.add_succ_r. by rewrite Z.add_assoc.
Qed.

(** ** The chain of accepted frames. *)
Definition chained (l : list JournalFrame) (installation : Id) : Prop :=
  forall i f, l !! i = Some f ->
    sequence (fr_context f) = Z.of_nat i + 1 /\ installation_id (fr_context f) = installation /\
    prior_digest (fr_context f) = match i with O => zeros 32 | S j => match l !! j with Some g => fr_digest g | None => [] end end.
Lemma apply_frames_chain (ix : JournalIndex) l s :
  apply_frames None l = Ok (Some s) ->
  chained l (st_installation_id s) /\ st_sequence s = zlen l /\ last (fr_digest <$> l) = Some (st_last_digest s).
Proof.
  revert s. induction l as [|f l IH] using rev_ind; intros s Hs; [done|]. rewrite apply_frames_snoc in Hs.
  inv_res Hs. injection Hs as <-. rewrite fmap_app, zlen_app. cbn [fmap list_fmap]. rewrite last_snoc. destruct a as [s0|].
  - destruct (IH s0 Ha) as (Hch & Hseq & Hlast). cbn in Ha0.
    pose proof (frame_grows _ _ _ _ _ _ Ha0) as (_ & _ & _ & Hinst).
    apply apply_frame_Ok in Ha0 as (s1 & b & n & Hq & _ & _ & Hp & _ & Hi & _ & _ & -> & _).
    rewrite evict_eq in *. cbn in Hinst |- *. split; [|split; [rewrite Hq, Hseq; done|done]].
    intros i g Hg. rewrite Hinst. apply lookup_app_Some in Hg as [Hg|[Hge Hg]].
    + destruct (Hch i g Hg) as (? & ? & Hpr). split; [done|]. split; [done|]. rewrite Hpr. destruct i as [|j]; [done|].
      apply lookup_lt_Some in Hg. by rewrite lookup_app_l by lia.
    + apply list_lookup_singleton_Some in Hg as [E <-]. assert (i = length l) as -> by lia.
      split; [rewrite Hq, Hseq; done|]. split; [done|]. rewrite Hp. destruct (length l) as [|j] eqn:El; [by destruct l|].
      rewrite lookup_app_l by lia. rewrite last_lookup, length_fmap, El, list_lookup_fmap in Hlast. cbn in Hlast.
      destruct (l !! j) as [g|]; [by injection Hlast|done].
  - assert (l = []) as ->. { destruct l as [|g l] using rev_ind; [done|]. rewrite apply_frames_snoc in Ha. by inv_run. }
    destruct (fr_record f) eqn:Er; try done. apply genesis_state in Ha0 as (_ & _ & _ & _ & _ & Hseq & Hd & Hi & _ & _ & _ & Hc & Hp & _).
    cbn. split; [|split; [done|by rewrite Hd]]. intros i g Hg. apply list_lookup_singleton_Some in Hg as [-> <-].
    by rewrite Hc, Hp, Hi.
Qed.

(** Replay of written frames. *)
Lemma replay_written l fs cancelled :
  (forall n, cancelled n = false) -> Forall2 written l fs -> concat fs <> [] -> zlen (concat fs) < 2 ^ 32 ->
  replay (concat fs) cancelled =
  Some (let? s := @apply_frames _ _ (memory_index (concat fs)) None (written_frames 0 l fs) in ok_or Empty s).
Proof.
  intros Hnc Hf Hne Hlen. unfold replay. rewrite Hnc. cbn [poll]. rewrite bool_decide_false by done.
  pose proof (replay_loop_written l fs cancelled [] [] 1) as Hw. cbn [app] in Hw. rewrite app_nil_r in Hw.
  pose proof (written_count l fs Hf) as Hfl.
  replace (S (length (concat fs))) with (length fs + S (length (concat fs) - length fs))%nat by lia.
  change 0 with (zlen (@nil Z)). rewrite Hw by done. change (zlen (@nil Z)) with 0. rewrite Z.add_0_l.
  destruct (@apply_frames _ _ _ None _) as [s| |]; cbn [obind]; [|done|done]. cbn [replay_loop].
  rewrite Z.ltb_irrefl, Hnc. cbn [poll obind]. done.
Qed.

(** ** Properties of the replay of a journal. *)

(** C33: Replay of a journal always ends, whatever the bytes and whenever the
    flag is set: each round of the loop takes a whole frame, so the loop never
    runs out of rounds. *)
Theorem replay_terminates b cancelled : replay b cancelled <> None.
Proof.
  unfold replay. destruct (poll _); [|done|done]. case_bool_decide; [done|].
  apply replay_loop_fuel; [done|]. unfold zlen. lia.
Qed.

(** Replay of the bytes of written frames is the application of their
    records in order, each with its own context, digest and place in the file;
    the first error ends it, and no prefix of the journal is returned. *)
Theorem replay_of_written_frames l fs cancelled :
  (forall n, cancelled n = false) -> Forall2 written l fs -> concat fs <> [] -> zlen (concat fs) < 2 ^ 32 ->
  replay (concat fs) cancelled =
  Some (let? s := @apply_frames _ _ (memory_index (concat fs)) None (written_frames 0 l fs) in ok_or Empty s).
Proof. apply replay_written. Qed.

(** C34: A torn last frame is reported and not swallowed: when the complete
    frames before it replay, the answer is [IncompleteTail]. *)
Theorem torn_journal_is_incomplete l fs c record f n cancelled s :
  (forall n, cancelled n = false) -> Forall2 written l fs -> written (c, record) f -> 0 < n < zlen f ->
  zlen (concat fs ++ ztake n f) < 2 ^ 32 ->
  @apply_frames _ _ (memory_index (concat fs ++ ztake n f)) None (written_frames 0 l fs) = Ok s ->
  replay (concat fs ++ ztake n f) cancelled = Some (Err IncompleteTail).
Proof.
  intros Hnc Hf Hw Hn Hlen Hs. assert (zlen (ztake n f) = n) as Ln by (apply zlen_ztake; lia).
  unfold replay. rewrite Hnc. cbn [poll]. rewrite bool_decide_false by (intros E%app_nil; destruct E as [_ E]; rewrite E in Ln; unfold zlen in Ln; cbn in Ln; lia).
  pose proof (replay_loop_written l fs cancelled [] (ztake n f) 1) as Hl. cbn [app] in Hl.
  pose proof (written_count l fs Hf) as Hfl.
  replace (S (length (concat fs ++ ztake n f))) with (length fs + S (length (concat fs ++ ztake n f) - length fs))%nat
    by (rewrite length_app; lia).
  change 0 with (zlen (@nil Z)). rewrite Hl by done. change (zlen (@nil Z)) with 0. rewrite Z.add_0_l, Hs. cbn [replay_loop].
  rewrite (proj2 (Z.ltb_lt _ _)) by (rewrite zlen_app; lia). rewrite Hnc. cbn [poll obind]. unfold replay_round.
  pose proof (zlen_nonneg (concat fs)). rewrite sub_end by (rewrite ?zlen_app; lia). cbn [obind].
  destruct Hw as (Hc & Hwf & He). by rewrite (torn_frame wf c record f n) by (done || lia).
Qed.
End Memory.

(** ** Replay with the record codec. *)
Section Exact.
Context `{Hasher, Unicode, !HasherOk}.
Abbreviation frame_of := (fun er : Envelope * JournalRecord => envelope_bytes er.1).
Abbreviation item_of := (fun er : Envelope * JournalRecord => (e_context er.1, er.2)).
(** An accepted frame of the chain is one that the writer writes. *)
Lemma accepted_written er :
  accepted er -> sequence (e_context er.1) <> 0 -> written record_ok (item_of er) (frame_of er).
Proof.
  intros [Hd _ Hc Hb Hl Hs Hr Hi Ht Ho] Hseq. apply decode_journal_record_iff in Hd as (Hk & Hok & Hp & _); [|done].
  split; [done|]. split; [done|]. apply encode_frame_Ok. exists (e_payload er.1). cbn [record_payload record_kind record_codec fst snd].
  split; [done|]. split; [by rewrite Hk|]. split; [done|]. split; [lia|done].
Qed.
Lemma frames_written l offset :
  Forall accepted l -> frames_at offset l = written_frames offset (item_of <$> l) (frame_of <$> l).
Proof.
  intros Hl. revert offset. induction Hl as [|[e r] l Ha _ IH]; intros offset; [done|].
  cbn [frames_at fmap list_fmap written_frames fst snd]. destruct Ha. cbn [fst snd] in *.
  unfold envelope_bytes at 1 2 3. rewrite frame_digest_bytes, frame_bytes_len by done. rewrite <- ac_digest0, <- ac_length0.
  pose proof (zlen_nonneg (e_payload e)). rewrite wrap_small by (unfold uint, HEADER, TRAILER, MAX_FRAME in *; lia). by rewrite IH.
Qed.
Lemma chain_sequence l installation er :
  chained (frames_at 0 l) installation -> er ∈ l -> sequence (e_context er.1) <> 0.
Proof.
  intros Hch. assert (forall offset i er, l !! i = Some er -> exists f, frames_at offset l !! i = Some f /\ fr_context f = e_context er.1) as Hat.
  { clear. induction l as [|[e r] l IH]; intros offset i er Hi; [done|]. destruct i as [|i]; cbn in *; [|by apply IH].
    injection Hi as <-. by eexists. }
  intros [i Hi]%list_elem_of_lookup. destruct (Hat 0 i er Hi) as (f & Hf & <-). destruct (Hch i f Hf) as [-> _]. lia.
Qed.
Lemma replay_Ok b cancelled s :
  bytes_ok b -> replay b cancelled = Some (Ok s) ->
  exists l fs, b = concat fs /\ Forall2 (written record_ok) l fs /\
    @apply_frames _ _ (memory_index b) None (written_frames 0 l fs) = Ok (Some s).
Proof.
  intros Hb Hr. unfold replay in Hr. destruct (poll _) as [[]| |]; [|done..]. case_bool_decide; [done|].
  pose proof (zlen_nonneg b). destruct (replay_loop_sound _ cancelled 1 b None 0 s ltac:(lia) Hb _ Hr) as (l & Hbytes & Hl & Ha).
  change (zdrop 0 b) with b in Hbytes. destruct (apply_frames_chain _ _ _ Ha) as (Hch & _).
  exists (item_of <$> l), (frame_of <$> l). split; [done|]. split; [|by rewrite <- frames_written].
  apply Forall2_fmap_2, Forall_Forall2_diag, Forall_forall. intros er Her. rewrite Forall_forall in Hl.
  apply accepted_written; [by apply Hl|by eapply chain_sequence].
Qed.
Lemma record_offsets r : record_ok r -> offsets_ok r.
Proof. destruct r; cbn; try done; intros []; unfold uint in *; lia. Qed.
Lemma written_offsets offset l fs :
  Forall2 (written record_ok) l fs -> Forall (fun f => offsets_ok (fr_record f)) (written_frames offset l fs).
Proof.
  intros Hw. revert offset. induction Hw as [|[c r] f l fs (_ & Hr & _) _ IH]; intros offset; constructor; [by apply record_offsets|apply IH].
Qed.


End Exact.

(** ** A journal of bytes: the first frames of the demonstration, written and replayed. *)
Module JournalDemo.
Import ReplayDemo.
#[export] Instance hasher_ok : @HasherOk hasher := poly_hasher_ok.
Definition next_context (n : Z) (prior : Hash) : FrameContext := mkContext (id 1) (id (100 + n)) n prior (n - 1) 1.
Fixpoint write_all (n : Z) (prior : Hash) (l : list JournalRecord) : list (FrameContext * JournalRecord * bytes) :=
  match l with
  | [] => []
  | r :: l =>
      match encode_frame (next_context n prior) r with
      | Ok f => (next_context n prior, r, f) :: write_all (n + 1) (frame_digest f) l
      | _ => []
      end
  end.
Definition file : list (FrameContext * JournalRecord * bytes) := write_all 1 (zeros 32) (take 8 records).
Definition items : list (FrameContext * JournalRecord) := file.*1.
Definition frames : list bytes := file.*2.
Definition never (polls : nat) : bool := false.
Lemma id_ok n : u8 n -> Id_ok (id n).
Proof.
  intros Hn. split; [reflexivity|]. apply bytes_ok_app. split; [by_decide|]. by apply bytes_ok_cons; [|constructor].
Qed.
Lemma next_context_ok n prior : 1 <= n <= 100 -> Hash_ok prior -> context_ok (next_context n prior).
Proof.
  intros Hn Hp. refine (conj (id_ok 1 _) (conj (id_ok _ _) (conj _ (conj Hp (conj _ _))))); unfold next_context, uint;
    cbn [sequence expected_revision owner_generation]; lia.
Qed.
Lemma write_all_written n prior l :
  1 <= n -> n + zlen l <= 100 -> Hash_ok prior -> Forall record_ok l ->
  Forall2 (written record_ok) (write_all n prior l).*1 (write_all n prior l).*2.
Proof.
  intros H1 Hb Hp Hl. revert n prior H1 Hb Hp. induction Hl as [|r l Hr _ IH]; intros n prior H1 Hb Hp; [constructor|].
  rewrite zlen_cons in Hb. pose proof (zlen_nonneg l). cbn [write_all].
  destruct (encode_frame _ _) as [f| |] eqn:He; [|constructor..]. cbn [fmap list_fmap fst snd].
  pose proof (next_context_ok n prior ltac:(lia) Hp) as Hc. constructor; [done|]. apply IH; [lia|lia|].
  apply encode_frame_Ok in He as (p & _ & -> & _). rewrite frame_digest_bytes by done. apply sha256_array.
Qed.
Lemma items_written : Forall2 (written record_ok) items frames.
Proof.
  apply write_all_written; [done|by vm_compute|by_decide|].
  cbn [take records]. repeat apply Forall_cons_2; [..|apply Forall_nil_2]; cbn [record_ok].
  all: constructor.
  all: first [by_decide|by intros ? ?; simplify_eq/=; by_decide|intros ? ? ?; by simplify_eq/=|idtac].
  constructor; by_decide.
Qed.
Lemma file_size : concat frames <> [] /\ zlen (concat frames) < 2 ^ 32 /\ bytes_ok (concat frames).
Proof. split; [|split; by_decide]. intros E%(f_equal length). by vm_compute in E. Qed.
Lemma replay_of_written_frames_witness :
  replay (concat frames) never =
  Some (let? s := @apply_frames _ _ (memory_index (concat frames)) None (written_frames 0 items frames) in ok_or Empty s).
Proof.
  destruct file_size as (Hne & Hl & _).
  exact (replay_of_written_frames record_ok items frames never (fun _ => eq_refl) items_written Hne Hl).
Defined.
(** The last of the eight frames is cut after 200 bytes. *)
Definition last_frame : bytes := nth 7 frames [].
Definition torn : bytes := concat (take 7 frames) ++ ztake 200 last_frame.
Lemma seven_written : Forall2 (written record_ok) (take 7 items) (take 7 frames).
Proof. apply Forall2_take, items_written. Qed.
Lemma last_frame_written : exists c r, written record_ok (c, r) last_frame.
Proof.
  assert (7 < length items)%nat as Hi by (apply Nat.ltb_lt; vm_compute; reflexivity).
  destruct (lookup_lt_is_Some_2 items 7 Hi) as [[c r] Hc]. exists c, r.
  destruct (Forall2_lookup_l _ _ _ _ _ items_written Hc) as (f & Hf & Hw).
  unfold last_frame. by rewrite (nth_lookup_Some _ _ _ _ Hf).
Qed.
Lemma torn_prefix_replays : exists s, @apply_frames _ _ (memory_index torn) None (written_frames 0 (take 7 items) (take 7 frames)) = Ok s.
Proof. apply demo_ok. vm_compute. reflexivity. Qed.
Lemma torn_sizes : 0 < 200 < zlen last_frame /\ zlen torn < 2 ^ 32.
Proof. by_decide. Qed.
Lemma torn_journal_is_incomplete_witness : replay torn never = Some (Err IncompleteTail).
Proof.
  destruct last_frame_written as (c & r & Hw). destruct torn_prefix_replays as [s Hs]. destruct torn_sizes as [H1 H2].
  exact (torn_journal_is_incomplete record_ok (take 7 items) (take 7 frames) c r last_frame 200 never s
    (fun _ => eq_refl) seven_written Hw H1 H2 Hs).
Defined.
Lemma file_replays : exists s, replay (concat frames) never = Some (Ok s).
Proof.
  assert (match replay (concat frames) never with Some (Ok _) => true | _ => false end = true) as E by (vm_compute; reflexivity).
  destruct (replay _ _) as [[s| |]|]; by eauto.
Qed.
End JournalDemo.
