(* ===== verification/Sync.v ===== *)
(** * Writers and readers in step.

    A writer function is a sequence of statements [w.u64(x); w.string(s, n)?]:
    here a [put], a function on the writer that may fail. [puts c e] says that
    [c] appends [e]. [in_step c p a] says that what [c] writes [p] reads back as
    [a]; it is proved field by field along the two texts at once. [yields p Q]
    is the converse: what [p] returns was in the bytes it took. It asks nothing
    of a reader that fails, so a reader may call an index. Loops that push to a
    vector or insert into a [BTreeMap] are [r_push] and [r_entries]. *)
From Stdlib Require Import ZArith Lia String.
From stdpp Require Import prelude list gmap sorting.
From S2P Require Import Prelude Collections Codec Fields Policy Types Rules Tables.

(** ** Writer statements. *)
Definition put : Type := Writer -> Result Writer.
Definition put_seq (a b : put) : put := fun w => let? w := a w in b w.
Notation "a ;> b" := (put_seq a b) (at level 60, right associativity) : rust_scope.
Definition put_none : put := fun w => Ok w.
Definition put_bytes (b : bytes) : put := fun w => Ok (w_bytes w b).
Definition put_byte (n : Z) : put := fun w => Ok (w_byte w n).
Definition put_u16 (n : Z) : put := fun w => Ok (w_u16 w n).
Definition put_u32 (n : Z) : put := fun w => Ok (w_u32 w n).
Definition put_u64 (n : Z) : put := fun w => Ok (w_u64 w n).
Definition put_string (s : bytes) (limit : Z) : put := fun w => w_string w s limit.
Definition put_optional (o : option bytes) : put := fun w => Ok (w_optional w o).
(** [w.byte(u8::from(b))]. *)
Definition put_flag (b : bool) : put := put_byte (Z.b2z b).
Definition put_require (b : bool) : put := fun w => let? _ := require b in Ok w.
(** [if let Some(a) = o { f(a) }]. *)
Definition put_if {A} (f : A -> put) (o : option A) : put := match o with Some a => f a | None => put_none end.
(** [w.byte(u8::from(o.is_some())); if let Some(a) = o { f(a) }]. *)
Definition put_option {A} (f : A -> put) (o : option A) : put := put_flag (is_some o) ;> put_if f o.
(** [for a in l { f(a)?; }]. *)
Definition put_each {A} (f : A -> put) (l : list A) : put := foldr (fun a c => f a ;> c) put_none l.
(** [l.len() as u32]. *)
Definition put_len {A} (l : list A) : put := put_u32 (wrap 32 (zlen l)).

(** ** Reader loops. *)
Definition r_option {A} (p : reader A) : reader (option A) :=
  read f := r_flag in if f then read a := p in rret (Some a) else rret None.
(** [for _ in 0..n { let a = p?; require(check(l, a))?; l.push(a); }]. *)
Fixpoint r_push {A} (n : nat) (p : reader A) (check : list A -> A -> bool) (l : list A) : reader (list A) :=
  match n with
  | O => rret l
  | S n => read a := p in read _ := rlift (require (check l a)) in r_push n p check (l ++ [a])
  end.
(** [m.last_key_value()]. *)
Definition last_key `{Countable K, Cmp K} {V} (m : gmap K V) : option K := last (btree_keys m).
(** [for _ in 0..n { let (k, v) = p?; require(m.last_key_value() < k)?; m.insert(k, v); }]. *)
Fixpoint r_entries `{Countable K, Cmp K} {V} (n : nat) (p : reader (K * V)) (m : gmap K V) : reader (gmap K V) :=
  match n with
  | O => rret m
  | S n =>
      read kv := p in
      read _ := rlift (require (is_none_or (fun k => ltb k kv.1) (last_key m))) in
      r_entries n p (<[kv.1 := kv.2]> m)
  end.

(** ** What writers append. *)
Definition puts (c : put) (e : bytes) : Prop := forall w, c w = Ok (w ++ e).
Lemma puts_seq a b e1 e2 : puts a e1 -> puts b e2 -> puts (a ;> b) (e1 ++ e2).
Proof. intros Ha Hb w. unfold put_seq. rewrite Ha. cbn [obind]. rewrite Hb. by rewrite app_assoc. Qed.
Lemma puts_none : puts put_none [].
Proof. intros w. by rewrite app_nil_r. Qed.
Lemma puts_seq_none c d e : puts c e -> puts d [] -> puts (c ;> d) e.
Proof. intros Hc Hd. pose proof (puts_seq _ _ _ _ Hc Hd) as Hp. by rewrite app_nil_r in Hp. Qed.
Lemma puts_none_seq c d e : puts c [] -> puts d e -> puts (c ;> d) e.
Proof. intros Hc Hd. exact (puts_seq _ _ [] e Hc Hd). Qed.
Lemma puts_bytes b : puts (put_bytes b) b.
Proof. done. Qed.
Lemma puts_byte n : puts (put_byte n) [n].
Proof. done. Qed.
Lemma puts_flag b : puts (put_flag b) [Z.b2z b].
Proof. done. Qed.
Lemma puts_u16 n : puts (put_u16 n) (be_bytes 2 n).
Proof. done. Qed.
Lemma puts_u32 n : puts (put_u32 n) (be_bytes 4 n).
Proof. done. Qed.
Lemma puts_u64 n : puts (put_u64 n) (be_bytes 8 n).
Proof. done. Qed.
Lemma puts_string s limit : zlen s <= limit -> limit < 2 ^ 32 -> puts (put_string s limit) (string_field s).
Proof. intros ?? w. by apply w_string_field. Qed.
Lemma puts_optional o : puts (put_optional o) (option_field o).
Proof. intros w. unfold put_optional. by rewrite w_optional_field. Qed.
Lemma puts_require b : b = true -> puts (put_require b) [].
Proof. intros -> w. cbn. by rewrite app_nil_r. Qed.
Lemma puts_inj c e e' : puts c e -> puts c e' -> e = e'.
Proof. intros Hc Hc'. specialize (Hc []). specialize (Hc' []). cbn in *. congruence. Qed.
Lemma puts_len {A} (l : list A) n : u32 n -> zlen l = n -> puts (put_len l) (be_bytes 4 n).
Proof. intros Hn <-. unfold put_len. rewrite wrap_small by done. apply puts_u32. Qed.

(** ** Readers of what was written. *)
Definition in_step {A} (c : put) (p : reader A) (a : A) : Prop := exists e, puts c e /\ reads p e a.
Section InStep.
Context {A B : Type}.
Implicit Types (p : reader A) (k : A -> reader B).
Lemma step_bind c d p k a b : in_step c p a -> in_step d (k a) b -> in_step (c ;> d) (rbind p k) b.
Proof. intros (e & ? & ?) (e' & ? & ?). exists (e ++ e'). split; [by apply puts_seq|by eapply reads_bind]. Qed.
Lemma step_last c p k a b : in_step c p a -> in_step put_none (k a) b -> in_step c (rbind p k) b.
Proof.
  intros (e & Hc & Hp) (e' & Hn & Hk). exists e. split; [done|]. eapply reads_last; [done|].
  by rewrite <- (puts_inj _ _ _ Hn puts_none).
Qed.
Lemma step_ret (a : A) : in_step put_none (rret a) a.
Proof. exists []. split; [apply puts_none|apply reads_ret]. Qed.
Lemma step_lift c v k a b : v = Ok a -> in_step c (k a) b -> in_step c (rbind (rlift v) k) b.
Proof. intros -> (e & ? & ?). exists e. split; [done|]. eapply (reads_bind _ _ [] e); [apply reads_lift|done]. Qed.
Lemma step_check c d p a : puts c [] -> in_step d p a -> in_step (c ;> d) p a.
Proof. intros Hc (e & ? & ?). exists e. split; [by apply puts_none_seq|done]. Qed.
Lemma step_assoc c1 c2 c3 p a : in_step (c1 ;> c2 ;> c3) p a -> in_step ((c1 ;> c2) ;> c3) p a.
Proof.
  intros (e & He & ?). exists e. split; [|done]. intros w. specialize (He w). unfold put_seq in *.
  destruct (c1 w); cbn [obind] in *; done.
Qed.
End InStep.
Lemma step_require {B} c b (k : unit -> reader B) x :
  b = true -> in_step c (k tt) x -> in_step c (rbind (rlift (require b)) k) x.
Proof. intros ->. by apply step_lift. Qed.
Lemma step_u64 n : u64 n -> in_step (put_u64 n) r_u64 n.
Proof. eexists. split; [apply puts_u64|by apply reads_u64]. Qed.
Lemma step_u32 n : u32 n -> in_step (put_u32 n) r_u32 n.
Proof. eexists. split; [apply puts_u32|by apply reads_u32]. Qed.
Lemma step_u16 n : u16 n -> in_step (put_u16 n) r_u16 n.
Proof. eexists. split; [apply puts_u16|by apply reads_u16]. Qed.
Lemma step_byte n : in_step (put_byte n) r_byte n.
Proof. eexists. split; [apply puts_byte|apply reads_byte]. Qed.
Lemma step_flag b : in_step (put_flag b) r_flag b.
Proof. eexists. split; [apply puts_flag|apply reads_flag]. Qed.
Lemma step_array n b : array n b -> in_step (put_bytes b) (r_array n) b.
Proof. eexists. split; [apply puts_bytes|by apply reads_array]. Qed.
Lemma step_take n b : zlen b = n -> in_step (put_bytes b) (r_take n) b.
Proof. eexists. split; [apply puts_bytes|by apply reads_take]. Qed.
Lemma step_string limit s : str_ok s -> zlen s <= limit -> limit < 2 ^ 32 ->
  in_step (put_string s limit) (r_bounded_string limit) s.
Proof. eexists. split; [by apply puts_string|by apply reads_bounded_string]. Qed.
Lemma step_optional o : (forall a, o = Some a -> array 16 a) -> in_step (put_optional o) r_optional o.
Proof. eexists. split; [apply puts_optional|by apply (reads_option 16)]. Qed.
Lemma step_code {A} (code : A -> Z) from `{!CodeTable code from} a : in_step (put_byte (code a)) (r_code from) a.
Proof. eexists. split; [apply puts_byte|by apply (reads_code code)]. Qed.
Lemma step_code_option {A} (code : A -> Z) from `{!CodeTable code from} o :
  nonzero_codes code -> in_step (put_byte (code_or_0 code o)) (r_code_option from) o.
Proof. eexists. split; [apply puts_byte|by apply (reads_code_option code)]. Qed.
Lemma step_len {A} (l : list A) : u32 (zlen l) -> in_step (put_len l) r_u32 (zlen l).
Proof. intros Hl. eexists. split; [by apply puts_len|by apply reads_u32]. Qed.
Lemma step_option {A} (f : A -> put) (p : reader A) o :
  (forall a, o = Some a -> in_step (f a) p a) -> in_step (put_option f o) (r_option p) o.
Proof.
  intros Ho. eapply step_bind; [apply step_flag|]. destruct o as [a|]; cbn [is_some put_if]; [|apply step_ret].
  eapply step_last; [by apply Ho|apply step_ret].
Qed.

(** ** What readers return. *)
Definition yields {A} (p : reader A) (Q : A -> bytes -> Prop) : Prop :=
  forall bs o a r, bytes_ok bs -> 0 <= o <= zlen bs -> p (mkReader bs o) = Ok (a, r) ->
  exists e, Q a e /\ o + zlen e <= zlen bs /\ r = mkReader bs (o + zlen e) /\ zdrop o bs = e ++ zdrop (o + zlen e) bs.
Lemma parses_yields {A} (p : reader A) Q : parses p Q -> yields p Q.
Proof. intros Hp bs o a r Hb Ho Hr. specialize (Hp bs o Hb Ho). by rewrite Hr in Hp. Qed.
Lemma yields_weaken {A} (p : reader A) (P Q : A -> bytes -> Prop) :
  yields p P -> (forall a e, P a e -> Q a e) -> yields p Q.
Proof. intros Hp HPQ bs o a r Hb Ho Hr. destruct (Hp bs o a r Hb Ho Hr) as (e & ? & ?). eauto. Qed.
Lemma yields_ret {A} (a : A) (Q : A -> bytes -> Prop) : Q a [] -> yields (rret a) Q.
Proof. intros. by apply parses_yields, parses_ret. Qed.
Lemma yields_bind {A B} (p : reader A) (k : A -> reader B) (P : A -> bytes -> Prop) Q :
  yields p P -> (forall a e, P a e -> yields (k a) (fun b e' => Q b (e ++ e'))) -> yields (rbind p k) Q.
Proof.
  intros Hp Hk bs o b r Hb Ho Hr. unfold rbind in Hr. apply obind_Ok in Hr as ([a r1] & Ha & Hr).
  destruct (Hp bs o a r1 Hb Ho Ha) as (e & HP & He & -> & Hd). pose proof (zlen_nonneg e).
  destruct (Hk a e HP bs (o + zlen e) b r Hb ltac:(lia) Hr) as (e' & HQ & He' & -> & Hd').
  exists (e ++ e'). rewrite zlen_app, Z.add_assoc, <- app_assoc, <- Hd', <- Hd. by split_and!.
Qed.
Lemma yields_lift {A B} (v : Result A) (k : A -> reader B) Q :
  (forall a, v = Ok a -> yields (k a) Q) -> yields (rbind (rlift v) k) Q.
Proof.
  intros Hk bs o b r Hb Ho Hr. unfold rbind, rlift in Hr. destruct v as [a| |]; cbn [obind] in Hr; [|done..].
  by apply (Hk a eq_refl).
Qed.
Lemma yields_lift_last {A} (v : Result A) (Q : A -> bytes -> Prop) :
  (forall a, v = Ok a -> Q a []) -> yields (rlift v) Q.
Proof.
  intros HQ bs o a r Hb Ho Hr. unfold rlift in Hr. destruct v as [a'| |]; cbn [obind] in Hr; [|done..].
  by apply (yields_ret a' Q (HQ a' eq_refl)).
Qed.
Lemma yields_require {B} b (k : unit -> reader B) Q : (b = true -> yields (k tt) Q) -> yields (rbind (rlift (require b)) k) Q.
Proof. intros Hk. apply yields_lift. intros [] Hb. apply Hk. by apply require_Ok in Hb. Qed.
Lemma yields_option {A} (f : A -> put) (p : reader A) (ok : A -> Prop) :
  yields p (fun a e => ok a /\ puts (f a) e) ->
  yields (r_option p) (fun o e => (forall a, o = Some a -> ok a) /\ puts (put_option f o) e).
Proof.
  intros Hp. eapply yields_bind; [apply parses_yields, parses_flag|]. intros [] e ->.
  - eapply yields_bind; [exact Hp|]. intros a e [Ha He]. apply yields_ret. rewrite app_nil_r.
    split; [by intros ? [= <-]|]. by apply puts_seq; [apply puts_flag|].
  - apply yields_ret. split; [done|]. by apply puts_seq; [apply puts_flag|apply puts_none].
Qed.

(** ** Loops that push. *)
Fixpoint pushes {A} (check : list A -> A -> bool) (l m : list A) : Prop :=
  match m with [] => True | a :: m => check l a = true /\ pushes check (l ++ [a]) m end.
Lemma yields_push {A} n (p : reader A) check (ok : A -> Prop) (f : A -> put) l0 :
  yields p (fun a e => ok a /\ puts (f a) e) ->
  yields (r_push n p check l0)
    (fun l e => exists m, l = l0 ++ m /\ length m = n /\ Forall ok m /\ pushes check l0 m /\ puts (put_each f m) e).
Proof.
  intros Hp. revert l0. induction n as [|n IH]; intros l0; cbn [r_push].
  { apply yields_ret. exists []. rewrite app_nil_r. repeat split; auto using puts_none. }
  eapply yields_bind; [exact Hp|]. intros a e [Ha He]. apply yields_require. intros Hc.
  eapply yields_weaken; [apply IH|]. intros l e' (m & -> & Hm & Hok & Hpu & Hput). exists (a :: m).
  rewrite <- app_assoc. repeat split; [cbn; lia|by constructor|done..|]. by apply puts_seq.
Qed.
Lemma step_push {A} (p : reader A) check (f : A -> put) l0 m :
  Forall (fun a => in_step (f a) p a) m -> pushes check l0 m ->
  in_step (put_each f m) (r_push (length m) p check l0) (l0 ++ m).
Proof.
  intros Hm. revert l0. induction Hm as [|a m Ha _ IH]; intros l0 Hp; cbn [length r_push put_each foldr].
  { rewrite app_nil_r. apply step_ret. }
  destruct Hp as [Hc Hp]. eapply step_bind; [exact Ha|]. apply step_require; [done|].
  specialize (IH (l0 ++ [a]) Hp). by rewrite <- app_assoc in IH.
Qed.

(** ** Loops that insert in ascending order. *)
Section Entries.
Context {K V : Type} `{Countable K, CmpOk K}.
Implicit Types (m : gmap K V) (l : list (K * V)).
Lemma weak_strict {A} (key : A -> K) (l : list A) :
  StronglySorted (fun a b => cmp (key a) (key b) <> Gt) l -> NoDup (key <$> l) ->
  StronglySorted (fun a b => cmp (key a) (key b) = Lt) l.
Proof.
  induction 1 as [|x l _ IH Hf]; cbn; [constructor|]. intros [Hx Hn]%NoDup_cons. constructor; [by apply IH|].
  apply Forall_forall. intros y Hy. rewrite Forall_forall in Hf. specialize (Hf _ Hy).
  destruct (cmp (key x) (key y)) eqn:E; [|done..]. apply cmp_eq in E. destruct Hx. rewrite E. by apply list_elem_of_fmap_2.
Qed.
Lemma strict_nodup {A} (key : A -> K) (l : list A) :
  StronglySorted (fun a b => cmp (key a) (key b) = Lt) l -> NoDup (key <$> l).
Proof.
  induction 1 as [|x l _ IH Hf]; cbn; constructor; [|done]. intros (y & E & Hy)%list_elem_of_fmap.
  rewrite Forall_forall in Hf. specialize (Hf _ Hy). rewrite E in Hf. by rewrite cmp_refl in Hf.
Qed.
Lemma btree_iter_sorted m : StronglySorted (fun a b => cmp a.1 b.1 = Lt) (btree_iter m).
Proof. apply (weak_strict fst); [apply (sort_by_sorted fst)|apply btree_iter_nodup]. Qed.
Lemma btree_sorted m : StronglySorted (fun a b => cmp a b = Lt) (btree_keys m).
Proof.
  unfold btree_keys. induction (btree_iter_sorted m) as [|kv l _ IH Hf]; cbn; [constructor|].
  constructor; [done|]. by apply Forall_fmap.
Qed.
Lemma btree_iter_inj m m' : btree_iter m = btree_iter m' -> m = m'.
Proof.
  intros E. apply map_eq. intros k. apply option_eq. intros v. by rewrite <- !btree_iter_elem, E.
Qed.
Lemma sorted_unique {A} (key : A -> K) (l l' : list A) :
  StronglySorted (fun a b => cmp (key a) (key b) = Lt) l -> StronglySorted (fun a b => cmp (key a) (key b) = Lt) l' ->
  l ≡ₚ l' -> l = l'.
Proof.
  intros Hl. revert l'. induction Hl as [|x l Hl IH Hx]; intros l' Hl' Hp; [by apply Permutation_nil_l in Hp|].
  destruct Hl' as [|y l' Hl' Hy]; [by apply Permutation_nil_r in Hp|].
  assert (x = y) as <-.
  { assert (x ∈ y :: l') as Hin by (rewrite <- Hp; constructor).
    assert (y ∈ x :: l) as Hin' by (rewrite Hp; constructor).
    apply elem_of_cons in Hin as [?|Hin]; [done|]. apply elem_of_cons in Hin' as [?|Hin']; [done|].
    rewrite Forall_forall in Hx, Hy. pose proof (Hx _ Hin') as E1. pose proof (Hy _ Hin) as E2.
    by rewrite cmp_opp, E2 in E1. }
  f_equal. apply IH; [done..|]. by apply Permutation_cons_inv in Hp.
Qed.
(** A sort by distinct keys. *)
Lemma sort_by_unique {A} (key : A -> K) (l l' : list A) :
  l ≡ₚ l' -> StronglySorted (fun a b => cmp (key a) (key b) = Lt) l' ->
  sort_by (fun a b => cmp (key a) (key b)) l = l'.
Proof.
  intros Hp Hl'. apply (sorted_unique key); [|done|by rewrite sort_by_perm].
  apply (weak_strict key); [apply (sort_by_sorted key)|]. rewrite sort_by_perm, Hp. by apply strict_nodup.
Qed.
Lemma btree_snoc m k v :
  Forall (fun k' => cmp k' k = Lt) (btree_keys m) -> btree_iter (<[k := v]> m) = btree_iter m ++ [(k, v)].
Proof.
  intros Hk. assert (m !! k = None) as Hn.
  { destruct (m !! k) eqn:E; [|done]. rewrite Forall_forall in Hk.
    assert (cmp k k = Lt) as Hc by (apply Hk, btree_keys_elem; eauto). by rewrite cmp_refl in Hc. }
  apply (sorted_unique fst).
  - apply btree_iter_sorted.
  - apply StronglySorted_app_2; [|apply btree_iter_sorted|repeat constructor].
    intros a b Ha Hb%list_elem_of_singleton. subst b. rewrite Forall_forall in Hk. apply Hk, list_elem_of_fmap. eauto.
  - rewrite btree_iter_perm, map_to_list_insert, btree_iter_perm by done. by rewrite Permutation_app_comm.
Qed.
Definition above m (k : K) : bool := is_none_or (fun k' => ltb k' k) (last_key m).
Lemma above_all m k : above m k = true <-> Forall (fun k' => cmp k' k = Lt) (btree_keys m).
Proof.
  unfold above, last_key. pose proof (btree_sorted m) as Hs. induction (btree_keys m) as [|k' l IH _] using rev_ind.
  { split; [constructor|done]. }
  rewrite last_snoc. cbn. rewrite Forall_app, Forall_singleton. unfold ltb.
  split.
  - intros E. destruct (cmp k' k) eqn:E1; [done| |done]. split; [|done]. apply Forall_forall. intros a Ha.
    apply (cmp_trans _ k'); [|done]. by apply (StronglySorted_app_1_elem_of (fun a b => cmp a b = Lt) l [k'] a k' Hs Ha), list_elem_of_singleton.
  - intros [_ ->]. done.
Qed.
Lemma yields_entries n (p : reader (K * V)) (ok : K * V -> Prop) (f : K * V -> put) m0 :
  yields p (fun kv e => ok kv /\ puts (f kv) e) ->
  yields (r_entries n p m0)
    (fun m e => exists l, btree_iter m = btree_iter m0 ++ l /\ length l = n /\ Forall ok l /\ puts (put_each f l) e).
Proof.
  intros Hp. revert m0. induction n as [|n IH]; intros m0; cbn [r_entries].
  { apply yields_ret. exists []. rewrite app_nil_r. repeat split; auto using puts_none. }
  eapply yields_bind; [exact Hp|]. intros [k v] e [Ha He]. apply yields_require. intros Hc. cbn [fst snd] in *.
  eapply yields_weaken; [apply IH|]. intros m e' (l & Hm & Hl & Hok & Hput). exists ((k, v) :: l).
  rewrite btree_snoc in Hm by by apply above_all. rewrite Hm, <- app_assoc.
  repeat split; [cbn; lia|by constructor|]. by apply puts_seq.
Qed.
Lemma step_entries (p : reader (K * V)) (f : K * V -> put) m0 m l :
  Forall (fun kv => in_step (f kv) p kv) l -> btree_iter m = btree_iter m0 ++ l ->
  in_step (put_each f l) (r_entries (length l) p m0) m.
Proof.
  intros Hl. revert m0. induction Hl as [|[k v] l Ha _ IH]; intros m0 Hm; cbn [length r_entries put_each foldr].
  { rewrite app_nil_r in Hm. rewrite (btree_iter_inj _ _ Hm). apply step_ret. }
  eapply step_bind; [exact Ha|]. cbn [fst snd].
  assert (Forall (fun k' => cmp k' k = Lt) (btree_keys m0)) as Hk.
  { pose proof (btree_sorted m) as Hs. unfold btree_keys in *. rewrite Hm, fmap_app in Hs. cbn in Hs.
    apply Forall_forall. intros a Hin. eapply (StronglySorted_app_1_elem_of (fun a b => cmp a b = Lt)); [exact Hs|done|constructor]. }
  apply step_require; [by apply above_all|]. apply IH. by rewrite btree_snoc, <- app_assoc.
Qed.
End Entries.

(** ** Fields: a reader with its writer, in both directions. *)
Class Field {A} (p : reader A) (ok : A -> Prop) (f : A -> put) : Prop := {
  fd_yields : yields p (fun a e => ok a /\ puts (f a) e);
  fd_step (a : A) : ok a -> in_step (f a) p a;
}.
#[export] Instance field_u64 : Field r_u64 (fun v => u64 v) put_u64.
Proof. split; [apply parses_yields; eapply parses_weaken; [apply parses_u64|]; by intros v e [? ->]|apply step_u64]. Qed.
#[export] Instance field_u32 : Field r_u32 (fun v => u32 v) put_u32.
Proof. split; [apply parses_yields; eapply parses_weaken; [apply parses_u32|]; by intros v e [? ->]|apply step_u32]. Qed.
#[export] Instance field_u16 : Field r_u16 (fun v => u16 v) put_u16.
Proof. split; [apply parses_yields; eapply parses_weaken; [apply parses_u16|]; by intros v e [? ->]|apply step_u16]. Qed.
#[export] Instance field_byte : Field r_byte (fun v => u8 v) put_byte.
Proof.
  split; [apply parses_yields; eapply parses_weaken; [apply parses_byte|]; by intros v e [? ->]|intros; apply step_byte].
Qed.
#[export] Instance field_flag : Field r_flag (fun _ => True) put_flag.
Proof.
  split; [apply parses_yields; eapply parses_weaken; [apply parses_flag|]; by intros v e ->|intros; apply step_flag].
Qed.
Lemma field_array n : 0 <= n -> Field (r_array n) (array n) put_bytes.
Proof.
  intros Hn. split; [apply parses_yields; eapply parses_weaken; [by apply parses_array|]; by intros v e [-> ?]|apply step_array].
Qed.
#[export] Instance field_id : Field (r_array 16) (array 16) put_bytes := field_array 16 ltac:(lia).
#[export] Instance field_hash : Field (r_array 32) (array 32) put_bytes := field_array 32 ltac:(lia).
#[export] Instance field_string limit `{Hl : !TCEq (limit <? 2 ^ 32) true} :
  Field (r_bounded_string limit) (fun s => str_ok s /\ zlen s <= limit) (fun s => put_string s limit).
Proof.
  assert (limit < 2 ^ 32) by (apply Z.ltb_lt; by rewrite Hl). split.
  - apply parses_yields; eapply parses_weaken; [apply parses_bounded_string|]. intros s e (? & ? & ->).
    split; [done|]. by apply puts_string.
  - intros s [? ?]. by apply step_string.
Qed.
#[export] Instance field_optional : Field r_optional (fun o => forall a, o = Some a -> array 16 a) put_optional.
Proof.
  split; [|apply step_optional]. apply parses_yields; eapply parses_weaken; [by apply (parses_option 16)|].
  intros o e [? ->]. split; [done|apply puts_optional].
Qed.
#[export] Instance field_code {A} (code : A -> Z) from `{!CodeTable code from} :
  Field (r_code from) (fun _ => True) (fun a => put_byte (code a)).
Proof.
  split; [|intros; by apply step_code]. apply parses_yields; eapply parses_weaken; [by apply (parses_code code)|].
  by intros a e ->.
Qed.
Lemma field_code_option {A} (code : A -> Z) from `{!CodeTable code from} :
  nonzero_codes code -> Field (r_code_option from) (fun _ => True) (fun o => put_byte (code_or_0 code o)).
Proof.
  intros Hn. split; [|intros; by apply step_code_option]. apply parses_yields; eapply parses_weaken.
  { by apply (parses_code_option code). }
  by intros a e ->.
Qed.
#[export] Instance field_option {A} (p : reader A) ok f `{!Field p ok f} :
  Field (r_option p) (fun o => forall a, o = Some a -> ok a) (put_option f).
Proof. split; [apply yields_option, fd_yields|]. intros o Ho. apply step_option. intros a Ha. by apply fd_step, Ho. Qed.
Lemma yields_many {A} n (p : reader A) ok f `{!Field p ok f} :
  yields (r_many n p) (fun l e => (length l = n /\ Forall ok l) /\ puts (put_each f l) e).
Proof.
  induction n as [|n IH]; cbn [r_many]; [apply yields_ret; auto using puts_none|].
  eapply yields_bind; [apply fd_yields|]. intros a e [Ha He]. eapply yields_bind; [exact IH|].
  intros l e' [[Hl Hok] He']. apply yields_ret. rewrite app_nil_r. split; [split; [cbn; lia|by constructor]|by apply puts_seq].
Qed.
Lemma step_many {A} (p : reader A) ok f `{!Field p ok f} l :
  Forall ok l -> in_step (put_each f l) (r_many (length l) p) l.
Proof.
  induction 1 as [|a l Ha _ IH]; cbn [length r_many put_each foldr]; [apply step_ret|].
  eapply step_bind; [by apply fd_step|]. eapply step_last; [exact IH|apply step_ret].
Qed.
#[export] Instance field_many {A} n (p : reader A) ok f `{!Field p ok f} :
  Field (r_many n p) (fun l => length l = n /\ Forall ok l) (put_each f).
Proof. split; [by apply yields_many|]. intros l [<- Hl]. by eapply step_many. Qed.
(** The tables of a map: a count within a limit, then the entries. *)
Definition put_table {A} (f : A -> put) (l : list A) : put := put_len l ;> put_each f l.
Definition r_table `{Countable K, Cmp K} {V} (limit : nat) (p : reader (K * V)) : reader (gmap K V) :=
  read count := r_u32 in
  read _ := rlift (require (count <=? Z.of_nat limit)) in
  r_entries (Z.to_nat count) p ∅.
#[export] Instance field_table {K V} `{Countable K, CmpOk K} limit (p : reader (K * V)) ok f
  `{!Field p ok f} `{Hl : !TCEq (Z.of_nat limit <? 2 ^ 32) true} :
  Field (r_table limit p) (fun m => zlen (btree_iter m) <= Z.of_nat limit /\ Forall ok (btree_iter m))
    (fun m => put_table f (btree_iter m)).
Proof.
  assert (Z.of_nat limit < 2 ^ 32) by (apply Z.ltb_lt; by rewrite Hl). split.
  - eapply yields_bind; [apply fd_yields|]. cbv beta. intros n e [Hn He]. apply yields_require. intros Hc%Z.leb_le.
    eapply yields_weaken; [apply yields_entries, fd_yields|]. intros m e' (l & Hm & Hlen & Hok & Hput).
    change (btree_iter (∅ : gmap K V)) with (@nil (K * V)) in Hm. cbn [app] in Hm. rewrite Hm.
    assert (zlen l = n) as Hz by (apply zlen_to_nat; [unfold uint in Hn; lia|done]).
    split; [split; [lia|done]|]. apply puts_seq; [|done]. rewrite (puts_inj _ _ _ He (puts_u32 n)). by apply puts_len.
  - intros m [Hm Hok]. eapply step_bind; [apply step_len; unfold uint; pose proof (zlen_nonneg (btree_iter m)); lia|]. cbv beta.
    apply step_require; [by apply Z.leb_le|]. unfold zlen at 1. rewrite Nat2Z.id.
    eapply step_entries; [|done]. eapply Forall_impl; [exact Hok|]. intros kv ?. by apply fd_step.
Qed.

(** One more field, from the bytes. *)
Ltac yields_next :=
  lazymatch goal with
  | |- yields (rret _) _ => apply yields_ret
  | |- yields (rbind (rlift (require _)) _) _ => apply yields_require; intro; cbv beta
  | |- yields (rbind (rlift _) _) _ => apply yields_lift; intros ? ?; cbv beta
  | |- yields (rbind _ _) _ => eapply yields_bind; [apply fd_yields|cbv beta; intros ? ? [? ?]]
  end.
Ltac puts_done :=
  repeat first [eapply puts_seq; [eassumption|] | rewrite app_nil_r; eassumption | rewrite app_nil_r; apply puts_none].
Lemma step_field {A B} (p : reader A) (k : A -> reader B) ok f `{!Field p ok f} a c d b :
  f a = c -> ok a -> in_step d (k a) b -> in_step (c ;> d) (rbind p k) b.
Proof. intros <- Ha Hd. eapply step_bind; [by apply fd_step|done]. Qed.
Lemma step_field_last {A B} (p : reader A) (k : A -> reader B) ok f `{!Field p ok f} a c b :
  f a = c -> ok a -> in_step put_none (k a) b -> in_step c (rbind p k) b.
Proof. intros <- Ha Hd. eapply step_last; [by apply fd_step|done]. Qed.
(** One more field of the writer and the reader. *)
Ltac step_next :=
  lazymatch goal with
  | |- in_step put_none (rret _) _ => apply step_ret
  | |- in_step _ (rbind (rlift (require _)) _) _ => apply step_require; [|cbv beta]
  | |- in_step (put_require _ ;> _) _ _ => apply step_check; [apply puts_require|]
  | |- in_step (_ ;> _) (rbind ?p _) _ => eapply (step_field p); [apply _|reflexivity|cbv beta|cbv beta]
  | |- in_step _ (rbind ?p _) _ => eapply (step_field_last p); [apply _|reflexivity|cbv beta|cbv beta]
  end.
(** The proof for a record whose fields are all read plainly. *)
Ltac plain_field rd wr :=
  split;
  [ unfold rd; repeat yields_next; split; [by constructor|unfold wr; cbn; puts_done]
  | intros [] []; unfold rd, wr; cbn in *; repeat (step_next; try done) ].
