(* ===== verification/Checkpoint.v ===== *)
(** * Checkpoints (authority/checkpoint.rs).

    A checkpoint file holds the live state at one frame, the census of segment
    files and the list of index runs. [encode_checkpoint] and
    [decode_checkpoint] are [encode] and [decode] of the file. Tool calls,
    person commands and unsettled jobs are stored as frame locators and rebuilt
    from the frames they name, which the index reads; derived values are
    recomputed. Each part of the file is a [Field]: what its writer appends its
    reader reads back, and what its reader returns its writer writes. Restore.v
    puts the parts together. *)
From Stdlib Require Import ZArith Lia String.
From stdpp Require Import prelude list gmap.
From S2P Require Import Prelude Collections PayloadId Codec Fields Envelope Index Run Policy PathGuard Types.
From S2P Require Import PolicyReplay Text Rules Tables Sync ReplayState Replay Effects.

Definition MAX_CHECKPOINT : Z := 6 * 1024 * 1024.
Definition MAX_RUNS : Z := 64.
Definition CHECKPOINT_MAGIC : bytes := lit "ASURAK01".
Definition CHECKPOINT_COMMIT : bytes := lit "ASURAC01".
Definition MAX_LOCATION : Z := 4096.
Definition MAX_NAME : Z := 512.

Record RunRef : Type := mkRunRef {
  ru_first : Z; ru_last : Z; ru_level : Z; ru_entries : Z; ru_bytes : Z; ru_digest : Hash;
}.
#[export] Instance RunRef_eq_dec : EqDecision RunRef.
Proof. solve_decision. Defined.
Record Census : Type := mkCensus { ce_segments : Z; ce_holding : Z; ce_bytes : Z }.
#[export] Instance Census_eq_dec : EqDecision Census.
Proof. solve_decision. Defined.
Record Checkpoint : Type := mkCheckpoint { ck_census : Census; ck_runs : list RunRef; ck_state : Replay }.
Definition ToolFrames : Type := (Locator * option Locator * option Locator)%type.

(** ** [ToolRecord::follow_frame], [unsettled_jobs] (state.rs). *)
Definition follow_frame (t : ToolRecord) : option Locator :=
  match to_exec_cmd t ≫= ec_job_intent with
  | Some frame => Some frame
  | None => snd <$> to_note t
  end.
Definition unsettled_jobs (s : Replay) : list UnsettledJob :=
  sort_by (fun a b => cmp (l_sequence (uj_intent a)) (l_sequence (uj_intent b))) (btree_values (st_jobs s)).
Definition job_locators (s : Replay) : list (Locator * Locator) :=
  (fun job => (uj_intent job, match uj_cancel job with Some c => ja_frame c | None => locator_none end)) <$> unsettled_jobs s.

(** ** Writing. *)
Definition put_locator (l : Locator) : put := put_bytes (locator_encode l).
Definition put_option_locator (o : option Locator) : put := put_option put_locator o.
Definition put_option_u64 (o : option Z) : put := put_option put_u64 o.
Definition put_run (run : RunRef) : put :=
  put_u64 (ru_first run) ;> put_u64 (ru_last run) ;> put_byte (ru_level run) ;> put_u64 (ru_entries run) ;>
  put_u64 (ru_bytes run) ;> put_bytes (ru_digest run).
Definition put_init (init : PendingInit) : put :=
  put_bytes (pi_request init) ;> put_bytes (pi_digest init) ;> put_byte (pi_mode init) ;>
  put_u64 (pi_configuration_revision init) ;> put_bytes (pi_configuration_digest init) ;> put_bytes (pi_graph init).
Definition put_binding (binding : ActiveBinding) : put :=
  put_bytes (ab_request binding) ;> put_u64 (ab_generation binding) ;> put_bytes (ab_graph binding) ;>
  put_bytes (ab_configuration_digest binding).
Definition put_name (name : ProjectName) : put := put_string (nm_name name) MAX_NAME ;> put_u64 (nm_revision name).
Definition put_project_latest (latest : ProjectLatest) : put :=
  put_bytes (px_conversation latest) ;> put_bytes (px_operation latest) ;> put_u64 (px_generation latest) ;>
  put_u64 (px_accepted latest) ;> put_option_u64 (px_terminal latest).
Definition put_project (entry : Id * ProjectEntry) : put :=
  let '(id, p) := entry in
  let r := pj_registration p in
  put_bytes id ;> put_bytes (pr_request r) ;> put_bytes (pr_digest r) ;> put_string (pr_location r) MAX_LOCATION ;>
  put_u64 (pr_device r) ;> put_u64 (pr_inode r) ;> put_u64 (pr_registry_revision r) ;> put_byte (pr_visibility r) ;>
  put_locator (pj_registered p) ;> put_option put_name (pj_name p) ;> put_option put_project_latest (pj_latest p) ;>
  put_u64 (pj_activity p).
Definition put_latest (latest : LatestTurn) : put :=
  put_bytes (lt_operation latest) ;> put_byte (code_or_0 terminal_code (lt_terminal latest)) ;>
  put_locator (lt_accepted latest) ;> put_u64 (lt_notice_through latest).
Definition put_conversation (entry : Id * Conversation) : put :=
  let '(id, c) := entry in
  put_bytes id ;> put_bytes (cv_project c) ;> put_u64 (cv_generation c) ;> put_locator (cv_created c) ;>
  put_option put_latest (cv_latest c) ;> put_u64 (cv_completed c) ;> put_u64 (cv_activity c).
Definition put_tool (tool : ToolFrames) : put :=
  put_locator tool.1.1 ;> put_option_locator tool.1.2 ;> put_option_locator tool.2.
Definition tool_frames (tool : ToolRecord) : ToolFrames := (to_intent_frame tool, follow_frame tool, to_result_frame tool).
Definition put_piece (piece : ResponsePiece) : put :=
  put_u64 (rp_start piece) ;> put_u64 (rp_kept piece) ;> put_locator (rp_frame piece).
Definition put_text (text : Response) : put :=
  put_u64 (re_len text) ;> put_len (re_pieces text) ;> put_each put_piece (re_pieces text).
Definition cancel_code (o : option Cause) : Z := match o with Some c => cause_code c | None => 0xff end.
Definition put_operation (entry : Id * Operation) : put :=
  let '(id, op) := entry in
  put_bytes id ;> put_bytes (op_conversation op) ;> put_u64 (op_generation op) ;> put_bytes (op_task op) ;>
  put_u64 (op_owner_generation op) ;> put_bytes (op_input_digest op) ;> put_locator (op_accepted_frame op) ;>
  put_u64 (op_notice_through op) ;> put_optional (op_helper op) ;> put_byte (cancel_code (op_cancel op)) ;>
  put_len (op_tools op) ;> put_each put_tool (tool_frames <$> op_tools op) ;>
  put_len (op_request_starts op) ;> put_each (fun start => put_u32 (wrap 32 start)) (op_request_starts op) ;>
  put_text (op_response op) ;> put_text (op_thinking op).
Definition put_dispatched (d : Id * Z) : put := put_bytes d.1 ;> put_u64 d.2.
Definition put_target (t : TerminalKind * Cause) : put := put_byte (terminal_code t.1) ;> put_byte (cause_code t.2).
Definition put_person (q : QueuedInput) : put :=
  match qi_person q with
  | Some person =>
      put_require (bool_decide (qi_kind q = IPerson)) ;> put_option_locator (pf_job person) ;>
      put_byte (code_or_0 job_outcome_code (pf_outcome person))
  | None => put_require (bool_decide (qi_kind q <> IPerson))
  end.
Definition put_input (entry : Id * QueuedInput) : put :=
  let '(id, q) := entry in
  put_bytes id ;> put_require (bool_decide (id = qi_request q)) ;> put_bytes (qi_dispatch_request q) ;>
  put_bytes (qi_project q) ;> put_bytes (qi_conversation q) ;> put_bytes (qi_target_operation q) ;>
  put_u64 (qi_target_generation q) ;> put_byte (input_kind_code (qi_kind q)) ;> put_locator (qi_frame q) ;>
  put_u64 (qi_sequence q) ;> put_u64 (qi_owner_generation q) ;> put_flag (qi_held q) ;> put_flag (qi_dropped q) ;>
  put_flag (qi_resumed q) ;> put_u64 (qi_order_position q) ;> put_option_locator (qi_promoted q) ;>
  put_option put_dispatched (qi_dispatched q) ;> put_byte (code_or_0 terminal_code (qi_dispatched_terminal q)) ;>
  put_option put_target (qi_target_terminal q) ;> put_option_u64 (qi_settled q) ;> put_person q.
Definition put_job (job : Locator * Locator) : put := put_locator job.1 ;> put_locator job.2.
Definition put_active (active : Z * bytes) : put := put_u64 active.1 ;> put_bytes active.2.
Definition put_pending (entry : Call * PolicyOutcome) : put :=
  let '(operation, generation, ordinal, outcome) := entry in
  put_bytes operation ;> put_u64 generation ;> put_u32 ordinal ;> put_byte (outcome_code outcome).
Definition put_person_decision (entry : bytes * PolicyOutcome) : put := put_bytes entry.1 ;> put_byte (outcome_code entry.2).
Definition put_policy (policy : PolicyReplay) : put :=
  let pending := btree_iter (pl_pending policy) in
  let person := btree_iter (pl_person policy) in
  put_u64 (pl_last_seq policy) ;> put_option put_active (pl_active policy) ;>
  put_require (zlen pending <=? Z.of_nat MAX_PENDING_POLICY_DECISIONS) ;> put_table put_pending pending ;>
  put_require (zlen person <=? Z.of_nat MAX_PENDING_PERSON_DECISIONS) ;> put_table put_person_decision person.
Definition put_head (s : Replay) : put :=
  put_bytes CHECKPOINT_MAGIC ;> put_u16 1 ;> put_bytes (st_installation_id s) ;> put_u64 (st_sequence s) ;>
  put_bytes (st_last_digest s) ;> put_locator (st_last_frame s) ;> put_u64 (st_revision s) ;> put_u64 (st_owner_generation s).
Definition put_census (census : Census) : put :=
  put_u64 (ce_segments census) ;> put_u64 (ce_holding census) ;> put_u64 (ce_bytes census).
(** The body for the given job locators. *)
Definition put_body (s : Replay) (census : Census) (runs : list RunRef) (jobs : list (Locator * Locator)) : put :=
  put_head s ;> put_census census ;> put_table put_run runs ;> put_init (st_initialization s) ;>
  put_option put_binding (st_binding s) ;> put_table put_project (btree_iter (st_projects s)) ;>
  put_table put_conversation (btree_iter (st_conversations s)) ;> put_option put_operation (active s) ;>
  put_table put_input (btree_iter (st_inputs s)) ;> put_u64 (st_order_revision s) ;> put_optional (st_last_lane s) ;>
  put_require (zlen jobs <=? Z.of_nat MAX_UNSETTLED_JOBS) ;> put_table put_job jobs ;> put_policy (st_policy s).
Definition seal `{Hasher} (w : bytes) : Result bytes :=
  let w := w ++ sha256 w ++ CHECKPOINT_COMMIT in
  let? _ := require (zlen w <=? MAX_CHECKPOINT) in Ok w.
Definition encode_with `{Hasher} (s : Replay) (census : Census) (runs : list RunRef) (jobs : list (Locator * Locator))
    : Result bytes :=
  let? _ := require (delta_is_empty s && (zlen runs <=? MAX_RUNS)) in
  let? w := put_body s census runs jobs [] in
  seal w.
Definition encode_checkpoint `{Hasher} (s : Replay) (census : Census) (runs : list RunRef) : Result bytes :=
  encode_with s census runs (job_locators s).

(** ** Reading. *)
Definition r_locator : reader Locator := read b := r_take 24 in rlift (locator_decode b).
Definition r_option_locator : reader (option Locator) := r_option r_locator.
Definition r_maybe_u64 : reader (option Z) := r_option r_u64.
(** [match r.byte()? { 0 => None, _ => { r.offset -= 1; Some(terminal_kind(r)?) } }]. *)
Definition r_unread : reader unit := fun r => Ok (tt, mkReader (rd_bytes r) (rd_offset r - 1)).
Definition r_terminal_again : reader (option TerminalKind) :=
  read code := r_byte in
  if code =? 0 then rret None else
  read _ := r_unread in read k := r_code terminal_from_code in rret (Some k).
Definition r_run : reader RunRef :=
  read first := r_u64 in read last := r_u64 in read level := r_byte in read entries := r_u64 in read bytes := r_u64 in
  read digest := r_array 32 in rret (mkRunRef first last level entries bytes digest).
Definition run_follows (sequence : Z) (runs : list RunRef) (run : RunRef) : bool :=
  (1 <=? ru_first run) && (ru_first run <=? ru_last run) && (ru_last run <=? sequence) &&
  is_none_or (fun prior => ru_last prior <? ru_first run) (last runs).
Definition r_init : reader PendingInit :=
  read request := r_array 16 in read digest := r_array 32 in read mode := r_byte in read revision := r_u64 in
  read configuration := r_array 32 in read graph := r_array 16 in rret (mkInit request digest mode revision configuration graph).
Definition r_binding : reader ActiveBinding :=
  read request := r_array 16 in read generation := r_u64 in read graph := r_array 16 in read digest := r_array 32 in
  rret (mkBinding request generation graph digest).
Definition r_name : reader ProjectName :=
  read name := r_bounded_string MAX_NAME in read revision := r_u64 in rret (mkName name revision).
Definition r_project_latest : reader ProjectLatest :=
  read conversation := r_array 16 in read operation := r_array 16 in read generation := r_u64 in read accepted := r_u64 in
  read terminal := r_maybe_u64 in rret (mkProjectLatest conversation operation generation accepted terminal).
Definition r_project : reader (Id * ProjectEntry) :=
  read id := r_array 16 in read request := r_array 16 in read digest := r_array 32 in
  read location := r_bounded_string MAX_LOCATION in read device := r_u64 in read inode := r_u64 in
  read revision := r_u64 in read visibility := r_byte in
  read registered := r_locator in read name := r_option r_name in read latest := r_option r_project_latest in
  read activity := r_u64 in
  rret (id, mkProjectEntry (mkRegistered request digest id location device inode revision visibility) registered name latest
              activity).
Definition r_latest : reader LatestTurn :=
  read operation := r_array 16 in read terminal := r_code_option terminal_from_code in
  read accepted := r_locator in read notice := r_u64 in rret (mkLatest operation terminal accepted notice).
Definition r_conversation : reader (Id * Conversation) :=
  read id := r_array 16 in read project := r_array 16 in read generation := r_u64 in read created := r_locator in
  read latest := r_option r_latest in read completed := r_u64 in read activity := r_u64 in
  rret (id, mkConversation project generation created latest completed activity).
Definition r_tool : reader ToolFrames :=
  read intent := r_locator in read follow := r_option_locator in read result := r_option_locator in
  rret (intent, follow, result).
Definition r_piece : reader ResponsePiece :=
  read start := r_u64 in read kept := r_u64 in read frame := r_locator in rret (mkPiece start kept frame).
Definition r_text : reader Response :=
  read len := r_u64 in read count := r_u32 in read _ := rlift (require (count <=? MAX_RESPONSE_PIECES)) in
  read pieces := r_many (Z.to_nat count) r_piece in rret (mkResponse len pieces).
(** [match r.byte()? { 0xff => None, code => Some(Cause::from_code(code)?) }]. *)
Definition r_cancel : reader (option Cause) :=
  read code := r_byte in
  if code =? 0xff then rret None else read c := rlift (ok_or Corrupt (cause_from_code code)) in rret (Some c).
Section Decoding.
Context `{Hasher, Unicode, JournalIndex}.
(** [tool_from_frames] (state.rs). *)
Definition tool_from_frames (installation : Id) (binding : Id * Id * Id) (project : Id) (intent : Locator * JournalRecord)
    (follow result : option (Locator * JournalRecord)) : Result ToolRecord :=
  let? call := match intent.2 with RToolCall call => Ok call | _ => Err Corrupt end in
  let run := bool_decide (tc_decision call = TRun) in
  let? create :=
    if run && bool_decide (tc_tool_operation call = Some CreateNote) then
      let? c := note_call binding project (tc_operation call) (tc_generation call) (tc_ordinal call) in Ok (Some c)
    else Ok None in
  let exec := if run && bool_decide (tc_tool_operation call = Some ExecCmd)
              then Some (exec_cmd_call installation call (l_sequence intent.1)) else None in
  let? (exec, note) :=
    match follow with
    | None => Ok (exec, None)
    | Some (frame, RJobIntent p) =>
        if decide (ji_origin p = ByModel (tc_operation call) (tc_generation call) (tc_ordinal call)) then
          let? e := ok_or Corrupt exec in
          Ok (Some (mkExecCall (ec_fixed_command e) (ec_secret_variables e) (ec_job e) (ec_stdout_payload e)
                      (ec_stderr_payload e) (ec_intent_sequence e) (Some frame)), None)
        else Err Corrupt
    | Some (frame, RJobRetention p) =>
        if run && bool_decide (tc_tool_operation call = Some JobNote) &&
           bool_decide (jn_author p = ModelAuthor (tc_operation call) (tc_generation call) (tc_ordinal call))
        then Ok (exec, Some (jn_job p, frame)) else Err Corrupt
    | Some _ => Err Corrupt
    end in
  let tool := tool_record call intent.1 create exec in
  let tool := tool_update tool None None 0 None None (to_exec_cmd tool) None note in
  match result with
  | None => Ok tool
  | Some (frame, RToolResult p) =>
      let? operation := ok_or Corrupt (tc_tool_operation call) in
      let? _ := require (run && negb (op_job_result operation)) in
      Ok (apply_result_projection tool operation p frame)
  | Some (frame, RJobResult p) =>
      let? _ := require (run && is_some_and op_job_result (tc_tool_operation call)) in
      Ok (tool_update tool (Some (jr_status p)) (Some frame) (to_result_bytes tool) (to_preview tool) (to_truncated tool)
            (to_exec_cmd tool) (Some p) (to_note tool))
  | Some _ => Err Corrupt
  end.
Definition read_at (l : Locator) : Result (Locator * JournalRecord) := let? r := ix_frame l in Ok (l, r).
(** [o.map(read).transpose()?]. *)
Definition read_maybe (o : option Locator) : Result (option (Locator * JournalRecord)) :=
  match o with Some l => let? r := read_at l in Ok (Some r) | None => Ok None end.
Definition rebuild_tool (installation : Id) (binding : Id * Id * Id) (project : Id) (frames : ToolFrames) : Result ToolRecord :=
  let? intent := read_at frames.1.1 in
  let? follow := read_maybe frames.1.2 in
  let? result := read_maybe frames.2 in
  tool_from_frames installation binding project intent follow result.
Fixpoint rebuild_tools (installation : Id) (binding : Id * Id * Id) (project : Id) (l : list ToolFrames) : Result (list ToolRecord) :=
  match l with
  | [] => Ok []
  | frames :: l =>
      let? tool := rebuild_tool installation binding project frames in
      let? tools := rebuild_tools installation binding project l in Ok (tool :: tools)
  end.
Definition start_follows (tools : Z) (starts : list Z) (start : Z) : bool :=
  (start <=? tools) && is_none_or (fun p => p <? start) (last starts).
Definition r_operation (installation : Id) (init : PendingInit) (conversations : gmap Id Conversation)
    : reader (Id * Operation) :=
  read id := r_array 16 in read conversation := r_array 16 in read generation := r_u64 in read task := r_array 16 in
  read owner := r_u64 in read input_digest := r_array 32 in read accepted := r_locator in read notice := r_u64 in
  read helper := r_optional in read cancel := r_cancel in
  read count := r_u32 in read _ := rlift (require (count <=? MAX_TOOL_CALL_ORDINAL)) in
  read frames := r_many (Z.to_nat count) r_tool in
  read starts := r_u32 in read _ := rlift (require (starts <=? MAX_TOOL_CALL_ORDINAL + 1)) in
  read request_starts := r_push (Z.to_nat starts) r_u32 (start_follows (zlen frames)) [] in
  read _ := rlift (require (Bool.eqb (bool_decide (request_starts = [])) (is_none helper))) in
  read response := r_text in read thinking := r_text in
  read c := rlift (ok_or Corrupt (conversations !! conversation)) in
  read tools := rlift (rebuild_tools installation (installation, pi_graph init, pi_request init) (cv_project c) frames) in
  rret (id, mkOperation conversation generation task owner input_digest accepted notice helper cancel None tools
              request_starts response thinking).
Definition r_input_kind : reader InputKind :=
  read code := r_byte in
  rlift (if code =? 1 then Ok IQueue else if code =? 2 then Ok ISteer else if code =? 3 then Ok IPerson else Err Corrupt).
Definition r_person_input (q : QueuedInput) : reader QueuedInput :=
  read job := r_option_locator in
  read outcome := r_code_option job_outcome_from_code in
  read r := rlift (ix_frame (qi_frame q)) in
  read p := rlift (match r with RPersonCommandQueued p => Ok p | _ => Err Corrupt end) in
  read _ := rlift (require (
    bool_decide (pc_input p = qi_request q) && bool_decide (pc_project p = qi_project q) &&
    bool_decide (pc_conversation p = qi_conversation q) && bool_decide (qi_dispatch_request q = zeros 16) &&
    is_none (qi_dispatched q) && is_none (qi_promoted q) && (is_some job || is_none outcome))) in
  rret (input_set_person (Some (mkPerson (pc_outside_sandbox p) job outcome)) q).
Definition r_input : reader (Id * QueuedInput) :=
  read id := r_array 16 in read dispatch := r_array 16 in read project := r_array 16 in read conversation := r_array 16 in
  read target := r_array 16 in read target_generation := r_u64 in read kind := r_input_kind in read frame := r_locator in
  read sequence := r_u64 in read owner := r_u64 in read held := r_flag in read dropped := r_flag in read resumed := r_flag in
  read position := r_u64 in read promoted := r_option_locator in
  read dispatched := r_option (read op := r_array 16 in read generation := r_u64 in rret (op, generation)) in
  read dispatched_terminal := r_terminal_again in
  read target_terminal := r_option (read k := r_code terminal_from_code in read c := r_cause in rret (k, c)) in
  read settled := r_maybe_u64 in
  let q := mkInput id dispatch project conversation target target_generation kind frame sequence owner held dropped resumed
             position promoted dispatched dispatched_terminal target_terminal settled None in
  read q := (if decide (kind = IPerson) then r_person_input q else rret q) in
  rret (id, q).
(** [for _ in 0..count { state.load_job(...)?; }]. *)
Fixpoint r_jobs (n : nat) (s : Replay) : reader Replay :=
  match n with
  | O => rret s
  | S n => read intent := r_locator in read cancel := r_locator in read s := rlift (load_job s intent cancel) in r_jobs n s
  end.
Definition r_pending : reader (Call * PolicyOutcome) :=
  read operation := r_array 16 in read generation := r_u64 in read ordinal := r_u32 in
  read outcome := r_code outcome_from_code in rret (operation, generation, ordinal, outcome).
Definition r_person_decision : reader (bytes * PolicyOutcome) :=
  read input := r_array 16 in read outcome := r_code outcome_from_code in rret (input, outcome).
Definition r_policy : reader PolicyReplay :=
  read last_seq := r_u64 in
  read active := r_option (read seq := r_u64 in read digest := r_array 32 in rret (seq, digest)) in
  read pending := r_table MAX_PENDING_POLICY_DECISIONS r_pending in
  read person := r_table MAX_PENDING_PERSON_DECISIONS r_person_decision in
  rlift (restore last_seq active pending person).
Definition r_runs (sequence : Z) : reader (list RunRef) :=
  read count := r_u32 in
  read _ := rlift (require (count <=? MAX_RUNS)) in
  r_push (Z.to_nat count) r_run (run_follows sequence) [].
Definition r_census : reader Census :=
  read segments := r_u64 in read holding := r_u64 in read bytes := r_u64 in rret (mkCensus segments holding bytes).
(** The fields up to the owner generation. *)
Record Head : Type := mkHead {
  hd_installation : Id; hd_sequence : Z; hd_last_digest : Hash; hd_last_frame : Locator; hd_revision : Z; hd_owner : Z;
}.
Definition r_head : reader Head :=
  read magic := r_take 8 in read _ := rlift (require (bool_decide (magic = CHECKPOINT_MAGIC))) in
  read version := r_u16 in read _ := rlift (if version =? 1 then Ok tt else Err UnsupportedFormat) in
  read installation := r_array 16 in read sequence := r_u64 in read last_digest := r_array 32 in
  read last_frame := r_locator in read revision := r_u64 in read owner := r_u64 in
  read _ := rlift (require ((0 <? sequence) && (l_sequence last_frame =? sequence) && (revision =? sequence))) in
  rret (mkHead installation sequence last_digest last_frame revision owner).
(** The state with the stored fields, without jobs and policy. *)
Definition stored_state (h : Head) (init : PendingInit) (binding : option ActiveBinding) (projects : gmap Id ProjectEntry)
    (conversations : gmap Id Conversation) (operation : option (Id * Operation)) (inputs : gmap Id QueuedInput)
    (order : Z) (lane : option Id) : Replay :=
  let s := empty_state (hd_installation h) init in
  let s := set_last_frame (hd_last_frame h) (set_last_digest (hd_last_digest h) (set_sequence (hd_sequence h) s)) in
  let s := set_base (hd_sequence h) (set_owner_generation (hd_owner h) (set_revision (hd_revision h) s)) in
  let s := set_conversations conversations (set_projects projects (set_binding binding s)) in
  let s := match operation with Some (id, op) => set_active (Some id) (set_operations {[id := op]} s) | None => s end in
  set_last_lane lane (set_order_revision order (set_inputs inputs s)).
Definition r_body : reader (Census * list RunRef * Replay) :=
  read h := r_head in
  read census := r_census in
  read runs := r_runs (hd_sequence h) in
  read init := r_init in
  read binding := r_option r_binding in
  read projects := r_table (RECENT_PROJECTS + MAX_INPUTS + 1) r_project in
  read conversations := r_table (RECENT_CONVERSATIONS + MAX_INPUTS + 1) r_conversation in
  read operation := r_option (r_operation (hd_installation h) init conversations) in
  read inputs := r_table (MAX_INPUTS + RECENT_SETTLED_INPUTS + MAX_INPUTS) r_input in
  read order := r_u64 in
  read lane := r_optional in
  let s := stored_state h init binding projects conversations operation inputs order lane in
  read count := r_u32 in
  read _ := rlift (require (count <=? Z.of_nat MAX_UNSETTLED_JOBS)) in
  read s := r_jobs (Z.to_nat count) s in
  read policy := r_policy in
  rret (census, runs, set_policy policy s).
Definition decode_checkpoint (b : bytes) : Result Checkpoint :=
  let? _ := require ((zlen b <=? MAX_CHECKPOINT) && (40 <? zlen b)) in
  let body := zlen b - 40 in
  let? commit := sub (zlen b - 8) (zlen b) b in
  let? digest := sub body (body + 32) b in
  let? covered := sub 0 body b in
  let? _ := require (bool_decide (commit = CHECKPOINT_COMMIT) && bool_decide (digest = sha256 covered)) in
  let? (result, r) := r_body (mkReader covered 0) in
  let? _ := r_finish r in
  let? s := recompute result.2 in
  Ok (mkCheckpoint result.1.1 result.1.2 s).
End Decoding.

(** ** The fields of the file and their widths. *)
#[export] Instance outcome_table : CodeTable outcome_code outcome_from_code.
Proof. unfold outcome_from_code. table_ifs. Qed.
#[export] Instance field_terminal_option :
  Field (r_code_option terminal_from_code) (fun _ => True) (fun o => put_byte (code_or_0 terminal_code o)).
Proof. apply field_code_option; [apply _|by intros []]. Qed.
#[export] Instance field_outcome_option :
  Field (r_code_option job_outcome_from_code) (fun _ => True) (fun o => put_byte (code_or_0 job_outcome_code o)).
Proof. apply field_code_option; [apply _|by intros []]. Qed.
#[export] Instance field_cause : Field r_cause (fun _ => True) (fun c => put_byte (cause_code c)).
Proof. unfold r_cause. apply _. Qed.
#[export] Instance field_locator : Field r_locator locator_ok put_locator.
Proof.
  split.
  - eapply yields_bind; [apply parses_yields; by apply parses_take|]. intros b e [-> Hb]. apply yields_lift_last.
    intros l Hl. rewrite app_nil_r. destruct (locator_decode_sound e l Hb Hl) as [? <-]. split; [done|apply puts_bytes].
  - intros l Hl. eapply step_last; [apply step_take, array_locator|]. cbv beta. rewrite locator_roundtrip by done.
    exists []. split; [apply puts_none|apply reads_lift].
Qed.
#[export] Instance field_option_locator :
  Field r_option_locator (fun o => forall l, o = Some l -> locator_ok l) put_option_locator := field_option _ _ _.
#[export] Instance field_option_u64 : Field r_maybe_u64 (fun o => forall v, o = Some v -> u64 v) put_option_u64 :=
  field_option _ _ _.
Record run_ok (r : RunRef) : Prop := {
  uo_first : u64 (ru_first r); uo_last : u64 (ru_last r); uo_level : u8 (ru_level r); uo_entries : u64 (ru_entries r);
  uo_bytes : u64 (ru_bytes r); uo_digest : array 32 (ru_digest r);
}.
#[export] Instance field_run : Field r_run run_ok put_run.
Proof. plain_field r_run put_run. Qed.
Record init_ok (p : PendingInit) : Prop := {
  io_request : array 16 (pi_request p); io_digest : array 32 (pi_digest p); io_mode : u8 (pi_mode p);
  io_revision : u64 (pi_configuration_revision p); io_configuration : array 32 (pi_configuration_digest p);
  io_graph : array 16 (pi_graph p);
}.
#[export] Instance field_init : Field r_init init_ok put_init.
Proof. plain_field r_init put_init. Qed.
Record bound_ok (p : ActiveBinding) : Prop := {
  bo_request : array 16 (ab_request p); bo_generation : u64 (ab_generation p); bo_graph : array 16 (ab_graph p);
  bo_digest : array 32 (ab_configuration_digest p);
}.
#[export] Instance field_binding : Field r_binding bound_ok put_binding.
Proof. plain_field r_binding put_binding. Qed.
Record name_ok (n : ProjectName) : Prop := {
  no_name : str_ok (nm_name n) /\ zlen (nm_name n) <= MAX_NAME; no_revision : u64 (nm_revision n);
}.
#[export] Instance field_name : Field r_name name_ok put_name.
Proof. plain_field r_name put_name. Qed.
Record project_latest_ok (p : ProjectLatest) : Prop := {
  xo_conversation : array 16 (px_conversation p); xo_operation : array 16 (px_operation p);
  xo_generation : u64 (px_generation p); xo_accepted : u64 (px_accepted p);
  xo_terminal : forall v, px_terminal p = Some v -> u64 v;
}.
#[export] Instance field_project_latest : Field r_project_latest project_latest_ok put_project_latest.
Proof. plain_field r_project_latest put_project_latest. Qed.
Record project_ok (e : Id * ProjectEntry) : Prop := {
  po_id : array 16 e.1; po_same : pr_project (pj_registration e.2) = e.1;
  po_request : array 16 (pr_request (pj_registration e.2)); po_digest : array 32 (pr_digest (pj_registration e.2));
  po_location : str_ok (pr_location (pj_registration e.2)) /\ zlen (pr_location (pj_registration e.2)) <= MAX_LOCATION;
  po_device : u64 (pr_device (pj_registration e.2)); po_inode : u64 (pr_inode (pj_registration e.2));
  po_revision : u64 (pr_registry_revision (pj_registration e.2)); po_visibility : u8 (pr_visibility (pj_registration e.2));
  po_registered : locator_ok (pj_registered e.2); po_name : forall n, pj_name e.2 = Some n -> name_ok n;
  po_latest : forall l, pj_latest e.2 = Some l -> project_latest_ok l; po_activity : u64 (pj_activity e.2);
}.
#[export] Instance field_project : Field r_project project_ok put_project.
Proof.
  split.
  - unfold r_project. repeat yields_next. split; [by constructor|unfold put_project; cbn; puts_done].
  - intros [id [[] ]] []. unfold r_project, put_project. cbn in *. subst. repeat (step_next; try done).
Qed.
Record latest_ok (l : LatestTurn) : Prop := {
  lo_operation : array 16 (lt_operation l); lo_accepted : locator_ok (lt_accepted l);
  lo_notice : u64 (lt_notice_through l);
}.
#[export] Instance field_latest : Field r_latest latest_ok put_latest.
Proof. plain_field r_latest put_latest. Qed.
Record conversation_ok (e : Id * Conversation) : Prop := {
  co_id : array 16 e.1; co_project : array 16 (cv_project e.2); co_generation : u64 (cv_generation e.2);
  co_created : locator_ok (cv_created e.2); co_latest : forall l, cv_latest e.2 = Some l -> latest_ok l;
  co_completed : u64 (cv_completed e.2); co_activity : u64 (cv_activity e.2);
}.
#[export] Instance field_conversation : Field r_conversation conversation_ok put_conversation.
Proof.
  split.
  - unfold r_conversation. repeat yields_next. split; [by constructor|unfold put_conversation; cbn; puts_done].
  - intros [id []] []. unfold r_conversation, put_conversation. cbn in *. repeat (step_next; try done).
Qed.
Record tool_frames_ok (t : ToolFrames) : Prop := {
  fo_intent : locator_ok t.1.1; fo_follow : forall l, t.1.2 = Some l -> locator_ok l;
  fo_result : forall l, t.2 = Some l -> locator_ok l;
}.
#[export] Instance field_tool : Field r_tool tool_frames_ok put_tool.
Proof.
  split.
  - unfold r_tool. repeat yields_next. split; [by constructor|unfold put_tool; cbn; puts_done].
  - intros [[] ] []. unfold r_tool, put_tool. cbn in *. repeat (step_next; try done).
Qed.
Record piece_ok (p : ResponsePiece) : Prop := {
  ro_start : u64 (rp_start p); ro_kept : u64 (rp_kept p); ro_frame : locator_ok (rp_frame p);
}.
#[export] Instance field_piece : Field r_piece piece_ok put_piece.
Proof. plain_field r_piece put_piece. Qed.
Record text_ok (t : Response) : Prop := {
  xt_len : u64 (re_len t); xt_count : zlen (re_pieces t) <= MAX_RESPONSE_PIECES; xt_pieces : Forall piece_ok (re_pieces t);
}.
#[export] Instance field_text : Field r_text text_ok put_text.
Proof.
  split.
  - unfold r_text. repeat yields_next. destruct_and!. guards.
    match goal with Hn : u32 ?n, Hp : puts (put_u32 ?n) ?e, Hl : length ?l = Z.to_nat ?n |- _ =>
      assert (puts (put_len l) e) by
        (rewrite (puts_inj _ _ _ Hp (puts_u32 n)); apply puts_len; [done|apply zlen_to_nat; [unfold uint in Hn; lia|done]]);
      assert (zlen l = n) by (apply zlen_to_nat; [unfold uint in Hn; lia|done]) end.
    split; [constructor; cbn; [done|lia|done]|]. unfold put_text. cbn. puts_done.
  - intros [len pieces] []. unfold r_text, put_text. cbn in *. step_next; [done|].
    eapply step_bind; [apply step_len; unfold uint, MAX_RESPONSE_PIECES in *; pose proof (zlen_nonneg pieces); lia|].
    cbv beta. step_next; [by apply Z.leb_le|]. unfold zlen. rewrite Nat2Z.id. step_next; [done|]. apply step_ret.
Qed.
Lemma field_ext {A} (p q : reader A) ok f : (forall r, p r = q r) -> Field q ok f -> Field p ok f.
Proof.
  intros E [Hy Hs]. split.
  - intros bs o a r Hb Ho Hr. rewrite E in Hr. by apply (Hy bs o a r).
  - intros a Ha. destruct (Hs a Ha) as (e & ? & Hr). exists e. split; [done|]. intros pre post. rewrite E. apply Hr.
Qed.
Lemma r_byte_offset r c r' : r_byte r = Ok (c, r') -> r' = mkReader (rd_bytes r) (rd_offset r + 1).
Proof.
  unfold r_byte, r_take. intros Hr. apply obind_Ok in Hr as ([b r1] & Hb & Hr). apply obind_Ok in Hb as (b' & _ & Hb).
  injection Hb as <- <-. destruct b' as [|? []]; try done. by injection Hr as <- <-.
Qed.
#[export] Instance field_terminal_again :
  Field r_terminal_again (fun _ => True) (fun o => put_byte (code_or_0 terminal_code o)).
Proof.
  eapply field_ext; [|apply field_terminal_option]. intros r. unfold r_terminal_again, r_code_option, r_code, rbind.
  destruct (r_byte r) as [[c r']| |] eqn:Hr; cbn [obind]; [|done..]. destruct (c =? 0); [done|].
  pose proof (r_byte_offset _ _ _ Hr) as ->. unfold r_unread. cbn [rd_bytes rd_offset obind].
  replace (rd_offset r + 1 - 1) with (rd_offset r) by lia. destruct r as [bs o]. cbn [rd_bytes rd_offset] in *.
  rewrite Hr. cbn [obind]. unfold rlift. by destruct (terminal_from_code c).
Qed.
#[export] Instance field_cancel : Field r_cancel (fun _ => True) (fun o => put_byte (cancel_code o)).
Proof.
  split.
  - unfold r_cancel. yields_next. match goal with |- context [?c =? 255] => destruct (Z.eqb_spec c 255) as [->|] end.
    { yields_next. rewrite app_nil_r. done. }
    yields_next. yields_next. inv_run. rewrite app_nil_r.
    match goal with Hc : cause_from_code _ = Some _ |- _ => apply (from_code_only (code := cause_code)) in Hc as -> end. done.
  - intros o _. exists [cancel_code o]. split; [apply puts_byte|]. eapply reads_last; [apply reads_byte|]. cbv beta.
    destruct o as [c|]; cbn [cancel_code]; [|apply reads_ret]. destruct (Z.eqb_spec (cause_code c) 255) as [E|]; [by destruct c|].
    rewrite code_from. cbn [ok_or]. eapply reads_last; apply reads_lift.
Qed.
Section Rebuilding.
Context `{Hasher, Unicode, JournalIndex}.
Lemma tool_from_frames_locators installation binding project intent follow result tool :
  tool_from_frames installation binding project intent follow result = Ok tool ->
  tool_frames tool = (intent.1, fst <$> follow, fst <$> result).
Proof.
  unfold tool_from_frames. intros Ht. destruct intent as [at_ r]. cbn [fst snd] in *. apply obind_Ok in Ht as (call & _ & Ht).
  apply obind_Ok in Ht as (create & _ & Ht). apply obind_Ok in Ht as ([exec note] & Hf & Ht).
  assert (match exec ≫= ec_job_intent with Some frame => Some frame | None => snd <$> note end = fst <$> follow) as E.
  { destruct follow as [[fl []]|]; try done; inv_run; cbn; repeat case_match; simplify_eq/=; try done. }
  destruct result as [[fr []]|]; inv_run; unfold tool_frames, follow_frame; cbn; by rewrite E.
Qed.
Lemma rebuild_tool_locators installation binding project frames tool :
  rebuild_tool installation binding project frames = Ok tool -> tool_frames tool = frames.
Proof.
  unfold rebuild_tool, read_maybe, read_at. destruct frames as [[intent follow] result]. cbn [fst snd]. intros Ht. inv_run.
  apply tool_from_frames_locators in Ht. rewrite Ht. destruct follow, result; inv_run; done.
Qed.
Lemma rebuild_tools_locators installation binding project l tools :
  rebuild_tools installation binding project l = Ok tools -> tool_frames <$> tools = l.
Proof.
  revert tools. induction l as [|frames l IH]; intros tools Ht; cbn in Ht; inv_run; [done|].
  cbn. f_equal; [by eapply rebuild_tool_locators|by apply IH].
Qed.
Record operation_ok (installation : Id) (init : PendingInit) (conversations : gmap Id Conversation) (e : Id * Operation)
    : Prop := {
  oo_id : array 16 e.1; oo_conversation : array 16 (op_conversation e.2); oo_generation : u64 (op_generation e.2);
  oo_task : array 16 (op_task e.2); oo_owner : u64 (op_owner_generation e.2); oo_digest : array 32 (op_input_digest e.2);
  oo_accepted : locator_ok (op_accepted_frame e.2); oo_notice : u64 (op_notice_through e.2);
  oo_helper : forall h, op_helper e.2 = Some h -> array 16 h; oo_open : op_terminal e.2 = None;
  oo_count : zlen (op_tools e.2) <= MAX_TOOL_CALL_ORDINAL; oo_frames : Forall tool_frames_ok (tool_frames <$> op_tools e.2);
  oo_starts : zlen (op_request_starts e.2) <= MAX_TOOL_CALL_ORDINAL + 1 /\ Forall (fun n => u32 n) (op_request_starts e.2) /\
    pushes (start_follows (zlen (op_tools e.2))) [] (op_request_starts e.2);
  oo_started : bool_decide (op_request_starts e.2 = []) = is_none (op_helper e.2);
  oo_response : text_ok (op_response e.2); oo_thinking : text_ok (op_thinking e.2);
  oo_tools : exists c, conversations !! op_conversation e.2 = Some c /\
    rebuild_tools installation (installation, pi_graph init, pi_request init) (cv_project c) (tool_frames <$> op_tools e.2) =
    Ok (op_tools e.2);
}.
Lemma field_starts n check :
  yields (r_push n r_u32 check [])
    (fun l e => (length l = n /\ Forall (fun n => u32 n) l /\ pushes check [] l) /\
                puts (put_each (fun start => put_u32 (wrap 32 start)) l) e).
Proof.
  eapply yields_weaken; [apply (yields_push _ _ _ (fun n => u32 n) (fun start => put_u32 (wrap 32 start)))|].
  - eapply yields_weaken; [apply fd_yields|]. cbv beta. intros v e [Hv He]. split; [done|]. by rewrite wrap_small.
  - intros l e (m & -> & ? & ? & ? & ?). done.
Qed.
#[export] Instance field_operation installation init conversations :
  Field (r_operation installation init conversations) (operation_ok installation init conversations) put_operation.
Proof.
  split.
  - unfold r_operation. do 12 yields_next. yields_next. yields_next. yields_next.
    eapply yields_bind; [apply field_starts|]. cbv beta. intros ? ? [? ?]. repeat yields_next. destruct_and!. inv_run. guards.
    match goal with Hr : rebuild_tools _ _ _ _ = Ok _ |- _ =>
      pose proof Hr as Hr'; apply rebuild_tools_locators in Hr; subst end.
    rewrite length_fmap in *.
    repeat match goal with Hn : u32 ?n, Hp : puts (put_u32 ?n) ?e, Hl : length ?l = Z.to_nat ?n |- _ =>
      assert (puts (put_len l) e) by
        (rewrite (puts_inj _ _ _ Hp (puts_u32 n)); apply puts_len; [done|apply zlen_to_nat; [unfold uint in Hn; lia|done]]);
      assert (zlen l = n) by (apply zlen_to_nat; [unfold uint in Hn; lia|done]); clear Hp end.
    split; [|unfold put_operation; cbn; puts_done].
    constructor; cbn; try done; [lia|..].
    + split; [lia|]. split; [done|]. revert select (pushes _ _ _). unfold zlen. by rewrite length_fmap.
    + by apply eqb_prop.
    + by eexists.
  - intros [id []] []. unfold r_operation, put_operation. cbn in *. destruct_and!. destruct oo_tools0 as (c & Hc & Ht).
    subst. do 10 (step_next; [done|]).
    eapply step_bind; [apply step_len; unfold uint, MAX_TOOL_CALL_ORDINAL, MAX_RECORDED_CALLS in *; pose proof (zlen_nonneg op_tools); lia|].
    cbv beta. step_next; [by apply Z.leb_le|]. step_next.
    { split; [|done]. rewrite length_fmap. unfold zlen. lia. }
    eapply step_bind; [apply step_len; unfold uint, MAX_TOOL_CALL_ORDINAL, MAX_RECORDED_CALLS in *; pose proof (zlen_nonneg op_request_starts); lia|].
    cbv beta. step_next; [by apply Z.leb_le|].
    eapply step_bind.
    { unfold zlen. rewrite length_fmap, Nat2Z.id. eapply (step_push _ _ _ [] op_request_starts); [|done].
      eapply Forall_impl; [eassumption|]. cbv beta. intros v Hv. rewrite wrap_small by done. by apply step_u32. }
    cbn [app]. step_next; [by rewrite oo_started0, eqb_reflx|]. step_next; [done|]. step_next; [done|].
    eapply step_lift; [by rewrite Hc|]. eapply step_lift; [exact Ht|]. apply step_ret.
Qed.
End Rebuilding.
#[export] Instance field_input_kind : Field r_input_kind (fun _ => True) (fun k => put_byte (input_kind_code k)).
Proof.
  split.
  - unfold r_input_kind. yields_next. apply yields_lift_last. intros k Hk. rewrite app_nil_r. split; [done|].
    repeat case_match; simplify_eq; guards; by subst.
  - intros k _. exists [input_kind_code k]. split; [apply puts_byte|]. eapply reads_last; [apply reads_byte|].
    destruct k; apply reads_lift.
Qed.
#[export] Instance field_dispatched :
  Field (read op := r_array 16 in read generation := r_u64 in rret (op, generation))
    (fun d => array 16 d.1 /\ u64 d.2) put_dispatched.
Proof.
  split; [repeat yields_next; split; [done|unfold put_dispatched; cbn; puts_done]|].
  intros [] [? ?]. unfold put_dispatched. cbn in *. repeat (step_next; try done).
Qed.
#[export] Instance field_target :
  Field (read k := r_code terminal_from_code in read c := r_cause in rret (k, c)) (fun _ => True) put_target.
Proof.
  split; [repeat yields_next; split; [done|unfold put_target; cbn; puts_done]|].
  intros [] _. unfold put_target. cbn in *. repeat (step_next; try done).
Qed.
Lemma step_tail {A} c (p : reader A) a : puts c [] -> in_step put_none p a -> in_step c p a.
Proof. intros Hc (e & He & Hr). exists []. split; [done|]. by rewrite <- (puts_inj _ _ _ He puts_none). Qed.
Lemma yields_ret_bind {A B} (a : A) (k : A -> reader B) Q : yields (k a) Q -> yields (rbind (rret a) k) Q.
Proof. done. Qed.
Section Inputs.
Context `{JournalIndex}.
(** What the file and the kind 31 frame must say of a person input. *)
Definition person_ok (q : QueuedInput) : Prop :=
  match qi_person q with
  | Some person =>
      qi_kind q = IPerson /\ (forall l, pf_job person = Some l -> locator_ok l) /\
      qi_dispatch_request q = zeros 16 /\ qi_dispatched q = None /\ qi_promoted q = None /\
      (is_Some (pf_job person) \/ pf_outcome person = None) /\
      exists p, ix_frame (qi_frame q) = Ok (RPersonCommandQueued p) /\ pc_input p = qi_request q /\
        pc_project p = qi_project q /\ pc_conversation p = qi_conversation q /\ pc_outside_sandbox p = pf_outside_sandbox person
  | None => qi_kind q <> IPerson
  end.
Record input_ok (e : Id * QueuedInput) : Prop := {
  qo_id : array 16 e.1; qo_same : qi_request e.2 = e.1; qo_dispatch : array 16 (qi_dispatch_request e.2);
  qo_project : array 16 (qi_project e.2); qo_conversation : array 16 (qi_conversation e.2);
  qo_target : array 16 (qi_target_operation e.2); qo_target_generation : u64 (qi_target_generation e.2);
  qo_frame : locator_ok (qi_frame e.2); qo_sequence : u64 (qi_sequence e.2); qo_owner : u64 (qi_owner_generation e.2);
  qo_position : u64 (qi_order_position e.2); qo_promoted : forall l, qi_promoted e.2 = Some l -> locator_ok l;
  qo_dispatched : forall d, qi_dispatched e.2 = Some d -> array 16 d.1 /\ u64 d.2;
  qo_settled : forall v, qi_settled e.2 = Some v -> u64 v; qo_person : person_ok e.2;
}.
Lemma yields_person_input q :
  qi_kind q = IPerson ->
  yields (r_person_input q) (fun q' e => exists f, q' = input_set_person (Some f) q /\ person_ok q' /\ puts (put_person q') e).
Proof.
  intros Hk. unfold r_person_input. do 5 yields_next. yields_next. inv_run. case_match; simplify_eq. guards. eexists. split; [done|].
  split.
  - cbn. split_and!; try done.
    + match goal with Ho : _ || _ = true |- _ => apply orb_true_iff in Ho as [Ho|Ho]; guards end; [by left|by right].
    + eexists. split_and!; try done.
  - unfold put_person. cbn. apply puts_none_seq; [by apply puts_require, bool_decide_eq_true|]. puts_done.
Qed.
Lemma step_person_input q f :
  person_ok (input_set_person (Some f) q) ->
  in_step (put_person (input_set_person (Some f) q)) (r_person_input q) (input_set_person (Some f) q).
Proof.
  destruct f as [outside job outcome]. unfold put_person, person_ok, r_person_input. cbn.
  intros (Hk & Hj & Hd & Hdd & Hp & Ho & p & Hp1 & Hp2 & Hp3 & Hp4 & <-).
  step_next; [by apply bool_decide_eq_true|]. step_next; [done|]. step_next; [done|].
  eapply step_lift; [exact Hp1|]. eapply step_lift; [done|]. step_next; [|apply step_ret].
  rewrite Hdd, Hp. cbn [is_none is_some negb]. rewrite !bool_decide_true by done. cbn [andb].
  destruct Ho as [[? ->]| ->]; cbn; [done|by rewrite orb_true_r].
Qed.
#[export] Instance field_input : Field r_input input_ok put_input.
Proof.
  split.
  - unfold r_input. do 19 yields_next. destruct (decide _) as [->|Hn].
    + eapply yields_bind; [by apply yields_person_input|]. cbv beta. intros q' e' (f & -> & Hok & Hput). yields_next.
      split; [by constructor|]. unfold put_input. cbn. puts_done. apply puts_none_seq; [by apply puts_require, bool_decide_eq_true|].
      puts_done.
    + apply yields_ret_bind. yields_next.
      split; [by constructor|]. unfold put_input. cbn. puts_done. apply puts_none_seq; [by apply puts_require, bool_decide_eq_true|].
      puts_done. by apply puts_require, bool_decide_eq_true.
  - intros [id q] []. destruct q. cbn in *. subst. unfold r_input, put_input. cbn.
    step_next; [done|]. step_next; [by apply bool_decide_eq_true|]. do 17 (step_next; [done|]).
    destruct qi_person as [f|].
    + step_next; [done|]. destruct (decide _) as [->|Hn]; [|by destruct qo_person0].
      eapply step_last; [exact (step_person_input (mkInput id _ _ _ _ _ IPerson _ _ _ _ _ _ _ _ _ _ _ _ None) f qo_person0)|].
      apply step_ret.
    + eapply step_bind; [by apply fd_step|]. cbv beta. rewrite decide_False by done.
      apply step_tail; [by apply puts_require, bool_decide_eq_true|]. eapply step_last; apply step_ret.
Qed.
End Inputs.
#[export] Instance field_active :
  Field (read seq := r_u64 in read digest := r_array 32 in rret (seq, digest)) (fun a => u64 a.1 /\ array 32 a.2) put_active.
Proof.
  split; [repeat yields_next; split; [done|unfold put_active; cbn; puts_done]|].
  intros [] [? ?]. unfold put_active. cbn in *. repeat (step_next; try done).
Qed.
#[export] Instance field_pending :
  Field r_pending (fun e => array 16 e.1.1.1 /\ u64 e.1.1.2 /\ u32 e.1.2) put_pending.
Proof.
  split; [unfold r_pending; repeat yields_next; split; [done|unfold put_pending; cbn; puts_done]|].
  intros [[[] ] ] (? & ? & ?). unfold r_pending, put_pending. cbn in *. repeat (step_next; try done).
Qed.
#[export] Instance field_person_decision : Field r_person_decision (fun e => array 16 e.1) put_person_decision.
Proof.
  split; [unfold r_person_decision; repeat yields_next; split; [done|unfold put_person_decision; cbn; puts_done]|].
  intros [] ?. unfold r_person_decision, put_person_decision. cbn in *. repeat (step_next; try done).
Qed.
Record policy_ok (p : PolicyReplay) : Prop := {
  yo_last : u64 (pl_last_seq p); yo_active : forall a, pl_active p = Some a -> u64 a.1 /\ array 32 a.2;
  yo_pending : Forall (fun e => array 16 e.1.1.1 /\ u64 e.1.1.2 /\ u32 e.1.2) (btree_iter (pl_pending p));
  yo_person : Forall (fun e => array 16 e.1) (btree_iter (pl_person p));
  yo_restores : restore (pl_last_seq p) (pl_active p) (pl_pending p) (pl_person p) = Ok p;
}.
Lemma zlen_btree `{Countable K, Cmp K} {V} (m : gmap K V) : zlen (btree_iter m) = Z.of_nat (size m).
Proof. unfold zlen. rewrite (Permutation_length (btree_iter_perm m)). by rewrite length_map_to_list. Qed.
Lemma restore_Ok last active pending person p :
  restore last active pending person = Ok p ->
  p = mkReplay last active pending person /\ (size pending <= MAX_PENDING_POLICY_DECISIONS)%nat /\
  (size person <= MAX_PENDING_PERSON_DECISIONS)%nat.
Proof. unfold restore. intros. inv_run. guards. done. Qed.
#[export] Instance field_policy : Field r_policy policy_ok put_policy.
Proof.
  split.
  - unfold r_policy. do 4 yields_next. apply yields_lift_last. intros p Hp. pose proof Hp as Hr.
    apply restore_Ok in Hp as (-> & ? & ?). rewrite app_nil_r. destruct_and!. split; [by constructor|].
    unfold put_policy. cbn. puts_done. apply puts_none_seq; [apply puts_require; rewrite Z.leb_le, zlen_btree; lia|]. puts_done.
    apply puts_none_seq; [apply puts_require; rewrite Z.leb_le, zlen_btree; lia|]. done.
  - intros p []. pose proof (restore_Ok _ _ _ _ _ yo_restores0) as (_ & ? & ?).
    destruct p as [seq act pending person]. unfold r_policy, put_policy. cbn in *.
    do 2 (step_next; [done|]). step_next; [rewrite Z.leb_le, zlen_btree; lia|].
    step_next; [split; [rewrite zlen_btree; lia|done]|]. step_next; [rewrite Z.leb_le, zlen_btree; lia|].
    step_next; [split; [rewrite zlen_btree; lia|done]|]. rewrite yo_restores0.
    exists []. split; [apply puts_none|apply reads_lift].
Qed.
Definition runs_ok (sequence : Z) (runs : list RunRef) : Prop :=
  zlen runs <= MAX_RUNS /\ Forall run_ok runs /\ pushes (run_follows sequence) [] runs.
#[export] Instance field_runs sequence : Field (r_runs sequence) (runs_ok sequence) (put_table put_run).
Proof.
  split.
  - unfold r_runs. do 2 yields_next. eapply yields_weaken; [apply yields_push, fd_yields|].
    intros l e' (m & -> & Hm & ? & ? & ?). guards.
    match goal with Hn : u32 ?n, Hp : puts (put_u32 ?n) ?e |- _ =>
      assert (zlen m = n) by (apply zlen_to_nat; [unfold uint in Hn; lia|done]);
      rewrite (puts_inj _ _ _ Hp (puts_u32 n)) end.
    cbn [app]. split; [split; [lia|done]|]. apply puts_seq; [by apply puts_len|done].
  - intros runs (Hl & Hok & Hp). unfold r_runs, put_table.
    eapply step_bind; [apply step_len; unfold uint, MAX_RUNS in *; pose proof (zlen_nonneg runs); lia|]. cbv beta.
    step_next; [by apply Z.leb_le|]. unfold zlen. rewrite Nat2Z.id. eapply (step_push _ _ _ [] runs); [|done].
    eapply Forall_impl; [exact Hok|]. intros. by apply fd_step.
Qed.
Record census_ok (c : Census) : Prop := {
  so_segments : u64 (ce_segments c); so_holding : u64 (ce_holding c); so_bytes : u64 (ce_bytes c);
}.
#[export] Instance field_census : Field r_census census_ok put_census.
Proof. plain_field r_census put_census. Qed.
Definition head_of (s : Replay) : Head :=
  mkHead (st_installation_id s) (st_sequence s) (st_last_digest s) (st_last_frame s) (st_revision s) (st_owner_generation s).
Record head_ok (h : Head) : Prop := {
  ho_installation : array 16 (hd_installation h); ho_sequence : u64 (hd_sequence h); ho_digest : array 32 (hd_last_digest h);
  ho_frame : locator_ok (hd_last_frame h); ho_revision : u64 (hd_revision h); ho_owner : u64 (hd_owner h);
  ho_started : 0 < hd_sequence h; ho_last : l_sequence (hd_last_frame h) = hd_sequence h;
  ho_counted : hd_revision h = hd_sequence h;
}.
Definition put_head_of (h : Head) : put :=
  put_bytes CHECKPOINT_MAGIC ;> put_u16 1 ;> put_bytes (hd_installation h) ;> put_u64 (hd_sequence h) ;>
  put_bytes (hd_last_digest h) ;> put_locator (hd_last_frame h) ;> put_u64 (hd_revision h) ;> put_u64 (hd_owner h).
#[export] Instance field_head : Field r_head head_ok put_head_of.
Proof.
  split.
  - unfold r_head. eapply yields_bind; [apply parses_yields; by apply parses_take|]. intros magic e [-> _].
    yields_next. guards. subst e. yields_next. yields_next. destruct (Z.eqb_spec a 1) as [->|]; [|done]. repeat yields_next. guards.
    split; [by constructor|]. unfold put_head_of. cbn -[CHECKPOINT_MAGIC]. apply puts_seq; [apply puts_bytes|]. puts_done.
  - intros [] []. cbn in *. unfold r_head, put_head_of. cbn -[CHECKPOINT_MAGIC]. eapply step_bind; [by apply (step_take 8)|]. cbv beta.
    step_next; [by apply bool_decide_eq_true|]. step_next; [by_decide|]. eapply step_lift; [done|].
    do 5 (step_next; [done|]). step_next; [done|]. subst. step_next; [|apply step_ret].
    by rewrite !Z.eqb_refl, (proj2 (Z.ltb_lt _ _)) by done.
Qed.
Lemma put_head_head s : put_head s = put_head_of (head_of s).
Proof. done. Qed.
