(* ===== verification/Restore.v ===== *)
(** * Checkpoint restore (authority/checkpoint.rs).

    The whole file: [storable s] is what [encode] relies on, the widths of the
    fields, the limits [decode] checks and the frames that rebuild tool calls
    and jobs. The theorems: a restored state continues the journal as the state
    that was written; a file that decodes is the encoding of what it decodes to,
    up to the unused bytes of an absent cancel locator; and a state with more
    projects than [decode] allows is written and then refused. *)
From Stdlib Require Import ZArith Lia String.
From stdpp Require Import prelude list gmap sorting.
From S2P Require Import Prelude Collections PayloadId Codec Fields Envelope Index Run Policy PathGuard Types.
From S2P Require Import PolicyReplay Text Rules Tables Sync ReplayState Replay Effects Delta Reach ReplayDemo Turns Rolls Checkpoint.

(** Both sides of an equation of states, field by field. *)
Ltac state_eq :=
  cbv beta iota zeta delta [set_sequence set_last_digest set_last_frame set_revision set_owner_generation set_binding set_projects set_conversations set_operations set_active set_inputs set_jobs set_order_revision set_last_lane set_reserved_bytes set_reserved_frames set_requests set_policy set_base set_activity set_generated set_entries set_transition_ids set_claimed set_delta_charge set_piece_limit
    st_installation_id st_sequence st_last_digest st_last_frame st_revision st_owner_generation st_initialization st_binding st_projects st_conversations st_operations st_active st_inputs st_jobs st_order_revision st_last_lane st_reserved_bytes st_reserved_frames st_requests st_policy st_base st_activity st_generated st_entries st_transition_ids st_claimed st_delta_charge st_piece_limit]; reflexivity.

Section Restore.
Context `{Hasher, Unicode, JournalIndex}.
Implicit Types s : Replay.

(** ** Jobs. *)
Fixpoint load_jobs s (l : list (Locator * Locator)) : Result Replay :=
  match l with [] => Ok s | job :: l => let? s := load_job s job.1 job.2 in load_jobs s l end.
Definition cancel_frame (job : UnsettledJob) : Locator :=
  match uj_cancel job with Some c => ja_frame c | None => locator_none end.
(** The stored locators of a job, up to the unused bytes of no cancel. *)
Definition stored_as (l : Locator * Locator) (job : UnsettledJob) : Prop :=
  l.1 = uj_intent job /\ (l.2 = cancel_frame job \/ (locator_is_none l.2 = true /\ uj_cancel job = None)).
Lemma load_job_Ok s intent cancel s' :
  load_job s intent cancel = Ok s' ->
  exists job, s' = set_jobs (<[uj_job job := job]> (st_jobs s)) s /\ stored_as (intent, cancel) job /\
    st_jobs s !! uj_job job = None /\
    Forall (fun j => l_sequence (uj_intent j) < l_sequence intent) (btree_values (st_jobs s)).
Proof.
  unfold load_job. intros Hl. apply obind_Ok in Hl as (? & Hr & Hl). apply require_Ok in Hr. guards.
  match goal with Hf : forallb _ _ = true |- _ => apply Is_true_eq_left, forallb_True in Hf end.
  apply obind_Ok in Hl as ([owner r] & _ & Hl). apply obind_Ok in Hl as (p & _ & Hl). apply obind_Ok in Hl as (_ & _ & Hl).
  apply obind_Ok in Hl as (job0 & Hd & Hl). apply obind_Ok in Hl as (_ & _ & Hl). apply obind_Ok in Hl as (job & Hj & Hl).
  apply obind_Ok in Hl as (? & Hn & Hl). apply require_Ok in Hn. injection Hl as <-.
  assert (uj_intent job0 = intent /\ uj_cancel job0 = None) as [Hi0 Hc0].
  { unfold derive_job in Hd. apply obind_Ok in Hd as ([] & _ & Hd). by injection Hd as <-. }
  exists job. split; [done|]. split.
  - unfold stored_as, cancel_frame. cbn. destruct (locator_is_none cancel) eqn:Hz.
    + injection Hj as <-. split; [done|]. by right.
    + apply obind_Ok in Hj as ([] & _ & Hj). apply obind_Ok in Hj as (? & _ & Hj). apply obind_Ok in Hj as (? & _ & Hj).
      apply obind_Ok in Hj as (? & _ & Hj). injection Hj as <-. cbn. split; [done|by left].
  - split; [|].
    + apply negb_true_iff in Hn. unfold has in Hn. apply bool_decide_eq_false in Hn. by apply eq_None_not_Some.
    + eapply Forall_impl; [eassumption|]. cbv beta. intros j Hj'%Is_true_eq_true. by apply Z.ltb_lt.
Qed.
Lemma unsettled_snoc s job :
  st_jobs s !! uj_job job = None ->
  Forall (fun j => l_sequence (uj_intent j) < l_sequence (uj_intent job)) (btree_values (st_jobs s)) ->
  StronglySorted (fun a b => cmp (l_sequence (uj_intent a)) (l_sequence (uj_intent b)) = Lt) (unsettled_jobs s) ->
  unsettled_jobs (set_jobs (<[uj_job job := job]> (st_jobs s)) s) = unsettled_jobs s ++ [job] /\
  StronglySorted (fun a b => cmp (l_sequence (uj_intent a)) (l_sequence (uj_intent b)) = Lt) (unsettled_jobs s ++ [job]).
Proof.
  intros Hn Hf Hs.
  assert (StronglySorted (fun a b => cmp (l_sequence (uj_intent a)) (l_sequence (uj_intent b)) = Lt) (unsettled_jobs s ++ [job])) as Hs'.
  { apply StronglySorted_app_2; [|done|repeat constructor]. intros a b Ha Hb%list_elem_of_singleton. subst b.
    unfold unsettled_jobs in Ha. rewrite sort_by_perm in Ha. rewrite Forall_forall in Hf. specialize (Hf _ Ha).
    by apply Z.compare_lt_iff. }
  split; [|done]. unfold unsettled_jobs at 1.
  apply (sort_by_unique (fun j => l_sequence (uj_intent j))); [|done].
  unfold unsettled_jobs. rewrite sort_by_perm. unfold btree_values. cbn [st_jobs set_jobs].
  rewrite !btree_iter_perm, map_to_list_insert by done. cbn. by rewrite Permutation_app_comm.
Qed.
Lemma load_jobs_Ok s l s' :
  load_jobs s l = Ok s' ->
  StronglySorted (fun a b => cmp (l_sequence (uj_intent a)) (l_sequence (uj_intent b)) = Lt) (unsettled_jobs s) ->
  exists jobs, (exists m, s' = set_jobs m s) /\ unsettled_jobs s' = unsettled_jobs s ++ jobs /\ Forall2 stored_as l jobs.
Proof.
  revert s. induction l as [|[intent cancel] l IH]; intros s Hl Hs; cbn in Hl.
  { injection Hl as <-. exists []. rewrite app_nil_r. split; [exists (st_jobs s); by destruct s|done]. }
  apply obind_Ok in Hl as (s1 & Hj & Hl). apply load_job_Ok in Hj as (job & -> & Hst & Hn & Hf).
  destruct (unsettled_snoc s job Hn) as [E Hs1]; [|done|]. { destruct Hst as [Hi _]. cbn in Hi. by rewrite <- Hi. }
  rewrite <- E in Hs1. destruct (IH _ Hl Hs1) as (jobs & (m & ->) & Hu & Hl2). exists (job :: jobs).
  split; [by exists m|]. split; [|by constructor]. by rewrite Hu, E, <- app_assoc.
Qed.
Lemma yields_jobs n s :
  yields (r_jobs n s) (fun s' e => exists l, length l = n /\ load_jobs s l = Ok s' /\ puts (put_each put_job l) e).
Proof.
  revert s. induction n as [|n IH]; intros s; cbn [r_jobs].
  { apply yields_ret. exists []. auto using puts_none. }
  do 3 yields_next. eapply yields_weaken; [apply IH|]. intros s' e' (l & <- & Hl & Hput). exists ((a, a0) :: l). cbn.
  split; [done|]. split; [match goal with Hj : load_job _ _ _ = Ok _ |- _ => by rewrite Hj end|].
  rewrite app_assoc. apply puts_seq; [|done]. by apply puts_seq.
Qed.
Lemma step_jobs s l s' :
  Forall (fun j => locator_ok j.1 /\ locator_ok j.2) l -> load_jobs s l = Ok s' -> in_step (put_each put_job l) (r_jobs (length l) s) s'.
Proof.
  intros Hl. revert s. induction Hl as [|[intent cancel] l [? ?] _ IH]; intros s Hs; cbn in Hs; cbn [length r_jobs put_each foldr].
  { injection Hs as <-. apply step_ret. }
  apply obind_Ok in Hs as (s1 & Hj & Hs). apply step_assoc. cbn [put_job fst snd]. step_next; [done|]. step_next; [done|].
  eapply step_lift; [exact Hj|]. by apply IH.
Qed.

(** ** The body. *)
(** What [decode] rebuilds before the jobs are loaded, and before the derived
    values are recomputed. *)
Definition without_jobs s : Replay :=
  stored_state (head_of s) (st_initialization s) (st_binding s) (st_projects s) (st_conversations s) (active s) (st_inputs s)
    (st_order_revision s) (st_last_lane s).
Definition loaded s : Replay := set_policy (st_policy s) (set_jobs (st_jobs s) (without_jobs s)).
Record storable s : Prop := {
  sb_head : head_ok (head_of s);
  sb_init : init_ok (st_initialization s);
  sb_binding : forall b, st_binding s = Some b -> bound_ok b;
  sb_projects : Forall project_ok (btree_iter (st_projects s));
  sb_conversations : Forall conversation_ok (btree_iter (st_conversations s));
  sb_operation : forall e, active s = Some e -> operation_ok (st_installation_id s) (st_initialization s) (st_conversations s) e;
  sb_inputs : Forall input_ok (btree_iter (st_inputs s));
  sb_order : u64 (st_order_revision s);
  sb_lane : forall l, st_last_lane s = Some l -> array 16 l;
  sb_jobs : Forall (fun j => locator_ok j.1 /\ locator_ok j.2) (job_locators s);
  sb_loads : load_jobs (without_jobs s) (job_locators s) = Ok (set_jobs (st_jobs s) (without_jobs s));
  sb_policy : policy_ok (st_policy s);
}.
(** The counts [decode] admits. *)
Record within_limits s : Prop := {
  wl_projects : (size (st_projects s) <= RECENT_PROJECTS + MAX_INPUTS + 1)%nat;
  wl_conversations : (size (st_conversations s) <= RECENT_CONVERSATIONS + MAX_INPUTS + 1)%nat;
  wl_inputs : (size (st_inputs s) <= MAX_INPUTS + RECENT_SETTLED_INPUTS + MAX_INPUTS)%nat;
  wl_jobs : (size (st_jobs s) <= MAX_UNSETTLED_JOBS)%nat;
}.
Lemma zlen_job_locators s : zlen (job_locators s) = Z.of_nat (size (st_jobs s)).
Proof.
  unfold job_locators, unsettled_jobs, zlen. rewrite length_fmap, (Permutation_length (sort_by_perm _ _)).
  unfold btree_values. rewrite length_fmap. apply zlen_btree.
Qed.
Lemma step_body s census runs :
  storable s -> within_limits s -> census_ok census -> runs_ok (st_sequence s) runs ->
  in_step (put_body s census runs (job_locators s)) r_body (census, runs, loaded s).
Proof.
  intros [] [] Hc Hr. unfold put_body, r_body. rewrite put_head_head.
  pose proof (zlen_job_locators s) as Hl.
  do 11 (step_next; [first [done|split; [rewrite zlen_btree; lia|done]]|]).
  cbv zeta. step_next; [apply Z.leb_le; lia|]. unfold put_table. apply step_assoc.
  eapply step_bind; [apply step_len; unfold uint, MAX_UNSETTLED_JOBS in *; lia|]. cbv beta.
  step_next; [apply Z.leb_le; lia|]. unfold zlen. rewrite Nat2Z.id.
  eapply step_bind; [by apply step_jobs|]. cbv beta. step_next; [done|]. apply step_ret.
Qed.
Lemma stored_active h init binding projects conversations operation inputs order lane m policy :
  active (set_policy policy (set_jobs m (stored_state h init binding projects conversations operation inputs order lane))) = operation.
Proof. destruct operation as [[id op]|]; [|done]. cbn. by rewrite lookup_singleton_eq. Qed.
Lemma stored_empty h init binding projects conversations operation inputs order lane m policy :
  delta_is_empty (set_policy policy (set_jobs m (stored_state h init binding projects conversations operation inputs order lane))) = true.
Proof.
  destruct operation as [[id op]|]; [|by vm_compute]. unfold delta_is_empty. cbn -[btree_keys]. rewrite !bool_decide_true by done. cbn [andb].
  apply forallb_forall. intros j Hj%list_elem_of_In%btree_keys_elem. apply bool_decide_eq_true.
  destruct Hj as [v Hv]. by apply lookup_singleton_Some in Hv as [-> _].
Qed.
Lemma stored_no_jobs h init binding projects conversations operation inputs order lane :
  unsettled_jobs (stored_state h init binding projects conversations operation inputs order lane) = [].
Proof. by destruct operation as [[]|]. Qed.
Lemma stored_body h init binding projects conversations operation inputs order lane m policy census runs l :
  put_body (set_policy policy (set_jobs m (stored_state h init binding projects conversations operation inputs order lane))) census
    runs l =
  put_head_of h ;> put_census census ;> put_table put_run runs ;> put_init init ;>
  put_option put_binding binding ;> put_table put_project (btree_iter projects) ;>
  put_table put_conversation (btree_iter conversations) ;> put_option put_operation operation ;>
  put_table put_input (btree_iter inputs) ;> put_u64 order ;> put_optional lane ;>
  put_require (zlen l <=? Z.of_nat MAX_UNSETTLED_JOBS) ;> put_table put_job l ;> put_policy policy.
Proof. unfold put_body. rewrite stored_active. by destruct operation as [[]|]. Qed.
Lemma yields_body :
  yields r_body (fun x e => exists l, Forall2 stored_as l (unsettled_jobs x.2) /\ puts (put_body x.2 x.1.1 x.1.2 l) e /\
    delta_is_empty x.2 = true /\ zlen x.1.2 <= MAX_RUNS).
Proof.
  unfold r_body. do 11 yields_next. cbv zeta. yields_next. yields_next. guards. eapply yields_bind; [apply yields_jobs|].
  cbv beta. intros sj ej (l & Hn & Hl & Hput). yields_next. yields_next.
  pose proof (load_jobs_Ok _ _ _ Hl ltac:(rewrite stored_no_jobs; constructor)) as (jobs & (m & ->) & Hu & Hs2).
  rewrite stored_no_jobs in Hu. cbn [app] in Hu. exists l. cbn [fst snd].
  split; [by change (unsettled_jobs (set_policy ?p ?s)) with (unsettled_jobs s); rewrite Hu|].
  split; [|split; [apply stored_empty|by unfold runs_ok in *; destruct_and!]].
  assert (zlen l = a10) as Hz by (apply zlen_to_nat; [match goal with Hn : u32 a10 |- _ => unfold uint in Hn end; lia|done]).
  rewrite stored_body. puts_done. apply puts_none_seq; [apply puts_require, Z.leb_le; lia|]. rewrite app_nil_r, app_assoc.
  apply puts_seq; [|done]. apply puts_seq; [|done].
  match goal with Hp : puts (put_u32 _) _ |- _ => rewrite (puts_inj _ _ _ Hp (puts_u32 _)) end. by apply puts_len.
Qed.

(** ** The file. *)
Lemma seal_Ok w b : seal w = Ok b <-> b = w ++ sha256 w ++ CHECKPOINT_COMMIT /\ zlen b <= MAX_CHECKPOINT.
Proof.
  unfold seal. destruct (Z.leb_spec (zlen (w ++ sha256 w ++ CHECKPOINT_COMMIT)) MAX_CHECKPOINT); cbn [require obind].
  - split; [intros [= <-]; done|by intros [-> _]].
  - split; [done|intros [-> ?]; lia].
Qed.
Context `{!HasherOk}.
Definition decode_body (w : bytes) : Result Checkpoint :=
  let? (result, r) := r_body (mkReader w 0) in
  let? _ := r_finish r in
  let? s := recompute result.2 in
  Ok (mkCheckpoint result.1.1 result.1.2 s).
Lemma decode_sealed w b : seal w = Ok b -> 0 < zlen w -> decode_checkpoint b = decode_body w.
Proof.
  intros [-> Hl]%seal_Ok Hw. unfold decode_checkpoint. pose proof (sha256_array w) as [Hs _].
  assert (zlen CHECKPOINT_COMMIT = 8) as Hc by done.
  assert (zlen (w ++ sha256 w ++ CHECKPOINT_COMMIT) = zlen w + 40) as Hz by (rewrite !zlen_app; lia).
  rewrite Hz in *. rewrite (proj2 (require_Ok _ tt)) by (rewrite (proj2 (Z.leb_le _ _)), (proj2 (Z.ltb_lt _ _)) by lia; done).
  cbn [obind]. rewrite app_assoc, sub_end by (rewrite ?zlen_app; lia). cbn [obind]. rewrite <- app_assoc.
  rewrite sub_mid by lia. cbn [obind]. rewrite sub_here by lia. cbn [obind]. rewrite !bool_decide_true by done. done.
Qed.
Lemma decode_unsealed b ck :
  decode_checkpoint b = Ok ck -> exists w, seal w = Ok b /\ decode_body w = Ok ck.
Proof.
  unfold decode_checkpoint. intros Hd. apply obind_Ok in Hd as (? & Hr & Hd). apply require_Ok in Hr. guards.
  apply obind_Ok in Hd as (c & Hc & Hd). apply obind_Ok in Hd as (d & Hdg & Hd). apply obind_Ok in Hd as (w & Hw & Hd).
  apply obind_Ok in Hd as (? & Hr & Hd). apply require_Ok in Hr. guards. subst. exists w. split; [|done].
  apply seal_Ok. split; [|lia]. apply sub_Ok in Hc as [_ Ec]. apply sub_Ok in Hdg as [_ Ed]. apply sub_Ok in Hw as [_ Ew].
  rewrite Ec, Ed, Ew. rewrite <- (ztake_zdrop (zlen b - 40) b) at 1 by lia. f_equal.
  { by rewrite Z.sub_0_r. }
  replace (zlen b - 40 + 32 - (zlen b - 40)) with 32 by lia.
  rewrite <- (ztake_zdrop 32 (zdrop (zlen b - 40) b)) at 1 by (rewrite zlen_zdrop; lia). f_equal.
  rewrite zdrop_zdrop by lia. replace (32 + (zlen b - 40)) with (zlen b - 8) by lia.
  symmetry. unfold ztake. rewrite take_ge; [done|]. pose proof (zlen_zdrop (zlen b - 8) b ltac:(lia)) as Hz. unfold zlen in *. lia.
Qed.
(** A checkpoint of a storable state reads back as its stored facts. *)
Lemma decode_encoded s census runs b :
  storable s -> within_limits s -> census_ok census -> runs_ok (st_sequence s) runs -> encode_checkpoint s census runs = Ok b ->
  decode_checkpoint b = (let? s' := recompute (loaded s) in Ok (mkCheckpoint census runs s')).
Proof.
  intros Hs Hw Hc Hr He. unfold encode_checkpoint, encode_with in He. inv_run.
  match goal with Hp : put_body _ _ _ _ [] = Ok ?w |- _ => rename Hp into Hput; rename w into body end.
  destruct (step_body s census runs Hs Hw Hc Hr) as (e & Hpe & Hre). specialize (Hpe []). cbn [app] in Hpe.
  assert (body = e) as -> by congruence. specialize (Hre [] []). rewrite app_nil_r in Hre. cbn [app] in Hre.
  rewrite (decode_sealed e b) by (done || (destruct e; [done|rewrite zlen_cons; pose proof (zlen_nonneg e); lia])).
  unfold decode_body. change (zlen []) with 0 in Hre. rewrite Hre. cbn [obind fst snd]. unfold r_finish. cbn [rd_offset rd_bytes].
  by rewrite Z.add_0_l, Z.eqb_refl.
Qed.

(** Derived values are not stored. *)
Lemma recomputed_body s b f census runs l :
  put_body (set_reserved_frames f (set_reserved_bytes b (set_activity None (set_delta_charge 0 s)))) census runs l =
  put_body s census runs l.
Proof. unfold put_body, put_head, active. cbn. reflexivity. Qed.
Lemma recomputed_empty s b f :
  delta_is_empty (set_reserved_frames f (set_reserved_bytes b (set_activity None (set_delta_charge 0 s)))) = delta_is_empty s.
Proof. unfold delta_is_empty. cbn. reflexivity. Qed.
Lemma zdrop_all {A} (l : list A) : zdrop (zlen l) l = [].
Proof. unfold zdrop, zlen. rewrite Nat2Z.id. by apply drop_ge. Qed.

(** ** Reserves. *)
(** What [reserve] holds back, before the memory check. *)
Definition holdings s : Result (Z * Z) :=
  let? (bytes, frames) :=
    match st_active s with
    | Some id => let? op := ok_or Corrupt (st_operations s !! id) in operation_reserve s op
    | None => Ok (0, 0)
    end in
  let '(bytes, frames) :=
    foldl (fun a q => (a.1 + input_frames s q * (HEADER + TRAILER + 65), a.2 + input_frames s q)) (bytes, frames)
      (btree_values (st_inputs s)) in
  let ledger := job_ledger (btree_values (st_jobs s)) in
  Ok (bytes + ledger.1, frames + ledger.2).
Lemma reserve_holdings s :
  reserve s =
  let? h := holdings s in
  let s := set_reserved_frames h.2 (set_reserved_bytes h.1 s) in
  if decide (MAX_MEMORY < memory_charge s) then Err Limit else Ok s.
Proof.
  unfold reserve, holdings. destruct (match st_active s with Some _ => _ | None => _ end) as [[b f]| |]; cbn [obind]; [|done..].
  by destruct (foldl _ _ _).
Qed.
Lemma reserve_held s s' : reserve s = Ok s' -> holdings s' = Ok (st_reserved_bytes s', st_reserved_frames s').
Proof.
  rewrite reserve_holdings. intros Hr. apply obind_Ok in Hr as ([b f] & Hh & Hr). cbn [fst snd] in Hr.
  destruct (decide _); [done|]. injection Hr as <-. exact Hh.
Qed.
Lemma holdings_clear s :
  (forall id, st_active s = Some id -> is_Some (st_operations s !! id)) -> holdings (clear_delta s) = holdings s.
Proof.
  intros Ha. unfold holdings. f_equal. unfold clear_delta at 1 2.
  cbn [st_active set_base set_delta_charge set_operations st_operations set_transition_ids set_entries set_generated set_requests].
  destruct (st_active s) as [id|] eqn:E; [|done]. destruct (Ha id eq_refl) as [op Hop].
  cbn. rewrite Hop, (map_lookup_filter_Some_2 _ _ _ op) by (try done; by rewrite E). done.
Qed.
End Restore.

Section Reached.
Context `{Hasher, Unicode}.
Lemma reached_holdings ix s : reached ix s -> holdings s = Ok (st_reserved_bytes s, st_reserved_frames s).
Proof.
  induction 1 as [ix c p digest frame s Hg|ix s c record digest frame s' Hr IH Hw Hf|ix ix' s Hr IH Hroll].
  - unfold apply_next in Hg. inv_run. by eapply reserve_held.
  - unfold apply_next, apply_frame in Hf. inv_run. by eapply reserve_held.
  - rewrite holdings_clear; [exact IH|]. intros id Hid. apply reached_turn in Hr as (_ & [Ha _ _] & _).
    destruct (Ha id Hid) as (op & Hop & _). by exists op.
Qed.
(** The state a restart resumes: the next frame resets both fields. *)
Definition at_rest (s : Replay) : Replay := set_claimed ∅ (set_activity None s).
Lemma loaded_clear ix s :
  reached ix s -> set_activity None (set_delta_charge 0 (loaded (clear_delta s))) =
    set_reserved_bytes 0 (set_reserved_frames 0 (at_rest (clear_delta s))).
Proof.
  intros (Hlim & [Ha _ _] & _)%reached_turn. unfold loaded, without_jobs, stored_state, at_rest, active, clear_delta. cbn in Ha.
  destruct s as [id sq ld lf rv og ini bd prj cvs ops act inp jobs ord lane rb rf req pol base acty gen ent tids cl dc pl].
  cbn in *. subst pl. destruct act as [a|]; cbn.
  - destruct (Ha a eq_refl) as (op & Hop & _).
    assert (filter (fun io => Some io.1 = Some a) ops = {[a := op]}) as Hf.
    { apply map_eq. intros j. destruct (decide (j = a)) as [->|].
      - rewrite lookup_singleton_eq. by apply map_lookup_filter_Some_2.
      - rewrite lookup_singleton_ne by done. apply map_lookup_filter_None_2. right. intros x _ [=]. done. }
    cbn. by rewrite Hf, lookup_singleton_eq.
  - unfold set_activity at 1, set_reserved_bytes. cbn. f_equal. symmetry. apply map_empty. intros j. apply map_lookup_filter_None_2. right. by intros x _ [=].
Qed.
Lemma holdings_same s s' :
  st_active s' = st_active s -> st_operations s' = st_operations s -> st_inputs s' = st_inputs s -> st_jobs s' = st_jobs s ->
  st_conversations s' = st_conversations s -> st_owner_generation s' = st_owner_generation s -> holdings s' = holdings s.
Proof.
  intros Ha Ho Hi Hj Hc Hg. unfold holdings, operation_reserve, input_frames, input_status, status_of, lane_status.
  by rewrite Ha, Ho, Hi, Hj, Hc, Hg.
Qed.
Lemma reserved_again s :
  set_reserved_frames (st_reserved_frames s) (set_reserved_bytes (st_reserved_bytes s)
    (set_reserved_bytes 0 (set_reserved_frames 0 (at_rest (clear_delta s))))) = at_rest (clear_delta s).
Proof. destruct s. unfold at_rest, clear_delta. state_eq. Qed.
Lemma restored_clear ix s : reached ix s -> recompute (loaded (clear_delta s)) = Ok (at_rest (clear_delta s)).
Proof.
  intros Hr. unfold recompute. rewrite (loaded_clear ix s Hr), reserve_holdings.
  rewrite (holdings_same (clear_delta s)) by (unfold at_rest, clear_delta; cbn; reflexivity).
  rewrite holdings_clear, (reached_holdings ix s Hr).
  - cbn [obind fst snd]. rewrite reserved_again, decide_False; [done|]. pose proof (reached_memory _ _ Hr) as [Hc Hm].
    assert (memory_charge (at_rest (clear_delta s)) = live_charge (clear_delta s) + 0) as -> by (unfold memory_charge, live_charge, at_rest, clear_delta; cbn; reflexivity).
    rewrite live_charge_clear. unfold memory_charge in Hm. lia.
  - intros id Hid. apply reached_turn in Hr as (_ & [Ha _ _] & _). destruct (Ha id Hid) as (op & Hop & _). by exists op.
Qed.
Lemma apply_at_rest `{JournalIndex} s f l : apply_frames (Some (at_rest s)) (f :: l) = apply_frames (Some s) (f :: l).
Proof. reflexivity. Qed.
End Reached.

(** ** Files that are refused. *)
Section Refusal.
Context `{Hasher, Unicode, JournalIndex, !HasherOk}.
Implicit Types s : Replay.
(** What [c] writes makes [p] fail with [err]. *)
Definition stops {A} (c : put) (p : reader A) (err : ReplayError) : Prop :=
  exists e, puts c e /\ forall pre post, p (mkReader (pre ++ e ++ post) (zlen pre)) = Err err.
Lemma stops_bind {A B} c d (p : reader A) (k : A -> reader B) a err :
  in_step c p a -> stops d (k a) err -> stops (c ;> d) (rbind p k) err.
Proof.
  intros (e & Hc & Hr) (e' & Hd & He). exists (e ++ e'). split; [by apply puts_seq|]. intros pre post. unfold rbind.
  rewrite <- app_assoc, Hr. cbn [obind]. specialize (He (pre ++ e) post). by rewrite zlen_app, <- app_assoc in He.
Qed.
Lemma stops_require {B} c e b (k : unit -> reader B) :
  puts c e -> b = false -> stops c (rbind (rlift (require b)) k) Corrupt.
Proof. intros Hc ->. by exists e. Qed.
Lemma stops_field {A B} (p : reader A) (k : A -> reader B) ok f `{!Field p ok f} a c d err :
  f a = c -> ok a -> stops d (k a) err -> stops (c ;> d) (rbind p k) err.
Proof. intros <- Ha Hd. eapply stops_bind; [by apply fd_step|done]. Qed.
Lemma stops_first {A B} c d e (p : reader A) (k : A -> reader B) err :
  stops c p err -> puts d e -> stops (c ;> d) (rbind p k) err.
Proof.
  intros (e' & Hc & He) Hd. exists (e' ++ e). split; [by apply puts_seq|]. intros pre post. unfold rbind.
  by rewrite <- app_assoc, He.
Qed.
(** A table longer than its limit. *)
Lemma stops_table {K V} `{Countable K, CmpOk K} limit (p : reader (K * V)) f (l : list (K * V)) e :
  Z.of_nat limit < zlen l < 2 ^ 32 -> puts (put_each f l) e -> stops (put_table f l) (r_table limit p) Corrupt.
Proof.
  intros Hl He. eapply stops_bind; [apply step_len; unfold uint; lia|]. cbv beta. eapply stops_require; [exact He|].
  apply Z.leb_gt. lia.
Qed.
Definition writable (c : put) : Prop := exists e, puts c e.
Lemma writable_seq a b : writable a -> writable b -> writable (a ;> b).
Proof. intros [e ?] [e' ?]. exists (e ++ e'). by apply puts_seq. Qed.
Lemma writable_field {A} (p : reader A) ok f `{!Field p ok f} a : ok a -> writable (f a).
Proof. intros Ha. destruct (fd_step a Ha) as (e & He & _). by exists e. Qed.
Lemma writable_each {A} (p : reader A) ok f `{!Field p ok f} l : Forall ok l -> writable (put_each f l).
Proof.
  induction 1 as [|a l Ha _ IH]; [exists []; apply puts_none|]. cbn. apply writable_seq; [|done].
  eapply (writable_field p); [apply _|done].
Qed.
Lemma writable_table {A} (p : reader A) ok f `{!Field p ok f} l : Forall ok l -> writable (put_table f l).
Proof. intros Hl. apply writable_seq; [eexists; apply puts_u32|]. eapply (writable_each p); [apply _|done]. Qed.
Lemma writable_jobs l : writable (put_table put_job l).
Proof.
  apply writable_seq; [eexists; apply puts_u32|]. induction l as [|j l [e He]]; [exists []; apply puts_none|].
  eexists. cbn. apply puts_seq; [apply puts_seq; apply puts_bytes|exact He].
Qed.
(** The rest of the body after the projects. *)
Lemma writable_rest s :
  storable s -> (size (st_jobs s) <= MAX_UNSETTLED_JOBS)%nat ->
  writable (put_table put_conversation (btree_iter (st_conversations s)) ;> put_option put_operation (active s) ;>
    put_table put_input (btree_iter (st_inputs s)) ;> put_u64 (st_order_revision s) ;> put_optional (st_last_lane s) ;>
    put_require (zlen (job_locators s) <=? Z.of_nat MAX_UNSETTLED_JOBS) ;> put_table put_job (job_locators s) ;>
    put_policy (st_policy s)).
Proof.
  intros [] Hj. apply writable_seq; [eapply (writable_table r_conversation); [apply _|done]|].
  apply writable_seq; [eapply (writable_field (r_option (r_operation (st_installation_id s) (st_initialization s) (st_conversations s)))); [apply _|done]|].
  apply writable_seq; [eapply (writable_table r_input); [apply _|done]|]. apply writable_seq; [eapply (writable_field r_u64); [apply _|done]|].
  apply writable_seq; [eapply (writable_field r_optional); [apply _|done]|]. apply writable_seq.
  { eexists. apply puts_require, Z.leb_le. rewrite zlen_job_locators. lia. }
  apply writable_seq; [apply writable_jobs|eapply (writable_field r_policy); [apply _|done]].
Qed.
End Refusal.

(** ** Properties of checkpoints. *)
Section Properties.
Context `{Hasher, Unicode, !HasherOk}.
Implicit Types s : Replay.


(** C7: A checkpoint file is canonical. Bytes that decode are what encode
    writes for the decoded census, runs and state, with the locators of the
    unsettled jobs in order; only the bytes after the sequence of an absent
    cancel locator are free. *)
Theorem decoded_checkpoint_is_canonical (ix : JournalIndex) b ck :
  bytes_ok b -> decode_checkpoint b = Ok ck ->
  exists jobs, Forall2 stored_as jobs (unsettled_jobs (ck_state ck)) /\
    encode_with (ck_state ck) (ck_census ck) (ck_runs ck) jobs = Ok b.
Proof.
  intros Hb (w & Hw & Hd)%decode_unsealed. unfold decode_body in Hd. apply obind_Ok in Hd as ([[[census runs] s] r] & Hy & Hd).
  apply obind_Ok in Hd as (? & Hfin & Hd). apply obind_Ok in Hd as (s' & Hrec & Hd). injection Hd as <-. cbn [ck_state ck_census ck_runs fst snd] in *.
  apply yields_body in Hy as (e & (l & Hl & Hput & Hemp & Hruns) & Hle & -> & Hdrop); cbn [fst snd] in *.
  - exists l. unfold recompute in Hrec. apply reserve_Ok in Hrec as (bytes & frames & -> & _).
    split; [exact Hl|]. unfold r_finish in Hfin. cbn [rd_offset rd_bytes] in Hfin.
    apply obind_Ok in Hfin as (? & Hf%require_Ok%Z.eqb_eq & _). rewrite Z.add_0_l in *.
    assert (w = e) as ->. { rewrite Hf, zdrop_all, app_nil_r in Hdrop. exact Hdrop. }
    specialize (Hput []). cbn [app] in Hput. unfold encode_with.
    rewrite recomputed_body, recomputed_empty, Hemp, (proj2 (Z.leb_le _ _)) by done. cbn [andb require obind]. by rewrite Hput.
  - apply seal_Ok in Hw as [-> _]. by apply bytes_ok_app in Hb as [Hb _].
  - pose proof (zlen_nonneg w). lia.
Qed.

(** C35: A state with more projects than decode admits is written as a
    checkpoint that every later start refuses as corrupt. Eviction keeps the
    projects of up to 64 unsettled jobs besides the 64 recent ones, and decode
    admits 81. *)
Theorem crowded_checkpoint_is_refused (ix : JournalIndex) s census runs b :
  storable s -> (size (st_jobs s) <= MAX_UNSETTLED_JOBS)%nat -> census_ok census -> runs_ok (st_sequence s) runs ->
  encode_checkpoint s census runs = Ok b ->
  Z.of_nat (RECENT_PROJECTS + MAX_INPUTS + 1) < Z.of_nat (size (st_projects s)) < 2 ^ 32 ->
  decode_checkpoint b = Err Corrupt.
Proof.
  intros Hs Hj Hc Hr He Hn. unfold encode_checkpoint, encode_with in He.
  apply obind_Ok in He as (? & _ & He). apply obind_Ok in He as (w & Hput & He).
  assert (stops (put_body s census runs (job_locators s)) r_body Corrupt) as (e & Hpe & Hst).
  { destruct (writable_rest s Hs Hj) as [rest Hrest]. destruct Hs. unfold put_body, r_body. rewrite put_head_head.
    do 5 (match goal with |- stops _ (rbind ?p _) _ => eapply (stops_field p); [apply _|reflexivity|done|cbv beta] end).
    destruct (writable_each r_project _ _ _ sb_projects0) as [ps Hps].
    eapply stops_first; [|exact Hrest]. eapply stops_table; [|exact Hps]. rewrite zlen_btree. lia. }
  specialize (Hpe []). cbn [app] in Hpe. assert (w = e) as -> by congruence. specialize (Hst [] []). rewrite app_nil_r in Hst.
  cbn [app] in Hst. destruct (decide (0 < zlen e)) as [Hz|Hz].
  2: { apply seal_Ok in He as [-> _]. unfold decode_checkpoint. pose proof (sha256_array e) as [Hsh _].
       assert (zlen CHECKPOINT_COMMIT = 8) as Hcc by done. rewrite !zlen_app, Hsh, Hcc.
       rewrite (proj2 (Z.ltb_ge _ _)) by lia. by rewrite andb_false_r. }
  rewrite (decode_sealed e b) by done. unfold decode_body. change (zlen []) with 0 in Hst. by rewrite Hst.
Qed.
End Properties.

(** ** The conditions are decidable. *)
#[export] Instance option_all_dec {A} (o : option A) (P : A -> Prop) `{!forall a, Decision (P a)} :
  Decision (forall a, o = Some a -> P a).
Proof.
  destruct o as [a|]; [|left; by intros ? [=]]. destruct (decide (P a)); [left; by intros ? [= <-]|right; auto].
Defined.
#[export] Instance str_ok_dec s : Decision (str_ok s).
Proof. unfold str_ok. apply _. Defined.
#[export] Instance locator_ok_dec l : Decision (locator_ok l).
Proof. unfold locator_ok. apply _. Defined.
#[export] Instance pushes_dec {A} (check : list A -> A -> bool) l m : Decision (pushes check l m).
Proof. revert l. induction m as [|a m IH]; intros l; cbn; apply _. Defined.
(** A record of decidable fields: [c] is its constructor. *)
Ltac decide_fields c :=
  lazymatch type of c with
  | ?A -> _ => let F := fresh in destruct (decide A) as [F|F];
               [decide_fields (c F)|right; let K := fresh in intros K; destruct K; contradiction]
  | _ => left; exact c
  end.
#[export] Instance run_ok_dec r : Decision (run_ok r).
Proof. decide_fields (Build_run_ok r). Defined.
#[export] Instance runs_ok_dec sequence runs : Decision (runs_ok sequence runs).
Proof. unfold runs_ok. apply _. Defined.
#[export] Instance census_ok_dec c : Decision (census_ok c).
Proof. decide_fields (Build_census_ok c). Defined.
#[export] Instance head_ok_dec h : Decision (head_ok h).
Proof. decide_fields (Build_head_ok h). Defined.
#[export] Instance init_ok_dec p : Decision (init_ok p).
Proof. decide_fields (Build_init_ok p). Defined.
#[export] Instance bound_ok_dec p : Decision (bound_ok p).
Proof. decide_fields (Build_bound_ok p). Defined.
#[export] Instance name_ok_dec n : Decision (name_ok n).
Proof. decide_fields (Build_name_ok n). Defined.
#[export] Instance project_latest_ok_dec p : Decision (project_latest_ok p).
Proof. decide_fields (Build_project_latest_ok p). Defined.
#[export] Instance project_ok_dec e : Decision (project_ok e).
Proof. decide_fields (Build_project_ok e). Defined.
#[export] Instance latest_ok_dec l : Decision (latest_ok l).
Proof. decide_fields (Build_latest_ok l). Defined.
#[export] Instance conversation_ok_dec e : Decision (conversation_ok e).
Proof. decide_fields (Build_conversation_ok e). Defined.
#[export] Instance tool_frames_ok_dec t : Decision (tool_frames_ok t).
Proof. decide_fields (Build_tool_frames_ok t). Defined.
#[export] Instance piece_ok_dec p : Decision (piece_ok p).
Proof. decide_fields (Build_piece_ok p). Defined.
#[export] Instance text_ok_dec t : Decision (text_ok t).
Proof. decide_fields (Build_text_ok t). Defined.
#[export] Instance outcome_eq_dec {A} `{EqDecision A} : EqDecision (Result A).
Proof. solve_decision. Defined.
#[export] Instance PolicyReplay_eq_dec : EqDecision PolicyReplay.
Proof. solve_decision. Defined.
#[export] Instance policy_ok_dec p : Decision (policy_ok p).
Proof. decide_fields (Build_policy_ok p). Defined.
Section DecideIndex.
Context `{Hasher, Unicode, JournalIndex}.
#[export] Instance operation_ok_dec i init c e : Decision (operation_ok i init c e).
Proof.
  assert (Decision (exists cv, c !! op_conversation e.2 = Some cv /\
    rebuild_tools i (i, pi_graph init, pi_request init) (cv_project cv) (tool_frames <$> op_tools e.2) = Ok (op_tools e.2))).
  { destruct (c !! op_conversation e.2) as [cv|]; [|right; by intros (? & [=] & _)].
    destruct (decide (rebuild_tools i (i, pi_graph init, pi_request init) (cv_project cv) (tool_frames <$> op_tools e.2) =
      Ok (op_tools e.2))); [left; by exists cv|right; by intros (? & [= <-] & ?)]. }
  decide_fields (Build_operation_ok i init c e).
Defined.
#[export] Instance person_ok_dec q : Decision (person_ok q).
Proof.
  unfold person_ok. destruct (qi_person q) as [f|]; [|apply _].
  assert (Decision (exists p, ix_frame (qi_frame q) = Ok (RPersonCommandQueued p) /\ pc_input p = qi_request q /\
    pc_project p = qi_project q /\ pc_conversation p = qi_conversation q /\ pc_outside_sandbox p = pf_outside_sandbox f)).
  { destruct (ix_frame (qi_frame q)) as [[]| |]; try (right; by intros (? & [=] & _)).
    destruct (decide (pc_input p = qi_request q /\ pc_project p = qi_project q /\ pc_conversation p = qi_conversation q /\
      pc_outside_sandbox p = pf_outside_sandbox f)); [left; by exists p|right; by intros (? & [= <-] & ?)]. }
  apply _.
Defined.
#[export] Instance input_ok_dec e : Decision (input_ok e).
Proof. decide_fields (Build_input_ok e). Defined.
Lemma loads_dec_aux s :
  match load_jobs (without_jobs s) (job_locators s) with Ok s' => bool_decide (st_jobs s' = st_jobs s) | _ => false end = true <->
  load_jobs (without_jobs s) (job_locators s) = Ok (set_jobs (st_jobs s) (without_jobs s)).
Proof.
  split.
  - destruct (load_jobs _ _) as [s'| |] eqn:E; [|done..]. intros Hj%bool_decide_eq_true.
    apply load_jobs_Ok in E as (_ & (m & ->) & _); [by rewrite <- Hj|]. unfold without_jobs. rewrite stored_no_jobs. constructor.
  - intros ->. by apply bool_decide_eq_true.
Qed.
#[export] Instance loads_dec s : Decision (load_jobs (without_jobs s) (job_locators s) = Ok (set_jobs (st_jobs s) (without_jobs s))).
Proof.
  destruct (match load_jobs (without_jobs s) (job_locators s) with Ok s' => bool_decide (st_jobs s' = st_jobs s) | _ => false end) eqn:E.
  - left. by apply loads_dec_aux.
  - right. intros Hn%loads_dec_aux. congruence.
Defined.
#[export] Instance storable_dec s : Decision (storable s).
Proof. decide_fields (Build_storable s). Defined.
End DecideIndex.

Module RestoreDemo.
Import ReplayDemo.
(** An index over a journal whose delta was rolled. *)
Definition over (journal : list JournalFrame) (entries : list (Key * Value)) : JournalIndex := {|
  ix_get := fun key => Ok (find_key key entries);
  ix_range := fun _ _ _ _ => Ok [];
  ix_frame := fun l => match journal !! Z.to_nat (l_sequence l - 1) with Some f => Ok (fr_record f) | None => Err Corrupt end;
  ix_frame_owner := fun l => match journal !! Z.to_nat (l_sequence l - 1) with
                             | Some f => Ok (owner_generation (fr_context f), fr_record f) | None => Err Corrupt end;
  ix_frame_command := fun _ => Err Corrupt;
|}.
Definition entries_of (s : Replay) : list (Key * Value) := match delta_entries s with Ok l => l | _ => [] end.
Definition resting : Replay := clear_delta (state 11).
#[export] Instance index : JournalIndex := over journal (entries_of (state 11)).
Definition census : Census := mkCensus 1 1 4096.
Definition runs : list RunRef := [mkRunRef 1 11 0 20 4096 (digest 9)].
(** The value of a computation that succeeds. *)
Definition value {A} (d : A) (c : Result A) : A := match c with Ok a => a | _ => d end.
Lemma value_ok {A} (d : A) (c : Result A) : is_ok c = true -> c = Ok (value d c).
Proof. by destruct c. Qed.
Definition file : bytes := value [] (encode_checkpoint resting census runs).
Lemma resting_storable : storable resting.
Proof. by_decide. Qed.
#[export] Instance hasher_ok : @HasherOk hasher := poly_hasher_ok.
Lemma resting_limits : within_limits resting.
Proof. constructor; by_decide. Qed.
Lemma census_fits : census_ok census.
Proof. by_decide. Qed.
Lemma runs_fit : runs_ok (st_sequence (state 11)) runs.
Proof. split; [by_decide|split; by_decide]. Qed.
Lemma encoded : encode_checkpoint resting census runs = Ok file.
Proof. apply value_ok. vm_compute. reflexivity. Qed.
Lemma demo_reached : reached no_runs (state 11).
Proof. apply state_reached. vm_compute. reflexivity. Qed.
Definition decoded : Checkpoint := value (mkCheckpoint census [] resting) (decode_checkpoint file).
Lemma file_decodes : decode_checkpoint file = Ok decoded.
Proof. apply value_ok. vm_compute. reflexivity. Qed.
Lemma file_bytes : bytes_ok file.
Proof. by_decide. Qed.
Lemma decoded_checkpoint_is_canonical_witness :
  exists jobs, Forall2 stored_as jobs (unsettled_jobs (ck_state decoded)) /\
    encode_with (ck_state decoded) (ck_census decoded) (ck_runs decoded) jobs = Ok file.
Proof. exact (decoded_checkpoint_is_canonical index file decoded file_bytes file_decodes). Defined.
End RestoreDemo.

(** ** A reachable crowd: one project with an unsettled job, one with the
    active turn, sixteen with a queued input, then sixty-four more projects.
    Eviction keeps all eighty-two. *)
Module CrowdDemo.
#[export] Instance hasher : Hasher := poly_hasher.
#[export] Instance hasher_ok : HasherOk := poly_hasher_ok.
#[export] Instance unicode : Unicode := ascii_unicode.
Definition id (kind n : Z) : Id := zeros 14 ++ [kind; n].
Definition digest (n : Z) : Hash := zeros 30 ++ [n / 256; n mod 256].
Definition request_hash (q : Request) : Hash := match request_digest q with Ok d => d | _ => [] end.
Definition init : PendingInit := mkInit (id 0 2) (request_hash (QInitialize 1)) 1 1 (digest 50) (id 0 3).
Definition place (n : Z) : bytes := lit "/p" ++ hex_byte n.
Definition registered (n : Z) : JournalRecord :=
  RProjectRegistered (mkRegistered (id 1 n) (request_hash (QRegister (place n))) (id 2 n) (place n) 1 n 1 1).
Definition call (n : Z) : ToolCall :=
  mkToolCall (id 5 n) 1 1 GeneratedContent (lit "exec_cmd") 8 (Some ExecCmd) TRun None None Verbatim 2 (lit "{}") [] 0 1
    (digest 60) false false None None.
Definition accepted (n : Z) : JournalRecord :=
  RTurnAccepted (mkAccepted (id 3 n) (request_hash (QSubmit (id 2 n) None 0 (lit "go"))) (id 2 n) None 0 (id 4 n) 1
    (id 6 n) (id 5 n) (lit "model") (digest 52) (digest 53) (digest 54) [] (lit "go") 1 ReplayDemo.composition 0 0).
Definition job_turn (n : Z) : list JournalRecord :=
  [ registered n; accepted n; RStartAuthorized (mkStart (id 5 n) 1 (id 7 n) (digest 54)); RToolCall (call n);
    RJobIntent (mkJobIntent (ByModel (id 5 n) 1 1) 0 1700);
    RTurnTerminal (mkTerminal (id 5 n) 1 Failed ProviderFailure U64_MAX false 0 0 []) ].
Definition queued (n : Z) : list JournalRecord :=
  [ registered n;
    RInputQueued (mkQueued (id 3 n) (request_hash (QQueueInput (id 2 n) None 0 true (lit "go"))) (id 5 n) (id 6 n) (id 2 n) (id 4 n)
      0 true (lit "go") (n - 2)) ].
Definition records : list JournalRecord :=
  [RPendingInit init; RActiveBinding (mkBinding (id 0 2) 1 (id 0 3) (digest 50))] ++ job_turn 1 ++ [registered 2; accepted 2] ++
  concat (queued <$> seqZ 3 16) ++ (registered <$> seqZ 19 64).
Fixpoint number (n : Z) (l : list JournalRecord) : list JournalFrame :=
  match l with
  | [] => []
  | r :: l =>
      mkFrame (mkContext (id 0 1) (id (128 + n / 256) (n mod 256)) n (digest (n - 1)) (n - 1) 1)
        r (digest n) (mkLocator n 1 (1000 * n) 300) :: number (n + 1) l
  end.
Definition journal : list JournalFrame := number 1 records.
Definition census : Census := mkCensus 1 1 4096.
(** The journal in parts, with a roll after each: the runs are one list of
    entries, the newest first. *)
Fixpoint replay_rolls (l : list (Key * Value)) (state : option Replay) (parts : list (list JournalFrame))
    : Result (option Replay * list (Key * Value)) :=
  match parts with
  | [] => Ok (state, l)
  | part :: parts =>
      let? s := @apply_frames _ _ (RestoreDemo.over journal l) state part in
      match s with
      | Some s => let? d := delta_entries s in replay_rolls (d ++ l) (Some (clear_delta s)) parts
      | None => Ok (None, l)
      end
  end.
Fixpoint parts (n : nat) (l : list JournalFrame) : list (list JournalFrame) :=
  match n with O => [] | S n => take 12 l :: parts n (drop 12 l) end.
Lemma apply_frames_from l state fs s :
  (forall s0, state = Some s0 -> reached (RestoreDemo.over journal l) s0) ->
  Forall (fun f => offsets_ok (fr_record f)) fs -> @apply_frames _ _ (RestoreDemo.over journal l) state fs = Ok (Some s) ->
  reached (RestoreDemo.over journal l) s.
Proof.
  intros Hr Hf. revert state Hr. induction Hf as [|f fs Ho _ IH]; intros state Hr Hs; cbn in Hs.
  { injection Hs as ->. by apply Hr. }
  apply obind_Ok in Hs as (s1 & H1 & Hs). eapply IH; [|exact Hs]. intros s0 [= <-]. destruct state as [s0|].
  - eapply reached_frame; [by apply Hr|exact Ho|exact H1].
  - destruct (fr_record f) eqn:E; try done. rewrite <- E in H1. rewrite E in H1. by eapply reached_genesis.
Qed.
Lemma replay_rolls_reached ps : forall l state s l',
  (forall s0, state = Some s0 -> reached (RestoreDemo.over journal l) s0) ->
  Forall (Forall (fun f => offsets_ok (fr_record f))) ps -> replay_rolls l state ps = Ok (Some s, l') ->
  reached (RestoreDemo.over journal l') s.
Proof.
  induction ps as [|p ps IH]; intros l state s l' Hr Hp Hs; cbn in Hs.
  { injection Hs as -> ->. by apply Hr. }
  apply Forall_cons in Hp as [Hp Hps]. apply obind_Ok in Hs as ([s1|] & H1 & Hs); [|done].
  apply obind_Ok in Hs as (d & Hd & Hs). eapply IH; [|exact Hps|exact Hs]. intros s0 [= <-].
  eapply reached_roll; [by eapply apply_frames_from|]. exists d. split; [exact Hd|]. intros key. cbn. rewrite find_key_app.
  by destruct (find_key key d).
Qed.
(** What the replay of the journal leaves, checked in one evaluation. *)
Definition crowded (s : Replay) (l : list (Key * Value)) : bool :=
  bool_decide (@storable _ (RestoreDemo.over journal l) s) && bool_decide (size (st_jobs s) <= MAX_UNSETTLED_JOBS)%nat &&
  bool_decide (runs_ok (st_sequence s) []) && ReplayDemo.is_ok (encode_checkpoint s census []) &&
  bool_decide (size (st_projects s) = 82%nat).
Definition reaches (check : Replay -> list (Key * Value) -> bool) (r : Result (option Replay * list (Key * Value))) : bool :=
  match r with Ok (Some s, l) => check s l | _ => false end.
Lemma reaches_found check r : reaches check r = true -> exists s l, r = Ok (Some s, l) /\ check s l = true.
Proof. destruct r as [[[s|] l]| |]; [by exists s, l|done..]. Qed.
Lemma replay_is_crowded : reaches crowded (replay_rolls [] None (parts 9 journal)) = true.
Proof. vm_cast_no_check (eq_refl true). Qed.
Lemma crowd_offsets : Forall (fun f => offsets_ok (fr_record f)) journal.
Proof.
  apply Forall_forall. intros f Hf. assert (forallb (fun f => match fr_record f with RTurnTerminal p => 0 <=? tt_text_offset p
    | RResponseText p | RThinkingText p => 0 <=? rt_offset p | _ => true end) journal = true) as Hb by (vm_compute; reflexivity).
  rewrite forallb_forall in Hb. specialize (Hb f (proj1 (list_elem_of_In _ _) Hf)). destruct (fr_record f); cbn; lia.
Qed.
Lemma parts_offsets n l : Forall (fun f => offsets_ok (fr_record f)) l ->
  Forall (Forall (fun f => offsets_ok (fr_record f))) (parts n l).
Proof. revert l. induction n as [|n IH]; intros l Hl; cbn; constructor; [by apply Forall_take|by apply IH, Forall_drop]. Qed.
Lemma crowd_state : exists s l, replay_rolls [] None (parts 9 journal) = Ok (Some s, l) /\ crowded s l = true.
Proof. exact (reaches_found _ _ replay_is_crowded). Qed.
Lemma crowd_reached s l : replay_rolls [] None (parts 9 journal) = Ok (Some s, l) -> reached (RestoreDemo.over journal l) s.
Proof.
  intros Hr. refine (replay_rolls_reached (parts 9 journal) [] None s l _ (parts_offsets 9 journal crowd_offsets) Hr).
  by intros s0 [=].
Qed.
Lemma crowded_facts s l : crowded s l = true -> @storable _ (RestoreDemo.over journal l) s /\
  (size (st_jobs s) <= MAX_UNSETTLED_JOBS)%nat /\ runs_ok (st_sequence s) [] /\
  encode_checkpoint s census [] = Ok (RestoreDemo.value [] (encode_checkpoint s census [])) /\
  Z.of_nat (RECENT_PROJECTS + MAX_INPUTS + 1) < Z.of_nat (size (st_projects s)) < 2 ^ 32.
Proof.
  unfold crowded. intros Hc. guards.
  split; [assumption|]. split; [assumption|]. split; [assumption|]. split; [apply RestoreDemo.value_ok; assumption|].
  match goal with Hs : size _ = 82%nat |- _ => rewrite Hs end. by_decide.
Qed.
Lemma crowd_census_fits : census_ok census.
Proof. by_decide. Qed.
Lemma crowded_checkpoint_is_refused_witness : exists s l b,
  reached (RestoreDemo.over journal l) s /\ encode_checkpoint s census [] = Ok b /\
  @decode_checkpoint _ (RestoreDemo.over journal l) b = Err Corrupt.
Proof.
  destruct crowd_state as (s & l & Hr & Hc). destruct (crowded_facts s l Hc) as (Hs & Hj & Hru & He & Hn).
  exists s, l. eexists. split; [exact (crowd_reached s l Hr)|]. split; [exact He|].
  exact (crowded_checkpoint_is_refused (RestoreDemo.over journal l) s census [] _ Hs Hj crowd_census_fits Hru He Hn).
Defined.
End CrowdDemo.
