(* ===== verification/Names.v ===== *)
(** * File names of the control directory (asura-platform: journal_io.rs).

    [JournalName] is the type of the only names the control directory may hold,
    [parse] and [text] its two directions. The theorem: [parse] accepts exactly
    the texts of names, so that a directory entry stands for one name. *)
From Stdlib Require Import ZArith Lia String.
From stdpp Require Import prelude list gmap.
From S2P Require Import Prelude Codec Types ReplayState.

Inductive JournalName : Type :=
| NSegment (first : Z)
| NCheckpoint (sequence : Z)
| NRun (first last : Z)
| NCheckpointTmp (sequence : Z)
| NRunTmp (first last : Z)
| NLock.
#[export] Instance JournalName_eq_dec : EqDecision JournalName.
Proof. solve_decision. Defined.

(** ** Order ([derive(Ord)]): by constructor, then by field. *)
Definition name_key (n : JournalName) : Z * (Z * Z) :=
  match n with
  | NSegment h => (0, (h, 0))
  | NCheckpoint h => (1, (h, 0))
  | NRun f l => (2, (f, l))
  | NCheckpointTmp h => (3, (h, 0))
  | NRunTmp f l => (4, (f, l))
  | NLock => (5, (0, 0))
  end.
#[export] Instance name_key_inj : Inj (=) (=) name_key.
Proof. by intros [] []; cbn; intros [=]; subst. Qed.
#[export] Instance JournalName_cmp : Cmp JournalName := fun a b => cmp (name_key a) (name_key b).
#[export] Instance JournalName_cmp_ok : CmpOk JournalName.
Proof. apply (cmp_by_injection name_key); [apply name_key_inj|done]. Qed.
#[export] Instance JournalName_countable : Countable JournalName.
Proof.
  apply (inj_countable name_key (fun k =>
    if decide (k.1 = 0) then Some (NSegment k.2.1) else if decide (k.1 = 1) then Some (NCheckpoint k.2.1) else
    if decide (k.1 = 2) then Some (NRun k.2.1 k.2.2) else if decide (k.1 = 3) then Some (NCheckpointTmp k.2.1) else
    if decide (k.1 = 4) then Some (NRunTmp k.2.1 k.2.2) else Some NLock)).
  by intros [].
Defined.

Definition is_tmp (n : JournalName) : bool := match n with NCheckpointTmp _ | NRunTmp _ _ => true | _ => false end.
Definition is_derived (n : JournalName) : bool := match n with NSegment _ | NLock => false | _ => true end.

(** ** Text. [format!("{h:016x}")] is the sixteen digits, the highest first. *)
Fixpoint hex_digits (n : nat) (v : Z) : bytes :=
  match n with O => [] | S n => hex_digits n (v / 16) ++ [hex_digit (v mod 16)] end.
Definition text (n : JournalName) : bytes :=
  match n with
  | NSegment h => lit "seg-" ++ hex_digits 16 h ++ lit ".log"
  | NCheckpoint h => lit "ckpt-" ++ hex_digits 16 h ++ lit ".chk"
  | NRun f l => lit "run-" ++ hex_digits 16 f ++ lit "-" ++ hex_digits 16 l ++ lit ".idx"
  | NCheckpointTmp h => lit "ckpt-" ++ hex_digits 16 h ++ lit ".tmp"
  | NRunTmp f l => lit "run-" ++ hex_digits 16 f ++ lit "-" ++ hex_digits 16 l ++ lit ".tmp"
  | NLock => lit "lock"
  end.

(** ** Parsing. [str] methods with ASCII patterns act on the bytes. *)
Fixpoint strip_prefix (p s : bytes) : option bytes :=
  match p, s with
  | [], _ => Some s
  | a :: p, b :: s => if a =? b then strip_prefix p s else None
  | _ :: _, [] => None
  end.
Definition strip_suffix (p s : bytes) : option bytes :=
  if bool_decide (zlen p <= zlen s /\ zdrop (zlen s - zlen p) s = p) then Some (ztake (zlen s - zlen p) s) else None.
(** [split_once(c)]: at the first [c]. *)
Fixpoint split_once (c : Z) (s : bytes) : option (bytes * bytes) :=
  match s with
  | [] => None
  | b :: s => if b =? c then Some ([], s) else '(l, r) ← split_once c s; Some (b :: l, r)
  end.
Definition hex_ok (b : Z) : bool := (48 <=? b) && (b <=? 57) || (97 <=? b) && (b <=? 102).
Definition hex_value (b : Z) : Z := if b <? 58 then b - 48 else b - 87.
(** [u64::from_str_radix(text, 16)] on lower-case digits: an error on overflow. *)
Definition from_digits (s : bytes) : option Z :=
  foldl (fun acc b => v ← acc; let n := v * 16 + hex_value b in if n <=? U64_MAX then Some n else None) (Some 0) s.
Definition hex16 (s : bytes) : option Z :=
  if bool_decide (zlen s = 16) && forallb hex_ok s then from_digits s else None.
Definition parse (name : bytes) : option JournalName :=
  if negb (Utf8.valid name) then None else
  if bool_decide (name = lit "lock") then Some NLock else
  match strip_prefix (lit "seg-") name with
  | Some rest => rest ← strip_suffix (lit ".log") rest; NSegment <$> hex16 rest
  | None =>
      match strip_prefix (lit "ckpt-") name with
      | Some rest =>
          match strip_suffix (lit ".chk") rest with
          | Some h => NCheckpoint <$> hex16 h
          | None => h ← strip_suffix (lit ".tmp") rest; NCheckpointTmp <$> hex16 h
          end
      | None =>
          rest ← strip_prefix (lit "run-") name;
          '(range, tmp) ← match strip_suffix (lit ".idx") rest with
                         | Some range => Some (range, false)
                         | None => range ← strip_suffix (lit ".tmp") rest; Some (range, true)
                         end;
          '(first, last) ← split_once 45 range;
          first ← hex16 first;
          last ← hex16 last;
          Some (if tmp : bool then NRunTmp first last else NRun first last)
      end
  end.

(** ** Hexadecimal digits. *)
Lemma length_hex n v : length (hex_digits n v) = n.
Proof. revert v. induction n as [|n IH]; intros v; cbn; [done|]. rewrite length_app, IH. cbn. lia. Qed.
Lemma hex_digit_ok d : 0 <= d < 16 -> hex_ok (hex_digit d) = true.
Proof. intros Hd. unfold hex_ok, hex_digit. destruct (Z.ltb_spec d 10); lia. Qed.
Lemma hex_digit_value d : 0 <= d < 16 -> hex_value (hex_digit d) = d.
Proof. intros Hd. unfold hex_value, hex_digit. repeat case_match; lia. Qed.
Lemma hex_value_digit b : hex_ok b = true -> 0 <= hex_value b < 16 /\ hex_digit (hex_value b) = b.
Proof. unfold hex_ok, hex_value, hex_digit. intros Hb. split; repeat case_match; lia. Qed.
Lemma hex_digits_ok n v : forallb hex_ok (hex_digits n v) = true.
Proof.
  revert v. induction n as [|n IH]; intros v; cbn [hex_digits]; [done|]. rewrite forallb_app, IH. cbn.
  rewrite hex_digit_ok; [done|]. apply Z.mod_pos_bound. lia.
Qed.
Lemma from_digits_snoc s b :
  from_digits (s ++ [b]) = v ← from_digits s; let n := v * 16 + hex_value b in if n <=? U64_MAX then Some n else None.
Proof. unfold from_digits. by rewrite foldl_app. Qed.
Lemma from_digits_hex n v : 0 <= v < 16 ^ Z.of_nat n -> (n <= 16)%nat -> from_digits (hex_digits n v) = Some v.
Proof.
  revert v. induction n as [|n IH]; intros v Hv Hn; [cbn in *; f_equal; lia|]. cbn [hex_digits]. rewrite from_digits_snoc.
  rewrite Nat2Z.inj_succ, Z.pow_succ_r in Hv by lia. assert (0 <= v / 16 < 16 ^ Z.of_nat n) by (split; [apply Z.div_pos|apply Z.div_lt_upper_bound]; lia).
  rewrite IH by lia.
  cbn. pose proof (Z.mod_pos_bound v 16). rewrite hex_digit_value by lia. replace (v / 16 * 16 + v mod 16) with v by (pose proof (Z.div_mod v 16); lia).
  assert (16 ^ Z.of_nat n <= 16 ^ 15) by (apply Z.pow_le_mono_r; lia). destruct (Z.leb_spec v U64_MAX); [done|]. unfold U64_MAX in *. lia.
Qed.
Lemma from_digits_only s v :
  forallb hex_ok s = true -> from_digits s = Some v -> 0 <= v < 16 ^ zlen s /\ v <= U64_MAX /\ hex_digits (length s) v = s.
Proof.
  revert v. induction s as [|b s IH] using rev_ind; intros v Hs Hv.
  - injection Hv as <-. split; [done|]. split; [unfold U64_MAX; lia|done].
  - rewrite forallb_app in Hs. apply andb_true_iff in Hs as [Hs Hb]. cbn in Hb. rewrite andb_true_r in Hb.
    rewrite from_digits_snoc in Hv. destruct (from_digits s) as [u|]; [|done]. cbn in Hv.
    destruct (IH u Hs eq_refl) as (Hu & _ & Es). destruct (Z.leb_spec (u * 16 + hex_value b) U64_MAX) as [Hle|]; [|done].
    injection Hv as <-. destruct (hex_value_digit b Hb) as [Hd Eb]. pose proof (zlen_nonneg s).
    replace (zlen (s ++ [b])) with (Z.succ (zlen s)) by (rewrite zlen_app; unfold zlen at 3; cbn; lia). rewrite Z.pow_succ_r by done.
    rewrite length_app, Nat.add_1_r. cbn [hex_digits]. rewrite Z.div_add_l, Z.div_small, Z.add_0_r, Es by lia.
    rewrite (Z.add_comm (u * 16)), Z.mod_add, Z.mod_small, Eb by lia. split; [lia|].
    split; [lia|done].
Qed.
Lemma hex16_only s v : hex16 s = Some v <-> u64 v /\ hex_digits 16 v = s.
Proof.
  unfold hex16. split.
  - case_bool_decide as Hl; [|done]. cbn. destruct (forallb hex_ok s) eqn:Hs; [|done].
    intros (? & ? & E)%from_digits_only; [|done]. replace (length s) with 16%nat in E by (unfold zlen in Hl; lia).
    split; [unfold uint, U64_MAX in *; lia|done].
  - intros [Hv <-]. rewrite bool_decide_true by (unfold zlen; by rewrite length_hex). rewrite hex_digits_ok. cbn [andb].
    apply from_digits_hex; [unfold uint in Hv; cbn; lia|lia].
Qed.

(** ** Prefixes and suffixes. *)
Lemma strip_prefix_Some p s r : strip_prefix p s = Some r <-> s = p ++ r.
Proof.
  revert s. induction p as [|a p IH]; intros s; [cbn; naive_solver|]. destruct s as [|b s]; cbn; [done|].
  destruct (Z.eqb_spec a b) as [->|]; [rewrite IH; naive_solver|naive_solver].
Qed.
Lemma strip_suffix_Some p s r : strip_suffix p s = Some r <-> s = r ++ p.
Proof.
  unfold strip_suffix. split.
  - case_bool_decide as E; [|done]. intros [= <-]. destruct E as [_ E]. rewrite <- E at 2. symmetry. apply ztake_zdrop.
  - intros ->. rewrite zlen_app, Z.add_simpl_r, bool_decide_true; [by rewrite ztake_app_l|].
    split; [pose proof (zlen_nonneg r); lia|by apply zdrop_app_l].
Qed.
Lemma split_once_Some c s l r : split_once c s = Some (l, r) <-> s = l ++ c :: r /\ c ∉ l.
Proof.
  split.
  - revert l r. induction s as [|b s IH]; intros l r Hs; cbn in Hs; [done|]. destruct (Z.eqb_spec b c) as [->|Hb].
    { injection Hs as <- <-. split; [done|set_solver]. }
    destruct (split_once c s) as [[l' r']|]; [|done]. injection Hs as <- <-. destruct (IH l' r' eq_refl) as [-> ?].
    split; [done|set_solver].
  - intros [-> Hc]. induction l as [|b l IH]; cbn; [by rewrite Z.eqb_refl|]. destruct (Z.eqb_spec b c) as [->|]; [set_solver|].
    rewrite IH by set_solver. done.
Qed.
Lemma hex_no_dash n v : 45 ∉ hex_digits n v.
Proof.
  intros Hin. pose proof (hex_digits_ok n v) as Hok. rewrite forallb_forall in Hok. by apply list_elem_of_In, Hok in Hin.
Qed.

(** ** Parsing and text. *)
Definition name_ok (n : JournalName) : Prop :=
  match n with
  | NSegment h | NCheckpoint h | NCheckpointTmp h => u64 h
  | NRun f l | NRunTmp f l => u64 f /\ u64 l
  | NLock => True
  end.
Lemma hex_ascii n v : Forall (fun b => 0 <= b < 0x80) (hex_digits n v).
Proof.
  apply Forall_forall. intros b Hb. pose proof (hex_digits_ok n v) as Hok. rewrite forallb_forall in Hok.
  apply list_elem_of_In, Hok in Hb. unfold hex_ok in Hb. lia.
Qed.
Lemma text_utf8 n : Utf8.valid (text n) = true.
Proof. apply Utf8.valid_ascii. destruct n; cbn [text]; rewrite ?Forall_app; repeat split; try apply hex_ascii; by_decide. Qed.
Lemma strip_suffix_other p q r : length p = length q -> p <> q -> strip_suffix p (r ++ q) = None.
Proof.
  intros Hl Hn. destruct (strip_suffix p (r ++ q)) as [x|] eqn:E; [|done]. apply strip_suffix_Some in E.
  by apply app_inj_2 in E as [_ ->].
Qed.
Lemma strip_prefix_app p r : strip_prefix p (p ++ r) = Some r.
Proof. by apply strip_prefix_Some. Qed.
Lemma strip_suffix_app p r : strip_suffix p (r ++ p) = Some r.
Proof. by apply strip_suffix_Some. Qed.
Lemma hex16_digits h : u64 h -> hex16 (hex_digits 16 h) = Some h.
Proof. intros. by apply hex16_only. Qed.
Lemma split_range f l : split_once 45 (hex_digits 16 f ++ lit "-" ++ hex_digits 16 l) = Some (hex_digits 16 f, hex_digits 16 l).
Proof. apply split_once_Some. split; [done|apply hex_no_dash]. Qed.
Lemma not_lock p q : hd 0 p <> 108 -> p <> [] -> bool_decide (p ++ q = lit "lock") = false.
Proof. intros Hh Hn. apply bool_decide_eq_false. intros E. destruct p; [done|]. by injection E as -> _. Qed.
(** The steps of [parse] on a text, after the prefix. *)
Ltac parse_steps :=
  repeat first [rewrite not_lock by done | rewrite strip_prefix_app | rewrite strip_suffix_app | rewrite hex16_digits by done
               | rewrite split_range | rewrite strip_suffix_other by done
               | progress cbn [mbind option_bind fmap option_fmap option_map]].
Lemma parse_text n : name_ok n -> parse (text n) = Some n.
Proof.
  intros Hn. unfold parse. rewrite text_utf8. cbn [negb].
  destruct n as [h|h|f l|h|f l|]; cbn [name_ok text] in *; [| | | | |done].
  - by parse_steps.
  - rewrite not_lock by done. replace (strip_prefix (lit "seg-") _) with (@None bytes) by reflexivity. by parse_steps.
  - destruct Hn. rewrite not_lock by done. replace (strip_prefix (lit "seg-") _) with (@None bytes) by reflexivity.
    replace (strip_prefix (lit "ckpt-") _) with (@None bytes) by reflexivity. rewrite (app_assoc (lit "-") _ (lit ".idx")), (app_assoc (hex_digits 16 f) _ (lit ".idx")).
    by parse_steps.
  - rewrite not_lock by done. replace (strip_prefix (lit "seg-") _) with (@None bytes) by reflexivity. by parse_steps.
  - destruct Hn. rewrite not_lock by done. replace (strip_prefix (lit "seg-") _) with (@None bytes) by reflexivity.
    replace (strip_prefix (lit "ckpt-") _) with (@None bytes) by reflexivity. rewrite (app_assoc (lit "-") _ (lit ".tmp")), (app_assoc (hex_digits 16 f) _ (lit ".tmp")).
    by parse_steps.
Qed.
Lemma parse_only b n : parse b = Some n -> name_ok n /\ text n = b.
Proof.
  unfold parse. destruct (Utf8.valid b); [|done]. cbn [negb]. case_bool_decide as E; [intros [= <-]; done|].
  destruct (strip_prefix (lit "seg-") b) as [r|] eqn:Es.
  { apply strip_prefix_Some in Es as ->. destruct (strip_suffix (lit ".log") r) as [d|] eqn:Ed; [|done].
    apply strip_suffix_Some in Ed as ->. cbn. intros (h & [Hh <-]%hex16_only & ->)%fmap_Some. done. }
  destruct (strip_prefix (lit "ckpt-") b) as [r|] eqn:Ec.
  { apply strip_prefix_Some in Ec as ->. destruct (strip_suffix (lit ".chk") r) as [d|] eqn:Ed.
    { apply strip_suffix_Some in Ed as ->. intros (h & [Hh <-]%hex16_only & ->)%fmap_Some. done. }
    destruct (strip_suffix (lit ".tmp") r) as [d|] eqn:Et; [|done].
    apply strip_suffix_Some in Et as ->. cbn. intros (h & [Hh <-]%hex16_only & ->)%fmap_Some. done. }
  destruct (strip_prefix (lit "run-") b) as [r|] eqn:Er; [|done]. apply strip_prefix_Some in Er as ->.
  cbn [mbind option_bind]. intros Hp. apply bind_Some in Hp as ([d tmp] & Hd & Hn). apply bind_Some in Hn as ([f l] & [-> _]%split_once_Some & Hn).
  apply bind_Some in Hn as (f' & [Hf <-]%hex16_only & Hn). apply bind_Some in Hn as (l' & [Hl <-]%hex16_only & [= <-]).
  assert (r = (hex_digits 16 f' ++ lit "-" ++ hex_digits 16 l') ++ (if tmp : bool then lit ".tmp" else lit ".idx")) as ->.
  { destruct (strip_suffix (lit ".idx") r) eqn:Ei; simplify_eq/=; [by apply strip_suffix_Some in Ei|].
    apply bind_Some in Hd as (d & Hd%strip_suffix_Some & [= -> <-]). done. }
  rewrite <- !app_assoc. by destruct tmp.
Qed.

(** C27: The names of the control directory round-trip: [parse] accepts exactly
    the texts of names, so every directory entry is refused or stands for one
    name, whose text it is. *)
Theorem journal_name_roundtrip b n : parse b = Some n <-> name_ok n /\ text n = b.
Proof. split; [apply parse_only|]. intros [Hn <-]. by apply parse_text. Qed.
