(* ===== verification/Files.v ===== *)
(** * File operations of the journal (authority/journal.rs, journal/memory.rs).

    [JournalFiles] is the trait of that name: the operations of the control
    directory on a state [F]. Reads, the census, the free space and the test
    points leave the state as it is. [FilesOk] states what the driver relies on,
    also when an operation fails: a failed create, rename or removal may have
    happened or not, a failed append may leave a part of the frame, and no
    operation touches another file. [MemoryFiles] of memory.rs is an instance;
    the list of points it has reached, which tests read, is left out. *)
From Stdlib Require Import ZArith Lia.
From stdpp Require Import prelude list gmap sorting.
From S2P Require Import Prelude Collections Codec Run Sync Names.

(** ** [JournalError], [JournalPoint], [JournalEntry] (asura-platform). *)
Inductive JournalError : Type :=
| JUnsupportedLayout | JUnsafe | JOwnerBusy | JNoSpace (unchanged : bool) | JAbsent | JLimit | JCancelled | JIo.
#[export] Instance JournalError_eq_dec : EqDecision JournalError.
Proof. solve_decision. Defined.
Inductive JournalPoint : Type :=
| PRunWrite | PRunRenamed | PCheckpointSync | PCheckpointRenamed | PSegmentCreate | PSegmentCreated | PMergeStep | PLookup.
#[export] Instance JournalPoint_eq_dec : EqDecision JournalPoint.
Proof. solve_decision. Defined.
Record JournalEntry : Type := mkJournalEntry { je_name : JournalName; je_bytes : Z }.
Definition FileResult (A : Type) : Type := outcome JournalError A.

Class JournalFiles (F : Type) := {
  jf_census : F -> FileResult (list JournalEntry);
  jf_read_at : F -> JournalName -> Z -> Z -> FileResult bytes;
  jf_create : F -> JournalName -> FileResult unit * F;
  jf_write_at : F -> JournalName -> Z -> bytes -> FileResult unit * F;
  jf_sync : F -> JournalName -> FileResult unit * F;
  jf_append : F -> Z -> Z -> bytes -> FileResult unit * F;
  jf_publish : F -> JournalName -> JournalName -> FileResult unit * F;
  jf_remove : F -> JournalName -> FileResult unit * F;
  jf_free_bytes : F -> FileResult Z;
  jf_point : F -> JournalPoint -> FileResult unit;
}.

(** ** What the driver relies on. [splice o b c] is [c] with [b] at offset [o],
    grown with zeros where it is shorter. *)
Definition splice (o : Z) (b c : bytes) : bytes :=
  let c := c ++ zeros (o + zlen b - zlen c) in ztake o c ++ b ++ zdrop (o + zlen b) c.
Class FileView (F : Type) := file_of : F -> JournalName -> option bytes.
Definition same_but `{FileView F} (ns : list JournalName) (f f' : F) : Prop := forall n, n ∉ ns -> file_of f' n = file_of f n.
Class FilesOk (F : Type) `{JournalFiles F, FileView F} : Prop := {
  census_law f l : jf_census f = Ok l ->
    StronglySorted (fun a b => je_name a ≺ je_name b) l /\
    forall n k, mkJournalEntry n k ∈ l <-> exists c, file_of f n = Some c /\ zlen c = k;
  read_law f n o k b : jf_read_at f n o k = Ok b ->
    exists c, file_of f n = Some c /\ get_range o (o + k) c = Some b;
  create_law f n r f' : jf_create f n = (r, f') ->
    same_but [n] f f' /\
    (r = Ok tt /\ file_of f n = None /\ file_of f' n = Some [] \/
     r <> Ok tt /\ (file_of f' n = file_of f n \/ file_of f n = None /\ file_of f' n = Some []));
  write_law f n o b r f' : jf_write_at f n o b = (r, f') ->
    same_but [n] f f' /\ (is_tmp n = false -> file_of f' n = file_of f n /\ r <> Ok tt) /\
    (r = Ok tt -> exists c, file_of f n = Some c /\ file_of f' n = Some (splice o b c));
  sync_law f n r f' : jf_sync f n = (r, f') -> same_but [] f f';
  append_law f segment expected b r f' : jf_append f segment expected b = (r, f') ->
    same_but [NSegment segment] f f' /\
    match r with
    | Ok _ => exists c, file_of f (NSegment segment) = Some c /\ zlen c = expected /\ file_of f' (NSegment segment) = Some (c ++ b)
    | Err (JNoSpace true) => file_of f' (NSegment segment) = file_of f (NSegment segment)
    | _ => file_of f' (NSegment segment) = file_of f (NSegment segment) \/
           exists c k, file_of f (NSegment segment) = Some c /\ file_of f' (NSegment segment) = Some (c ++ ztake k b)
    end;
  publish_law f from to r f' : jf_publish f from to = (r, f') -> from <> to ->
    same_but [from; to] f f' /\
    let moved := exists c, file_of f from = Some c /\ file_of f' from = None /\ file_of f' to = Some c in
    (r = Ok tt /\ moved \/ r <> Ok tt /\ (same_but [] f f' \/ moved));
  remove_law f n r f' : jf_remove f n = (r, f') ->
    same_but [n] f f' /\ (file_of f' n = file_of f n \/ is_derived n = true /\ file_of f' n = None) /\
    (r = Ok tt -> file_of f' n = None);
}.

(** ** [MemoryFiles]. *)
Record MemoryFiles : Type := mkMemory {
  mf_files : gmap JournalName bytes; mf_free : Z; mf_crash_at : option JournalPoint; mf_no_space : bool;
}.
Definition with_files (files : gmap JournalName bytes) (m : MemoryFiles) : MemoryFiles :=
  mkMemory files (mf_free m) (mf_crash_at m) (mf_no_space m).
Definition memory_new : MemoryFiles := mkMemory {[NLock := []]} (2 ^ 40) None false.
Definition memory_census (m : MemoryFiles) : FileResult (list JournalEntry) :=
  Ok ((fun nb => mkJournalEntry nb.1 (zlen nb.2)) <$> btree_iter (mf_files m)).
Definition memory_read_at (m : MemoryFiles) (name : JournalName) (offset len : Z) : FileResult bytes :=
  let? b := ok_or JAbsent (mf_files m !! name) in
  ok_or JAbsent (get_range offset (offset + len) b).
Definition memory_create (m : MemoryFiles) (name : JournalName) : FileResult unit * MemoryFiles :=
  match mf_files m !! name with
  | Some _ => (Err JIo, m)
  | None => (Ok tt, with_files (<[name := []]> (mf_files m)) m)
  end.
Definition memory_write_at (m : MemoryFiles) (name : JournalName) (offset : Z) (b : bytes) : FileResult unit * MemoryFiles :=
  if negb (is_tmp name) then (Err JUnsafe, m) else
  match mf_files m !! name with
  | Some file => (Ok tt, with_files (<[name := splice offset b file]> (mf_files m)) m)
  | None => (Err JAbsent, m)
  end.
Definition memory_sync (m : MemoryFiles) (name : JournalName) : FileResult unit * MemoryFiles :=
  (match mf_files m !! name with Some _ => Ok tt | None => Err JAbsent end, m).
Definition memory_append (m : MemoryFiles) (segment expected : Z) (b : bytes) : FileResult unit * MemoryFiles :=
  if mf_no_space m then (Err (JNoSpace true), mkMemory (mf_files m) (mf_free m) (mf_crash_at m) false) else
  match mf_files m !! NSegment segment with
  | Some file =>
      if zlen file =? expected then (Ok tt, with_files (<[NSegment segment := file ++ b]> (mf_files m)) m) else (Err JUnsafe, m)
  | None => (Err JAbsent, m)
  end.
Definition memory_publish (m : MemoryFiles) (from to : JournalName) : FileResult unit * MemoryFiles :=
  match mf_files m !! from with
  | Some b => (Ok tt, with_files (<[to := b]> (delete from (mf_files m))) m)
  | None => (Err JAbsent, m)
  end.
Definition memory_remove (m : MemoryFiles) (name : JournalName) : FileResult unit * MemoryFiles :=
  if negb (is_derived name) then (Err JUnsafe, m) else (Ok tt, with_files (delete name (mf_files m)) m).
Definition memory_point (m : MemoryFiles) (p : JournalPoint) : FileResult unit :=
  if bool_decide (mf_crash_at m = Some p) then Err JCancelled else Ok tt.
#[export] Instance memory_files : JournalFiles MemoryFiles := {|
  jf_census := memory_census; jf_read_at := memory_read_at; jf_create := memory_create; jf_write_at := memory_write_at;
  jf_sync := memory_sync; jf_append := memory_append; jf_publish := memory_publish; jf_remove := memory_remove;
  jf_free_bytes := fun m => Ok (mf_free m); jf_point := memory_point;
|}.
#[export] Instance memory_view : FileView MemoryFiles := fun m n => mf_files m !! n.

Section View.
Context `{FileView F}.
Implicit Types (f : F).
#[export] Instance same_but_refl ns : Reflexive (same_but (F := F) ns).
Proof. by intros f n Hn. Qed.
#[export] Instance same_but_trans ns : Transitive (same_but (F := F) ns).
Proof. intros f g h Hfg Hgh n Hn. by rewrite (Hgh n Hn), (Hfg n Hn). Qed.
Lemma same_but_weaken ns ms f f' : same_but ns f f' -> ns ⊆ ms -> same_but ms f f'.
Proof. intros Hs Hsub n Hn. apply Hs. set_solver. Qed.
Lemma same_but_at ns f f' n : same_but ns f f' -> n ∉ ns -> file_of f' n = file_of f n.
Proof. intros Hs. apply Hs. Qed.
End View.

Section Memory.
Lemma memory_insert m n b : same_but [n] m (with_files (<[n := b]> (mf_files m)) m).
Proof. intros k Hk. unfold file_of, memory_view. cbn. rewrite lookup_insert_ne; [done|set_solver]. Qed.
Lemma memory_census_law m l : memory_census m = Ok l ->
  StronglySorted (fun a b => je_name a ≺ je_name b) l /\
  forall n k, mkJournalEntry n k ∈ l <-> exists c, file_of m n = Some c /\ zlen c = k.
Proof.
  intros [= <-]. split.
  - induction (btree_iter_sorted (mf_files m)) as [|a l _ IH Ha]; cbn; constructor; [done|].
    by apply Forall_fmap, (Forall_impl _ _ _ Ha).
  - intros n k. rewrite list_elem_of_fmap. split.
    + intros ([n' c] & [= -> ->] & Hin%btree_iter_elem). eauto.
    + intros (c & Hc & <-). exists (n, c). split; [done|by apply btree_iter_elem].
Qed.
#[export] Instance memory_ok : FilesOk MemoryFiles.
Proof.
  split; cbn [jf_census jf_read_at jf_create jf_write_at jf_sync jf_append jf_publish jf_remove memory_files].
  - apply memory_census_law.
  - intros m n o k b. unfold memory_read_at. intros Hr. apply obind_Ok in Hr as (c & Hc & Hr). exists c.
    unfold file_of, memory_view. destruct (mf_files m !! n); [|done]. injection Hc as ->.
    by destruct (get_range o (o + k) c); simplify_eq/=.
  - intros m n r m'. unfold memory_create, file_of, memory_view. destruct (mf_files m !! n) eqn:E; intros [= <- <-].
    + split; [done|]. right. split; [done|by left].
    + split; [apply memory_insert|]. left. split; [done|]. split; [done|]. cbn. by rewrite lookup_insert_eq.
  - intros m n o b r m'. unfold memory_write_at, file_of, memory_view. destruct (is_tmp n); cbn [negb]; [|by intros [= <- <-]].
    destruct (mf_files m !! n) as [c|] eqn:E; intros [= <- <-]; [|done]. split; [apply memory_insert|]. split; [done|].
    intros _. exists c. split; [done|]. cbn. by rewrite lookup_insert_eq.
  - intros m n r m' [= _ <-]. done.
  - intros m segment expected b r m'. unfold memory_append, file_of, memory_view. destruct (mf_no_space m); [by intros [= <- <-]|].
    destruct (mf_files m !! NSegment segment) as [c|] eqn:E; [|intros [= <- <-]; split; [done|by left]].
    destruct (Z.eqb_spec (zlen c) expected); intros [= <- <-]; [|split; [done|by left]].
    split; [apply memory_insert|]. exists c. split; [done|]. split; [done|]. cbn. by rewrite lookup_insert_eq.
  - intros m from to r m'. unfold memory_publish, file_of, memory_view.
    destruct (mf_files m !! from) as [c|] eqn:E; intros [= <- <-] Hn; [|split; [done|right; split; [done|by left]]].
    split.
    { intros n Hin. unfold file_of, memory_view. cbn. rewrite lookup_insert_ne, lookup_delete_ne by set_solver. done. }
    left. split; [done|]. exists c. cbn. rewrite lookup_insert_eq, lookup_insert_ne, lookup_delete_eq by done. done.
  - intros m n r m'. unfold memory_remove, file_of, memory_view.
    destruct (is_derived n); cbn [negb]; intros [= <- <-]; [|split; [done|]; split; [by left|done]]. cbn.
    rewrite lookup_delete_eq. split; [|by split; [right|]].
    intros k Hk. unfold file_of, memory_view. cbn. rewrite lookup_delete_ne; [done|set_solver].
Qed.
End Memory.
