(* ===== verification/Store.v ===== *)
(** * The index over run files (authority/journal.rs, [Store]).

    [store_index f runs installation] is [Store]'s implementation of [Index]:
    point lookups go through the listed runs from the newest to the oldest, a
    range collects from every run, and frames are read through their locators
    and verified. [Shelf f installation runs pages] says that the files hold the
    listed runs with the entries [pages]; then [get] is the lookup in the entries
    with the newest run first, [range] the sorted union. *)
From Stdlib Require Import ZArith Lia.
From stdpp Require Import prelude list gmap sorting.
From S2P Require Import Prelude Collections PayloadId Codec Fields Envelope Index Run RunSearch Policy PathGuard Types PolicyReplay.
From S2P Require Import Text Rules Tables Records JobRecords CallRecords RecordCodec Sync ReplayState Replay Effects Delta Checkpoint Names Files.

(** [journal.rs: content]. *)
Definition content_error (e : JournalError) : ReplayError := match e with JCancelled => Cancelled | _ => Corrupt end.
Definition run_name (run : RunRef) : JournalName := NRun (ru_first run) (ru_last run).
Section Store.
Context `{Hasher, Unicode, !RecordCodec JournalRecord, JournalFiles F}.
Implicit Types (f : F).

(** [FileRun::read_exact_at]. *)
Definition file_run f (name : JournalName) : RunSource := fun offset n => map_err content_error (jf_read_at f name offset n).
Definition store_run_header f (installation : Id) (run : RunRef) : Result RunHeader :=
  let? header := header_read (file_run f (run_name run)) in
  if decide (h_level header <> ru_level run \/ h_first header <> ru_first run \/ h_last header <> ru_last run \/
             h_entries header <> ru_entries run \/ file_bytes header <> ru_bytes run \/
             h_installation_id header <> installation) then Err Corrupt else
  Ok header.
Definition store_frame_bytes f (locator : Locator) : Result bytes :=
  if (MAX_FRAME <? l_length locator) || (l_length locator <? HEADER + 40) then Err Corrupt else
  map_err content_error (jf_read_at f (NSegment (l_segment locator)) (l_offset locator) (l_length locator)).
Definition store_read_frame f (installation : Id) (locator : Locator) : Result (FrameContext * JournalRecord * Hash) :=
  let? b := store_frame_bytes f locator in
  let? (context, record, digest) := verified_frame b locator in
  if decide (installation_id context <> installation) then Err Corrupt else
  Ok (context, record, digest).
(** [for run in self.runs.iter().rev()]: the argument is the reversed list. *)
Fixpoint store_get_loop f (installation : Id) (newest_first : list RunRef) (key : Key) : Result (option Value) :=
  match newest_first with
  | [] => Ok None
  | run :: older =>
      let? header := store_run_header f installation run in
      let? found := RunSearch.get (file_run f (run_name run)) header key in
      match found with Some value => Ok (Some value) | None => store_get_loop f installation older key end
  end.
Definition store_get f (runs : list RunRef) (installation : Id) (key : Key) : Result (option Value) :=
  match runs with
  | [] => Ok None
  | _ =>
      let? _ := map_err content_error (jf_point f PLookup) in
      store_get_loop f installation (reverse runs) key
  end.
Fixpoint store_range_loop f (installation : Id) (runs : list RunRef) (lo hi : Key) (descending : bool) (limit : Z)
    (out : list (Key * Value)) : Result (list (Key * Value)) :=
  match runs with
  | [] => Ok out
  | run :: runs =>
      let? header := store_run_header f installation run in
      let? found := RunSearch.range (file_run f (run_name run)) header lo hi descending limit in
      store_range_loop f installation runs lo hi descending limit (out ++ found)
  end.
Definition store_range f (runs : list RunRef) (installation : Id) (lo hi : Key) (descending : bool) (limit : Z)
    : Result (list (Key * Value)) :=
  match runs with
  | [] => Ok []
  | _ =>
      let? _ := map_err content_error (jf_point f PLookup) in
      let? out := store_range_loop f installation runs lo hi descending limit [] in
      let out := by_key out in
      if negb (windows_all (fun a b => bool_decide (a.1 <> b.1)) out) then Err Corrupt else
      Ok (ztake limit (if descending then reverse out else out))
  end.
Definition store_index f (runs : list RunRef) (installation : Id) : JournalIndex := {|
  ix_get := store_get f runs installation;
  ix_range := store_range f runs installation;
  ix_frame := fun l => let? (_, record, _) := store_read_frame f installation l in Ok record;
  ix_frame_owner := fun l => let? (context, record, _) := store_read_frame f installation l in Ok (owner_generation context, record);
  ix_frame_command := fun l =>
    let? b := store_frame_bytes f l in
    let? (context, record, _) := verified_frame b l in
    if decide (installation_id context <> installation) then Err Corrupt else
    let? command := sub 88 120 b in Ok (command, record);
|}.
End Store.

(** ** The first elements of a sorted union. *)
Lemma elem_concat {A} (ls : list (list A)) x : x ∈ concat ls <-> exists l, x ∈ l /\ l ∈ ls.
Proof. rewrite list_elem_of_In, in_concat. setoid_rewrite list_elem_of_In. naive_solver. Qed.
Lemma sorted_filter {A} (R : relation A) (P : A -> Prop) `{!forall x, Decision (P x)} (l : list A) :
  StronglySorted R l -> StronglySorted R (filter P l).
Proof.
  induction 1 as [|a l _ IH Ha]; [constructor|]. rewrite filter_cons. case_decide; [|done]. constructor; [done|].
  apply Forall_forall. intros x [_ Hx]%list_elem_of_filter. rewrite Forall_forall in Ha. by apply Ha.
Qed.
Section Prefix.
Context {A : Type} (R : relation A).
Context `{!Transitive R} (R_irrefl : forall x, ~ R x x).
Lemma sorted_prefix k (l m : list A) :
  StronglySorted R l -> StronglySorted R m -> m ⊆ l -> take k l ⊆ m -> take k m = take k l.
Proof.
  revert l m. induction k as [|k IH]; intros l m Hl Hm Hsub Hk; [done|].
  destruct Hl as [|x l Hl Hx]; [by rewrite (list_nil_subseteq m Hsub)|]. cbn in Hk.
  destruct Hm as [|y m Hm Hy]; [by destruct (not_elem_of_nil x); apply Hk; constructor|].
  rewrite Forall_forall in Hx, Hy.
  assert (x = y) as <-.
  { assert (x ∈ y :: m) as [->|Hxm]%elem_of_cons by (apply Hk; constructor); [done|].
    assert (y ∈ x :: l) as [->|Hyl]%elem_of_cons by (apply Hsub; constructor); [done|].
    destruct (R_irrefl x). transitivity y; [by apply Hx|by apply Hy]. }
  cbn. f_equal. apply IH; [done|done| |].
  - intros z Hz. assert (z ∈ x :: l) as [->|?]%elem_of_cons by (apply Hsub; by constructor); [|done]. destruct (R_irrefl x). by apply Hy.
  - intros z Hz. assert (z ∈ x :: m) as [->|?]%elem_of_cons by (apply Hk; by constructor); [|done].
    destruct (R_irrefl x). apply Hx. apply elem_of_take in Hz as (i & Hi & _). by eapply list_elem_of_lookup_2.
Qed.
Lemma sorted_lookup (l : list A) i j x y : StronglySorted R l -> l !! i = Some x -> l !! j = Some y -> (i < j)%nat -> R x y.
Proof.
  intros Hl. revert i j. induction Hl as [|a l _ IH Ha]; intros i j Hi Hj Hlt; [done|].
  destruct j as [|j]; [lia|]. destruct i as [|i]; cbn in *; [|apply (IH i j); [done..|lia]].
  injection Hi as ->. rewrite Forall_forall in Ha. by eapply Ha, list_elem_of_lookup_2.
Qed.
(** An element among the first [k] of a sorted list is among the first [k] of
    every sorted part that holds it. *)
Lemma sorted_part k (l p : list A) x :
  StronglySorted R l -> StronglySorted R p -> p ⊆ l -> x ∈ take k l -> x ∈ p -> x ∈ take k p.
Proof.
  intros Hl Hp Hsub (i & Hi & Hik)%elem_of_take (j & Hj)%list_elem_of_lookup. apply elem_of_take. exists j. split; [done|].
  assert (take j p ⊆ take i l) as Ht.
  { intros y (j' & Hy & Hlt)%elem_of_take. assert (R y x) as Hr by (eapply (sorted_lookup p j' j); eauto).
    assert (y ∈ l) as (i' & Hi')%list_elem_of_lookup by (apply Hsub; by eapply list_elem_of_lookup_2).
    apply elem_of_take. exists i'. split; [done|]. destruct (Nat.lt_trichotomy i' i) as [?|[->|Hgt]]; [done| |].
    - rewrite Hi in Hi'. injection Hi' as ->. by destruct (R_irrefl y).
    - destruct (R_irrefl x). transitivity y; [eapply (sorted_lookup l i i'); eauto|done]. }
  assert (NoDup (take j p)) as Hn.
  { apply (sublist_NoDup _ p); [|apply sublist_take]. clear -Hp R_irrefl. induction Hp as [|a p _ IH Ha]; constructor; [|done].
    intros Hin. rewrite Forall_forall in Ha. destruct (R_irrefl a). by apply Ha. }
  pose proof (submseteq_length _ _ (NoDup_submseteq _ _ Hn Ht)) as Hlen. rewrite !length_take in Hlen.
  apply lookup_lt_Some in Hj, Hi. lia.
Qed.
End Prefix.

(** ** Runs on the shelf. *)
Definition run_ref_header (installation : Id) (run : RunRef) : RunHeader :=
  header_new (ru_level run) installation (ru_first run) (ru_last run) (ru_entries run).
(** The file of a listed run holds the entries [page]. *)
Record shelved `{Hasher, FileView F} (f : F) (installation : Id) (run : RunRef) (page : Page) : Prop := {
  sh_input : run_input (run_ref_header installation run) page;
  sh_sorted : ascending page;
  sh_file : file_of f (run_name run) = Some (run_bytes (run_ref_header installation run) page);
  sh_bytes : ru_bytes run = file_bytes (run_ref_header installation run);
  sh_digest : ru_digest run = sha256 (run_body (run_ref_header installation run) page);
}.
(** Reads inside a file succeed, and no point stops a lookup. *)
Record readable `{JournalFiles F, FileView F} (f : F) : Prop := {
  rd_read n c o k b : file_of f n = Some c -> get_range o (o + k) c = Some b -> jf_read_at f n o k = Ok b;
  rd_point : jf_point f PLookup = Ok tt;
}.
(** The lookup in the entries of the runs, the newest run first. *)
Definition newest (pages : list Page) (key : Key) : option Value := head (omap (assoc key) (reverse pages)).

Section Shelf.
Context `{Hasher, Unicode, !HasherOk, !RecordCodec JournalRecord, FilesOk F}.
Implicit Types (f : F) (run : RunRef) (page : Page) (pages : list Page).

Lemma slice_file_run f n c o k b :
  readable f -> file_of f n = Some c -> 0 <= o -> 0 <= k -> u64 (o + k) -> slice_source c o k = Ok b -> file_run f n o k = Ok b.
Proof.
  intros [Hr _] Hc Ho Hk Hu. unfold slice_source, file_run. rewrite wrap_small by done.
  destruct (get_range o (o + k) c) as [b'|] eqn:E; [|done]. cbn. intros [= ->]. by rewrite (Hr n c o k b Hc E).
Qed.
Lemma shelved_header f installation run page :
  readable f -> shelved f installation run page -> store_run_header f installation run = Ok (run_ref_header installation run).
Proof.
  intros Hr [(Hh & Hf & Hn & Hs) _ Hc Hb _]. unfold store_run_header, header_read.
  pose proof (run_header _ page Hh Hf) as Hd. unfold header_read in Hd. apply obind_Ok in Hd as (b & Hb' & Hd).
  rewrite (slice_file_run f _ _ 0 HEADER_BYTES b Hr Hc) by done. cbn [obind]. rewrite Hd. cbn [obind].
  rewrite decide_False; [done|]. rewrite Hb. cbn. naive_solver.
Qed.
Lemma shelved_serves f installation run page :
  readable f -> shelved f installation run page -> ServesRun (file_run f (run_name run)) (run_ref_header installation run) page.
Proof.
  intros Hr [(Hh & Hf & Hn & Hs) Ha Hc _ _]. split; [done..|]. intros i Hi. unfold read_page.
  erewrite (slice_file_run f _ _ _ _ _ Hr Hc); [| | | |by apply (slice_page _ _ Hh Hf Hs i Hi)].
  - cbn [obind]. apply decode_page_Ok; auto using page_of_slots, page_of_ascending, page_of_count.
  - unfold page_offset. apply wrap_uint. lia.
  - done.
  - unfold page_offset, run_fits, ISIZE_MAX, HEADER_BYTES, PAGE_BYTES, TRAILER_BYTES in *.
    rewrite wrap_small; unfold uint; lia.
Qed.
Lemma store_get_loop_spec f installation runs pages key :
  readable f -> Forall2 (shelved f installation) runs pages ->
  store_get_loop f installation runs key = Ok (head (omap (assoc key) pages)).
Proof.
  intros Hr. induction 1 as [|run page runs pages Hs _ IH]; cbn; [done|].
  rewrite (shelved_header _ _ _ _ Hr Hs). cbn [obind]. pose proof (shelved_serves _ _ _ _ Hr Hs).
  rewrite (get_spec _ _ page). cbn [obind]. by destruct (assoc key page).
Qed.
Lemma store_get_newest f installation runs pages key :
  readable f -> Forall2 (shelved f installation) runs pages -> store_get f runs installation key = Ok (newest pages key).
Proof.
  intros Hr Hs. unfold store_get. destruct runs as [|run runs].
  { by apply Forall2_nil_inv_l in Hs as ->. }
  rewrite (rd_point _ Hr). cbn [map_err obind]. apply store_get_loop_spec; [done|]. by apply Forall2_reverse.
Qed.
Lemma store_range_loop_spec f installation runs pages lo hi descending limit out :
  readable f -> 0 <= limit -> Forall2 (shelved f installation) runs pages ->
  store_range_loop f installation runs lo hi descending limit out =
  Ok (out ++ concat ((fun page => ztake limit ((if descending : bool then reverse else id) (between lo hi page))) <$> pages)).
Proof.
  intros Hr Hl Hs. revert out. induction Hs as [|run page runs pages Hs _ IH]; intros out; cbn; [by rewrite app_nil_r|].
  rewrite (shelved_header _ _ _ _ Hr Hs). cbn [obind]. pose proof (shelved_serves _ _ _ _ Hr Hs).
  rewrite (range_spec _ _ page) by done. cbn [obind]. rewrite IH. by rewrite <- app_assoc.
Qed.

(** ** Ranges. *)
Definition toward (descending : bool) (a b : Key * Value) : Prop := if descending then b.1 ≺ a.1 else a.1 ≺ b.1.
#[export] Instance toward_trans d : Transitive (toward d).
Proof. intros a b c. destruct d; cbn; intros; by eapply cmp_trans. Qed.
Lemma toward_irrefl d x : ~ toward d x x.
Proof. destruct d; apply lt_irrefl. Qed.
Lemma sorted_toward (d : bool) (l : list (Key * Value)) :
  StronglySorted (fun a b => a.1 ≺ b.1) l -> StronglySorted (toward d) ((if d then reverse else id) l).
Proof.
  destruct d; [|done]. induction 1 as [|a l _ IH Ha]; [rewrite reverse_nil; constructor|]. rewrite reverse_cons.
  apply StronglySorted_app_2; [|done|repeat constructor]. intros x y. rewrite elem_of_reverse, list_elem_of_singleton. intros Hx ->.
  rewrite Forall_forall in Ha. exact (Ha x Hx).
Qed.
Lemma toward_elem (d : bool) (l : list (Key * Value)) x : x ∈ (if d then reverse else id) l <-> x ∈ l.
Proof. destruct d; [apply elem_of_reverse|done]. Qed.
Lemma distinct_windows (l : list (Key * Value)) : NoDup l.*1 -> windows_all (fun a b => bool_decide (a.1 <> b.1)) l = true.
Proof.
  induction l as [|a [|b l] IH]; [done..|]. intros Hn. rewrite !fmap_cons in Hn. apply NoDup_cons in Hn as [Ha Hn].
  cbn [windows_all]. rewrite bool_decide_true by set_solver. by apply IH.
Qed.
Lemma between_elem lo hi page x : x ∈ between lo hi page <-> x ∈ page /\ geb x.1 lo && ltb x.1 hi = true.
Proof. unfold between. rewrite list_elem_of_filter. naive_solver. Qed.
Lemma part_submseteq lo hi limit (d : bool) page :
  ztake limit ((if d then reverse else id) (between lo hi page)) ⊆+ page.
Proof.
  unfold ztake. etransitivity; [apply sublist_submseteq, sublist_take|].
  transitivity (between lo hi page); [|apply sublist_submseteq, sublist_filter].
  by destruct d; [rewrite reverse_Permutation|].
Qed.
Lemma store_range_union f installation runs pages lo hi (descending : bool) limit :
  readable f -> 0 <= limit -> Forall2 (shelved f installation) runs pages -> NoDup (concat pages).*1 ->
  store_range f runs installation lo hi descending limit =
  Ok (ztake limit ((if descending then reverse else id) (between lo hi (by_key (concat pages))))).
Proof.
  intros Hr Hl Hs Hn. unfold store_range. destruct runs as [|run runs].
  { apply Forall2_nil_inv_l in Hs as ->. unfold ztake. destruct descending; cbn; by rewrite ?take_nil. }
  rewrite (rd_point _ Hr). cbn [map_err obind]. rewrite (store_range_loop_spec _ _ _ pages) by done. cbn [app obind].
  set (parts := concat _).
  assert (parts ⊆+ concat pages) as Hsub.
  { unfold parts. clear. induction pages as [|page pages IH]; cbn; [done|]. apply submseteq_app; [apply part_submseteq|done]. }
  assert (NoDup parts.*1) as Hnp.
  { apply submseteq_Permutation in Hsub as [rest Hp]. rewrite Hp, fmap_app in Hn. by apply NoDup_app in Hn as [? _]. }
  assert (forall l, NoDup l.*1 -> StronglySorted (fun a b : Key * Value => a.1 ≺ b.1) (by_key l)) as Hsort.
  { intros l Hd. apply (weak_strict fst); [apply (sort_by_sorted fst)|]. unfold by_key. by rewrite sort_by_perm. }
  rewrite distinct_windows by (unfold by_key; by rewrite sort_by_perm). cbn [negb]. f_equal.
  assert (StronglySorted (fun a b : Key * Value => a.1 ≺ b.1) (between lo hi (by_key (concat pages)))) as Hb
    by (by apply sorted_filter, Hsort).
  replace (if descending then reverse (by_key parts) else by_key parts) with ((if descending then reverse else id) (by_key parts)) by (by destruct descending).
  unfold ztake. apply (sorted_prefix (toward descending) (toward_irrefl descending)); [by apply sorted_toward..|by apply sorted_toward, Hsort| |].
  - intros x. rewrite !toward_elem, between_elem. unfold by_key. rewrite !sort_by_perm. intros Hx.
    split; [by eapply elem_of_submseteq|]. unfold parts in Hx. apply elem_concat in Hx as (part & Hx & Hpart).
    apply list_elem_of_fmap in Hpart as (page & -> & Hpage). apply elem_of_take in Hx as (i & Hi & _).
    apply list_elem_of_lookup_2, toward_elem, between_elem in Hi. by destruct Hi.
  - intros x Hx. assert (x ∈ between lo hi (by_key (concat pages))) as Hin.
    { apply elem_of_take in Hx as (i & Hi & _). apply (toward_elem descending). by eapply list_elem_of_lookup_2. }
    apply between_elem in Hin as [Hin Hlh]. unfold by_key in Hin. rewrite sort_by_perm in Hin.
    apply elem_concat in Hin as (page & Hxp & Hpage). apply toward_elem. unfold by_key. rewrite sort_by_perm.
    apply elem_concat. eexists. split; [|apply list_elem_of_fmap; eauto].
    assert (ascending page) as Ha.
    { apply list_elem_of_lookup in Hpage as (i & Hi). destruct (Forall2_lookup_r _ _ _ _ _ Hs Hi) as (ru & _ & Hsh). apply Hsh. }
    unfold ztake. apply (sorted_part _ (toward_irrefl descending) _ _ _ _ (sorted_toward descending _ Hb)); [| |exact Hx|].
    + by apply sorted_toward, sorted_filter.
    + intros y. rewrite !toward_elem, !between_elem. unfold by_key. rewrite sort_by_perm. intros [Hy ?]. split; [|done].
      apply elem_concat. eauto.
    + by apply toward_elem, between_elem.
Qed.
End Shelf.
