(* ===== verification/Driver.v ===== *)
(** * The segmented journal (authority/journal.rs).

    [Journal] is the driver's state over any [JournalFiles]. An operation is an
    [act]: a function from the driver's state to a result and the state it leaves,
    also when it fails. [append], [roll], [roll_derived], [retire], [merge_step]
    and [recheck] are the methods of that name; [initialize] and [open] build a
    driver. The writer of a run file and the step of a merge are those of run.rs
    with the state of the files kept when a write fails.

    The cancel flag of [open] is another thread's: [cancelled n] is what the n-th
    poll reads. *)
From Stdlib Require Import ZArith Lia.
From stdpp Require Import prelude list gmap sorting.
From S2P Require Import Prelude Collections PayloadId Codec Fields Envelope Index Run RunSearch RunMerge Policy PathGuard Types.
From S2P Require Import PolicyReplay Text Rules Tables Records JobRecords CallRecords RecordCodec Sync ReplayState Replay Effects Delta.
From S2P Require Import Journal Checkpoint Names Files Store.

Definition ROLL_RESERVE : Z := 32 * 1024 * 1024.
Definition DISK_FLOOR : Z := 16 * 1024 * 1024.
Definition DEFAULT_QUOTA : Z := 4 * 1024 * 1024 * 1024.
Definition FAN_IN : nat := 8.

(** ** State and errors. *)
Definition ST (S E A : Type) : Type := S -> Prelude.outcome E A * S.
Definition st_ret {S E A} (a : A) : ST S E A := fun s => (Ok a, s).
Definition st_lift {S E A} (r : Prelude.outcome E A) : ST S E A := fun s => (r, s).
Definition st_bind {S E A B} (c : ST S E A) (k : A -> ST S E B) : ST S E B := fun s =>
  match c s with
  | (Ok a, s) => k a s
  | (Err e, s) => (Err e, s)
  | (Panic, s) => (Panic, s)
  end.
Definition st_get {S E} : ST S E S := fun s => (Ok s, s).
Definition st_set {S E} (g : S -> S) : ST S E unit := fun s => (Ok tt, g s).
Notation "'let!' x ':=' c 'in' k" := (st_bind c (fun x => k)) (at level 200, x pattern, c at level 100, k at level 200, right associativity).

(** ** [HoldReason], [Failure]. *)
Inductive HoldReason : Type := HQuota | HDisk.
#[export] Instance HoldReason_eq_dec : EqDecision HoldReason.
Proof. solve_decision. Defined.
Inductive Failure : Type :=
| FailUnsupportedLayout | FailUnsafe | FailRemnants | FailRebuildPending | FailOwnerBusy | FailCancelled | FailIo
| FailReplay (e : ReplayError) | FailInvalid | FailHeld (reason : HoldReason) | FailExhausted | FailUnconfirmed.
#[export] Instance Failure_eq_dec : EqDecision Failure.
Proof. solve_decision. Defined.
Definition from_file (e : JournalError) : Failure :=
  match e with
  | JUnsupportedLayout => FailUnsupportedLayout
  | JUnsafe => FailUnsafe
  | JOwnerBusy => FailOwnerBusy
  | JCancelled => FailCancelled
  | JAbsent => FailReplay Corrupt
  | JNoSpace _ => FailHeld HDisk
  | JLimit | JIo => FailIo
  end.

(** ** Writing a run with the state of the sink kept. *)
Section FileWriter.
Context `{Hasher} {S : Type} (write : Z -> bytes -> ST S ReplayError unit) (reads : S -> nat -> RunSource).
Definition fw_new (header : RunHeader) : ST S ReplayError RunWriter :=
  let b := header_encode header in
  let! _ := write 0 b in
  st_ret (mkWriter header b [] 0 0 None).
Definition fw_flush (w : RunWriter) : ST S ReplayError RunWriter :=
  let! b := st_lift (encode_page (w_page w) (w_written_pages w) (h_first (w_header w))) in
  let! _ := write (page_offset (w_written_pages w)) b in
  st_ret (mkWriter (w_header w) (w_digest w ++ b) [] (wrap 64 (w_written_pages w + 1))
            (wrap 64 (w_written_entries w + zlen (w_page w))) (w_last w)).
Definition fw_push (w : RunWriter) (key : Key) (value : Value) : ST S ReplayError RunWriter :=
  if at_or_above (w_last w) key then st_lift (Err Corrupt) else
  if decide (wrap 64 (w_written_entries w + zlen (w_page w)) >= h_entries (w_header w)) then st_lift (Err Corrupt) else
  let w := mkWriter (w_header w) (w_digest w) (w_page w ++ [(key, value)]) (w_written_pages w) (w_written_entries w) (Some key) in
  if decide (zlen (w_page w) = PAGE_ENTRIES) then fw_flush w else st_ret w.
Fixpoint fw_push_all (entries : Page) (w : RunWriter) : ST S ReplayError RunWriter :=
  match entries with
  | [] => st_ret w
  | (key, value) :: entries => let! w := fw_push w key value in fw_push_all entries w
  end.
Definition fw_finish (w : RunWriter) : ST S ReplayError bytes :=
  let! w := (if decide (w_page w = []) then st_ret w else fw_flush w) in
  if decide (w_written_entries w <> h_entries (w_header w) \/ w_written_pages w <> h_pages (w_header w))
  then st_lift (Err Corrupt) else
  let digest := sha256 (w_digest w) in
  let! _ := write (wrap 64 (file_bytes (w_header w) - TRAILER_BYTES)) (digest ++ COMMIT) in
  st_ret digest.
(** [Merge::new] and [Merge::step]. *)
Definition fm_new (inputs : list MergeInput) (level : Z) (installation : Id) : ST S ReplayError Merge :=
  let! first := st_lift (ok_or Corrupt (minimum ((fun i => h_first (mi_header i)) <$> inputs))) in
  let! last := st_lift (ok_or Corrupt (maximum ((fun i => h_last (mi_header i)) <$> inputs))) in
  let entries := foldl (fun a i => wrap 64 (a + h_entries (mi_header i))) 0 inputs in
  let! writer := fw_new (header_new level installation first last entries) in
  st_ret (mkMerge inputs (Some writer)).
Fixpoint fm_step_loop (rounds : nat) (target : Z) (inputs : list MergeInput) (writer : RunWriter)
    : ST S ReplayError (option bytes * Merge) :=
  if decide (w_written_pages writer < target) then
    match rounds with
    | O => st_lift Panic
    | Datatypes.S rounds =>
        let! s := st_get in
        let! (inputs, best) := st_lift (best_of (reads s) 0 inputs None) in
        match best with
        | None => let! digest := fw_finish writer in st_ret (Some digest, mkMerge inputs None)
        | Some (index, key, value) =>
            let inputs := alter advance index inputs in
            let! writer := fw_push writer key value in
            fm_step_loop rounds target inputs writer
        end
    end
  else st_ret (None, mkMerge inputs (Some writer)).
Definition fm_step (m : Merge) (pages : Z) : ST S ReplayError (option bytes * Merge) :=
  let! writer := st_lift (ok_or Corrupt (m_writer m)) in
  fm_step_loop (Z.to_nat (pages * PAGE_ENTRIES)) (wrap 64 (w_written_pages writer + pages)) (m_inputs m) writer.
End FileWriter.

(** ** The driver's state. *)
Record Segment : Type := mkSegment {
  sg_first : Z; sg_last : Z; sg_bytes : Z; sg_frames : Z; sg_last_digest : Hash;
}.
Record MergeJob : Type := mkMergeJob {
  mj_inputs : list RunRef; mj_output : Z * Z; mj_level : Z; mj_merge : Merge;
}.
Record SegmentJournal (F : Type) : Type := mkJournal {
  jd_files : F; jd_writer : bool; jd_state : Replay; jd_segments : list Segment; jd_runs : list RunRef;
  jd_checkpoints : gmap Z (list RunRef); jd_derived : gmap JournalName Z; jd_sealed : bool; jd_configured_quota : Z;
  jd_free : Z; jd_held : option HoldReason; jd_merge : option MergeJob; jd_merged : option (RunRef * list RunRef);
  jd_fenced : bool; jd_installation : Id; jd_rolls : Z; jd_merges : Z;
}.
Arguments mkJournal {_}.
Arguments jd_files {_} _.
Arguments jd_writer {_} _.
Arguments jd_state {_} _.
Arguments jd_segments {_} _.
Arguments jd_runs {_} _.
Arguments jd_checkpoints {_} _.
Arguments jd_derived {_} _.
Arguments jd_sealed {_} _.
Arguments jd_configured_quota {_} _.
Arguments jd_free {_} _.
Arguments jd_held {_} _.
Arguments jd_merge {_} _.
Arguments jd_merged {_} _.
Arguments jd_fenced {_} _.
Arguments jd_installation {_} _.
Arguments jd_rolls {_} _.
Arguments jd_merges {_} _.
Section Setters.
Context {F : Type}.
Implicit Types j : SegmentJournal F.
Definition jset_files (x : F) j : SegmentJournal F :=
  mkJournal x (jd_writer j) (jd_state j) (jd_segments j) (jd_runs j) (jd_checkpoints j) (jd_derived j) (jd_sealed j)
    (jd_configured_quota j) (jd_free j) (jd_held j) (jd_merge j) (jd_merged j) (jd_fenced j) (jd_installation j)
    (jd_rolls j) (jd_merges j).
Definition jset_state (x : Replay) j : SegmentJournal F :=
  mkJournal (jd_files j) (jd_writer j) x (jd_segments j) (jd_runs j) (jd_checkpoints j) (jd_derived j) (jd_sealed j)
    (jd_configured_quota j) (jd_free j) (jd_held j) (jd_merge j) (jd_merged j) (jd_fenced j) (jd_installation j)
    (jd_rolls j) (jd_merges j).
Definition jset_segments (x : list Segment) j : SegmentJournal F :=
  mkJournal (jd_files j) (jd_writer j) (jd_state j) x (jd_runs j) (jd_checkpoints j) (jd_derived j) (jd_sealed j)
    (jd_configured_quota j) (jd_free j) (jd_held j) (jd_merge j) (jd_merged j) (jd_fenced j) (jd_installation j)
    (jd_rolls j) (jd_merges j).
Definition jset_runs (x : list RunRef) j : SegmentJournal F :=
  mkJournal (jd_files j) (jd_writer j) (jd_state j) (jd_segments j) x (jd_checkpoints j) (jd_derived j) (jd_sealed j)
    (jd_configured_quota j) (jd_free j) (jd_held j) (jd_merge j) (jd_merged j) (jd_fenced j) (jd_installation j)
    (jd_rolls j) (jd_merges j).
Definition jset_checkpoints (x : gmap Z (list RunRef)) j : SegmentJournal F :=
  mkJournal (jd_files j) (jd_writer j) (jd_state j) (jd_segments j) (jd_runs j) x (jd_derived j) (jd_sealed j)
    (jd_configured_quota j) (jd_free j) (jd_held j) (jd_merge j) (jd_merged j) (jd_fenced j) (jd_installation j)
    (jd_rolls j) (jd_merges j).
Definition jset_derived (x : gmap JournalName Z) j : SegmentJournal F :=
  mkJournal (jd_files j) (jd_writer j) (jd_state j) (jd_segments j) (jd_runs j) (jd_checkpoints j) x (jd_sealed j)
    (jd_configured_quota j) (jd_free j) (jd_held j) (jd_merge j) (jd_merged j) (jd_fenced j) (jd_installation j)
    (jd_rolls j) (jd_merges j).
Definition jset_sealed (x : bool) j : SegmentJournal F :=
  mkJournal (jd_files j) (jd_writer j) (jd_state j) (jd_segments j) (jd_runs j) (jd_checkpoints j) (jd_derived j) x
    (jd_configured_quota j) (jd_free j) (jd_held j) (jd_merge j) (jd_merged j) (jd_fenced j) (jd_installation j)
    (jd_rolls j) (jd_merges j).
Definition jset_configured_quota (x : Z) j : SegmentJournal F :=
  mkJournal (jd_files j) (jd_writer j) (jd_state j) (jd_segments j) (jd_runs j) (jd_checkpoints j) (jd_derived j)
    (jd_sealed j) x (jd_free j) (jd_held j) (jd_merge j) (jd_merged j) (jd_fenced j) (jd_installation j) (jd_rolls j)
    (jd_merges j).
Definition jset_free (x : Z) j : SegmentJournal F :=
  mkJournal (jd_files j) (jd_writer j) (jd_state j) (jd_segments j) (jd_runs j) (jd_checkpoints j) (jd_derived j)
    (jd_sealed j) (jd_configured_quota j) x (jd_held j) (jd_merge j) (jd_merged j) (jd_fenced j) (jd_installation j)
    (jd_rolls j) (jd_merges j).
Definition jset_held (x : option HoldReason) j : SegmentJournal F :=
  mkJournal (jd_files j) (jd_writer j) (jd_state j) (jd_segments j) (jd_runs j) (jd_checkpoints j) (jd_derived j)
    (jd_sealed j) (jd_configured_quota j) (jd_free j) x (jd_merge j) (jd_merged j) (jd_fenced j) (jd_installation j)
    (jd_rolls j) (jd_merges j).
Definition jset_merge (x : option MergeJob) j : SegmentJournal F :=
  mkJournal (jd_files j) (jd_writer j) (jd_state j) (jd_segments j) (jd_runs j) (jd_checkpoints j) (jd_derived j)
    (jd_sealed j) (jd_configured_quota j) (jd_free j) (jd_held j) x (jd_merged j) (jd_fenced j) (jd_installation j)
    (jd_rolls j) (jd_merges j).
Definition jset_merged (x : option (RunRef * list RunRef)) j : SegmentJournal F :=
  mkJournal (jd_files j) (jd_writer j) (jd_state j) (jd_segments j) (jd_runs j) (jd_checkpoints j) (jd_derived j)
    (jd_sealed j) (jd_configured_quota j) (jd_free j) (jd_held j) (jd_merge j) x (jd_fenced j) (jd_installation j)
    (jd_rolls j) (jd_merges j).
Definition jset_fenced (x : bool) j : SegmentJournal F :=
  mkJournal (jd_files j) (jd_writer j) (jd_state j) (jd_segments j) (jd_runs j) (jd_checkpoints j) (jd_derived j)
    (jd_sealed j) (jd_configured_quota j) (jd_free j) (jd_held j) (jd_merge j) (jd_merged j) x (jd_installation j)
    (jd_rolls j) (jd_merges j).
Definition jset_rolls (x : Z) j : SegmentJournal F :=
  mkJournal (jd_files j) (jd_writer j) (jd_state j) (jd_segments j) (jd_runs j) (jd_checkpoints j) (jd_derived j)
    (jd_sealed j) (jd_configured_quota j) (jd_free j) (jd_held j) (jd_merge j) (jd_merged j) (jd_fenced j)
    (jd_installation j) x (jd_merges j).
Definition jset_merges (x : Z) j : SegmentJournal F :=
  mkJournal (jd_files j) (jd_writer j) (jd_state j) (jd_segments j) (jd_runs j) (jd_checkpoints j) (jd_derived j)
    (jd_sealed j) (jd_configured_quota j) (jd_free j) (jd_held j) (jd_merge j) (jd_merged j) (jd_fenced j)
    (jd_installation j) (jd_rolls j) x.
End Setters.

(** [is_closure]. *)
Definition is_closure (record : JournalRecord) : bool :=
  match record with
  | RTurnTerminal _ | RCancelRequested _ | ROwnerGeneration | RStartAuthorized _ | RToolResult _ | RJobCancelRequested _
  | RJobSettled _ => true
  | RToolCall call => bool_decide (tc_decision call = TdCancelled)
  | _ => false
  end.
Definition sum64 (l : list Z) : Z := foldl (fun a b => wrap 64 (a + b)) 0 l.

Section Ops.
Context `{Hasher, Unicode, !RecordCodec JournalRecord, JournalFiles F}.
Implicit Types (j : SegmentJournal F).
Definition act (A : Type) : Type := ST (SegmentJournal F) Failure A.
Definition replaying {A} (r : Result A) : act A := st_lift (map_err FailReplay r).
(** An operation on the files; its error is a value. *)
Definition on_files {A} (op : F -> FileResult A * F) : act (FileResult A) := fun j =>
  let (r, f) := op (jd_files j) in (Ok r, jset_files f j).
Definition fence_file {A} (e : JournalError) : act A :=
  match e with
  | JNoSpace _ => let! _ := st_set (jset_held (Some HDisk)) in st_lift (Err (FailHeld HDisk))
  | JCancelled => st_lift (Err FailCancelled)
  | _ => let! _ := st_set (jset_fenced true) in st_lift (Err FailUnconfirmed)
  end.
(** [.map_err(|e| self.fence_file(e))?] and [.map_err(from_file)?]. *)
Definition or_fence {A} (r : FileResult A) : act A := match r with Ok a => st_ret a | Err e => fence_file e | Panic => st_lift Panic end.
Definition fenced_op {A} (op : F -> FileResult A * F) : act A := let! r := on_files op in or_fence r.
Definition at_point (p : JournalPoint) : act unit := fun j => (map_err from_file (jf_point (jd_files j) p), j).
Definition read_free : act unit :=
  let! j := st_get in
  let! free := st_lift (map_err from_file (jf_free_bytes (jd_files j))) in
  st_set (jset_free free).
Definition derive (name : JournalName) (size : Z) : act unit := st_set (fun j => jset_derived (<[name := size]> (jd_derived j)) j).
Definition underive (name : JournalName) : act unit := st_set (fun j => jset_derived (delete name (jd_derived j)) j).

(** ** Quota. *)
(** Every segment but an unsealed last one counts its bytes. *)
Fixpoint segment_usage (sealed : bool) (l : list Segment) : list Z :=
  match l with
  | [] => []
  | [s] => [if sealed then sg_bytes s else SEGMENT_BYTES]
  | s :: l => sg_bytes s :: segment_usage sealed l
  end.
Definition usage j : Z := wrap 64 (sum64 (segment_usage (jd_sealed j) (jd_segments j)) + sum64 (btree_values (jd_derived j))).
Definition disk_quota j : Z := saturating_sub (wrap 64 (usage j + jd_free j)) DISK_FLOOR.
Definition journal_quota j : Z := Z.min (jd_configured_quota j) (disk_quota j).
Definition reason j : HoldReason := if jd_configured_quota j <=? disk_quota j then HQuota else HDisk.
Definition fits_with j (needed reserved : Z) : bool :=
  wrap 64 (wrap 64 (wrap 64 (usage j + needed) + ROLL_RESERVE) + reserved) <=? journal_quota j.
Definition normal_fits j (needed : Z) : bool := fits_with j needed (st_reserved_bytes (jd_state j)).
Record JournalStatus : Type := mkStatus {
  js_usage : Z; js_effective_quota : Z; js_configured_quota : Z; js_held : option HoldReason;
  js_runs : Z; js_segments : Z; js_rolls : Z; js_merges : Z;
}.
Definition status j : JournalStatus :=
  mkStatus (usage j) (journal_quota j) (jd_configured_quota j) (jd_held j) (zlen (jd_runs j)) (zlen (jd_segments j)) (jd_rolls j) (jd_merges j).
Definition set_quota (quota : Z) : act unit := st_set (jset_configured_quota quota).
Definition recheck : act bool :=
  let! j := st_get in
  let! _ := st_set (match jf_free_bytes (jd_files j) with Ok free => jset_free free | _ => fun j => j end) in
  let! j := st_get in
  let! _ := st_set (if is_some (jd_held j) && normal_fits j ROLL_RESERVE && (zlen (jd_runs j) <? MAX_RUNS)
                    then jset_held None else fun j => j) in
  let! j := st_get in
  st_ret (is_none (jd_held j)).

(** ** Derived files. *)
Definition write_file (tmp : JournalName) (b : bytes) (p : JournalPoint) : act unit :=
  let! _ := fenced_op (fun f => jf_create f tmp) in
  let! _ := derive tmp (zlen b) in
  let! written := on_files (fun f => jf_write_at f tmp 0 b) in
  match written with
  | Ok _ =>
      let! _ := at_point p in
      fenced_op (fun f => jf_sync f tmp)
  | Err e =>
      let! _ := on_files (fun f => jf_remove f tmp) in
      let! _ := underive tmp in
      fence_file e
  | Panic => st_lift Panic
  end.
(** [FilesSink]: the files and the first failure. *)
Definition FilesSink : Type := (F * option JournalError)%type.
Definition sink_write (name : JournalName) (offset : Z) (b : bytes) : ST FilesSink ReplayError unit := fun sink =>
  match jf_write_at sink.1 name offset b with
  | (Ok _, f) => (Ok tt, (f, sink.2))
  | (Err e, f) => (Err Limit, (f, Some e))
  | (Panic, f) => (Panic, (f, sink.2))
  end.
Definition write_entries (name : JournalName) (header : RunHeader) (entries : Page) : ST FilesSink ReplayError bytes :=
  let! w := fw_new (sink_write name) header in
  let! w := fw_push_all (sink_write name) entries w in
  fw_finish (sink_write name) w.
(** The closure of [write_run] with the sink's failure. *)
Definition run_writes (name : JournalName) (header : RunHeader) (entries : Page) : act (Result bytes * option JournalError) := fun j =>
  let '(r, (f, failure)) := write_entries name header entries (jd_files j, None) in
  (Ok (r, failure), jset_files f j).
Definition write_run (level first last : Z) (entries : Page) : act RunRef :=
  let! j := st_get in
  let header := header_new level (jd_installation j) first last (zlen entries) in
  let tmp := NRunTmp first last in
  let! _ := fenced_op (fun f => jf_create f tmp) in
  let! _ := derive tmp (file_bytes header) in
  let! (written, failure) := run_writes tmp header entries in
  match written with
  | Ok digest =>
      let! _ := at_point PRunWrite in
      let! _ := fenced_op (fun f => jf_sync f tmp) in
      let! _ := fenced_op (fun f => jf_publish f tmp (NRun first last)) in
      let! _ := underive tmp in
      let! _ := derive (NRun first last) (file_bytes header) in
      let! _ := at_point PRunRenamed in
      st_ret (mkRunRef first last level (h_entries header) (file_bytes header) digest)
  | Err error =>
      let! _ := on_files (fun f => jf_remove f tmp) in
      let! _ := underive tmp in
      match failure with Some e => fence_file e | None => st_lift (Err (FailReplay error)) end
  | Panic => st_lift Panic
  end.
Fixpoint remove_all (names : list JournalName) : act unit :=
  match names with
  | [] => st_ret tt
  | name :: names =>
      let! _ := fenced_op (fun f => jf_remove f name) in
      let! _ := underive name in
      remove_all names
  end.
(** [while self.checkpoints.len() > 2]: the newest two stay. *)
Definition newest_two (m : gmap Z (list RunRef)) : gmap Z (list RunRef) :=
  list_to_map (zdrop (Z.max 0 (zlen (btree_iter m) - 2)) (btree_iter m)).
Definition kept_names j : list JournalName :=
  concat ((fun '(s, runs) => NCheckpoint s :: (run_name <$> runs)) <$> btree_iter (jd_checkpoints j)) ++
  match jd_merged j with Some (output, _) => [run_name output] | None => [] end ++
  match jd_merge j with Some job => [NRunTmp (mj_output job).1 (mj_output job).2] | None => [] end.
Definition newest_checkpoint j : Z := default 0 (last (btree_keys (jd_checkpoints j))).
Definition stale_names j : list JournalName :=
  filter (fun name => bool_decide (name ∉ kept_names j) &&
                      match name with NCheckpoint s => s <? newest_checkpoint j | _ => true end = true)
    (btree_keys (jd_derived j)).
Definition retire : act unit :=
  let! _ := st_set (fun j => jset_checkpoints (newest_two (jd_checkpoints j)) j) in
  let! j := st_get in
  remove_all (stale_names j).

(** ** Rolls. *)
Definition segment_entry (s : Segment) : Result (Key * Value) :=
  let? value := entry_encode (ESegment (sg_last s) (sg_bytes s) (sg_last_digest s)) in
  Ok (mkKey TSegment (sequence_id (sg_first s)) 0, value).
Fixpoint segment_entries (l : list Segment) : Result Page :=
  match l with
  | [] => Ok []
  | s :: l => let? kv := segment_entry s in let? rest := segment_entries l in Ok (kv :: rest)
  end.
(** The entries of the run that a roll at [head] writes. *)
Definition roll_entries j (first head : Z) : Result Page :=
  let? entries := delta_entries (jd_state j) in
  let? segments := segment_entries (filter (fun s => 0 < sg_frames s /\ sg_last s <= head /\ sg_last s >= first) (jd_segments j)) in
  Ok (by_key (entries ++ segments)).
Definition by_first (l : list RunRef) : list RunRef := sort_by (fun a b => cmp (ru_first a) (ru_first b)) l.
(** The run list of the next checkpoint: a complete merge replaces its inputs. *)
Definition roll_runs (runs : list RunRef) (merged : option (RunRef * list RunRef)) (run : RunRef) : list RunRef :=
  let runs := match merged with
              | Some (output, inputs) => filter (fun r => r ∉ inputs) runs ++ [output]
              | None => runs
              end in
  by_first (runs ++ [run]).
Definition roll_census j (head : Z) : Census :=
  let covered := filter (fun s => sg_first s <= head) (jd_segments j) in
  mkCensus (zlen covered) (match last covered with Some s => sg_first s | None => 0 end) (sum64 (sg_bytes <$> covered)).
(** Step 2 of a roll: the checkpoint at the head. *)
Definition publish_checkpoint (head size : Z) : act unit :=
  let! _ := fenced_op (fun f => jf_publish f (NCheckpointTmp head) (NCheckpoint head)) in
  let! _ := underive (NCheckpointTmp head) in
  let! _ := derive (NCheckpoint head) size in
  at_point PCheckpointRenamed.
Definition adopt_roll (head : Z) (runs : list RunRef) (cleared : Replay) : act unit :=
  let! _ := st_set (fun j => jset_checkpoints (<[head := runs]> (jd_checkpoints j)) j) in
  let! _ := st_set (jset_runs runs) in
  let! _ := st_set (fun j => jset_rolls (wrap 64 (jd_rolls j + 1)) j) in
  let! _ := st_set (jset_state cleared) in
  st_set (jset_sealed true).
Definition roll_checkpoint (head : Z) (run : RunRef) : act unit :=
  let! j := st_get in
  let runs := roll_runs (jd_runs j) (jd_merged j) run in
  let! _ := st_set (jset_merged None) in
  let cleared := clear_delta (jd_state j) in
  let! b := replaying (encode_checkpoint cleared (roll_census j head) runs) in
  let! _ := write_file (NCheckpointTmp head) b PCheckpointSync in
  let! _ := publish_checkpoint head (zlen b) in
  adopt_roll head runs cleared.
Definition roll_derived : act unit :=
  let! j := st_get in
  let head := st_sequence (jd_state j) in
  if (st_base (jd_state j) =? head) && is_some (jd_checkpoints j !! head) then st_ret tt else
  let first := wrap 64 (st_base (jd_state j) + 1) in
  let! entries := replaying (roll_entries j first head) in
  let! run := write_run 0 first head entries in
  roll_checkpoint head run.
Definition new_segment (next : Z) : Segment := mkSegment next (wrap 64 (next - 1)) 0 0 (zeros 32).
(** Step 3 of a roll: the next segment file, then [retire]. *)
Definition add_next (next : Z) : act unit :=
  let! j := st_get in
  if existsb (fun s => sg_first s =? next) (jd_segments j) then st_ret tt else
  let! _ := fenced_op (fun f => jf_create f (NSegment next)) in
  st_set (fun j => jset_segments (jd_segments j ++ [new_segment next]) j).
Definition roll_segment : act unit :=
  let! j := st_get in
  let next := wrap 64 (st_sequence (jd_state j) + 1) in
  let! _ := at_point PSegmentCreate in
  let! _ := add_next next in
  let! _ := st_set (jset_sealed false) in
  let! _ := at_point PSegmentCreated in
  retire.
Definition roll : act unit :=
  let! _ := read_free in
  let! _ := roll_derived in
  roll_segment.

(** ** Appends. *)
Definition active_segment j : option Segment := if jd_sealed j then None else last (jd_segments j).
Definition journal_index j : JournalIndex := store_index (jd_files j) (jd_runs j) (jd_installation j).
Definition next_locator j (context : FrameContext) (length : Z) (roll : bool) : Locator :=
  match roll, active_segment j with
  | false, Some s => mkLocator (sequence context) (sg_first s) (wrap 32 (sg_bytes s)) (wrap 32 length)
  | _, _ => mkLocator (sequence context) (sequence context) 0 (wrap 32 length)
  end.
Definition propose j (context : FrameContext) (record : JournalRecord) (digest : Hash) (length : Z) (roll : bool)
    : Prelude.outcome Failure Replay :=
  match @apply_frame _ _ (journal_index j) (jd_state j) context record digest (next_locator j context length roll) with
  | Ok s => Ok s
  | Err Limit => Err FailExhausted
  | Err Cancelled => Err FailCancelled
  | Err _ => Err FailInvalid
  | Panic => Panic
  end.
Definition append_context j (record : JournalRecord) (transition : Id) : Prelude.outcome Failure FrameContext :=
  let? n := ok_or FailExhausted (checked_add64 (st_sequence (jd_state j)) 1) in
  let? owner := ok_or FailExhausted (checked_add64 (st_owner_generation (jd_state j)) (match record with ROwnerGeneration => 1 | _ => 0 end)) in
  Ok (mkContext (jd_installation j) transition n (st_last_digest (jd_state j)) (st_revision (jd_state j)) owner).
Definition must_roll j (length : Z) : bool :=
  match active_segment j with
  | Some s => (SEGMENT_BYTES <? wrap 64 (sg_bytes s + length)) || (SEGMENT_FRAMES <=? sg_frames s)
  | None => true
  end.
(** The roll decision with the state after the record. *)
Definition plan j (context : FrameContext) (record : JournalRecord) (digest : Hash) (length : Z)
    : Prelude.outcome Failure (bool * Replay) :=
  let roll := must_roll j length in
  let? proposed := propose j context record digest length roll in
  if negb roll && (DELTA_CHARGE <? st_delta_charge proposed) && (0 <? st_delta_charge (jd_state j)) then
    let? proposed := propose j context record digest length true in Ok (true, proposed)
  else Ok (roll, proposed).
(** The quota check. *)
Definition hold_check (closure roll : bool) (proposed : Replay) : act unit :=
  let! j := st_get in
  let needed := if roll then ROLL_RESERVE else 0 in
  if closure then
    if journal_quota j <? wrap 64 (usage j + needed) then st_lift (Err FailExhausted) else st_ret tt
  else if is_some (jd_held j) ||
          negb (fits_with j needed (Z.max (st_reserved_bytes proposed) (st_reserved_bytes (jd_state j)))) ||
          roll && (st_base (jd_state j) <? st_sequence (jd_state j)) && (MAX_RUNS <=? zlen (jd_runs j)) then
    let why := if MAX_RUNS <=? zlen (jd_runs j) then HQuota else reason j in
    let! _ := st_set (jset_held (Some why)) in
    st_lift (Err (FailHeld why))
  else st_ret tt.
Definition grown (s : Segment) (length sequence : Z) (digest : Hash) : Segment :=
  mkSegment (sg_first s) sequence (wrap 64 (sg_bytes s + length)) (wrap 64 (sg_frames s + 1)) digest.
Definition update_last (g : Segment -> Segment) (l : list Segment) : list Segment := alter g (pred (length l)) l.
(** The frame goes to the active segment. *)
Definition write_frame (frame : bytes) (sequence : Z) (digest : Hash) (proposed : Replay) : act unit :=
  let! j := st_get in
  let! segment := st_lift (ok_or FailUnconfirmed (active_segment j)) in
  let! written := on_files (fun f => jf_append f (sg_first segment) (sg_bytes segment) frame) in
  match written with
  | Ok _ =>
      let! _ := st_set (fun j => jset_segments (update_last (fun s => grown s (zlen frame) sequence digest) (jd_segments j)) j) in
      st_set (jset_state proposed)
  | Err (JNoSpace true) =>
      let! _ := st_set (jset_held (Some HDisk)) in st_lift (Err (FailHeld HDisk))
  | Err _ => let! _ := st_set (jset_fenced true) in st_lift (Err FailUnconfirmed)
  | Panic => st_lift Panic
  end.
(** [match self.roll() { Ok(()) | Err(Failure::Held(_)) => {} Err(error) => return Err(error) }]. *)
Definition roll_if_full : act unit := fun j =>
  if DELTA_CHARGE <? st_delta_charge (jd_state j) then
    match roll j with (Err (FailHeld _), j) => (Ok tt, j) | r => r end
  else (Ok tt, j).
(** The accepted frame: the roll, the write, and a roll when the delta is full. *)
Definition commit_frame (context : FrameContext) (record : JournalRecord) (frame : bytes) (digest : Hash) (rolling : bool)
    (proposed : Replay) : act unit :=
  let! proposed := (if rolling then
                      let! _ := roll in
                      let! j := st_get in st_lift (propose j context record digest (zlen frame) false)
                    else st_ret proposed) in
  let! _ := write_frame frame (sequence context) digest proposed in
  roll_if_full.
Definition append (record : JournalRecord) (transition : Id) : act unit :=
  let! j := st_get in
  if jd_fenced j || negb (jd_writer j) then st_lift (Err FailUnconfirmed) else
  let! context := st_lift (append_context j record transition) in
  let! frame := st_lift (map_err (fun _ => FailInvalid) (encode_frame context record)) in
  let! digest := st_lift (sub (zlen frame - 40) (zlen frame - 8) frame) in
  let! (rolling, proposed) := st_lift (plan j context record digest (zlen frame)) in
  let! _ := hold_check (is_closure record) rolling proposed in
  commit_frame context record frame digest rolling proposed.

(** ** Run compaction. *)
Definition adjacent (l : list RunRef) : bool := windows_all (fun a b => ru_first b =? wrap 64 (ru_last a + 1)) l.
Definition same_level (l : list RunRef) : bool :=
  match l with [] => true | a :: _ => forallb (fun r => ru_level r =? ru_level a) l end.
(** [for window in runs.windows(FAN_IN)]: the first that qualifies. *)
Fixpoint first_window (l : list RunRef) : option (list RunRef) :=
  match l with
  | [] => None
  | _ :: tail =>
      let window := take FAN_IN l in
      if decide (length window = FAN_IN) then
        if same_level window && adjacent window then Some window else first_window tail
      else None
  end.
Definition merge_candidate j : option (list RunRef) := first_window (by_first (jd_runs j)).
Definition merge_pending j : bool := is_some (jd_merge j) || is_none (jd_merged j) && is_some (merge_candidate j).
(** [FilesMerge]. *)
Definition merge_write (output : JournalName) (offset : Z) (b : bytes) : ST F ReplayError unit := fun f =>
  let (r, f) := jf_write_at f output offset b in (map_err (fun _ => Limit) r, f).
Definition merge_reads (inputs : list JournalName) (f : F) (i : nat) : RunSource := fun offset n =>
  match inputs !! i with
  | Some name => map_err content_error (jf_read_at f name offset n)
  | None => Panic
  end.
Definition on_merge {A} (c : ST F ReplayError A) : act (Result A) := fun j =>
  let (r, f) := c (jd_files j) in (Ok r, jset_files f j).
Fixpoint merge_inputs (f : F) (runs : list RunRef) : Result (list MergeInput) :=
  match runs with
  | [] => Ok []
  | run :: runs =>
      let? header := header_read (file_run f (run_name run)) in
      let? rest := merge_inputs f runs in
      Ok (merge_input_new header (ru_digest run) :: rest)
  end.
(** A merge of the candidate runs begins. *)
Definition merge_begin (inputs : list RunRef) : act unit :=
  let! j := st_get in
  let level := match inputs with r :: _ => wrap 8 (ru_level r + 1) | [] => 0 end in
  let output := (match inputs with r :: _ => ru_first r | [] => 0 end, match last inputs with Some r => ru_last r | None => 0 end) in
  let tmp := NRunTmp output.1 output.2 in
  let! _ := fenced_op (fun f => jf_create f tmp) in
  let! j := st_get in
  let! starts := replaying (merge_inputs (jd_files j) inputs) in
  let entries := sum64 (ru_entries <$> inputs) in
  let! _ := derive tmp (file_bytes (header_new level (jd_installation j) output.1 output.2 entries)) in
  let! merge := on_merge (fm_new (merge_write tmp) starts level (jd_installation j)) in
  let! merge := replaying merge in
  st_set (jset_merge (Some (mkMergeJob inputs output level merge))).
Definition merge_advance (job : MergeJob) : act bool :=
  let tmp := NRunTmp (mj_output job).1 (mj_output job).2 in
  let name := NRun (mj_output job).1 (mj_output job).2 in
  let! _ := at_point PMergeStep in
  let! stepped := on_merge (fm_step (merge_write tmp) (merge_reads (run_name <$> mj_inputs job)) (mj_merge job) MERGE_STEP_PAGES) in
  match stepped with
  | Err error =>
      let! _ := st_set (jset_merge None) in
      let! _ := on_files (fun f => jf_remove f tmp) in
      let! _ := underive tmp in
      let! _ := st_set (if bool_decide (error = Corrupt) then jset_fenced true else fun j => j) in
      st_lift (Err (FailReplay error))
  | Ok (None, merge) =>
      let! _ := st_set (jset_merge (Some (mkMergeJob (mj_inputs job) (mj_output job) (mj_level job) merge))) in
      st_ret true
  | Ok (Some digest, _) =>
      let! _ := st_set (jset_merge None) in
      let! _ := fenced_op (fun f => jf_sync f tmp) in
      let! _ := fenced_op (fun f => jf_publish f tmp name) in
      let! j := st_get in
      let b := default 0 (jd_derived j !! tmp) in
      let! _ := underive tmp in
      let! _ := derive name b in
      let! _ := st_set (fun j => jset_merges (wrap 64 (jd_merges j + 1)) j) in
      let output := mkRunRef (mj_output job).1 (mj_output job).2 (mj_level job) (sum64 (ru_entries <$> mj_inputs job)) b digest in
      let! _ := st_set (jset_merged (Some (output, mj_inputs job))) in
      st_ret false
  | Panic => st_lift Panic
  end.
Definition merge_step : act bool :=
  let! j := st_get in
  if jd_fenced j || negb (jd_writer j) || is_some (jd_merged j) then st_ret false else
  match jd_merge j with
  | Some job => merge_advance job
  | None =>
      match merge_candidate j with
      | None => st_ret false
      | Some inputs =>
          let! _ := read_free in
          let! j := st_get in
          if negb (normal_fits j (sum64 (ru_bytes <$> inputs))) then st_ret false else
          let! _ := merge_begin inputs in
          let! j := st_get in
          match jd_merge j with Some job => merge_advance job | None => st_lift Panic end
      end
  end.
Definition abandon_merge : act unit := st_set (jset_merge None).

(** ** Creating a journal. *)
Definition empty_init : PendingInit := mkInit (zeros 16) (zeros 32) 0 0 (zeros 32) (zeros 16).
Definition fresh_journal (f : F) (writer : bool) (s : Replay) (segments : list Segment) (derived : gmap JournalName Z)
    (installation : Id) : SegmentJournal F :=
  mkJournal f writer s segments [] ∅ derived false DEFAULT_QUOTA 0 None None None false installation 0 0.
Definition initialize (f : F) (context : FrameContext) (init : PendingInit) : Prelude.outcome Failure (SegmentJournal F) :=
  let record := RPendingInit init in
  let? frame := map_err (fun _ => FailInvalid) (encode_frame context record) in
  let? digest := sub (zlen frame - 40) (zlen frame - 8) frame in
  let locator := mkLocator 1 1 0 (wrap 32 (zlen frame)) in
  let? s := map_err FailReplay (@apply_next _ _ (memory_index frame) None context record digest locator) in
  let (created, f) := jf_create f (NSegment 1) in
  let? _ := map_err from_file created in
  let j := fresh_journal f true s [mkSegment 1 0 0 0 (zeros 32)] ∅ (installation_id context) in
  let? free := map_err from_file (jf_free_bytes f) in
  let (written, f) := jf_append f 1 0 frame in
  match written with
  | Ok _ => Ok (jset_free free (jset_files f (jset_segments [mkSegment 1 1 (zlen frame) 1 digest] j)))
  | Err (JNoSpace true) => Err (FailHeld HDisk)
  | Err _ => Err FailUnconfirmed
  | Panic => Panic
  end.

(** ** Opening a journal. *)
Definition poll_open (flag : bool) : Prelude.outcome Failure unit := if flag then Err FailCancelled else Ok tt.
(** [read_next]. *)
Definition read_next (f : F) (segment offset size : Z) : Result (option (bytes * Locator)) :=
  if offset =? size then Ok None else
  let remaining := wrap 64 (size - offset) in
  let? head := map_err content_error (jf_read_at f (NSegment segment) offset (Z.min HEADER remaining)) in
  if zlen head <? 16 then Err IncompleteTail else
  let? length := (let? b := sub 12 16 head in Ok (be_val b)) in
  if (MAX_FRAME <? length) || (length <? HEADER + 40) then Err Corrupt else
  if remaining <? length then Err IncompleteTail else
  let? frame := map_err content_error (jf_read_at f (NSegment segment) offset length) in
  let? sequence := (let? b := sub 16 24 frame in Ok (be_val b)) in
  Ok (Some (frame, mkLocator sequence segment (wrap 32 offset) (wrap 32 length))).
(** [checkpoint_runs]: the run list before the checkpoint is decoded. *)
Definition checkpoint_run (field : bytes) : Result RunRef :=
  let u64_at i := (let? b := sub i (i + 8) field in Ok (be_val b)) in
  let? first := u64_at 0 in
  let? last := u64_at 8 in
  let? level := (let? b := sub 16 17 field in Ok (be_val b)) in
  let? entries := u64_at 17 in
  let? bytes := u64_at 25 in
  let? digest := sub 33 65 field in
  Ok (mkRunRef first last level entries bytes digest).
Fixpoint checkpoint_run_list (n : nat) (offset : Z) (b : bytes) : Result (list RunRef) :=
  match n with
  | O => Ok []
  | Datatypes.S n =>
      let? field := ok_or Corrupt (get_range offset (offset + 65) b) in
      let? run := checkpoint_run field in
      let? runs := checkpoint_run_list n (offset + 65) b in
      Ok (run :: runs)
  end.
Definition checkpoint_runs (b : bytes) : Result (list RunRef) :=
  let start := 8 + 2 + 16 + 8 + 32 + 24 + 8 + 8 + 24 in
  let? field := ok_or Corrupt (get_range start (start + 4) b) in
  let count := be_val field in
  if MAX_RUNS <? count then Err Corrupt else
  checkpoint_run_list (Z.to_nat count) (start + 4) b.
Fixpoint run_headers (f : F) (installation : Id) (runs : list RunRef) : Result unit :=
  match runs with
  | [] => Ok tt
  | run :: runs => let? _ := store_run_header f installation run in run_headers f installation runs
  end.
Definition select j (sequence : Z) (segments : list (Z * Z)) : Result Checkpoint :=
  let name := NCheckpoint sequence in
  let? size := ok_or Corrupt (jd_derived j !! name) in
  if MAX_CHECKPOINT <? size then Err Corrupt else
  let? b := map_err content_error (jf_read_at (jd_files j) name 0 size) in
  let? runs := checkpoint_runs b in
  if negb (forallb (fun run => bool_decide (jd_derived j !! run_name run = Some (ru_bytes run))) runs) then Err Corrupt else
  let? _ := run_headers (jd_files j) (jd_installation j) runs in
  let? found := @decode_checkpoint _ (store_index (jd_files j) runs (jd_installation j)) b in
  if decide (st_installation_id (ck_state found) <> jd_installation j \/ st_sequence (ck_state found) <> sequence) then Err Corrupt else
  let covered := filter (fun fb => fb.1 <= sequence) segments in
  if decide (ce_segments (ck_census found) <> zlen covered \/
             fst <$> last covered <> Some (ce_holding (ck_census found)) \/
             ce_bytes (ck_census found) <> sum64 (snd <$> covered) \/
             l_segment (st_last_frame (ck_state found)) <> ce_holding (ck_census found)) then Err Corrupt else
  let? (_, _, digest) := store_read_frame (jd_files j) (jd_installation j) (st_last_frame (ck_state found)) in
  if decide (digest <> st_last_digest (ck_state found)) then Err Corrupt else
  Ok found.
(** The newest checkpoint that is valid; [polls] have been made. *)
Fixpoint select_newest (cancelled : nat -> bool) (polls : nat) j (segments : list (Z * Z)) (candidates : list Z)
    : Prelude.outcome Failure (option Checkpoint * nat) :=
  match candidates with
  | [] => Ok (None, polls)
  | sequence :: candidates =>
      let? _ := poll_open (cancelled polls) in
      match select j sequence segments with
      | Ok found => Ok (Some found, Datatypes.S polls)
      | Err Cancelled => Err FailCancelled
      | Err _ => select_newest cancelled (Datatypes.S polls) j segments candidates
      | Panic => Panic
      end
  end.
Definition sealed_segment (fb : Z * Z) : Segment := mkSegment fb.1 0 fb.2 0 (zeros 32).
(** The state of a driver that starts from a checkpoint. *)
Definition adopt (found : Checkpoint) (segments : list (Z * Z)) j : Prelude.outcome Failure (SegmentJournal F) :=
  let s := ck_state found in
  let head := st_sequence s in
  let covered := sealed_segment <$> filter (fun fb => fb.1 <= head) segments in
  let? holding := ok_or (FailReplay Corrupt) (last covered) in
  let at_ := st_last_frame s in
  if decide (l_segment at_ <> sg_first holding \/ l_offset at_ + l_length at_ <> sg_bytes holding) then Err (FailReplay Corrupt) else
  let segments := update_last (fun g => mkSegment (sg_first g) head (sg_bytes g) (sg_frames g) (st_last_digest s)) covered in
  let j := jset_checkpoints (<[head := ck_runs found]> (jd_checkpoints j)) (jset_runs (ck_runs found) j) in
  Ok (jset_sealed true (jset_segments segments (jset_state s j))).
(** The frames of one segment file after the base. *)
Fixpoint replay_segment (rounds : nat) (cancelled : nat -> bool) (polls : nat) j (first size newest : Z) (offset : Z)
    (segment : Segment) (state : option Replay) : Prelude.outcome Failure (nat * Z * Segment * option Replay) :=
  match rounds with
  | O => Panic
  | Datatypes.S rounds =>
      let? _ := poll_open (cancelled polls) in
      match read_next (jd_files j) first offset size with
      | Err IncompleteTail => Err (FailReplay (if decide (first <> newest) then Corrupt else IncompleteTail))
      | Err e => Err (FailReplay e)
      | Panic => Panic
      | Ok None => Ok (Datatypes.S polls, offset, segment, state)
      | Ok (Some (b, locator)) =>
          let? e := map_err FailReplay (envelope b) in
          if (sg_frames segment =? 0) && (offset =? 0) && negb (l_sequence locator =? first) then Err (FailReplay Corrupt) else
          let? record := map_err FailReplay (decode_record (e_kind e) (e_payload e)) in
          let? s := map_err FailReplay (@apply_next _ _ (journal_index j) state (e_context e) record (e_digest e) locator) in
          let segment := mkSegment (sg_first segment) (l_sequence locator) (sg_bytes segment) (wrap 64 (sg_frames segment + 1)) (e_digest e) in
          replay_segment rounds cancelled (Datatypes.S polls) j first size newest (wrap 64 (offset + l_length locator)) segment (Some s)
      end
  end.
(** [for (position, &(first, size)) in tail.iter().enumerate()]. *)
Fixpoint replay_tail (cancelled : nat -> bool) (polls : nat) (rebuild : bool) (segments : list (Z * Z)) (newest : Z)
    (tail : list (Z * Z)) (state : option Replay) j : Prelude.outcome Failure (nat * SegmentJournal F) :=
  match tail with
  | [] => Ok (polls, j)
  | (first, size) :: tail =>
      let? _ := poll_open (cancelled polls) in
      let empty := mkSegment first (wrap 64 (first - 1)) size 0 (zeros 32) in
      let? (polls, offset, segment, state) :=
        replay_segment (Datatypes.S (Z.to_nat size)) cancelled (Datatypes.S polls) j first size newest 0 empty state in
      let? current := ok_or (FailReplay Empty) state in
      let? _ :=
        (if (sg_frames segment =? 0) && (offset =? 0) then
           if decide (first <> newest \/ first <> wrap 64 (st_sequence current + 1)) then Err (FailReplay Corrupt) else Ok tt
         else if decide (first <> newest) then
           if existsb (fun fb => fb.1 =? wrap 64 (sg_last segment + 1)) segments then Ok tt else Err (FailReplay Corrupt)
         else Ok tt) in
      let j := jset_sealed false (jset_segments (jd_segments j ++ [segment]) (jset_state current j)) in
      if rebuild && negb (bool_decide (tail = [])) && (0 <? sg_frames segment) then
        match roll_derived j with
        | (Ok _, j) => replay_tail cancelled polls rebuild segments newest tail (Some (jd_state j)) j
        | (Err e, _) => Err e
        | (Panic, _) => Panic
        end
      else replay_tail cancelled polls rebuild segments newest tail (Some current) j
  end.
Definition segments_of (entries : list JournalEntry) : list (Z * Z) :=
  omap (fun e => match je_name e with NSegment first => Some (first, je_bytes e) | _ => None end) entries.
Definition derived_of (entries : list JournalEntry) : gmap JournalName Z :=
  list_to_map (omap (fun e => if is_derived (je_name e) then Some (je_name e, je_bytes e) else None) entries).
Fixpoint remove_tmps (f : F) (names : list JournalName) (derived : gmap JournalName Z)
    : Prelude.outcome Failure (F * gmap JournalName Z) :=
  match names with
  | [] => Ok (f, derived)
  | name :: names =>
      match jf_remove f name with
      | (Ok _, f) => remove_tmps f names (delete name derived)
      | (Err e, _) => Err (from_file e)
      | (Panic, _) => Panic
      end
  end.
(** The installation that the first frame names. *)
Definition read_installation (f : F) (size : Z) : Prelude.outcome Failure Id :=
  let? next := map_err FailReplay (read_next f 1 0 size) in
  let? (b, locator) := ok_or (FailReplay Empty) next in
  let? (context, record, _) := map_err FailReplay (verified_frame b locator) in
  if (l_sequence locator =? 1) && match record with RPendingInit _ => true | _ => false end
  then Ok (installation_id context) else Err (FailReplay UnsupportedFormat).
Definition checkpoint_names (derived : gmap JournalName Z) : list Z :=
  reverse (omap (fun n => match n with NCheckpoint s => Some s | _ => None end) (btree_keys derived)).
(** The checks after the tail. *)
Definition segments_chain j (segments : list (Z * Z)) : bool :=
  bool_decide ((sg_first <$> jd_segments j) = segments.*1) &&
  windows_all (fun a b => negb ((0 <? sg_frames a) && negb (sg_first b =? wrap 64 (sg_last a + 1)))) (jd_segments j) &&
  negb (jd_sealed j && is_some_and (fun s => negb (sg_last s =? st_sequence (jd_state j))) (last (jd_segments j))).
Inductive Opened : Type := OEmpty (f : F) | OJournal (j : SegmentJournal F).
(** From the newest checkpoint to the end of the tail. *)
Definition open_from (cancelled : nat -> bool) (writer : bool) (segments : list (Z * Z)) (base : option Checkpoint) (polls : nat) j
    : Prelude.outcome Failure (nat * SegmentJournal F) :=
  let head := match base with Some found => st_sequence (ck_state found) | None => 0 end in
  let tail := filter (fun fb => fb.1 > head) segments in
  if decide ((2 < length tail)%nat) then
    if writer then
      let? j := match base with Some found => adopt found segments j | None => Ok j end in
      replay_tail cancelled polls true segments (match last segments with Some fb => fb.1 | None => 1 end) tail
        (if 0 <? head then Some (jd_state j) else None) j
    else Err FailRebuildPending
  else
    let? j := match base with Some found => adopt found segments j | None => Ok j end in
    replay_tail cancelled polls false segments (match last segments with Some fb => fb.1 | None => 1 end) tail
      (if 0 <? head then Some (jd_state j) else None) j.
Definition open (f : F) (writer : bool) (cancelled : nat -> bool) : Prelude.outcome Failure Opened :=
  let? _ := poll_open (cancelled 0%nat) in
  let? entries := map_err from_file (jf_census f) in
  let segments := segments_of entries in
  let derived := derived_of entries in
  match segments with
  | [] => if bool_decide (derived = ∅) then Ok (OEmpty f) else Err FailRemnants
  | (one, size) :: _ =>
      if negb (one =? 1) then Err FailRemnants else
      let? (f, derived) := (if writer then remove_tmps f (filter (fun n => is_tmp n = true) (btree_keys derived)) derived else Ok (f, derived)) in
      let? installation := read_installation f size in
      let j := fresh_journal f writer (empty_state installation empty_init) [] derived installation in
      let? (base, polls) := select_newest cancelled 1 j segments (checkpoint_names derived) in
      let? (polls, j) := open_from cancelled writer segments base polls j in
      if negb (segments_chain j segments) then Err (FailReplay Corrupt) else
      let? _ := poll_open (cancelled polls) in
      if writer then
        let? free := map_err from_file (jf_free_bytes (jd_files j)) in
        match retire (jset_free free j) with
        | (Ok _, j) => Ok (OJournal j)
        | (Err e, _) => Err e
        | (Panic, _) => Panic
        end
      else Ok (OJournal j)
  end.
End Ops.
