(* ===== verification/Durable.v ===== *)
(** * What the journal driver leaves on disk (authority/journal.rs).

    [durable log t j]: the segment files hold exactly the bytes [log], split over
    the segments the driver lists, and the state stands at the tip [t]. Every
    operation but the write of a frame keeps it, whatever file operation fails
    ([calm]); [append] extends the log by one frame or reports that it did not. *)
From Stdlib Require Import ZArith Lia.
From stdpp Require Import prelude list gmap sorting.
From S2P Require Import Prelude Collections PayloadId Codec Fields Envelope Index Run RunSearch RunMerge Policy PathGuard Types.
From S2P Require Import PolicyReplay Text Rules Tables Records JobRecords CallRecords RecordCodec Sync ReplayState Replay Effects Delta Reach.
From S2P Require Import Journal Checkpoint Names Files Store Driver.

Lemma Forall2_weaken {A B} (P Q : A -> B -> Prop) l k :
  Forall2 P l k -> (forall x y, x ∈ l -> P x y -> Q x y) -> Forall2 Q l k.
Proof.
  induction 1 as [|x y l k Hp _ IH]; intros Hq; constructor; [apply Hq; [constructor|done]|]. apply IH. intros a b Ha. apply Hq. by constructor.
Qed.

(** ** Writers keep what every write keeps. *)
Section Keeps.
Context {S E : Type} (R : relation S) `{!PreOrder R}.
Definition steps_by {A} (c : ST S E A) : Prop := forall s, R s (c s).2.
Lemma steps_ret {A} (a : A) : steps_by (st_ret a).
Proof. by intros s. Qed.
Lemma steps_lift {A} r : steps_by (A := A) (st_lift r).
Proof. by intros s. Qed.
Lemma steps_get : steps_by st_get.
Proof. by intros s. Qed.
Lemma steps_bind {A B} (c : ST S E A) (k : A -> ST S E B) : steps_by c -> (forall a, steps_by (k a)) -> steps_by (st_bind c k).
Proof.
  intros Hc Hk s. unfold st_bind. specialize (Hc s). destruct (c s) as [[a| |] s']; cbn in *; [|done|done]. by etransitivity; [|apply Hk].
Qed.
End Keeps.
Ltac steps :=
  cbv zeta;
  lazymatch goal with
  | |- steps_by _ (st_bind _ _) => apply steps_bind; [apply _|steps|intros ?; steps]
  | |- steps_by _ (st_ret _) => apply steps_ret; apply _
  | |- steps_by _ (st_lift _) => apply steps_lift; apply _
  | |- steps_by _ st_get => apply steps_get; apply _
  | |- steps_by _ (match _ with _ => _ end) => case_match; steps
  | |- _ => try assumption
  end.
Section WriterKeeps.
Context `{Hasher} {S : Type} (R : relation S) `{!PreOrder R} (write : Z -> bytes -> ST S ReplayError unit) (reads : S -> nat -> RunSource).
Context (Hwrite : forall o b, steps_by R (write o b)).
Lemma steps_new h : steps_by R (fw_new write h).
Proof. unfold fw_new. steps. apply Hwrite. Qed.
Lemma steps_flush w : steps_by R (fw_flush write w).
Proof. unfold fw_flush. steps. apply Hwrite. Qed.
Lemma steps_push w k v : steps_by R (fw_push write w k v).
Proof. unfold fw_push. steps. apply steps_flush. Qed.
Lemma steps_push_all entries w : steps_by R (fw_push_all write entries w).
Proof. revert w. induction entries as [|[k v] entries IH]; intros w; cbn; steps; [apply steps_push|apply IH]. Qed.
Lemma steps_finish w : steps_by R (fw_finish write w).
Proof. unfold fw_finish. steps; first [apply steps_flush|apply Hwrite]. Qed.
Lemma steps_merge_new inputs level installation : steps_by R (fm_new write inputs level installation).
Proof. unfold fm_new. steps. apply steps_new. Qed.
Lemma steps_merge_loop rounds target inputs w : steps_by R (fm_step_loop write reads rounds target inputs w).
Proof.
  revert inputs w. induction rounds as [|rounds IH]; intros inputs w; cbn [fm_step_loop]; steps;
    first [apply steps_push|apply steps_finish|apply IH].
Qed.
Lemma steps_merge m pages : steps_by R (fm_step write reads m pages).
Proof. unfold fm_step. steps. apply steps_merge_loop. Qed.
End WriterKeeps.

(** ** The tip of the journal. *)
Record Tip : Type := mkTip { tp_sequence : Z; tp_digest : Hash; tp_revision : Z; tp_owner : Z }.
Definition tip (s : Replay) : Tip := mkTip (st_sequence s) (st_last_digest s) (st_revision s) (st_owner_generation s).
Section Durable.
Context `{Hasher, Unicode, !HasherOk, !RecordCodec JournalRecord, FilesOk F}.
Implicit Types (j : SegmentJournal F) (f : F) (log : bytes) (t : Tip).
Definition segment_file f (s : Segment) (c : bytes) : Prop := file_of f (NSegment (sg_first s)) = Some c /\ zlen c = sg_bytes s.
Record durable log t j : Prop := {
  du_tip : tip (jd_state j) = t;
  du_files : exists cs, Forall2 (segment_file (jd_files j)) (jd_segments j) cs /\ concat cs = log;
  du_only n c : file_of (jd_files j) (NSegment n) = Some c -> n ∈ sg_first <$> jd_segments j \/ c = [];
  du_sorted : StronglySorted Z.lt (sg_first <$> jd_segments j);
  du_upto : Forall (fun s => sg_first s <= tp_sequence t + 1) (jd_segments j);
  du_ahead : Forall (fun s => sg_first s <= tp_sequence t \/ sg_bytes s = 0) (jd_segments j);
  du_bytes : Forall (fun s => sg_bytes s <= SEGMENT_BYTES) (jd_segments j);
}.
(** The next sequence fits. *)
Definition room t : Prop := 0 <= tp_sequence t < U64_MAX.
Definition calm t {A} (c : act A) : Prop := forall log j, room t -> durable log t j -> durable log t (c j).2.

Lemma durable_same log t j j' :
  durable log t j -> (forall n, file_of (jd_files j') (NSegment n) = file_of (jd_files j) (NSegment n)) ->
  jd_segments j' = jd_segments j -> tip (jd_state j') = tip (jd_state j) -> durable log t j'.
Proof.
  intros [Ht (cs & Hc & Hl) Ho] Hf Hs Hst. split; rewrite ?Hs, ?Hst; try done.
  - exists cs. split; [|done]. eapply Forall2_impl; [exact Hc|]. intros s c [? ?]. split; [by rewrite Hf|done].
  - intros n c. rewrite Hf. apply Ho.
Qed.
Context (t : Tip).
Lemma calm_ret {A} (a : A) : calm t (st_ret a).
Proof. by intros log j. Qed.
Lemma calm_lift {A} r : calm t (A := A) (st_lift r).
Proof. by intros log j. Qed.
Lemma calm_get : calm t st_get.
Proof. by intros log j. Qed.
Lemma calm_bind {A B} (c : act A) (k : A -> act B) : calm t c -> (forall a, calm t (k a)) -> calm t (st_bind c k).
Proof.
  intros Hc Hk log j Hr Hd. unfold st_bind. specialize (Hc log j Hr Hd). destruct (c j) as [[a| |] j']; cbn in *; [|done|done]. by apply Hk.
Qed.
(** What was read keeps its tip. *)
Lemma calm_get_bind {A} (k : SegmentJournal F -> act A) :
  (forall j log, durable log t j -> calm t (k j)) -> calm t (st_bind st_get k).
Proof. intros Hk log j Hr Hd. unfold st_bind, st_get. by apply (Hk j log). Qed.
Lemma calm_state s : tip s = t -> calm t (st_set (jset_state s)).
Proof. intros Hs log j Hr Hd. eapply durable_same; [exact Hd|done..|]. cbn. by rewrite (du_tip _ _ _ Hd). Qed.
Lemma calm_set g :
  (forall j, jd_files (g j) = jd_files j /\ jd_segments (g j) = jd_segments j /\ tip (jd_state (g j)) = tip (jd_state j)) ->
  calm t (st_set g).
Proof. intros Hg log j Hr Hd. destruct (Hg j) as (Hf & Hs & Ht). eapply durable_same; [exact Hd|intros n; cbn; by rewrite Hf|done..]. Qed.
(** Operations that touch no segment file. *)
Lemma calm_files {A} (op : F -> FileResult A * F) :
  (forall f n, file_of (op f).2 (NSegment n) = file_of f (NSegment n)) -> calm t (on_files op).
Proof.
  intros Ho log j Hr Hd. unfold on_files. specialize (Ho (jd_files j)). destruct (op (jd_files j)) as [r f]. cbn in *.
  by eapply durable_same.
Qed.
Lemma calm_fence {A} e : calm t (A := A) (fence_file e).
Proof. destruct e; first [apply calm_lift|apply calm_bind; [by apply calm_set|intros; apply calm_lift]]. Qed.
Lemma calm_fenced {A} (op : F -> FileResult A * F) :
  (forall f n, file_of (op f).2 (NSegment n) = file_of f (NSegment n)) -> calm t (fenced_op op).
Proof.
  intros Ho. apply calm_bind; [by apply calm_files|]. intros [a|e|]; [apply calm_ret|apply calm_fence|apply calm_lift].
Qed.

(** ** Operations on derived files. *)
Lemma other_segment f f' n k : same_but [n] f f' -> (forall h, n <> NSegment h) -> file_of f' (NSegment k) = file_of f (NSegment k).
Proof. intros Hs Hn. apply (same_but_at [n] f f'); [done|]. intros Hin%list_elem_of_singleton. by destruct (Hn k). Qed.
Lemma create_calm n : (forall h, n <> NSegment h) -> calm t (fenced_op (fun f => jf_create f n)).
Proof.
  intros Hn. apply calm_fenced. intros f k. destruct (jf_create f n) as [r f'] eqn:E. apply create_law in E as [Hs _].
  by eapply other_segment.
Qed.
Lemma sync_calm n : calm t (fenced_op (fun f => jf_sync f n)).
Proof.
  apply calm_fenced. intros f k. destruct (jf_sync f n) as [r f'] eqn:E. apply sync_law in E. apply E, not_elem_of_nil.
Qed.
Lemma remove_keeps n f k : file_of (jf_remove f n).2 (NSegment k) = file_of f (NSegment k).
Proof.
  destruct (jf_remove f n) as [r f'] eqn:E. apply remove_law in E as (Hs & Hn & _).
  destruct (decide (n = NSegment k)) as [->|]; [by destruct Hn as [?|[? _]]|]. apply (same_but_at [n] f f'); [done|]. set_solver.
Qed.
Lemma publish_calm from to : (forall h, from <> NSegment h) -> (forall h, to <> NSegment h) -> from <> to ->
  calm t (fenced_op (fun f => jf_publish f from to)).
Proof.
  intros Hf Ht Hn. apply calm_fenced. intros f k. destruct (jf_publish f from to) as [r f'] eqn:E. apply publish_law in E as [Hs _]; [|done].
  apply Hs. intros [?|[?|[]%elem_of_nil]%elem_of_cons]%elem_of_cons; naive_solver.
Qed.
Lemma write_keeps n o b f : (forall h, n <> NSegment h) -> forall k, file_of (jf_write_at f n o b).2 (NSegment k) = file_of f (NSegment k).
Proof.
  intros Hn k. destruct (jf_write_at f n o b) as [r f'] eqn:E. apply write_law in E as (Hs & _). by eapply other_segment.
Qed.
Definition segments_same f f' : Prop := forall k, file_of f' (NSegment k) = file_of f (NSegment k).
#[export] Instance segments_same_pre : PreOrder segments_same.
Proof. split; [by intros f k|]. intros f g h Hfg Hgh k. by rewrite Hgh, Hfg. Qed.
Lemma sink_write_same n o b : (forall h, n <> NSegment h) -> steps_by (fun s s' => segments_same s.1 s'.1) (sink_write n o b).
Proof.
  intros Hn [f x] k. unfold sink_write. cbn [fst]. pose proof (write_keeps n o b f Hn k) as Hw.
  by destruct (jf_write_at f n o b) as [[[]|e|] f'].
Qed.
#[export] Instance sink_same_pre : PreOrder (fun s s' : FilesSink => segments_same s.1 s'.1).
Proof. split; [by intros s|]. intros a b c Hab Hbc. by etransitivity. Qed.
Lemma run_writes_calm n h entries : (forall k, n <> NSegment k) -> calm t (run_writes n h entries).
Proof.
  intros Hn log j Hr Hd. unfold run_writes.
  assert (steps_by (fun s s' => segments_same s.1 s'.1) (write_entries n h entries)) as Hs.
  { unfold write_entries. steps; first [apply steps_new|apply steps_push_all|apply steps_finish]; try apply _; intros; by apply sink_write_same. }
  specialize (Hs (jd_files j, None)). destruct (write_entries n h entries (jd_files j, None)) as [r [f x]]. cbn in *. by eapply durable_same.
Qed.
Lemma merge_calm {A} (c : ST F ReplayError A) : steps_by segments_same c -> calm t (on_merge c).
Proof.
  intros Hs log j Hr Hd. unfold on_merge. specialize (Hs (jd_files j)). destruct (c (jd_files j)) as [r f]. by eapply durable_same.
Qed.
Lemma merge_write_same n o b : (forall h, n <> NSegment h) -> steps_by segments_same (merge_write n o b).
Proof.
  intros Hn f k. unfold merge_write. pose proof (write_keeps n o b f Hn k) as Hw. by destruct (jf_write_at f n o b).
Qed.
Lemma point_calm p : calm t (at_point p).
Proof. by intros log j. Qed.
Lemma tip_clear s : tip (clear_delta s) = tip s.
Proof. by destruct s. Qed.
End Durable.
Ltac calm :=
  cbv zeta;
  lazymatch goal with
  | |- calm _ (st_bind st_get _) => apply calm_get_bind; intros ? ? ?; calm
  | |- calm _ (st_bind _ _) => apply calm_bind; [calm|intros ?; calm]
  | |- calm _ (st_ret _) => apply calm_ret
  | |- calm _ (st_lift _) => apply calm_lift
  | |- calm _ (replaying _) => apply calm_lift
  | |- calm _ st_get => apply calm_get
  | |- calm _ (st_set (jset_state _)) => idtac
  | |- calm _ (st_set _) => apply calm_set; intros; repeat case_match; split_and!; done
  | |- calm _ (derive _ _) => apply calm_set; intros; split_and!; done
  | |- calm _ (underive _) => apply calm_set; intros; split_and!; done
  | |- calm _ (at_point _) => apply point_calm
  | |- calm _ (fence_file _) => apply calm_fence
  | |- calm _ (fenced_op (fun f => jf_create f _)) => apply create_calm; first [assumption|by intros ? [=]]
  | |- calm _ (fenced_op (fun f => jf_sync f _)) => apply sync_calm
  | |- calm _ (fenced_op (fun f => jf_publish f _ _)) => apply publish_calm; [by intros ? [=]..|done]
  | |- calm _ (fenced_op (fun f => jf_remove f _)) => apply calm_fenced; intros; apply remove_keeps
  | |- calm _ (on_files (fun f => jf_remove f _)) => apply calm_files; intros; apply remove_keeps
  | |- calm _ (run_writes _ _ _) => apply run_writes_calm; by intros ? [=]
  | |- calm _ (match _ with _ => _ end) => case_match; calm
  | |- _ => idtac
  end.
Section DurableRoll.
Context `{Hasher, Unicode, !HasherOk, !RecordCodec JournalRecord, FilesOk F}.
Implicit Types (j : SegmentJournal F) (f : F) (log : bytes).
Context (t : Tip).
Lemma read_free_calm : calm t read_free.
Proof. unfold read_free. calm. Qed.
Lemma write_file_calm n b p : (forall h, n <> NSegment h) -> calm t (write_file n b p).
Proof.
  intros Hn. unfold write_file. calm. apply calm_files. intros f k. by apply write_keeps.
Qed.
Lemma write_run_calm level first last entries : calm t (write_run level first last entries).
Proof. unfold write_run. calm. Qed.
Lemma remove_all_calm names : calm t (remove_all names).
Proof. induction names as [|n names IH]; cbn [remove_all]; calm. exact IH. Qed.
Lemma retire_calm : calm t retire.
Proof. unfold retire. calm. apply remove_all_calm. Qed.
Lemma roll_checkpoint_calm head run : calm t (roll_checkpoint head run).
Proof.
  unfold roll_checkpoint, publish_checkpoint, adopt_roll. calm; [apply write_file_calm; by intros ? [=]|]. apply calm_state. rewrite tip_clear. by eapply du_tip.
Qed.
Lemma roll_derived_calm : calm t roll_derived.
Proof. unfold roll_derived. calm; [apply write_run_calm|apply roll_checkpoint_calm]. Qed.
End DurableRoll.

(** ** The next segment. *)
Section NextSegment.
Context `{Hasher, Unicode, !HasherOk, !RecordCodec JournalRecord, FilesOk F}.
Implicit Types (j : SegmentJournal F) (f : F) (log : bytes) (t : Tip).
Lemma create_segment log t j n r f' :
  jf_create (jd_files j) (NSegment n) = (r, f') -> n ∉ sg_first <$> jd_segments j -> durable log t j ->
  durable log t (jset_files f' j) /\ (r = Ok tt -> file_of f' (NSegment n) = Some []).
Proof.
  intros Hc Hn [Ht (cs & Hcs & Hl) Ho Hs Hu Ha Hb]. apply create_law in Hc as [Hsame Hcase]. split; [|naive_solver].
  split; cbn [jset_files jd_files jd_segments jd_state]; try done.
  - exists cs. split; [|done]. apply (Forall2_weaken _ _ _ _ Hcs). intros s c Hin [Hf ?]. split; [|done].
    rewrite (Hsame (NSegment (sg_first s))); [done|]. intros [= E]%list_elem_of_singleton. apply Hn. rewrite <- E. by apply list_elem_of_fmap_2.
  - intros m c Hm. destruct (decide (m = n)) as [->|Hne]; [|apply Ho; rewrite <- Hm; symmetry; apply Hsame; set_solver].
    destruct Hcase as [(_ & _ & E)|[_ [E|[_ E]]]]; rewrite E in Hm; [by right; injection Hm|by apply Ho|by right; injection Hm].
Qed.
Lemma add_segment log t j n :
  durable log t j -> n = tp_sequence t + 1 -> room t -> n ∉ sg_first <$> jd_segments j -> file_of (jd_files j) (NSegment n) = Some [] ->
  durable log t (jset_segments (jd_segments j ++ [new_segment n]) j).
Proof.
  intros [Ht (cs & Hcs & Hl) Ho Hs Hu Ha Hb] -> Hr Hn Hf. unfold room, U64_MAX in Hr.
  split; cbn [jset_segments jd_files jd_segments jd_state]; try done.
  - exists (cs ++ [[]]). split; [|rewrite concat_app; cbn; by rewrite !app_nil_r, Hl]. apply Forall2_app; [done|]. by repeat constructor.
  - intros m c Hm. rewrite fmap_app. destruct (Ho m c Hm); [left; set_solver|by right].
  - rewrite fmap_app. apply StronglySorted_app_2; [|done|repeat constructor]. intros a b Ha' Hb'. cbn in Hb'.
    apply list_elem_of_singleton in Hb' as ->. assert (a <> tp_sequence t + 1) by (by intros ->).
    apply list_elem_of_fmap in Ha' as (s & -> & Hin). rewrite Forall_forall in Hu. specialize (Hu s Hin). lia.
  - apply Forall_app. split; [done|]. repeat constructor. cbn. lia.
  - apply Forall_app. split; [done|]. constructor; [by right|constructor].
  - apply Forall_app. split; [done|]. repeat constructor. cbn. unfold SEGMENT_BYTES. lia.
Qed.
(** [retire] keeps the segments and the seal. *)
Definition same_shape j j' : Prop := jd_segments j' = jd_segments j /\ jd_sealed j' = jd_sealed j.
#[export] Instance same_shape_pre : PreOrder same_shape.
Proof. split; [by intros j|]. intros a b c [E1 E2] [E3 E4]. split; congruence. Qed.
Lemma fenced_shape {A} (op : F -> FileResult A * F) : steps_by same_shape (fenced_op op).
Proof.
  unfold fenced_op. apply steps_bind; [apply _| |intros [a|e|]; cbn [or_fence]; try by intros j].
  - intros j. unfold on_files. by destruct (op (jd_files j)).
  - by destruct e; intros j.
Qed.
Lemma retire_shape : steps_by same_shape retire.
Proof.
  unfold retire. steps; [by intros j|]. generalize (stale_names a0) as names. induction names as [|n names IH]; cbn [remove_all]; steps;
    [apply fenced_shape|by intros j].
Qed.
End NextSegment.

Section Append.
Context `{Hasher, Unicode, !HasherOk, !RecordCodec JournalRecord, FilesOk F}.
Implicit Types (j : SegmentJournal F) (f : F) (log : bytes) (t : Tip).
Lemma add_next_spec log t j r j' :
  room t -> durable log t j -> add_next (tp_sequence t + 1) j = (r, j') ->
  durable log t j' /\ (r = Ok tt -> tp_sequence t + 1 ∈ sg_first <$> jd_segments j').
Proof.
  intros Hr Hd. unfold add_next, st_bind, st_get, fenced_op, on_files. destruct (existsb _ _) eqn:Hx.
  { intros [= <- <-]. split; [done|]. intros _. apply existsb_exists in Hx as (s & Hin%list_elem_of_In & E%Z.eqb_eq).
    rewrite <- E. by apply list_elem_of_fmap_2. }
  assert (tp_sequence t + 1 ∉ sg_first <$> jd_segments j) as Hn.
  { intros (s & E & Hin)%list_elem_of_fmap. assert (existsb (fun s => sg_first s =? tp_sequence t + 1) (jd_segments j) = true); [|congruence].
    apply existsb_exists. exists s. split; [by apply list_elem_of_In|]. by apply Z.eqb_eq. }
  unfold st_bind. destruct (jf_create (jd_files j) (NSegment (tp_sequence t + 1))) as [c f'] eqn:Hc.
  destruct (create_segment log t j _ c f' Hc Hn Hd) as [Hd' Hf]. destruct c as [[]|e|]; cbn [or_fence].
  - intros [= <- <-]. split; [by apply (add_segment log t (jset_files f' j) _ Hd' eq_refl Hr Hn), Hf|]. intros _. cbn. rewrite fmap_app. set_solver.
  - pose proof (calm_fence (A := unit) t e log _ Hr Hd') as Hj. by destruct e; intros [= <- <-].
  - by intros [= <- <-].
Qed.
(** The last segment of a sorted list that reaches the next sequence. *)
Lemma last_segment log t j :
  durable log t j -> tp_sequence t + 1 ∈ sg_first <$> jd_segments j ->
  exists s, last (jd_segments j) = Some s /\ sg_first s = tp_sequence t + 1 /\ sg_bytes s = 0.
Proof.
  intros [_ _ _ Hs Hu Ha _] (s & E & (l1 & l2 & El)%list_elem_of_split)%list_elem_of_fmap. rewrite El in *.
  destruct l2 as [|s2 l2].
  - exists s. rewrite last_snoc. split; [done|]. split; [done|]. rewrite Forall_app, Forall_cons in Ha. destruct Ha as (_ & [?|?] & _); [lia|done].
  - rewrite fmap_app in Hs. apply StronglySorted_app_1_r in Hs. cbn in Hs. apply StronglySorted_inv in Hs as [_ Hlt].
    rewrite Forall_cons in Hlt. rewrite Forall_app, !Forall_cons in Hu. lia.
Qed.
Lemma roll_segment_spec log t j r j' :
  room t -> durable log t j -> roll_segment j = (r, j') ->
  durable log t j' /\
  (r = Ok tt -> jd_sealed j' = false /\ exists s, last (jd_segments j') = Some s /\ sg_first s = tp_sequence t + 1 /\ sg_bytes s = 0).
Proof.
  intros Hr Hd. unfold roll_segment, st_bind at 1, st_get at 1. cbv beta iota zeta.
  assert (wrap 64 (st_sequence (jd_state j) + 1) = tp_sequence t + 1) as ->.
  { pose proof (du_tip _ _ _ Hd) as <-. apply wrap_small. unfold room, U64_MAX, uint in *. cbn in *. lia. }
  unfold st_bind at 1, at_point at 1. destruct (map_err from_file (jf_point _ _)) as [[]|e|]; [|by intros [= <- <-]..].
  unfold st_bind at 1. destruct (add_next (tp_sequence t + 1) j) as [c j1] eqn:Hn.
  destruct (add_next_spec log t j c j1 Hr Hd Hn) as [Hd1 Hin]. destruct c as [[]|e|]; [|by intros [= <- <-]..]. specialize (Hin eq_refl).
  unfold st_bind at 1, st_set at 1. unfold st_bind at 1, at_point at 1. cbn [jd_files jset_sealed].
  assert (durable log t (jset_sealed false j1)) as Hd2 by (by eapply durable_same).
  destruct (map_err from_file (jf_point _ _)) as [[]|e|]; [|by intros [= <- <-]..]. intros E.
  pose proof (retire_calm t log _ Hr Hd2) as Hd3. destruct (retire_shape (jset_sealed false j1)) as [Es El]. rewrite E in *. cbn [snd] in *.
  split; [done|]. intros ->. split; [done|]. apply (last_segment log t); [done|]. by rewrite Es.
Qed.
Lemma roll_spec log t j r j' :
  room t -> durable log t j -> roll j = (r, j') ->
  durable log t j' /\
  (r = Ok tt -> jd_sealed j' = false /\ exists s, last (jd_segments j') = Some s /\ sg_first s = tp_sequence t + 1 /\ sg_bytes s = 0).
Proof.
  intros Hr Hd. unfold roll, st_bind. pose proof (read_free_calm t log j Hr Hd) as Hd1.
  destruct (read_free j) as [[[]|e|] j1]; [|by intros [= <- <-]..]. pose proof (roll_derived_calm t log j1 Hr Hd1) as Hd2.
  destruct (roll_derived j1) as [[[]|e|] j2]; [|by intros [= <- <-]..]. by apply roll_segment_spec.
Qed.

(** ** One frame. *)
Definition on_disk (log : bytes) f (segments : list Segment) : Prop :=
  exists cs, Forall2 (fun s c => file_of f (NSegment (sg_first s)) = Some c) segments cs /\ concat cs = log.
Lemma durable_on_disk log t j : durable log t j -> on_disk log (jd_files j) (jd_segments j).
Proof. intros [_ (cs & Hc & Hl)]. exists cs. split; [|done]. eapply Forall2_impl; [exact Hc|]. by intros s c [? _]. Qed.
Lemma update_last_snoc g l s : update_last g (l ++ [s]) = l ++ [g s].
Proof. unfold update_last. rewrite length_app, Nat.add_1_r. cbn [pred]. by rewrite <- (Nat.add_0_r (length l)), alter_app_r. Qed.
Lemma others_same f f' l s :
  same_but [NSegment (sg_first s)] f f' -> StronglySorted Z.lt (sg_first <$> l ++ [s]) ->
  forall x, x ∈ l -> file_of f' (NSegment (sg_first x)) = file_of f (NSegment (sg_first x)).
Proof.
  intros Hs Hsort x Hx. apply Hs. intros [= E]%list_elem_of_singleton. rewrite fmap_app in Hsort.
  pose proof (StronglySorted_app_1_elem_of _ _ _ (sg_first x) (sg_first s) Hsort) as Hlt.
  assert (sg_first x < sg_first s); [apply Hlt; [by apply list_elem_of_fmap_2|apply list_elem_of_singleton; done]|lia].
Qed.
Lemma append_file log t j s frame w f' :
  durable log t j -> last (jd_segments j) = Some s -> jf_append (jd_files j) (sg_first s) (sg_bytes s) frame = (w, f') ->
  match w with
  | Ok _ => forall proposed sequence digest,
      tp_sequence (tip proposed) = tp_sequence t + 1 -> sg_bytes s + zlen frame <= SEGMENT_BYTES ->
      durable (log ++ frame) (tip proposed)
        (jset_state proposed (jset_segments (update_last (fun s => grown s (zlen frame) sequence digest) (jd_segments j)) (jset_files f' j)))
  | Err (JNoSpace true) => durable log t (jset_files f' j)
  | _ => exists k, on_disk (log ++ ztake k frame) f' (jd_segments j)
  end.
Proof.
  intros Hd Hlast Ha. pose proof Hd as [Ht (cs & Hcs & Hl) Ho Hs Hu Hah Hb]. apply last_Some in Hlast as [l El]. rewrite El in *.
  apply Forall2_app_inv_l in Hcs as (cs1 & cs2 & Hc1 & Hc2 & ->). apply Forall2_cons_inv_l in Hc2 as (c & k & [Hf Hz] & Hc2 & ->).
  apply Forall2_nil_inv_l in Hc2 as ->. apply append_law in Ha as [Hsame Hw]. pose proof (others_same _ _ l s Hsame Hs) as Hrest.
  assert (forall c', file_of f' (NSegment (sg_first s)) = Some c' -> on_disk (concat (cs1 ++ [c'])) f' (l ++ [s])) as Hdisk.
  { intros c' Hc'. exists (cs1 ++ [c']). split; [|done]. apply Forall2_app; [|by repeat constructor].
    apply (Forall2_weaken _ _ _ _ Hc1). intros x y Hx [Hy _]. by rewrite Hrest. }
  assert (forall r, file_of f' (NSegment (sg_first s)) = file_of (jd_files j) (NSegment (sg_first s)) \/
            (exists c0 k, file_of (jd_files j) (NSegment (sg_first s)) = Some c0 /\ file_of f' (NSegment (sg_first s)) = Some (c0 ++ ztake k frame)) ->
            r = log -> exists k, on_disk (r ++ ztake k frame) f' (l ++ [s])) as Htorn.
  { intros r [E|(c0 & k & E0 & E)] ->.
    - exists 0. unfold ztake. cbn. rewrite app_nil_r, <- Hl. apply Hdisk. by rewrite E.
    - rewrite Hf in E0. injection E0 as <-. exists k. rewrite <- Hl. specialize (Hdisk _ E).
      rewrite concat_app in Hdisk |- *. cbn in *. rewrite app_nil_r in *. by rewrite <- app_assoc. }
  destruct w as [u|e|]; [|destruct e as [| | |[]| | | |]; try by apply Htorn|by apply Htorn].
  - intros proposed sequence digest Hseq Hsz. destruct Hw as (c0 & E0 & _ & E). rewrite Hf in E0. injection E0 as <-.
    pose proof (zlen_nonneg frame). pose proof (zlen_nonneg c). rewrite update_last_snoc.
    assert (wrap 64 (sg_bytes s + zlen frame) = sg_bytes s + zlen frame) as Hwrap
      by (apply wrap_small; unfold uint, SEGMENT_BYTES in *; lia).
    split; cbn [jset_state jset_segments jset_files jd_state jd_segments jd_files]; [done|..].
    + exists (cs1 ++ [c ++ frame]). split.
      * apply Forall2_app.
        -- apply (Forall2_weaken _ _ _ _ Hc1). intros x y Hx [Hy ?]. split; [by rewrite Hrest|done].
        -- constructor; [|constructor]. split; [done|]. cbn. rewrite zlen_app, Hwrap. lia.
      * rewrite <- Hl, !concat_app. cbn. by rewrite !app_nil_r, app_assoc.
    + intros n y Hn. rewrite fmap_app. cbn. destruct (decide (n = sg_first s)) as [->|Hne]; [left; set_solver|].
      rewrite (Hsame (NSegment n)) in Hn by set_solver. destruct (Ho n y Hn) as [Hin|?]; [left|by right]. by rewrite fmap_app in Hin.
    + by rewrite fmap_app in Hs |- *.
    + rewrite Forall_app, Forall_singleton in Hu |- *. destruct Hu as [Hu ?]. cbn [grown sg_first]. split; [|lia].
      eapply Forall_impl; [exact Hu|]. cbv beta. lia.
    + rewrite Forall_app, Forall_singleton in Hu |- *. destruct Hu as [Hu ?]. cbn [grown sg_first]. split; [|lia].
      eapply Forall_impl; [exact Hu|]. cbv beta. lia.
    + rewrite Forall_app, Forall_singleton in Hb |- *. split; [by destruct Hb|]. cbn. lia.
  - eapply durable_same; [exact Hd| |done..]. intros n. cbn [jset_files jd_files].
    destruct (decide (n = sg_first s)) as [->|]; [done|]. apply Hsame. set_solver.
Qed.

(** ** The errors of a roll. *)
Definition mild (e : Failure) : Prop := e <> FailInvalid /\ e <> FailExhausted.
Definition raises {A} (P : Failure -> Prop) (c : act A) : Prop := forall j e, (c j).1 = Err e -> P e.
Lemma raises_bind {A B} P (c : act A) (k : A -> act B) : raises P c -> (forall a, raises P (k a)) -> raises P (st_bind c k).
Proof.
  intros Hc Hk j e. unfold st_bind. specialize (Hc j). destruct (c j) as [[a|e'|] j']; cbn in *; [apply Hk|intros [= <-]; by apply Hc|done].
Qed.
Lemma raises_fence {A} e : raises (A := A) mild (fence_file e).
Proof. intros j e'. destruct e; by intros [= <-]. Qed.
Lemma raises_fenced {A} (op : F -> FileResult A * F) : raises mild (fenced_op op).
Proof.
  apply raises_bind; [intros j e; unfold on_files; by destruct (op (jd_files j))|].
  intros [a|e|]; [by intros j e'|apply raises_fence|by intros j e'].
Qed.
Lemma raises_file {A} (r : FileResult A) (j j' : SegmentJournal F) e : (map_err from_file r, j).1 = Err e -> mild e.
Proof. destruct r as [a|e'|]; [done| |done]. by destruct e'; intros [= <-]. Qed.
Lemma raises_replaying {A} (r : Result A) : raises mild (replaying (F := F) r).
Proof. intros j e. unfold replaying. destruct r; [done| |done]. by intros [= <-]. Qed.
End Append.
Ltac raises :=
  cbv zeta;
  lazymatch goal with
  | |- raises _ (st_bind _ _) => apply raises_bind; [raises|intros ?; raises]
  | |- raises _ (replaying _) => apply raises_replaying
  | |- raises _ (fenced_op _) => apply raises_fenced
  | |- raises _ (fence_file _) => apply raises_fence
  | |- raises _ (at_point _) => let j := fresh in intros j ?; apply (raises_file _ j j)
  | |- raises _ (st_lift (map_err from_file _)) => let j := fresh in intros j ?; apply (raises_file _ j j)
  | |- raises _ (st_lift (Err (FailReplay _))) => by intros ? ? [= <-]
  | |- raises _ (on_files ?op) => intros j ?; unfold on_files; by destruct (op (jd_files j))
  | |- raises _ (run_writes _ _ _) => intros j ?; unfold run_writes; by destruct (write_entries _ _ _ _) as [? [? ?]]
  | |- raises _ (match _ with _ => _ end) => case_match; raises
  | |- _ => try by intros ? ?
  end.
Section AppendSpec.
Context `{Hasher, Unicode, !HasherOk, !RecordCodec JournalRecord, FilesOk F}.
Implicit Types (j : SegmentJournal F) (f : F) (log : bytes) (t : Tip).
Lemma raises_remove names : raises mild (remove_all (F := F) names).
Proof. induction names as [|n names IH]; cbn [remove_all]; raises. exact IH. Qed.
Lemma raises_roll : raises mild (roll (F := F)).
Proof.
  unfold roll, read_free, roll_derived, roll_segment, add_next, write_run, roll_checkpoint, publish_checkpoint, adopt_roll, write_file, retire. raises.
  apply raises_remove.
Qed.

(** ** Appends. *)
(** The counters and identities of the driver have their widths. *)
Record driver_ok j : Prop := {
  dk_installation : array 16 (jd_installation j); dk_digest : array 32 (st_last_digest (jd_state j));
  dk_sequence : 0 <= st_sequence (jd_state j) < U64_MAX - 1; dk_revision : u64 (st_revision (jd_state j));
  dk_owner : u64 (st_owner_generation (jd_state j));
}.
Lemma append_context_ok j record transition c :
  driver_ok j -> array 16 transition -> append_context j record transition = Ok c ->
  context_ok c /\ sequence c = st_sequence (jd_state j) + 1.
Proof.
  intros [Hi Hd Hs Hr Ho] Ht Hc. unfold append_context in Hc. inv_res Hc. injection Hc as <-.
  unfold U64_MAX in *.
  destruct (checked_add64 (st_sequence _) 1) eqn:E1; [|done]. apply checked_add64_Some in E1 as [-> ?]. injection Ha as <-.
  destruct (checked_add64 (st_owner_generation _) _) eqn:E2; [|done]. apply checked_add64_Some in E2 as [-> ?]. injection Ha0 as <-.
  split; [|done]. unfold context_ok, uint in *. cbn. split_and!; try done; unfold U64_MAX in *; destruct record; lia.
Qed.
Lemma frame_size c record frame : context_ok c -> encode_frame c record = Ok frame -> zlen frame <= MAX_FRAME.
Proof.
  intros Hc (p & _ & -> & _ & Hl & _)%encode_frame_Ok. by rewrite frame_bytes_len.
Qed.
Lemma propose_tip j c record digest length roll s :
  propose j c record digest length roll = Ok s -> tp_sequence (tip s) = sequence c /\ tp_digest (tip s) = digest.
Proof.
  unfold propose. destruct (apply_frame _ _ _ _ _) as [s'|e|] eqn:E; [|by destruct e|done]. intros [= <-].
  apply apply_frame_Ok in E as (s1 & b & n & _ & _ & _ & _ & _ & _ & _ & _ & -> & _). rewrite evict_eq. done.
Qed.
Lemma plan_Ok j c record digest length roll s :
  plan j c record digest length = Ok (roll, s) ->
  propose j c record digest length roll = Ok s /\ (roll = false -> must_roll j length = false).
Proof.
  unfold plan. intros Hp. inv_res Hp. destruct (negb _ && _ && _) eqn:E.
  - inv_res Hp. injection Hp as <- <-. done.
  - injection Hp as <- <-. done.
Qed.
Lemma write_frame_spec log t j frame seq digest proposed :
  durable log t j -> (forall s, active_segment j = Some s -> sg_bytes s + zlen frame <= SEGMENT_BYTES) ->
  tp_sequence (tip proposed) = tp_sequence t + 1 ->
  let '(r, j') := write_frame frame seq digest proposed j in
  match r with
  | Ok _ => durable (log ++ frame) (tip proposed) j' /\ jd_state j' = proposed
  | Err (FailHeld _) => durable log t j'
  | Err e => e = FailUnconfirmed /\
      (durable log t j' \/ jd_fenced j' = true /\ exists k, on_disk (log ++ ztake k frame) (jd_files j') (jd_segments j'))
  | Panic => True
  end.
Proof.
  intros Hd Hfit Hseq. unfold write_frame, st_bind, st_get, st_lift. destruct (active_segment j) as [s|] eqn:Hact; [|by cbn; auto].
  specialize (Hfit s eq_refl). cbn [ok_or]. unfold active_segment in Hact. destruct (jd_sealed j); [done|].
  unfold on_files. destruct (jf_append _ _ _ _) as [w f'] eqn:Ha. pose proof (append_file log t j s frame w f' Hd Hact Ha) as Hw.
  destruct w as [[]|e|]; [|destruct e as [| | |[]| | | |]|done]; cbn [st_set]; try (split; [done|]; right; split; [done|exact Hw]).
  - split; [by apply Hw|done].
  - by eapply durable_same.
Qed.
Lemma roll_if_full_spec log t j :
  room t -> durable log t j -> durable log t (roll_if_full j).2 /\
  forall e, (roll_if_full j).1 = Err e -> mild e /\ forall r, e <> FailHeld r.
Proof.
  intros Hr Hd. unfold roll_if_full. destruct (_ <? _); [|done]. pose proof (raises_roll j) as Hm.
  destruct (roll j) as [r j'] eqn:E. destruct (roll_spec log t j r j' Hr Hd E) as [Hd' _].
  destruct r as [[]|e|]; [done| |done]. specialize (Hm e eq_refl). by destruct e; cbn; (split; [done|]); intros e' [= <-].
Qed.
(** The state that writes the frame: the active segment has room for it. *)
Lemma append_room log t j length :
  room t -> durable log t j -> 0 <= length <= MAX_FRAME -> must_roll j length = false ->
  forall s, active_segment j = Some s -> sg_bytes s + length <= SEGMENT_BYTES.
Proof.
  intros Hr Hd Hl Hm s Hs. unfold must_roll in Hm. rewrite Hs in Hm. unfold active_segment in Hs. destruct (jd_sealed j); [done|].
  apply orb_false_iff in Hm as [Hm _]. apply Z.ltb_ge in Hm. apply last_Some_elem_of in Hs.
  pose proof (du_bytes _ _ _ Hd) as Hb. rewrite Forall_forall in Hb. specialize (Hb s Hs).
  destruct (du_files _ _ _ Hd) as (cs & Hcs & _). apply list_elem_of_lookup in Hs as (i & Hi).
  destruct (Forall2_lookup_l _ _ _ _ _ Hcs Hi) as (c & _ & _ & Hz). pose proof (zlen_nonneg c).
  unfold SEGMENT_BYTES, MAX_FRAME in *. rewrite wrap_small in Hm by (unfold uint; lia). done.
Qed.
(** What a call of [append] left on disk. *)
Definition nothing_written (e : Failure) : bool :=
  match e with FailInvalid | FailExhausted | FailHeld _ => true | _ => false end.
Definition one_more log t (frame : bytes) j' : Prop :=
  durable (log ++ frame) (tip (jd_state j')) j' /\ st_sequence (jd_state j') = tp_sequence t + 1.
Definition append_outcome log t (frame : bytes) (r : Prelude.outcome Failure unit) j' : Prop :=
  match r with
  | Ok _ => one_more log t frame j'
  | Err e =>
      if nothing_written e then durable log t j' else
      durable log t j' \/ one_more log t frame j' \/
      jd_fenced j' = true /\ exists k, on_disk (log ++ ztake k frame) (jd_files j') (jd_segments j')
  | Panic => True
  end.
Lemma outcome_unchanged log t frame r j' : durable log t j' -> (forall u, r <> Ok u) -> append_outcome log t frame r j'.
Proof. intros Hd Hr. destruct r as [u|e|]; [by destruct (Hr u)| |done]. cbn. destruct (nothing_written e); auto. Qed.
Lemma write_and_roll log t j frame seq digest proposed :
  room (mkTip (tp_sequence t + 1) digest 0 0) -> durable log t j ->
  (forall s, active_segment j = Some s -> sg_bytes s + zlen frame <= SEGMENT_BYTES) ->
  tp_sequence (tip proposed) = tp_sequence t + 1 ->
  let '(r, j') := (let! _ := write_frame frame seq digest proposed in roll_if_full) j in append_outcome log t frame r j'.
Proof.
  intros Hr Hd Hfit Hseq. pose proof (write_frame_spec log t j frame seq digest proposed Hd Hfit Hseq) as Hw. unfold st_bind.
  destruct (write_frame frame seq digest proposed j) as [[[]|e|] j1]; [| |done].
  - destruct Hw as [Hw Hs]. assert (room (tip proposed)) as Hr' by (unfold room in *; rewrite Hseq; exact Hr).
    destruct (roll_if_full_spec _ _ _ Hr' Hw) as [Hd' He]. destruct (roll_if_full j1) as [[[]|e|] j2]; cbn in Hd', He; [| |done];
      (assert (one_more log t frame j2) as Hone; [pose proof (du_tip _ _ _ Hd') as Ht; split; [by rewrite Ht|rewrite <- Hseq, <- Ht; done]|]).
    + done.
    + destruct (He e eq_refl) as [[Hi Hx] Hh]. cbn. destruct (nothing_written e) eqn:En; [|by auto]. destruct e; try done. by destruct (Hh reason).
  - cbn. destruct e; cbn [nothing_written]; try (by destruct Hw as [[=] _]); [done|]. destruct Hw as [_ [?|?]]; auto.
Qed.
Lemma commit_frame_spec log t j c record frame digest rolling proposed :
  room (mkTip (tp_sequence t + 1) digest 0 0) -> 0 <= tp_sequence t -> durable log t j -> zlen frame <= MAX_FRAME ->
  sequence c = tp_sequence t + 1 -> propose j c record digest (zlen frame) rolling = Ok proposed ->
  (rolling = false -> must_roll j (zlen frame) = false) ->
  let '(r, j') := commit_frame c record frame digest rolling proposed j in append_outcome log t frame r j'.
Proof.
  intros Hr Hpos Hd Hl Hc Hp Hm. assert (room t) as Hrt by (unfold room in *; cbn in Hr; lia). pose proof (zlen_nonneg frame) as Hz.
  unfold commit_frame. destruct rolling.
  - unfold st_bind at 1 2. destruct (roll j) as [w j1] eqn:Hroll. destruct (roll_spec log t j w j1 Hrt Hd Hroll) as [Hd1 Hs].
    destruct w as [[]|e|]; [|by apply outcome_unchanged|done]. destruct (Hs eq_refl) as (Hsealed & s & Hlast & Hfirst & Hzero).
    unfold st_bind at 1, st_get at 1, st_lift at 1. destruct (propose j1 _ _ _ _ _) as [s'|e|] eqn:Hp1; [|by apply outcome_unchanged|done].
    apply write_and_roll; [done|done| |]; [|by destruct (propose_tip _ _ _ _ _ _ _ Hp1) as [-> _]].
    intros s0 Hs0. unfold active_segment in Hs0. rewrite Hsealed, Hlast in Hs0. injection Hs0 as <-. rewrite Hzero.
    unfold SEGMENT_BYTES, MAX_FRAME in *. lia.
  - unfold st_bind at 1, st_ret at 1. apply write_and_roll; [done|done| |by destruct (propose_tip _ _ _ _ _ _ _ Hp) as [-> _]].
    eapply append_room; [exact Hrt|exact Hd|lia|by apply Hm].
Qed.

(** The frame an append writes. *)
Definition append_frame j (record : JournalRecord) (transition : Id) : Prelude.outcome Failure bytes :=
  let? c := append_context j record transition in
  map_err (fun _ => FailInvalid) (encode_frame c record).
Lemma hold_check_keeps log t closure rolling proposed j :
  durable log t j -> durable log t (hold_check closure rolling proposed j).2 /\
  ((hold_check closure rolling proposed j).1 = Ok tt -> (hold_check closure rolling proposed j).2 = j).
Proof.
  intros Hd. unfold hold_check, st_bind, st_get, st_set, st_lift, st_ret. cbv zeta.
  repeat case_match; cbn [fst snd]; (split; [|done]); first [done|by eapply durable_same].
Qed.
Lemma append_spec log j record transition :
  durable log (tip (jd_state j)) j -> driver_ok j -> array 16 transition ->
  match append_frame j record transition with
  | Ok frame => append_outcome log (tip (jd_state j)) frame (append record transition j).1 (append record transition j).2
  | _ => (forall u, (append record transition j).1 <> Ok u) /\ (append record transition j).2 = j
  end.
Proof.
  intros Hd Hk Ht. unfold append, append_frame, st_bind, st_get, st_lift.
  assert (forall (w : Prelude.outcome Failure bytes) e, match w with
    | Ok frame => append_outcome log (tip (jd_state j)) frame (@Err Failure unit e) j
    | _ => (forall u, @Err Failure unit e <> Ok u) /\ j = j end) as Hno.
  { intros [frame|e'|] e; [by apply outcome_unchanged|done..]. }
  destruct (jd_fenced j || negb (jd_writer j)); [by apply Hno|].
  destruct (append_context j record transition) as [c|e|] eqn:Hc; cbn [obind]; [|done..].
  destruct (append_context_ok _ _ _ _ Hk Ht Hc) as [Hcok Hseq].
  destruct (encode_frame c record) as [frame|e|] eqn:Hf; cbn [map_err]; [|done..].
  destruct (sub (zlen frame - 40) (zlen frame - 8) frame) as [digest|e|]; [|by apply outcome_unchanged..].
  destruct (plan j c record digest (zlen frame)) as [[rolling proposed]|e|] eqn:Hp; [|by apply outcome_unchanged..].
  apply plan_Ok in Hp as [Hp Hm]. destruct (hold_check_keeps _ _ (is_closure record) rolling proposed j Hd) as [Hd1 Hw].
  destruct (hold_check _ _ _ j) as [[[]|e|] j1]; [|by apply outcome_unchanged..]. cbn [fst snd] in *. rewrite (Hw eq_refl). destruct Hk as [_ _ Hs _ _].
  pose proof (commit_frame_spec log (tip (jd_state j)) j c record frame digest rolling proposed) as HC.
  destruct (commit_frame c record frame digest rolling proposed j) as [r j2]. apply HC; try done.
  - unfold room. cbn. lia.
  - cbn. lia.
  - by eapply frame_size.
Qed.

(** ** The other operations. *)
Lemma merge_begin_calm t inputs : calm t (merge_begin inputs).
Proof.
  unfold merge_begin. calm. apply merge_calm. apply steps_merge_new; [apply _|]. intros. apply merge_write_same. by intros ? [=].
Qed.
Lemma merge_advance_calm t job : calm t (merge_advance job).
Proof.
  unfold merge_advance. calm.
  apply merge_calm. apply steps_merge; [apply _|]. intros. apply merge_write_same. by intros ? [=].
Qed.
Lemma merge_step_calm t : calm t merge_step.
Proof. unfold merge_step. calm; first [apply merge_advance_calm|apply read_free_calm|apply merge_begin_calm]. Qed.
Lemma recheck_calm t : calm t recheck.
Proof. unfold recheck. calm; apply read_free_calm. Qed.
Lemma set_quota_calm t quota : calm t (set_quota quota).
Proof. unfold set_quota. calm. Qed.
Lemma abandon_merge_calm t : calm t abandon_merge.
Proof. unfold abandon_merge. calm. Qed.

(** ** A new journal holds its first frame. *)
Lemma initialize_durable f c init j :
  context_ok c -> initialize f c init = Ok j -> (forall n, file_of f (NSegment n) = None) ->
  exists frame, encode_frame c (RPendingInit init) = Ok frame /\ durable frame (tip (jd_state j)) j /\ st_sequence (jd_state j) = 1.
Proof.
  intros Hc Hi Hn. unfold initialize in Hi. destruct (jf_create f (NSegment 1)) as [created fc] eqn:Hcr.
  destruct (encode_frame c _) as [frame|e|] eqn:Hf; [|done..].
  cbn [map_err obind] in Hi. exists frame. split; [done|]. pose proof (frame_size _ _ _ Hc Hf) as Hz. pose proof (zlen_nonneg frame).
  apply obind_Ok in Hi as (digest & Hd & Hi).
  destruct (apply_next None _ _ _ _) as [s|e|] eqn:Hs; [|done..]. cbn [map_err obind] in Hi. apply genesis_state in Hs as (_ & _ & _ & _ & _ & Hs & _).
  destruct created as [[]|e|]; [|done..].
  apply create_law in Hcr as [Hsame [(_ & _ & He)|[? _]]]; [|done].
  cbn [map_err obind] in Hi. apply obind_Ok in Hi as (free & _ & Hi). destruct (jf_append fc 1 0 frame) as [w fa] eqn:Hap. apply append_law in Hap as [Hsame2 Hw].
  destruct w as [[]|e|]; [|by destruct e as [| | |[]| | | |]|done]. injection Hi as <-. destruct Hw as (c0 & E0 & _ & E).
  rewrite He in E0. injection E0 as <-. split; [|done].
  split; cbn [jset_free jset_files jset_segments fresh_journal jd_state jd_segments jd_files]; [done|..].
  - exists [frame]. split; [|by rewrite concat_cons, app_nil_r]. repeat constructor. by cbn.
  - intros n x Hx. destruct (decide (n = 1)) as [->|Hne]; [left; by apply list_elem_of_singleton|].
    rewrite (Hsame2 (NSegment n)), (Hsame (NSegment n)), Hn in Hx by set_solver. done.
  - repeat constructor.
  - repeat constructor. cbn. lia.
  - repeat constructor. cbn. lia.
  - repeat constructor. cbn. unfold MAX_FRAME, SEGMENT_BYTES in *. lia.
Qed.
End AppendSpec.
