(* ===== verification/History.v ===== *)
(** * Histories of a journal writer (authority/journal.rs).

    A journal is created by [initialize] and then driven by appends, merge steps,
    quota changes and rechecks, in any order and with any file operation failing.
    [driven acked tried j]: such a history reached [j]; [acked] are the frames of
    the appends that returned, in order, and [tried] those of all appends. *)
From Stdlib Require Import ZArith Lia.
From stdpp Require Import prelude list gmap sorting.
From S2P Require Import Prelude Collections PayloadId Codec Fields Envelope Index Run RunSearch RunMerge Policy PathGuard Types.
From S2P Require Import PolicyReplay Text Rules Tables Records JobRecords CallRecords RecordCodec Sync ReplayState Replay Effects Delta Reach ReplayDemo.
From S2P Require Import Journal Checkpoint Names Files Store Driver Durable.

Section History.
Context `{Hasher, Unicode, !HasherOk, !RecordCodec JournalRecord, FilesOk F}.
Implicit Types (j : SegmentJournal F) (f : F) (acked : list bytes).
(** The operations of the writer beside [append]. *)
Inductive Upkeep : Type := UMerge | URecheck | UQuota (quota : Z) | UAbandon.
Definition upkeep (u : Upkeep) j : SegmentJournal F :=
  match u with
  | UMerge => (merge_step j).2
  | URecheck => (recheck j).2
  | UQuota quota => (set_quota quota j).2
  | UAbandon => (abandon_merge j).2
  end.
(** The frame that a call of [append] writes, if the record has one. *)
Definition attempt j (record : JournalRecord) (transition : Id) : list bytes :=
  match append_frame j record transition with Ok frame => [frame] | _ => [] end.
Inductive driven : list bytes -> list bytes -> SegmentJournal F -> Prop :=
| driven_initialize f c init frame j :
    (forall n, file_of f (NSegment n) = None) -> context_ok c -> encode_frame c (RPendingInit init) = Ok frame ->
    initialize f c init = Ok j -> driven [frame] [frame] j
| driven_append acked tried j record transition j' :
    driven acked tried j -> driver_ok j -> array 16 transition -> append record transition j = (Ok tt, j') ->
    driven (acked ++ attempt j record transition) (tried ++ attempt j record transition) j'
| driven_failed acked tried j record transition e j' :
    driven acked tried j -> driver_ok j -> array 16 transition -> append record transition j = (Err e, j') ->
    driven acked (tried ++ attempt j record transition) j'
| driven_upkeep acked tried j u : driven acked tried j -> driver_ok j -> driven acked tried (upkeep u j).

(** What the files hold: all the frames, and behind a fence perhaps a part of one more. *)
Definition kept (frames : list bytes) j : Prop :=
  durable (concat frames) (tip (jd_state j)) j /\ st_sequence (jd_state j) = zlen frames \/
  jd_fenced j = true /\ exists tail, on_disk (concat frames ++ tail) (jd_files j) (jd_segments j).

Lemma upkeep_calm t u log j : room t -> durable log t j -> durable log t (upkeep u j).
Proof.
  destruct u; [apply merge_step_calm|apply recheck_calm|apply set_quota_calm|apply abandon_merge_calm].
Qed.
(** A fenced journal changes no file any more. *)
Lemma fenced_append record transition j : jd_fenced j = true -> append record transition j = (Err FailUnconfirmed, j).
Proof. intros Hf. unfold append, st_bind, st_get. by rewrite Hf. Qed.
Lemma fenced_upkeep u j : jd_fenced j = true ->
  jd_fenced (upkeep u j) = true /\ jd_files (upkeep u j) = jd_files j /\ jd_segments (upkeep u j) = jd_segments j.
Proof.
  intros Hf. destruct u; cbn [upkeep]; [|unfold recheck|done..].
  - unfold merge_step, st_bind, st_get. by rewrite Hf.
  - unfold st_bind, st_get, st_set, st_ret. cbv beta iota. repeat case_match; done.
Qed.
Lemma kept_append frames j record transition r j' :
  kept frames j -> driver_ok j -> array 16 transition -> append record transition j = (r, j') ->
  match r with
  | Ok _ => kept (frames ++ attempt j record transition) j'
  | Err _ => kept frames j' \/ kept (frames ++ attempt j record transition) j'
  | Panic => True
  end.
Proof.
  intros Hkept Hk Htr Ha. pose proof Hkept as [[Hd Hs]|[Hf _]].
  - pose proof (append_spec (concat frames) j record transition Hd Hk Htr) as Ho. rewrite Ha in Ho. cbn [fst snd] in Ho.
    unfold attempt. destruct (append_frame j record transition) as [frame|e|]; [|by destruct Ho as [_ ->]; rewrite app_nil_r; case_match; auto..].
    assert (one_more (concat frames) (tip (jd_state j)) frame j' -> kept (frames ++ [frame]) j') as Hone.
    { intros [Hd' Hs']. left. rewrite concat_app. cbn [concat]. rewrite app_nil_r. split; [done|].
      rewrite zlen_app, Hs'. unfold zlen at 2. cbn [length tip tp_sequence]. lia. }
    assert (durable (concat frames) (tip (jd_state j)) j' -> kept frames j') as Hsame.
    { intros Hd'. left. pose proof (du_tip _ _ _ Hd') as Ht. rewrite Ht. split; [done|]. rewrite <- Hs. apply (f_equal tp_sequence Ht). }
    destruct r as [u|e|]; [by apply Hone| |done]. cbn in Ho. destruct (nothing_written e); [auto|].
    destruct Ho as [Ho|[Ho|[Hf (k & Ho)]]]; [auto..|]. left. right. split; [done|]. by exists (ztake k frame).
  - rewrite fenced_append in Ha by done. injection Ha as <- <-. auto.
Qed.
Lemma kept_upkeep frames j u : kept frames j -> driver_ok j -> kept frames (upkeep u j).
Proof.
  intros [[Hd Hs]|[Hf Ht]] Hk.
  - left. assert (durable (concat frames) (tip (jd_state j)) (upkeep u j)) as Hd'.
    { apply upkeep_calm; [|done]. destruct Hk as [_ _ Hq _ _]. unfold room. cbn. lia. }
    pose proof (du_tip _ _ _ Hd') as Ht. rewrite Ht. split; [done|]. rewrite <- Hs. apply (f_equal tp_sequence Ht).
  - right. by destruct (fenced_upkeep u j Hf) as (-> & -> & ->).
Qed.

Lemma driven_kept acked tried j :
  driven acked tried j -> exists frames, acked `sublist_of` frames /\ frames `sublist_of` tried /\ kept frames j.
Proof.
  induction 1 as [f c init frame j Hn Hc Hf Hi|acked tried j record transition j' _ (frames & Hsub & Hsup & Hkept) Hk Ht Ha
    |acked tried j record transition e j' _ (frames & Hsub & Hsup & Hkept) Hk Ht Ha|acked tried j u _ (frames & Hsub & Hsup & Hkept) Hk].
  - exists [frame]. split; [done|]. destruct (initialize_durable f c init j Hc Hi Hn) as (frame' & Hf' & Hd & Hs).
    rewrite Hf in Hf'. injection Hf' as <-. split; [done|]. left. cbn [concat]. by rewrite app_nil_r.
  - pose proof (kept_append _ _ _ _ _ _ Hkept Hk Ht Ha). exists (frames ++ attempt j record transition). by split_and!; [apply sublist_app..|].
  - destruct (kept_append _ _ _ _ _ _ Hkept Hk Ht Ha) as [?|?]; [exists frames|exists (frames ++ attempt j record transition)].
    + by split_and!; [|apply sublist_inserts_r|].
    + by split_and!; [apply sublist_inserts_r|apply sublist_app|].
  - exists frames. split_and!; [done..|]. by apply kept_upkeep.
Qed.


(** C17: An append is all or nothing. When it returns, the segment files hold the
    log with exactly one more frame and the state stands one sequence further; when
    it reports an invalid record, an exhausted quota or a hold, they hold the log as
    it was; after any other error they hold one of the two, or the journal is fenced
    over a part of the frame. A record without a frame changes nothing. This holds
    whichever file operation failed, also in the middle of a roll. *)
Theorem append_is_all_or_nothing log j record transition r j' :
  durable log (tip (jd_state j)) j -> driver_ok j -> array 16 transition -> append record transition j = (r, j') ->
  match append_frame j record transition with
  | Ok frame => append_outcome log (tip (jd_state j)) frame r j'
  | _ => (forall u, r <> Ok u) /\ j' = j
  end.
Proof. intros Hd Hk Ht Ha. pose proof (append_spec log j record transition Hd Hk Ht) as Ho. by rewrite Ha in Ho. Qed.
End History.

(** ** A history on [MemoryFiles]. *)
Module HistoryDemo.
Import ReplayDemo JournalDemo.
#[export] Instance context_ok_dec c : Decision (context_ok c).
Proof. unfold context_ok. apply _. Defined.
#[export] Instance driver_ok_dec (j : SegmentJournal MemoryFiles) : Decision (driver_ok j).
Proof.
  destruct (decide (array 16 (jd_installation j) /\ array 32 (st_last_digest (jd_state j)) /\
    (0 <= st_sequence (jd_state j) < U64_MAX - 1) /\ u64 (st_revision (jd_state j)) /\ u64 (st_owner_generation (jd_state j)))) as [Hk|Hk].
  - left. destruct Hk as (? & ? & ? & ? & ?). by split.
  - right. intros []. by apply Hk.
Defined.
Inductive Step : Type := SAppend (record : JournalRecord) (transition : Id) | SUpkeep (u : Upkeep).
Definition Trace : Type := list bytes * list bytes * SegmentJournal MemoryFiles.
Definition step (t : Trace) (s : Step) : option Trace :=
  let '(acked, tried, j) := t in
  if bool_decide (driver_ok j) then
    match s with
    | SUpkeep u => Some (acked, tried, upkeep u j)
    | SAppend record transition =>
        if bool_decide (array 16 transition) then
          let frame := attempt j record transition in
          match append record transition j with
          | (Ok _, j) => Some (acked ++ frame, tried ++ frame, j)
          | (Err _, j) => Some (acked, tried ++ frame, j)
          | (Panic, _) => None
          end
        else None
    end
  else None.
Fixpoint play (t : Trace) (l : list Step) : option Trace :=
  match l with [] => Some t | s :: l => match step t s with Some t => play t l | None => None end end.
Definition traced (t : Trace) : Prop := driven t.1.1 t.1.2 t.2.
Lemma step_traced t s t' : step t s = Some t' -> traced t -> traced t'.
Proof.
  destruct t as [[acked tried] j]. unfold step, traced. cbn [fst snd]. case_bool_decide as Hk; [|done]. destruct s as [record transition|u].
  - case_bool_decide as Ht; [|done]. destruct (append record transition j) as [[[]|e|] j'] eqn:Ha; intros [= <-] Hd; cbn [fst snd].
    + by eapply driven_append.
    + by eapply driven_failed.
  - intros [= <-] Hd. by apply driven_upkeep.
Qed.
Lemma play_traced l t t' : play t l = Some t' -> traced t -> traced t'.
Proof.
  revert t. induction l as [|s l IH]; intros t; cbn [play]; [by intros [= <-]|]. destruct (step t s) eqn:Hs; [|done].
  intros Hp Ht. eapply IH; [exact Hp|]. by eapply step_traced.
Qed.
Definition context : FrameContext := mkContext (id 1) (id 101) 1 (zeros 32) 0 1.
Definition start (f : MemoryFiles) (c : FrameContext) (p : PendingInit) : option Trace :=
  match initialize f c p, encode_frame c (RPendingInit p) with
  | Ok j, Ok frame => Some ([frame], [frame], j)
  | _, _ => None
  end.
Lemma start_traced f c p t : start f c p = Some t -> (forall n, file_of f (NSegment n) = None) -> context_ok c -> traced t.
Proof.
  unfold start. destruct (initialize f c p) as [j| |] eqn:Hi; [|done..]. destruct (encode_frame c _) as [frame| |] eqn:Hf; [|done..].
  intros [= <-] Hn Hc. by eapply driven_initialize.
Qed.
(** Records follow the first; the third is sent twice, and a quota of zero refuses one. *)
Definition appended (n : nat) : Step := SAppend (nth n records (RPendingInit init)) (id (101 + Z.of_nat n)).
Definition steps : list Step :=
  [appended 1; appended 2; appended 2; SUpkeep URecheck; appended 3; SUpkeep (UQuota 0); appended 4; SUpkeep UMerge; SUpkeep UAbandon].
Definition history (f : MemoryFiles) (l : list Step) : option Trace :=
  match start f context init with Some t => play t l | None => None end.
Definition lengths (t : option Trace) : option (nat * nat * Z) :=
  match t with Some (acked, tried, j) => Some (length acked, length tried, st_sequence (jd_state j)) | None => None end.
Lemma history_traced f l n m k :
  lengths (history f l) = Some (n, m, k) -> (forall n, file_of f (NSegment n) = None) ->
  exists acked tried j, driven acked tried j /\ length acked = n /\ length tried = m /\ st_sequence (jd_state j) = k.
Proof.
  unfold history. destruct (start f context init) as [t|] eqn:Hs; [|done]. destruct (play t l) as [[[acked tried] j]|] eqn:Hp; [|done].
  intros [= <- <- <-] Hn. exists acked, tried, j. split; [|done]. apply (play_traced l t _ Hp).
  apply (start_traced _ _ _ _ Hs Hn). by_decide.
Qed.
Lemma fresh_directory n : file_of memory_new (NSegment n) = None.
Proof. unfold file_of, memory_view. cbn. by apply lookup_singleton_ne. Qed.
Lemma demo_history :
  exists acked tried j, driven acked tried j /\ length acked = 4%nat /\ length tried = 6%nat /\ st_sequence (jd_state j) = 4.
Proof. apply (history_traced memory_new steps); [vm_compute; reflexivity|apply fresh_directory]. Qed.
(** The second record of the journal. *)
Definition appends (f : MemoryFiles) (c : FrameContext) (p : PendingInit) (r : JournalRecord) (t : Id) : bool :=
  match initialize f c p with
  | Ok j => bool_decide (driver_ok j) && match append_frame j r t, (append r t j).1 with Ok _, Ok _ => true | _, _ => false end
  | _ => false
  end.
Lemma appends_durable f c p r t :
  appends f c p r t = true -> (forall n, file_of f (NSegment n) = None) -> context_ok c ->
  exists log j frame j', durable log (tip (jd_state j)) j /\ driver_ok j /\ append_frame j r t = Ok frame /\ append r t j = (Ok tt, j').
Proof.
  unfold appends. destruct (initialize f c p) as [j| |] eqn:Hi; [|done..]. intros [Hk%bool_decide_eq_true_1 Ha]%andb_true_iff Hn Hc.
  destruct (initialize_durable f c p j Hc Hi Hn) as (frame & _ & Hd & _). exists frame, j.
  destruct (append_frame j r t) as [frame'| |]; [|done..]. destruct (append r t j) as [[[]| |] j']; [|done..]. by exists frame', j'.
Qed.
Definition second : JournalRecord := nth 1 records (RPendingInit init).
Lemma second_appends : appends memory_new context init second (id 102) = true.
Proof. vm_compute. reflexivity. Qed.
Lemma append_is_all_or_nothing_witness : exists log (j : SegmentJournal MemoryFiles) frame j', one_more log (tip (jd_state j)) frame j'.
Proof.
  destruct (appends_durable memory_new context init second (id 102) second_appends fresh_directory ltac:(by_decide))
    as (log & j & frame & j' & Hd & Hk & Hf & Ha).
  pose proof (append_is_all_or_nothing log j second (id 102) (Ok tt) j' Hd Hk ltac:(by_decide) Ha) as Ho.
  exists log, j, frame, j'. rewrite Hf in Ho. exact Ho.
Defined.
End HistoryDemo.
