(* ===== verification/Shelf.v ===== *)
(** * Several run files as one index (authority/journal.rs).

    The runs that a checkpoint lists answer together like one sorted table, a
    merge that replaces some of them by their sorted union changes no answer, and
    the run that a roll writes holds the entries of the delta: lookups before and
    after the roll agree. *)
From Stdlib Require Import ZArith Lia.
From stdpp Require Import prelude list gmap sorting.
From S2P Require Import Prelude Collections PayloadId Codec Fields Envelope Index Run RunSearch RunMerge Policy PathGuard Types.
From S2P Require Import PolicyReplay Text Rules Tables Records JobRecords CallRecords RecordCodec Sync ReplayState Replay Effects Delta Reach ReplayDemo Rolls.
From S2P Require Import Journal Checkpoint Names Files Store Driver Durable History.

(** ** Lookup in the union of the pages. *)
Lemma assoc_find key (l : Page) : assoc key l = find_key key l.
Proof.
  induction l as [|[k v] l IH]; [done|]. rewrite assoc_cons, find_key_cons, IH. case_decide as Hd.
  - by rewrite Hd, cmp_refl.
  - destruct (cmp k key) eqn:E; [|done..]. by apply cmp_eq in E.
Qed.
Lemma head_find key (ls : list Page) : head (omap (assoc key) ls) = find_key key (concat ls).
Proof.
  induction ls as [|l ls IH]; [done|]. change (concat (l :: ls)) with (l ++ concat ls). rewrite find_key_app, <- IH, <- assoc_find. cbn.
  by destruct (assoc key l).
Qed.
Lemma find_key_perm key (l l' : Page) : l ≡ₚ l' -> NoDup l.*1 -> find_key key l = find_key key l'.
Proof.
  induction 1 as [|[k v] l l' _ IH|[k v] [k' v'] l|l l' l'' Hp1 IH1 Hp2 IH2]; [done| | |].
  - rewrite fmap_cons. intros [_ Hn]%NoDup_cons. by rewrite !find_key_cons, IH.
  - rewrite !fmap_cons. intros [Hk _]%NoDup_cons. rewrite !find_key_cons. case_decide; case_decide; [|done..]. subst. destruct Hk. constructor.
  - intros Hn. rewrite IH1 by done. apply IH2. by rewrite <- Hp1.
Qed.
Lemma concat_perm {A} (ls ls' : list (list A)) : ls ≡ₚ ls' -> concat ls ≡ₚ concat ls'.
Proof.
  induction 1 as [|l ls ls' _ IH|l l' ls|? ? ? _ IH1 _ IH2]; cbn; [done|by rewrite IH| |by rewrite IH1].
  by rewrite !app_assoc, (Permutation_app_comm l').
Qed.
Lemma by_key_perm (l l' : Page) : l ≡ₚ l' -> NoDup l.*1 -> by_key l = by_key l'.
Proof.
  intros Hp Hn. apply (sorted_unique fst); [| |unfold by_key; by rewrite !sort_by_perm].
  all: apply (weak_strict fst); [apply (sort_by_sorted fst)|]; unfold by_key; rewrite sort_by_perm; by rewrite <- ?Hp.
Qed.

Section Union.
Context `{Hasher, Unicode, !HasherOk, !RecordCodec JournalRecord, FilesOk F}.
Implicit Types (f : F) (runs : list RunRef) (pages : list Page).
Lemma store_get_union f installation runs pages key :
  readable f -> Forall2 (shelved f installation) runs pages -> NoDup (concat pages).*1 ->
  store_get f runs installation key = Ok (find_key key (concat pages)).
Proof.
  intros Hr Hs Hn. rewrite (store_get_newest _ _ _ pages) by done. unfold newest. rewrite head_find. f_equal. symmetry.
  apply find_key_perm; [|done]. apply concat_perm. by rewrite reverse_Permutation.
Qed.
Lemma same_entries_same_answers f installation runs runs' pages pages' :
  readable f -> Forall2 (shelved f installation) runs pages -> Forall2 (shelved f installation) runs' pages' ->
  NoDup (concat pages).*1 -> concat pages ≡ₚ concat pages' ->
  (forall key, store_get f runs installation key = store_get f runs' installation key) /\
  (forall lo hi d limit, 0 <= limit -> store_range f runs installation lo hi d limit = store_range f runs' installation lo hi d limit).
Proof.
  intros Hr Hs Hs' Hn Hp. assert (NoDup (concat pages').*1) as Hn' by (by rewrite <- Hp). split.
  - intros key. rewrite (store_get_union _ _ _ pages), (store_get_union _ _ _ pages') by done. f_equal. by apply find_key_perm.
  - intros lo hi d limit Hl. rewrite (store_range_union _ _ _ pages), (store_range_union _ _ _ pages') by done.
    by rewrite (by_key_perm _ _ Hp Hn).
Qed.

(** C18: The runs that a checkpoint lists act as one sorted table: a lookup
    through the run files gives the entry that any of them holds for the key, and a
    range in either direction gives the first [limit] entries of the sorted union of
    all runs between the bounds. *)
Theorem runs_act_as_one_index f installation runs pages :
  readable f -> Forall2 (shelved f installation) runs pages -> NoDup (concat pages).*1 ->
  (forall key, store_get f runs installation key = Ok (find_key key (concat pages))) /\
  (forall lo hi (descending : bool) limit, 0 <= limit ->
     store_range f runs installation lo hi descending limit =
     Ok (ztake limit ((if descending then reverse else id) (between lo hi (by_key (concat pages)))))).
Proof.
  intros Hr Hs Hn. split; intros.
  - by apply store_get_union.
  - by apply store_range_union.
Qed.

End Union.

(** ** The run writer on a file. *)
Section Follows.
Context `{Hasher, Unicode, !HasherOk, !RecordCodec JournalRecord, FilesOk F}.
Implicit Types (f : F) (n : JournalName).
(** The writer [c] on the file [n] does what [p] does on a vector, unless a file
    operation fails. *)
Definition follows n {A} (c : ST FilesSink ReplayError A) (p : bytes -> Result (A * bytes)) : Prop :=
  forall f x v, file_of f n = Some v ->
  match p v with
  | Ok (a, v') => forall r s, c (f, x) = (Ok r, s) -> r = a /\ file_of s.1 n = Some v'
  | Err _ => forall r, (c (f, x)).1 <> Ok r
  | Panic => True
  end.
Lemma follows_bind n {A B} (c : ST FilesSink ReplayError A) (k : A -> ST FilesSink ReplayError B) p q :
  follows n c p -> (forall a, follows n (k a) (q a)) -> follows n (st_bind c k) (fun v => let? (a, v) := p v in q a v).
Proof.
  intros Hc Hk f x v Hf. specialize (Hc f x v Hf). unfold st_bind. destruct (p v) as [[a v']|e|]; cbn [obind]; [| |done].
  - destruct (c (f, x)) as [[r| |] [f' x']]; [|by destruct (q a v') as [[]| |]..].
    destruct (Hc r _ eq_refl) as [-> Hf']. exact (Hk a f' x' v' Hf').
  - intros r. by destruct (c (f, x)) as [[a| |] s]; [destruct (Hc a)|..].
Qed.
Lemma follows_ret n {A} (a : A) : follows n (st_ret a) (fun v => Ok (a, v)).
Proof. intros f x v Hf r s [= <- <-]. done. Qed.
Lemma follows_lift n {A} (r : Result A) : follows n (st_lift r) (fun v => let? a := r in Ok (a, v)).
Proof. intros f x v Hf. destruct r as [a|e|]; cbn; [by intros r s [= <- <-]|by intros r|done]. Qed.
(** A write into a vector splices. *)
Lemma vec_splice v o b v' : write_all_at v o b = Ok v' -> v' = splice o b v.
Proof.
  unfold write_all_at, vec_sink, Run.put, splice. pose proof (zlen_nonneg v). pose proof (zlen_nonneg b).
  intros Hw. apply obind_Ok in Hw as (u & Hu & Hw). destruct (decide (0 <= o /\ o + zlen b <= zlen u)) as [[Ho Hl]|]; [|done].
  injection Hw as <-. destruct (decide (zlen v < wrap 64 (o + zlen b))) as [Hlt|Hge].
  - destruct (decide _); [done|]. injection Hu as <-. rewrite zlen_app, zlen_zeros in Hl by lia.
    pose proof (Z.mod_le (o + zlen b) (2 ^ 64) ltac:(lia) ltac:(lia)) as Hm. unfold wrap in *.
    by replace ((o + zlen b) mod 2 ^ 64) with (o + zlen b) in * by lia.
  - injection Hu as <-. unfold zeros. replace (Z.to_nat (o + zlen b - zlen v)) with 0%nat by lia. cbn [replicate]. by rewrite app_nil_r.
Qed.
Lemma follows_write n o b : follows n (sink_write n o b) (fun v => let? v := write_all_at v o b in Ok (tt, v)).
Proof.
  intros f x v Hf. destruct (write_all_at v o b) as [v'|e|] eqn:Hw; cbn [obind]; [| |done].
  - apply vec_splice in Hw as ->. unfold sink_write. cbn [fst snd]. destruct (jf_write_at f n o b) as [[[]| |] f'] eqn:E; [|by intros r s [=]..].
    apply write_law in E as (_ & _ & Hc). intros [] s [= <-]. destruct (Hc eq_refl) as (c & Hc' & Hn). cbn. rewrite Hf in Hc'. by injection Hc' as ->.
  - exfalso. unfold write_all_at, vec_sink, Run.put in Hw. destruct (decide (zlen v < _)); [destruct (decide (_ > _)); [done|]|].
    all: cbn [obind] in Hw; by destruct (decide _).
Qed.
Lemma follows_eq n {A} (c : ST FilesSink ReplayError A) p q : follows n c p -> (forall v, p v = q v) -> follows n c q.
Proof. intros Hc Hp f x v Hf. rewrite <- Hp. by apply Hc. Qed.
Lemma follows_new n h : follows n (fw_new (sink_write n) h) (writer_new h).
Proof.
  eapply follows_eq; [eapply follows_bind; [apply follows_write|intros; apply follows_ret]|].
  intros v. unfold writer_new. by destruct (write_all_at v 0 _).
Qed.
Lemma follows_flush n w : follows n (fw_flush (sink_write n) w) (flush w).
Proof.
  eapply follows_eq; [eapply follows_bind; [apply follows_lift|intros b; cbn; eapply follows_bind; [apply follows_write|intros; apply follows_ret]]|].
  intros v. unfold flush. destruct (encode_page _ _ _) as [b| |]; cbn; [|done..]. by destruct (write_all_at v _ b).
Qed.
Lemma follows_push n w k v : follows n (fw_push (sink_write n) w k v) (push w k v).
Proof.
  unfold fw_push, push. destruct (at_or_above _ _); [apply (follows_lift n (Err Corrupt))|].
  destruct (decide _); [apply (follows_lift n (Err Corrupt))|]. cbv zeta. destruct (decide _); [apply follows_flush|apply follows_ret].
Qed.
Lemma follows_push_all n entries w : follows n (fw_push_all (sink_write n) entries w) (push_all entries w).
Proof.
  revert w. induction entries as [|[k v] entries IH]; intros w; [apply follows_ret|].
  cbn [fw_push_all push_all]. apply follows_bind; [apply follows_push|apply IH].
Qed.
Lemma follows_finish n w : follows n (fw_finish (sink_write n) w) (finish w).
Proof.
  eapply follows_eq.
  - unfold fw_finish. eapply follows_bind; [|intros w'].
    + instantiate (1 := fun v => if decide (w_page w = []) then Ok (w, v) else flush w v). destruct (decide _); [apply follows_ret|apply follows_flush].
    + instantiate (1 := fun w v => if decide (w_written_entries w <> h_entries (w_header w) \/ w_written_pages w <> h_pages (w_header w)) then Err Corrupt else
        let? (_, v) := (let? v := write_all_at v (wrap 64 (file_bytes (w_header w) - TRAILER_BYTES)) (sha256 (w_digest w) ++ COMMIT) in Ok (tt, v)) in
        Ok (sha256 (w_digest w), v)).
      cbn beta. destruct (decide _); [apply (follows_lift n (Err Corrupt))|]. cbv zeta.
      eapply follows_bind; [apply follows_write|intros; apply follows_ret].
  - intros v. unfold finish. destruct (if decide _ then _ else _) as [[w' v']| |]; cbn; [|done..]. destruct (decide _); [done|].
    by destruct (write_all_at v' _ _).
Qed.
Lemma follows_entries n h entries :
  follows n (write_entries n h entries)
    (fun v => let? (w, v) := writer_new h v in let? (w, v) := push_all entries w v in finish w v).
Proof.
  unfold write_entries. apply follows_bind; [apply follows_new|intros w]. apply follows_bind; [apply follows_push_all|intros; apply follows_finish].
Qed.
(** The file of a finished writer is the run of the entries. *)
Lemma written_run n level installation first last entries f digest s :
  let h := header_new level installation first last (zlen entries) in
  Run.writable h -> Forall slot_ok entries -> file_of f n = Some [] -> write_entries n h entries (f, None) = (Ok digest, s) ->
  ascending entries /\ digest = sha256 (run_body h entries) /\ file_of s.1 n = Some (run_bytes h entries).
Proof.
  intros h Hh Hs Hf Hw. destruct (encode_run_cases level installation first last entries Hh Hs) as [Ha Hn]. fold h in Ha.
  pose proof (follows_entries n h entries f None [] Hf) as Hfo. rewrite Hw in Hfo. cbv beta in Hfo.
  match type of Hfo with match ?x with _ => _ end => assert (encode_run level installation first last entries = let? (d, v) := x in Ok (v, d)) as He end.
  { unfold encode_run. fold h. destruct (writer_new h []) as [[w v]| |]; cbn [obind]; [|done..].
    destruct (push_all entries w v) as [[w' v']| |]; cbn [obind]; done. }
  rewrite He in Ha, Hn. pose proof (ascendingb_spec [] entries ltac:(constructor)) as Hb. cbn [app] in Hb.
  match type of Hfo with match ?x with _ => _ end => destruct x as [[d v]|e|] end; cbn [obind] in Ha, Hn.
  - destruct (Hfo digest s eq_refl) as [-> Hv]. destruct (ascendingb _ _); [|by assert (Ok (E := ReplayError) (v, d) = Err Corrupt) by (apply Hn; by intros ?%Hb)].
    assert (ascending entries) as Hasc by (by apply Hb). specialize (Ha Hasc). by injection Ha as -> ->.
  - by destruct (Hfo digest).
  - destruct (ascendingb _ _); [by specialize (Ha ltac:(by apply Hb))|]. by assert (Panic (A := bytes * bytes) = Err Corrupt) by (apply Hn; by intros ?%Hb).
Qed.
End Follows.

(** ** Runs of the driver's operations that return. *)
Lemma bind_Ok {S E A B} (c : ST S E A) (k : A -> ST S E B) s b s' :
  st_bind c k s = (Ok b, s') -> exists a s1, c s = (Ok a, s1) /\ k a s1 = (Ok b, s').
Proof. unfold st_bind. destruct (c s) as [[a| |] s1]; [by eauto|done..]. Qed.
Lemma lift_Ok {S E A} (r : Prelude.outcome E A) (s : S) a s' : st_lift r s = (Ok a, s') -> r = Ok a /\ s' = s.
Proof. unfold st_lift. by intros [= -> ->]. Qed.
Section Returns.
Context `{Hasher, Unicode, !HasherOk, !RecordCodec JournalRecord, FilesOk F}.
Implicit Types (j : SegmentJournal F).
Lemma fenced_Ok {A} (op : F -> FileResult A * F) j a j' :
  fenced_op op j = (Ok a, j') -> exists f, op (jd_files j) = (Ok a, f) /\ j' = jset_files f j.
Proof.
  unfold fenced_op, st_bind, on_files. destruct (op (jd_files j)) as [[b|e|] f]; cbn [or_fence].
  - intros [= -> <-]. by exists f.
  - by destruct e.
  - done.
Qed.
Lemma on_files_Ok {A} (op : F -> FileResult A * F) j r j' :
  on_files op j = (Ok r, j') -> exists f, op (jd_files j) = (r, f) /\ j' = jset_files f j.
Proof. unfold on_files. destruct (op (jd_files j)) as [r' f]. intros [= -> <-]. by exists f. Qed.
Lemma point_Ok p j u j' : at_point p j = (Ok u, j') -> j' = j.
Proof. unfold at_point. by intros [= _ ->]. Qed.
Lemma replaying_Ok {A} (r : Result A) j a j' : replaying r j = (Ok a, j') -> r = Ok a /\ j' = j.
Proof. unfold replaying, st_lift. intros [= Hr ->]. by destruct r; simplify_eq/=. Qed.
End Returns.
Ltac inv_act H :=
  repeat match type of H with
  | st_bind ?c ?k ?s = (Ok _, _) =>
      let a := fresh "a" in let s1 := fresh "j" in let Ha := fresh "Ha" in
      apply bind_Ok in H as (a & s1 & Ha & H); cbv beta zeta in H;
      lazymatch type of Ha with
      | st_get _ = _ => injection Ha as <- <-
      | st_set _ _ = _ => injection Ha as <- <-
      | derive _ _ _ = _ => injection Ha as <- <-
      | underive _ _ = _ => injection Ha as <- <-
      | st_lift _ _ = _ => apply lift_Ok in Ha as [Ha ->]
      | replaying _ _ = _ => apply replaying_Ok in Ha as [Ha ->]
      | at_point _ _ = _ => apply point_Ok in Ha as ->
      | fenced_op _ _ = _ => let f := fresh "f" in apply fenced_Ok in Ha as (f & Ha & ->)
      | on_files _ _ = _ => let f := fresh "f" in apply on_files_Ok in Ha as (f & Ha & ->)
      | _ => idtac
      end
  end.
Section RollRun.
Context `{Hasher, Unicode, !HasherOk, !RecordCodec JournalRecord, FilesOk F}.
Implicit Types (j : SegmentJournal F).
Lemma run_writes_Ok n h entries j r j' :
  run_writes n h entries j = (Ok r, j') -> exists f, write_entries n h entries (jd_files j, None) = (r.1, (f, r.2)) /\ j' = jset_files f j.
Proof.
  unfold run_writes. destruct (write_entries n h entries (jd_files j, None)) as [w [f x]]. intros [= <- <-]. by exists f.
Qed.
Lemma write_entries_same n h entries s : same_but [n] s.1 (write_entries n h entries s).2.1.
Proof.
  assert (steps_by (fun s s' : F * option JournalError => same_but [n] s.1 s'.1) (write_entries n h entries)) as Hs; [|apply Hs].
  unfold write_entries.
  assert (PreOrder (fun s s' : F * option JournalError => same_but [n] s.1 s'.1)) as Hp.
  { split; [by intros x|]. intros a b c Hab Hbc. by etransitivity. }
  assert (forall o b, steps_by (fun s s' : F * option JournalError => same_but [n] s.1 s'.1) (sink_write n o b)) as Hw.
  { intros o b [f x]. unfold sink_write. cbn [fst]. destruct (jf_write_at f n o b) as [r f'] eqn:E. apply write_law in E as [Hs _]. by destruct r. }
  steps; first [by apply steps_new|by apply steps_push_all|by apply steps_finish].
Qed.
(** A run that was written is on the shelf. *)
Lemma write_run_shelves level first last entries j run j' :
  run_input (header_new level (jd_installation j) first last (zlen entries)) entries ->
  write_run level first last entries j = (Ok run, j') ->
  shelved (jd_files j') (jd_installation j) run entries /\ run_name run = NRun first last /\ ru_first run = first /\
  same_but [NRunTmp first last; NRun first last] (jd_files j) (jd_files j') /\
  jd_state j' = jd_state j /\ jd_runs j' = jd_runs j /\ jd_merged j' = jd_merged j /\ jd_installation j' = jd_installation j.
Proof.
  intros Hi Hw. unfold write_run in Hw. inv_act Hw. apply run_writes_Ok in Ha0 as (fw & Hentries & ->). cbn [jset_files jset_derived jd_files] in Hentries.
  destruct a0 as [[digest|e|] x]; cbn [fst snd] in Hentries; [|by inv_act Hw; destruct x as [[]|]|done].
  inv_act Hw. cbn [jset_files jset_derived jd_files] in *. injection Hw as <- <-.
  apply create_law in Ha as [Hs1 [(_ & _ & Hempty)|[Hno _]]]; [|by destruct a].
  pose proof (write_entries_same (NRunTmp first last) (header_new level (jd_installation j) first last (zlen entries)) entries (f, None)) as Hs2.
  rewrite Hentries in Hs2. cbn [fst snd] in Hs2. pose proof Hi as (Hh & Hfit & Hn & Hslots).
  apply written_run in Hentries as (Hasc & -> & Hfile); [|destruct Hh as (? & ? & ? & ? & ? & ? & ? & ?); unfold Run.writable; naive_solver|done|done].
  cbn [fst] in Hfile. apply sync_law in Ha0 as Hs3. apply publish_law in Ha1 as [Hs4 Hm]; [|done]. cbv zeta in Hm.
  destruct Hm as [[_ (c & Hc & _ & Hto)]|[Hno _]]; [|by destruct a2]. rewrite (Hs3 (NRunTmp first last)), Hfile in Hc by apply not_elem_of_nil.
  injection Hc as <-. cbn [jset_files jset_derived jd_files jd_state jd_runs jd_merged jd_installation].
  split; [by split|]. do 2 (split; [done|]). split; [|done].
  intros n Hn'. rewrite (Hs4 n Hn'), (Hs3 n (not_elem_of_nil n)), (Hs2 n), (Hs1 n) by set_solver. done.
Qed.

(** ** Step 2: the checkpoint. *)
#[local] Opaque clear_delta encode_checkpoint.
Lemma write_file_same n b p j u j' :
  write_file n b p j = (Ok u, j') -> same_but [n] (jd_files j) (jd_files j') /\
  jd_state j' = jd_state j /\ jd_runs j' = jd_runs j /\ jd_merged j' = jd_merged j /\ jd_installation j' = jd_installation j.
Proof.
  intros Hw. unfold write_file in Hw. inv_act Hw. destruct a0 as [[]|e|]; [|by inv_act Hw; destruct e|done].
  inv_act Hw. apply fenced_Ok in Hw as (g & Hw & ->). cbn [jset_files jset_derived jd_files] in *.
  apply create_law in Ha as [Hs1 _]. apply write_law in Ha0 as [Hs2 _]. apply sync_law in Hw.
  split; [|done]. etransitivity; [exact Hs1|]. etransitivity; [exact Hs2|]. by eapply same_but_weaken; [exact Hw|set_solver].
Qed.
Lemma publish_checkpoint_same head size j u j' :
  publish_checkpoint head size j = (Ok u, j') ->
  same_but [NCheckpointTmp head; NCheckpoint head] (jd_files j) (jd_files j') /\ jd_installation j' = jd_installation j.
Proof.
  intros Hp. unfold publish_checkpoint in Hp. inv_act Hp. apply point_Ok in Hp as ->. apply publish_law in Ha as [Hs _]; [|done]. done.
Qed.
Lemma adopt_roll_spec head runs cleared j :
  let j' := (adopt_roll head runs cleared j).2 in
  jd_files j' = jd_files j /\ jd_state j' = cleared /\ jd_runs j' = runs /\ jd_installation j' = jd_installation j.
Proof. done. Qed.
Lemma roll_checkpoint_same head run j u j' :
  roll_checkpoint head run j = (Ok u, j') -> same_but [NCheckpointTmp head; NCheckpoint head] (jd_files j) (jd_files j') /\
  jd_state j' = clear_delta (jd_state j) /\ jd_runs j' = roll_runs (jd_runs j) (jd_merged j) run /\ jd_installation j' = jd_installation j.
Proof.
  intros Hr. unfold roll_checkpoint in Hr. inv_act Hr. destruct (adopt_roll_spec head (roll_runs (jd_runs j) (jd_merged j) run) (clear_delta (jd_state j)) j1) as (Hf & Hs & Hn & Hi).
  rewrite Hr in Hf, Hs, Hn, Hi. cbn [snd] in *. rewrite Hf, Hs, Hn, Hi.
  apply write_file_same in Ha0 as (Hs1 & _ & _ & _ & Hi1). apply publish_checkpoint_same in Ha1 as [Hs2 Hi2].
  split; [|split_and!; [done|done|by rewrite Hi2, Hi1]]. etransitivity; [|exact Hs2]. by eapply same_but_weaken; [exact Hs1|set_solver].
Qed.

(** ** The index after a roll. *)
Lemma shelved_same f f' installation run page ns :
  shelved f installation run page -> same_but ns f f' -> run_name run ∉ ns -> shelved f' installation run page.
Proof. intros [Hi Ha Hf Hb Hd] Hs Hn. split; try done. by rewrite (Hs _ Hn). Qed.
Lemma newest_snoc pages page key :
  newest (pages ++ [page]) key = match find_key key page with Some v => Some v | None => newest pages key end.
Proof. unfold newest. rewrite reverse_snoc. cbn. rewrite assoc_find. by destruct (find_key key page). Qed.
Lemma segment_keys l page key : segment_entries l = Ok page -> k_tag key <> TSegment -> find_key key page = None.
Proof.
  revert page. induction l as [|s l IH]; intros page Hp Ht; cbn in Hp; [by injection Hp as <-|]. inv_res Hp. injection Hp as <-.
  unfold segment_entry in Ha. inv_res Ha. injection Ha as <-. rewrite find_key_cons. rewrite decide_False by (by intros <-). by apply IH.
Qed.
Lemma roll_entries_find j first head entries key :
  roll_entries j first head = Ok entries -> k_tag key <> TSegment ->
  exists l, delta_entries (jd_state j) = Ok l /\ find_key key entries = find_key key l.
Proof.
  intros Hr Ht. unfold roll_entries in Hr. inv_res Hr. injection Hr as <-. exists a. split; [done|].
  rewrite find_key_by_key, find_key_app, (segment_keys _ _ _ Ha0 Ht). by destruct (find_key key a).
Qed.
Lemma by_first_snoc runs run : StronglySorted Z.lt (ru_first <$> runs ++ [run]) -> by_first (runs ++ [run]) = runs ++ [run].
Proof.
  intros Hs. unfold by_first. apply (sort_by_unique ru_first); [done|]. revert Hs. generalize (runs ++ [run]) as l. clear.
  induction l as [|a l IH]; cbn; intros Hs; constructor; apply StronglySorted_inv in Hs as [Hs Ha]; [by apply IH|].
  rewrite Forall_fmap in Ha. eapply Forall_impl; [exact Ha|]. intros b Hb. by apply Z.compare_lt_iff.
Qed.
(** The listed runs are on the shelf, in order, and none reaches past the base. *)
Record shelf_ok j pages : Prop := {
  so_shelved : Forall2 (shelved (jd_files j) (jd_installation j)) (jd_runs j) pages;
  so_sorted : StronglySorted Z.lt ((ru_first <$> jd_runs j) ++ [st_base (jd_state j) + 1]);
  so_base : 0 <= st_base (jd_state j) < st_sequence (jd_state j);
  so_head : st_sequence (jd_state j) < U64_MAX;
}.
Lemma roll_derived_shelves j j' pages entries :
  shelf_ok j pages -> jd_merged j = None -> roll_entries j (st_base (jd_state j) + 1) (st_sequence (jd_state j)) = Ok entries ->
  run_input (header_new 0 (jd_installation j) (st_base (jd_state j) + 1) (st_sequence (jd_state j)) (zlen entries)) entries ->
  roll_derived j = (Ok tt, j') ->
  Forall2 (shelved (jd_files j') (jd_installation j')) (jd_runs j') (pages ++ [entries]) /\
  jd_state j' = clear_delta (jd_state j) /\ jd_installation j' = jd_installation j.
Proof.
  intros [Hsh Hso Hb Hh] Hm He Hi Hr. unfold roll_derived in Hr. apply bind_Ok in Hr as (a & j0 & [= <- <-] & Hr). cbv zeta in Hr.
  rewrite (proj2 (Z.eqb_neq _ _)) in Hr by lia. cbn [andb] in Hr.
  rewrite wrap_small in Hr by (unfold uint, U64_MAX in *; lia). rewrite He in Hr. inv_act Hr. injection Ha as <-.
  destruct (write_run_shelves _ _ _ _ _ _ _ Hi Ha0) as (Hnew & Hname & Hfirst & Hs1 & Hst & Hruns & Hmerged & Hinst).
  destruct (roll_checkpoint_same _ _ _ _ _ Hr) as (Hs2 & Hst2 & Hruns2 & Hinst2).
  rewrite Hmerged, Hm, Hruns in Hruns2. cbn [roll_runs] in Hruns2.
  assert (by_first (jd_runs j ++ [a0]) = jd_runs j ++ [a0]) as Hbf by (apply by_first_snoc; rewrite fmap_app; cbn; by rewrite Hfirst).
  unfold roll_runs in Hruns2. rewrite Hbf in Hruns2. split; [|by rewrite Hst2, Hst, Hinst2, Hinst]. rewrite Hruns2, Hinst2, Hinst.
  assert (forall run page, shelved (jd_files j0) (jd_installation j) run page -> shelved (jd_files j') (jd_installation j) run page) as Hkeep.
  { intros run page Hrun. eapply shelved_same; [exact Hrun|exact Hs2|]. unfold run_name. set_solver. }
  apply Forall2_app; [|constructor; [by apply Hkeep|constructor]].
  apply (Forall2_weaken _ _ _ _ Hsh). intros run page Hin Hrun. apply Hkeep. eapply shelved_same; [exact Hrun|exact Hs1|].
  pose proof (StronglySorted_app_1_elem_of _ _ _ (ru_first run) (st_base (jd_state j) + 1) Hso) as Hlt.
  assert (ru_first run < st_base (jd_state j) + 1) by (apply Hlt; [by apply list_elem_of_fmap_2|by apply list_elem_of_singleton]).
  unfold run_name. intros [?|[[= ? ?]|?%elem_of_nil]%elem_of_cons]%elem_of_cons; [done|lia|done].
Qed.

End RollRun.

Lemma memory_readable m : mf_crash_at m <> Some PLookup -> readable m.
Proof.
  intros Hm. split; [|cbn; unfold memory_point; by rewrite bool_decide_false].
  intros n c o k b Hf Hg. cbn. unfold memory_read_at. unfold file_of, memory_view in Hf. rewrite Hf. cbn. by rewrite Hg.
Qed.
(** ** Two runs and their merge in memory. *)
Module ShelfDemo.
Import MergeDemo.
#[export] Instance unicode : Unicode := ascii_unicode.
Definition installation : Id := replicate 16 9.
Definition both : Page := entry_at 0 :: entries ++ [entry_at 100].
Definition both_header : RunHeader := header_new 1 installation 5 50 42.
Definition long_run : RunRef := mkRunRef 5 44 0 40 (file_bytes header) (sha256 (run_body header entries)).
Definition short_run : RunRef := mkRunRef 45 50 0 2 (file_bytes short_header) (sha256 (run_body short_header short)).
Definition both_run : RunRef := mkRunRef 5 50 1 42 (file_bytes both_header) (sha256 (run_body both_header both)).
Definition disk : MemoryFiles :=
  mkMemory {[NRun 5 44 := run_bytes header entries; NRun 45 50 := run_bytes short_header short; NRun 5 50 := run_bytes both_header both]}
    0 None false.
Lemma disk_readable : readable disk.
Proof. by apply memory_readable. Qed.
Lemma both_input : run_input both_header both.
Proof.
  refine (conj _ (conj _ (conj _ _))); [|by_decide|reflexivity|].
  - unfold header_ok. split_and!; by_decide || by vm_compute.
  - pose proof short_slots as [Hz Hs]%Forall_cons. unfold both. apply Forall_cons. split; [exact Hz|]. apply Forall_app. split; [apply slots|exact Hs].
Qed.
Lemma both_ascending : ascending both.
Proof. apply (ascendingb_spec []); [constructor|]. by vm_compute. Qed.
Lemma long_shelved : shelved disk installation long_run entries.
Proof. split; [apply long_input|apply entries_ascending|by vm_compute|done|done]. Qed.
Lemma short_shelved : shelved disk installation short_run short.
Proof. split; [apply short_input|apply short_ascending|by vm_compute|done|done]. Qed.
Lemma both_shelved : shelved disk installation both_run both.
Proof. split; [apply both_input|apply both_ascending|by vm_compute|done|done]. Qed.
Lemma distinct_keys : NoDup (concat [entries; short]).*1.
Proof. by_decide. Qed.
Lemma runs_act_as_one_index_witness :
  store_get disk [long_run; short_run] installation (entry_at 100).1 = Ok (Some (entry_at 100).2) /\
  store_range disk [long_run; short_run] installation (entry_at 0).1 (entry_at 101).1 true 3 = Ok [entry_at 100; entry_at 40; entry_at 39].
Proof.
  assert (Forall2 (shelved disk installation) [long_run; short_run] [entries; short]) as Hs.
  { constructor; [apply long_shelved|]. constructor; [apply short_shelved|constructor]. }
  destruct (runs_act_as_one_index disk installation _ _ disk_readable Hs distinct_keys) as [Hg Hr].
  split; [rewrite Hg|rewrite Hr by done]; vm_compute; reflexivity.
Defined.
Definition page (r : RunRef) : Page := if decide (r = long_run) then entries else if decide (r = short_run) then short else both.
Lemma pages : page long_run = entries /\ page short_run = short /\ page both_run = both.
Proof. by_decide. Qed.
End ShelfDemo.

(** ** The roll of a journal of seventeen frames. *)
Module RollDemo.
Import ReplayDemo JournalDemo HistoryDemo.
#[export] Instance slot_ok_dec kv : Decision (slot_ok kv).
Proof. unfold slot_ok, key_ok. apply _. Defined.
#[export] Instance run_input_dec h entries : Decision (run_input h entries).
Proof. unfold run_input, header_ok. apply _. Defined.
Definition open_active (s : Replay) : bool :=
  match st_active s with
  | Some id => match st_operations s !! id with Some op => is_none (op_terminal op) | None => true end
  | None => true
  end.
Lemma open_active_spec s : open_active s = true -> active_open s.
Proof. unfold open_active. intros Ha id op Hi Ho. rewrite Hi, Ho in Ha. by destruct (op_terminal op). Qed.
Definition rollable (j : SegmentJournal MemoryFiles) : bool :=
  let s := jd_state j in
  match roll_entries j (st_base s + 1) (st_sequence s), roll_derived j with
  | Ok entries, (Ok _, j') =>
      open_active s && is_none (jd_merged j) && bool_decide (jd_runs j = []) && (0 <=? st_base s) && (st_base s <? st_sequence s) &&
      (st_sequence s <? U64_MAX) && bool_decide (mf_crash_at (jd_files j) <> Some PLookup) &&
      bool_decide (mf_crash_at (jd_files j') <> Some PLookup) &&
      bool_decide (run_input (header_new 0 (jd_installation j) (st_base s + 1) (st_sequence s) (zlen entries)) entries)
  | _, _ => false
  end.
Lemma rollable_spec j : rollable j = true -> exists entries j',
  (readable (jd_files j) /\ readable (jd_files j') /\ shelf_ok j [] /\ jd_merged j = None /\ active_open (jd_state j)) /\
  roll_entries j (st_base (jd_state j) + 1) (st_sequence (jd_state j)) = Ok entries /\
  run_input (header_new 0 (jd_installation j) (st_base (jd_state j) + 1) (st_sequence (jd_state j)) (zlen entries)) entries /\
  roll_derived j = (Ok tt, j').
Proof.
  unfold rollable. cbv zeta. destruct (roll_entries _ _ _) as [entries| |]; [|done..]. destruct (roll_derived j) as [[[]| |] j']; [|done..].
  rewrite !andb_true_iff, !bool_decide_eq_true, Z.leb_le, !Z.ltb_lt. intros ((((((((Ho & Hm) & Hr) & Hb) & Hs) & Hu) & Hc) & Hc') & Hi).
  exists entries, j'. split; [|by split_and!]. do 2 (split; [by apply memory_readable|]). split; [|split; [|by apply open_active_spec]].
  - split; [rewrite Hr; constructor|rewrite Hr; repeat constructor|done|done].
  - by destruct (jd_merged j).
Qed.
Definition ready (t : option Trace) : bool := match t with Some (_, _, j) => rollable j && (st_sequence (jd_state j) =? 17) | None => false end.
Lemma ready_spec t : ready t = true -> exists j, rollable j = true /\ st_sequence (jd_state j) = 17.
Proof. destruct t as [[[acked tried] j]|]; [|done]. cbn. intros [Hr Hs%Z.eqb_eq]%andb_true_iff. by exists j. Qed.
Lemma sixteen_appended : ready (history memory_new (appended <$> seq 1 16)) = true.
Proof. vm_compute. reflexivity. Qed.
End RollDemo.
