(* ===== verification/Reopen.v ===== *)
(** * Opening a journal after a roll (authority/journal.rs, [Journal::open]).

    [rolled_over j]: the files of a driver that has just rolled: the checkpoint
    at the head, its runs, the sealed segments and the empty next one. The
    read-only [open] of such a directory finds the checkpoint, adopts it and
    replays the empty tail: the state it returns continues the journal as the
    state in memory would have. *)
From Stdlib Require Import ZArith Lia.
From stdpp Require Import prelude list gmap sorting.
From S2P Require Import Prelude Collections PayloadId Codec Fields Envelope Index Run RunSearch RunMerge Policy PathGuard Types.
From S2P Require Import PolicyReplay Text Rules Tables Records JobRecords CallRecords RecordCodec Sync ReplayState Replay Effects Delta Reach ReplayDemo Rolls.
From S2P Require Import Journal Checkpoint Restore Names Files Store Driver Durable History Shelf.

(** ** The run list of a checkpoint, read without decoding it. *)
Lemma get_range_mid {A} (l e k : list A) a b : a = zlen l -> b = a + zlen e -> get_range a b (l ++ e ++ k) = Some e.
Proof.
  intros -> ->. unfold get_range. pose proof (zlen_nonneg l). pose proof (zlen_nonneg e). pose proof (zlen_nonneg k).
  rewrite decide_True by (rewrite !zlen_app; lia). by rewrite zdrop_app_l, Z.add_simpl_l, ztake_app_l.
Qed.
Definition run_field (r : RunRef) : bytes :=
  be_bytes 8 (ru_first r) ++ be_bytes 8 (ru_last r) ++ [ru_level r] ++ be_bytes 8 (ru_entries r) ++ be_bytes 8 (ru_bytes r) ++ ru_digest r.
Lemma run_field_len r : run_ok r -> zlen (run_field r) = 65.
Proof. intros [? ? ? ? ? [Hd _]]. unfold run_field. rewrite !zlen_app, !zlen_be_bytes, Hd. done. Qed.
Lemma puts_run_field r : puts (put_run r) (run_field r).
Proof. unfold put_run, run_field. repeat (apply puts_seq; [done|]). done. Qed.
Lemma puts_run_fields l : puts (put_each put_run l) (concat (run_field <$> l)).
Proof. induction l as [|r l IH]; [apply puts_none|]. cbn. apply puts_seq; [apply puts_run_field|done]. Qed.
Lemma checkpoint_run_field r : run_ok r -> checkpoint_run (run_field r) = Ok r.
Proof.
  intros [H1 H2 H3 H4 H5 [Hd H6]]. destruct r as [first last level entries bytes digest]. cbn in *.
  unfold checkpoint_run, run_field. cbn [ru_first ru_last ru_level ru_entries ru_bytes ru_digest].
  assert (zlen [level] = 1) by done. do 2 (subs; rewrite ?Z.add_0_l; change (8 + 8) with 16).
  rewrite !be_val_small by done. by replace (be_val [level]) with level by (cbn; lia).
Qed.
Lemma checkpoint_fields runs pre post :
  Forall run_ok runs -> checkpoint_run_list (length runs) (zlen pre) (pre ++ concat (run_field <$> runs) ++ post) = Ok runs.
Proof.
  intros Hr. revert pre. induction Hr as [|r runs Hr _ IH]; intros pre; [done|]. cbn [length checkpoint_run_list fmap list_fmap concat].
  pose proof (run_field_len r Hr) as Hl. rewrite <- app_assoc, (get_range_mid pre (run_field r)) by (by rewrite ?Hl). cbn [ok_or obind].
  rewrite (checkpoint_run_field r Hr). cbn [obind]. specialize (IH (pre ++ run_field r)). rewrite zlen_app, Hl, <- app_assoc in IH. by rewrite IH.
Qed.
Section Layout.
Context `{Hasher, Unicode, !HasherOk, JournalIndex}.
Implicit Types s : Replay.
Lemma puts_head s : head_ok (head_of s) -> exists e, puts (put_head s) e /\ zlen e = 106.
Proof.
  intros []. cbn in *. eexists. split.
  - unfold put_head. repeat (apply puts_seq; [done|]). done.
  - destruct ho_installation as [Hi _], ho_digest as [Hd _]. unfold locator_encode. rewrite !zlen_app, !zlen_be_bytes, Hi, Hd. done.
Qed.
Lemma puts_rest s census runs :
  storable s -> (size (st_jobs s) <= MAX_UNSETTLED_JOBS)%nat -> zlen runs < 2 ^ 32 ->
  exists h c rest, zlen h = 106 /\ zlen c = 24 /\
    puts (put_body s census runs (job_locators s)) (h ++ c ++ (be_bytes 4 (zlen runs) ++ concat (run_field <$> runs)) ++ rest).
Proof.
  intros Hs Hj Hr. destruct (puts_head s (sb_head _ Hs)) as (h & Hh & Hl). destruct (writable_rest s Hs Hj) as [e He]. pose proof Hs as [].
  destruct (writable_field r_init _ _ _ sb_init) as [e1 He1].
  destruct (writable_field (r_option r_binding) _ (put_option put_binding) (st_binding s) sb_binding) as [e2 He2].
  destruct (writable_table r_project _ put_project _ sb_projects) as [e3 He3].
  exists h, (be_bytes 8 (ce_segments census) ++ be_bytes 8 (ce_holding census) ++ be_bytes 8 (ce_bytes census)), (e1 ++ e2 ++ e3 ++ e).
  split; [done|]. split; [by rewrite !zlen_app, !zlen_be_bytes|]. unfold put_body. apply puts_seq; [done|]. apply puts_seq; [by repeat apply puts_seq|].
  apply puts_seq; [apply puts_seq; [|apply puts_run_fields]; apply puts_len; [unfold uint; pose proof (zlen_nonneg runs); lia|done]|].
  by repeat (apply puts_seq; [done|]).
Qed.
Lemma encoded_runs s census runs b :
  storable s -> within_limits s -> runs_ok (st_sequence s) runs -> encode_checkpoint s census runs = Ok b -> checkpoint_runs b = Ok runs.
Proof.
  intros Hs Hw (Hn & Hr & _) He. unfold MAX_RUNS in Hn.
  destruct (puts_rest s census runs Hs (wl_jobs _ Hw) ltac:(lia)) as (h & c & rest & Hh & Hc & Hp). specialize (Hp []).
  unfold encode_checkpoint, encode_with in He. apply obind_Ok in He as (_ & _ & He). rewrite Hp in He. cbn [obind app] in He.
  apply seal_Ok in He as [-> _]. unfold checkpoint_runs. cbv zeta. set (tail := sha256 _ ++ _). clearbody tail.
  rewrite <- !app_assoc. rewrite app_assoc, (get_range_mid (h ++ c) (be_bytes 4 (zlen runs))) by (rewrite ?zlen_app, ?Hh, ?Hc; done).
  cbn [ok_or obind]. pose proof (zlen_nonneg runs). rewrite be_val_small by (cbn; lia). rewrite (proj2 (Z.ltb_ge _ _)) by (unfold MAX_RUNS; lia).
  rewrite app_assoc. unfold zlen at 1. rewrite Nat2Z.id.
  replace (8 + 2 + 16 + 8 + 32 + 24 + 8 + 8 + 24 + 4) with (zlen ((h ++ c) ++ be_bytes 4 (zlen runs))); [by apply checkpoint_fields|].
  rewrite !zlen_app, Hh, Hc. done.
Qed.
End Layout.

(** ** The census. *)
Lemma sorted_omap {A B} (R : relation A) (S : relation B) (g : A -> option B) l :
  (forall x y a b, R x y -> g x = Some a -> g y = Some b -> S a b) -> StronglySorted R l -> StronglySorted S (omap g l).
Proof.
  intros Hg. induction 1 as [|x l _ IH Hx]; [constructor|]. cbn. destruct (g x) as [a|] eqn:Ha; [|done]. constructor; [done|].
  apply Forall_forall. intros b (y & Hy & Hb)%list_elem_of_omap. rewrite Forall_forall in Hx. by eapply Hg; [apply Hx|..].
Qed.
Lemma first_lt (a b : Z) : cmp (a, 0) (b, 0) = Lt -> a < b.
Proof. unfold cmp, prod_cmp. cbn. unfold cmp, Z_cmp. by destruct (Z.compare_spec a b). Qed.
(** Two lists that ascend by a key and have the same elements are equal. *)
Lemma sorted_same {A} (key : A -> Z) (l l' : list A) :
  StronglySorted (fun a b => key a < key b) l -> StronglySorted (fun a b => key a < key b) l' -> (forall x, x ∈ l <-> x ∈ l') -> l = l'.
Proof.
  assert (forall l, StronglySorted (fun a b => key a < key b) l -> StronglySorted (fun a b => cmp (key a) (key b) = Lt) l) as Hc.
  { intros k. induction 1; constructor; [done|]. eapply Forall_impl; [eassumption|]. intros b Hb. by apply Z.compare_lt_iff. }
  intros Hl Hl' Hx. apply (sorted_unique key); [by apply Hc..|].
  apply NoDup_Permutation; [| |done]; eapply (NoDup_fmap_1 key), (strict_nodup key); by apply Hc.
Qed.
Lemma sorted_last l x : StronglySorted Z.lt l -> x ∈ l -> (forall y, y ∈ l -> y <= x) -> exists k, reverse l = x :: k.
Proof.
  intros Hs (l1 & l2 & ->)%list_elem_of_split Hm. destruct l2 as [|y l2]; [exists (reverse l1); by rewrite reverse_snoc|].
  apply StronglySorted_app_1_r in Hs. apply StronglySorted_inv in Hs as [_ Hlt]. rewrite Forall_cons in Hlt. specialize (Hm y ltac:(set_solver)). lia.
Qed.
Section Directory.
Context `{FilesOk F}.
Implicit Types f : F.
Lemma census_segments f l (segs : list (Z * Z)) :
  jf_census f = Ok l -> StronglySorted (fun a b => a.1 < b.1) segs ->
  (forall n k, (n, k) ∈ segs <-> exists c, file_of f (NSegment n) = Some c /\ zlen c = k) -> segments_of l = segs.
Proof.
  intros [Hs He]%census_law Hsort Hsegs. apply (sorted_same fst); [|done|].
  - eapply sorted_omap; [|exact Hs]. intros [[] bx] [[] by_] a b Hr [= <-] [= <-]. by apply first_lt.
  - intros [n k]. rewrite Hsegs, <- He. unfold segments_of. rewrite list_elem_of_omap. split.
    + intros ([[] x] & Hin & [= <- <-]). done.
    + intros Hin. by exists (mkJournalEntry (NSegment n) k).
Qed.
Lemma census_derived f l n k :
  jf_census f = Ok l -> derived_of l !! n = Some k <-> is_derived n = true /\ exists c, file_of f n = Some c /\ zlen c = k.
Proof.
  intros [Hs He]%census_law. unfold derived_of. set (pairs := omap _ l).
  assert (NoDup pairs.*1) as Hn.
  { apply (strict_nodup fst). eapply sorted_omap; [|exact Hs]. intros [x bx] [y by_] a b Hr Ha Hb. cbn in *. repeat case_match; simplify_eq/=. done. }
  rewrite <- elem_of_list_to_map by done. unfold pairs. rewrite list_elem_of_omap, <- He. split.
  - intros ([x bx] & Hin & Hp). cbn in Hp. destruct (is_derived x) eqn:Hd; [|done]. injection Hp as <- <-. done.
  - intros [Hd Hin]. exists (mkJournalEntry n k). cbn. by rewrite Hd.
Qed.
Lemma census_checkpoints f l n c :
  jf_census f = Ok l -> file_of f (NCheckpoint n) = Some c -> (forall m c, file_of f (NCheckpoint m) = Some c -> m <= n) ->
  exists older, checkpoint_names (derived_of l) = n :: older.
Proof.
  intros Hl Hc Hm. unfold checkpoint_names. apply sorted_last.
  - eapply sorted_omap; [|apply btree_sorted]. intros [] [] a b Hr [= <-] [= <-]. by apply first_lt.
  - apply list_elem_of_omap. exists (NCheckpoint n). split; [|done]. apply btree_keys_elem. exists (zlen c).
    apply (census_derived f); [done|]. split; [done|]. by exists c.
  - intros m ([] & Hk%btree_keys_elem & [= <-])%list_elem_of_omap. destruct Hk as [k Hk]. apply (census_derived f) in Hk as (_ & c' & Hc' & _); [|done].
    by eapply Hm.
Qed.
End Directory.

(** ** Frames in a segment file. *)
Section Frames.
Context `{Hasher, Unicode, !HasherOk, !RecordCodec JournalRecord, FilesOk F}.
Implicit Types f : F.
Lemma envelope_fields b e :
  envelope b = Ok e -> HEADER + TRAILER <= e_length e <= MAX_FRAME /\
  (exists size, sub 12 16 b = @Ok ReplayError _ size /\ be_val size = e_length e) /\
  (e_length e = zlen b -> exists q, sub 16 24 b = @Ok ReplayError _ q /\ be_val q = sequence (e_context e)).
Proof.
  unfold envelope. intros He. inv_res He. injection He as <-. cbn [e_length e_context sequence] in *. split; [lia|]. split; [by exists a1|].
  intros Hl. rewrite Hl, sub_all in Ha2 by done. injection Ha2 as <-.
  match goal with Hq : u64_at _ 16 = Ok _ |- _ => unfold u64_at in Hq; apply obind_Ok in Hq as (q & Hq & Hv) end. injection Hv as <-. by exists q.
Qed.
Lemma read_next_frame f n o c frame e :
  readable f -> file_of f (NSegment n) = Some c -> zlen c < 2 ^ 32 -> 0 <= o -> get_range o (o + zlen frame) c = Some frame ->
  envelope frame = Ok e -> e_length e = zlen frame ->
  read_next f n o (zlen c) = Ok (Some (frame, mkLocator (sequence (e_context e)) n o (zlen frame))).
Proof.
  intros Hr Hc Hsmall Ho Hg He Hl. destruct (envelope_fields _ _ He) as ((Hlo & Hhi) & (size & Hsize & Hv) & Hq).
  destruct (Hq Hl) as (q & Hsub & Hval). unfold get_range in Hg. destruct (decide _) as [[Hor Hle]|]; [|done]. injection Hg as Hf.
  rewrite Z.add_simpl_l in Hf. pose proof (zlen_nonneg frame). unfold HEADER, TRAILER, MAX_FRAME in *. unfold read_next.
  rewrite (proj2 (Z.eqb_neq _ _)) by lia. rewrite (wrap_small 64) by (unfold uint; lia).
  replace (Z.min Envelope.HEADER (zlen c - o)) with 144 by (unfold Envelope.HEADER; lia).
  assert (get_range o (o + 144) c = Some (ztake 144 frame)) as Hg.
  { unfold get_range. rewrite decide_True by lia. f_equal. rewrite Z.add_simpl_l, <- Hf. unfold ztake. rewrite take_take. f_equal. lia. }
  rewrite (rd_read _ Hr _ _ _ _ _ Hc Hg). cbn [map_err obind]. rewrite zlen_ztake by lia. change (144 <? 16) with false. cbv iota.
  rewrite <- (ztake_zdrop 144 frame) in Hsize at 1. rewrite sub_prefix in Hsize by (rewrite zlen_ztake; lia). rewrite Hsize. cbn [obind].
  rewrite Hv, Hl. unfold MAX_FRAME, Envelope.HEADER. rewrite (proj2 (Z.ltb_ge _ _)), (proj2 (Z.ltb_ge _ _)) by lia. cbn [orb].
  rewrite (proj2 (Z.ltb_ge _ _)) by lia. rewrite (rd_read _ Hr _ _ _ _ frame Hc) by (unfold get_range; rewrite decide_True by lia; by rewrite Z.add_simpl_l, Hf).
  cbn [map_err obind]. rewrite Hsub. cbn [obind]. by rewrite Hval, !(wrap_small 32) by (unfold uint; lia).
Qed.
Lemma verified_envelope frame l c record digest :
  verified_frame frame l = Ok (c, record, digest) ->
  exists e, envelope frame = Ok e /\ e_length e = zlen frame /\ l_length l = zlen frame /\ sequence (e_context e) = l_sequence l /\ e_context e = c.
Proof.
  unfold verified_frame. intros Hv. inv_res Hv. injection Hv as <- <- <-. destruct (envelope frame) as [e|[]|]; simplify_eq/=. exists a.
  split_and!; try done; lia.
Qed.
Lemma read_first f c frame rest context init digest :
  readable f -> file_of f (NSegment 1) = Some c -> zlen c < 2 ^ 32 -> c = frame ++ rest ->
  verified_frame frame (mkLocator 1 1 0 (zlen frame)) = Ok (context, RPendingInit init, digest) ->
  read_installation f (zlen c) = Ok (installation_id context).
Proof.
  intros Hr Hc Hs -> Hv. destruct (verified_envelope _ _ _ _ _ Hv) as (e & He & Hl & _ & Hseq & <-).
  unfold read_installation. rewrite (read_next_frame f 1 0 _ frame e Hr Hc Hs); [|done| |done|done].
  - cbn [map_err ok_or obind]. cbn in Hseq. rewrite Hseq, Hv. done.
  - rewrite Z.add_0_l. exact (get_range_mid [] frame rest 0 (zlen frame) eq_refl eq_refl).
Qed.
Lemma read_located f installation l c frame context record digest :
  readable f -> file_of f (NSegment (l_segment l)) = Some c -> get_range (l_offset l) (l_offset l + l_length l) c = Some frame ->
  verified_frame frame l = Ok (context, record, digest) -> installation_id context = installation ->
  store_read_frame f installation l = Ok (context, record, digest).
Proof.
  intros Hr Hc Hg Hv Hi. destruct (verified_envelope _ _ _ _ _ Hv) as (e & He & Hl & Hll & _).
  destruct (envelope_fields _ _ He) as ((Hlo & Hhi) & _). unfold store_read_frame, store_frame_bytes, TRAILER in *.
  rewrite (proj2 (Z.ltb_ge _ _)), (proj2 (Z.ltb_ge _ _)) by lia. cbn [orb]. rewrite (rd_read _ Hr _ _ _ _ _ Hc Hg). cbn [map_err obind].
  rewrite Hv. cbn [obind]. by rewrite decide_False by (by intros []).
Qed.
End Frames.

(** ** A directory after a roll. *)
Lemma filter_every {A} (P : A -> Prop) `{!forall x, Decision (P x)} l : Forall P l -> filter P l = l.
Proof. induction 1 as [|x l Hx _ IH]; [done|]. by rewrite filter_cons_True, IH. Qed.
Lemma filter_no {A} (P : A -> Prop) `{!forall x, Decision (P x)} l : Forall (fun x => ~ P x) l -> filter P l = [].
Proof. induction 1 as [|x l Hx _ IH]; [done|]. by rewrite filter_cons_False, IH. Qed.
Lemma run_file_len `{HasherOk} h entries : run_input h entries -> zlen (run_bytes h entries) = file_bytes h.
Proof.
  intros (Hh & Hf & Hn & Hs). unfold run_bytes, file_bytes. pose proof (sha256_array (run_body h entries)) as [Hl _].
  assert (Run.writable h) as Hw by (destruct Hh as (? & ? & ? & ? & ? & ? & ? & ?); unfold Run.writable; naive_solver).
  pose proof (writable_pages h Hw) as Hp. rewrite !zlen_app, Hl, run_body_len by done. unfold run_fits, ISIZE_MAX, HEADER_BYTES, PAGE_BYTES, TRAILER_BYTES in *.
  rewrite wrap_small by (unfold uint; lia). change (zlen COMMIT) with 8. lia.
Qed.
Definition extents (l : list Segment) : list (Z * Z) := (fun g => (sg_first g, sg_bytes g)) <$> l.
Lemma rest_fields s :
  st_installation_id (Restore.at_rest (clear_delta s)) = st_installation_id s /\ st_sequence (Restore.at_rest (clear_delta s)) = st_sequence s /\
  st_last_frame (Restore.at_rest (clear_delta s)) = st_last_frame s /\ st_last_digest (Restore.at_rest (clear_delta s)) = st_last_digest s.
Proof. by destruct s. Qed.
Lemma windows_idle (P : Segment -> Segment -> bool) l :
  Forall (fun g => sg_frames g = 0) l -> windows_all (fun a b => negb ((0 <? sg_frames a) && P a b)) l = true.
Proof.
  induction 1 as [|a l Ha _ IH]; [done|]. destruct l as [|b l]; [done|]. cbn [windows_all] in *. rewrite IH, Ha. done.
Qed.
Section Rolled.
Context `{Hasher, Unicode, !HasherOk, !RecordCodec JournalRecord, FilesOk F}.
Implicit Types (j : SegmentJournal F) (f : F) (s : Replay).
(** The driver [j] has rolled at the state [s]: [sealed] are the segments with
    frames, [checkpoint] the bytes of the checkpoint at the head, [pages] the
    entries of the listed runs. *)
Record rolled_over j s (log : bytes) (sealed : list Segment) (checkpoint : bytes) (pages : list Page) : Prop := {
  ro_state : jd_state j = clear_delta s;
  ro_reached : exists ix, reached ix s;
  ro_storable : @storable _ (journal_index j) (clear_delta s);
  ro_limits : within_limits (clear_delta s);
  ro_installation : st_installation_id s = jd_installation j;
  ro_room : st_sequence s < U64_MAX;
  ro_durable : durable log (tip s) j;
  ro_listed n c : file_of (jd_files j) (NSegment n) = Some c -> n ∈ sg_first <$> jd_segments j;
  ro_segments : jd_segments j = sealed ++ [new_segment (st_sequence s + 1)];
  ro_sealed : Forall (fun g => sg_first g <= st_sequence s) sealed;
  ro_first : exists g rest frame more context init digest, sealed = g :: rest /\ sg_first g = 1 /\
    file_of (jd_files j) (NSegment 1) = Some (frame ++ more) /\
    verified_frame frame (mkLocator 1 1 0 (zlen frame)) = Ok (context, RPendingInit init, digest) /\
    installation_id context = jd_installation j;
  ro_last : exists g c frame context record, last sealed = Some g /\ sg_first g = l_segment (st_last_frame s) /\
    file_of (jd_files j) (NSegment (sg_first g)) = Some c /\
    get_range (l_offset (st_last_frame s)) (l_offset (st_last_frame s) + l_length (st_last_frame s)) c = Some frame /\
    verified_frame frame (st_last_frame s) = Ok (context, record, st_last_digest s) /\
    installation_id context = jd_installation j /\ l_offset (st_last_frame s) + l_length (st_last_frame s) = zlen c;
  ro_census : census_ok (roll_census j (st_sequence s));
  ro_runs : runs_ok (st_sequence s) (jd_runs j);
  ro_shelved : Forall2 (shelved (jd_files j) (jd_installation j)) (jd_runs j) pages;
  ro_encoded : encode_checkpoint (jd_state j) (roll_census j (st_sequence s)) (jd_runs j) = Ok checkpoint;
  ro_checkpoint : file_of (jd_files j) (NCheckpoint (st_sequence s)) = Some checkpoint;
  ro_newest n c : file_of (jd_files j) (NCheckpoint n) = Some c -> n <= st_sequence s;
}.
Context j s log sealed checkpoint pages l (Hro : rolled_over j s log sealed checkpoint pages)
  (Hread : readable (jd_files j)) (Hcensus : jf_census (jd_files j) = Ok l).
Lemma segment_size g : g ∈ jd_segments j -> exists c, file_of (jd_files j) (NSegment (sg_first g)) = Some c /\ zlen c = sg_bytes g.
Proof.
  intros Hg. destruct (du_files _ _ _ (ro_durable _ _ _ _ _ _ Hro)) as (cs & Hcs & _). apply list_elem_of_lookup in Hg as (i & Hi).
  destruct (Forall2_lookup_l _ _ _ _ _ Hcs Hi) as (c & _ & Hc & Hz). by exists c.
Qed.
Lemma extents_sorted : StronglySorted (fun a b : Z * Z => a.1 < b.1) (extents (jd_segments j)).
Proof.
  pose proof (du_sorted _ _ _ (ro_durable _ _ _ _ _ _ Hro)) as Hs. unfold extents. induction (jd_segments j) as [|g k IH]; [constructor|].
  cbn in *. apply StronglySorted_inv in Hs as [Hs Hg]. constructor; [by apply IH|]. apply Forall_fmap. rewrite Forall_fmap in Hg. done.
Qed.
Lemma census_extents : segments_of l = extents (jd_segments j).
Proof.
  apply (census_segments (jd_files j)); [done|apply extents_sorted|]. intros n k. unfold extents. rewrite list_elem_of_fmap. split.
  - intros (g & [= -> ->] & Hg). by apply segment_size.
  - intros (c & Hc & <-). pose proof (ro_listed _ _ _ _ _ _ Hro n c Hc) as (g & -> & Hg)%list_elem_of_fmap. exists g. split; [|done].
    destruct (segment_size g Hg) as (c' & Hc' & <-). rewrite Hc in Hc'. by injection Hc' as ->.
Qed.
Lemma head_positive : 0 < st_sequence s.
Proof. pose proof (sb_head _ (ro_storable _ _ _ _ _ _ Hro)) as []. done. Qed.
(** The segments up to the head. *)
Lemma covered_segments : filter (fun g => sg_first g <= st_sequence s) (jd_segments j) = sealed.
Proof.
  rewrite (ro_segments _ _ _ _ _ _ Hro), filter_app, (filter_cons_False _ (new_segment _)) by (cbn; lia). rewrite app_nil_r.
  apply filter_every, (ro_sealed _ _ _ _ _ _ Hro).
Qed.
Lemma extents_filter (P : Z -> Prop) `{!forall n, Decision (P n)} k :
  filter (fun fb : Z * Z => P fb.1) (extents k) = extents (filter (fun g => P (sg_first g)) k).
Proof. unfold extents. induction k as [|g k IH]; [done|]. cbn [fmap list_fmap]. rewrite !filter_cons. cbn [fst]. case_decide; [|done]. cbn. by rewrite IH. Qed.
Lemma covered_extents : filter (fun fb : Z * Z => fb.1 <= st_sequence s) (extents (jd_segments j)) = extents sealed.
Proof. pose proof (extents_filter (fun n => n <= st_sequence s) (jd_segments j)) as E. cbv beta in E. rewrite E. f_equal. apply covered_segments. Qed.
Lemma tail_extents : filter (fun fb : Z * Z => fb.1 > st_sequence s) (extents (jd_segments j)) = [(st_sequence s + 1, 0)].
Proof.
  pose proof (extents_filter (fun n => n > st_sequence s) (jd_segments j)) as E. cbv beta in E. rewrite E, (ro_segments _ _ _ _ _ _ Hro), filter_app.
  rewrite (filter_cons_True _ (new_segment _)) by (cbn; lia). unfold extents. rewrite fmap_app. cbn.
  rewrite filter_no; [done|]. eapply Forall_impl; [apply (ro_sealed _ _ _ _ _ _ Hro)|]. cbv beta. lia.
Qed.
Lemma derived_size n c : is_derived n = true -> file_of (jd_files j) n = Some c -> derived_of l !! n = Some (zlen c).
Proof. intros Hd Hc. apply (census_derived (jd_files j)); [done|]. split; [done|]. by exists c. Qed.
Lemma run_headers_ok runs ps : Forall2 (shelved (jd_files j) (jd_installation j)) runs ps -> run_headers (jd_files j) (jd_installation j) runs = Ok tt.
Proof. induction 1 as [|run page runs ps Hs _ IH]; [done|]. cbn. by rewrite (shelved_header _ _ _ _ Hread Hs). Qed.
Lemma runs_derived runs ps : Forall2 (shelved (jd_files j) (jd_installation j)) runs ps ->
  forallb (fun run => bool_decide (derived_of l !! run_name run = Some (ru_bytes run))) runs = true.
Proof.
  induction 1 as [|run page runs ps [Hi Ha Hf Hb Hd] _ IH]; [done|]. cbn. rewrite IH, andb_true_r. apply bool_decide_eq_true.
  rewrite (derived_size (run_name run) _ eq_refl Hf), Hb. f_equal. by apply run_file_len.
Qed.
(** The checkpoint at the head is valid. *)
Definition restored : Checkpoint := mkCheckpoint (roll_census j (st_sequence s)) (jd_runs j) (Restore.at_rest (clear_delta s)).
Lemma select_head j0 :
  jd_files j0 = jd_files j -> jd_derived j0 = derived_of l -> jd_installation j0 = jd_installation j ->
  select j0 (st_sequence s) (extents (jd_segments j)) = Ok restored.
Proof.
  intros Hf Hd Hi. unfold select. rewrite Hf, Hd, Hi. pose proof Hro as [].
  rewrite (derived_size (NCheckpoint (st_sequence s)) _ eq_refl ro_checkpoint0). cbn [ok_or obind].
  assert (zlen checkpoint <= MAX_CHECKPOINT) as Hsize.
  { unfold encode_checkpoint, encode_with in ro_encoded0. inv_res ro_encoded0. by apply seal_Ok in ro_encoded0 as [_ ?]. }
  rewrite (proj2 (Z.ltb_ge _ _)) by done. rewrite (rd_read _ Hread _ _ _ _ checkpoint ro_checkpoint0).
  2: { pose proof (get_range_mid [] checkpoint [] 0 (zlen checkpoint) eq_refl eq_refl) as Hg. by rewrite app_nil_r in Hg. }
  cbn [map_err obind]. rewrite ro_state0 in ro_encoded0. rewrite (encoded_runs _ _ _ _ ro_storable0 ro_limits0 ro_runs0 ro_encoded0). cbn [obind].
  rewrite (runs_derived _ _ ro_shelved0), (run_headers_ok _ _ ro_shelved0). cbn [negb obind].
  pose proof (decode_encoded _ _ _ _ ro_storable0 ro_limits0 ro_census0 ro_runs0 ro_encoded0) as Hdec. unfold journal_index in Hdec. rewrite Hdec.
  destruct ro_reached0 as [ix Hix]. rewrite (restored_clear ix s Hix). cbn [obind ck_state ck_census ck_runs].
  destruct (rest_fields s) as (-> & -> & -> & ->). destruct ro_last0 as (g & c & frame & context & record & Hg & Hfirst & Hc & Hrange & Hver & Hinst & Hend).
  rewrite decide_False by naive_solver. rewrite covered_extents.
  assert (ce_segments (roll_census j (st_sequence s)) = zlen (extents sealed) /\
    fst <$> last (extents sealed) = Some (ce_holding (roll_census j (st_sequence s))) /\
    ce_bytes (roll_census j (st_sequence s)) = sum64 (snd <$> extents sealed) /\ ce_holding (roll_census j (st_sequence s)) = sg_first g) as (E1 & E2 & E3 & E4).
  { unfold roll_census. cbv zeta. rewrite covered_segments, Hg. cbn [ce_segments ce_holding ce_bytes]. unfold extents.
    split; [unfold zlen; by rewrite length_fmap|]. split; [by rewrite fmap_last, Hg|]. split; [|done]. f_equal. by rewrite <- list_fmap_compose. }
  rewrite decide_False by (rewrite E1, E2, E3, E4, Hfirst; naive_solver).
  rewrite Hfirst in Hc. rewrite (read_located _ _ _ _ _ _ _ _ Hread Hc Hrange Hver Hinst). cbn [obind]. by rewrite decide_False by (by intros []).
Qed.
#[local] Opaque clear_delta encode_checkpoint decode_checkpoint.
(** The state a driver starts from. *)
Definition never (polls : nat) : bool := false.
Definition seal_head (g : Segment) : Segment := mkSegment (sg_first g) (st_sequence s) (sg_bytes g) (sg_frames g) (st_last_digest s).
Definition found_segments : list Segment := update_last seal_head (sealed_segment <$> extents sealed).
Lemma found_extents : extents found_segments = extents sealed /\ Forall (fun g => sg_frames g = 0) found_segments.
Proof.
  destruct (ro_last _ _ _ _ _ _ Hro) as (g & _ & _ & _ & _ & Hg & _). apply last_Some in Hg as [k Ek].
  assert (sealed_segment <$> extents (k ++ [g]) = (sealed_segment <$> extents k) ++ [sealed_segment (sg_first g, sg_bytes g)]) as E
    by (unfold extents; by rewrite !fmap_app).
  unfold found_segments. rewrite Ek, E, update_last_snoc. unfold extents. rewrite !fmap_app. split.
  - f_equal. rewrite <- !list_fmap_compose. apply list_fmap_ext. done.
  - apply Forall_app. split; [|by repeat constructor]. rewrite <- list_fmap_compose. apply Forall_fmap, Forall_true. done.
Qed.
Lemma adopt_head j0 :
  exists j1, adopt restored (extents (jd_segments j)) j0 = Ok j1 /\ jd_files j1 = jd_files j0 /\ jd_runs j1 = jd_runs j /\
    jd_installation j1 = jd_installation j0 /\ jd_segments j1 = found_segments /\ jd_state j1 = Restore.at_rest (clear_delta s).
Proof.
  unfold adopt. cbn [restored ck_state ck_runs]. destruct (rest_fields s) as (_ & E2 & E3 & E4). rewrite E2, E3, E4, covered_extents.
  destruct (ro_last _ _ _ _ _ _ Hro) as (g & c & _ & _ & _ & Hg & Hfirst & Hc & _ & _ & _ & Hend). unfold extents at 1. rewrite !fmap_last, Hg.
  cbn [fmap option_fmap option_map ok_or obind sealed_segment sg_first sg_bytes fst snd]. rewrite decide_False.
  - eexists. split; [reflexivity|]. cbn [jset_sealed jset_segments jset_state jset_checkpoints jset_runs jd_files jd_runs jd_installation jd_segments jd_state]. done.
  - destruct (segment_size g) as (c' & Hc' & Hz).
    { rewrite (ro_segments _ _ _ _ _ _ Hro). apply elem_of_app. left. by apply last_Some_elem_of. }
    rewrite Hc in Hc'. injection Hc' as <-. intros [?|?]; [done|lia].
Qed.
(** The tail is the empty next segment. *)
Lemma replay_empty polls j1 :
  jd_files j1 = jd_files j -> jd_state j1 = Restore.at_rest (clear_delta s) ->
  replay_tail never polls false (extents (jd_segments j)) (st_sequence s + 1) [(st_sequence s + 1, 0)] (Some (jd_state j1)) j1 =
  Ok (S (S polls), jset_sealed false (jset_segments (jd_segments j1 ++ [new_segment (st_sequence s + 1)]) (jset_state (jd_state j1) j1))).
Proof.
  intros Hf Hs. cbn [replay_tail replay_segment Z.to_nat never poll_open obind]. unfold read_next. rewrite Z.eqb_refl. cbn [map_err obind ok_or].
  destruct (rest_fields s) as (_ & E2 & _ & _). rewrite Hs, E2. pose proof head_positive. pose proof (ro_room _ _ _ _ _ _ Hro) as Hroom.
  assert (wrap 64 (st_sequence s + 1) = st_sequence s + 1) as Hw by (apply wrap_small; unfold uint, U64_MAX in *; lia).
  cbn [sg_frames Z.eqb andb]. rewrite decide_False by (rewrite Hw; intros [?|?]; done).
  cbn [obind andb]. done.
Qed.
Lemma open_tail j0 polls :
  jd_files j0 = jd_files j ->
  exists j1, open_from never false (extents (jd_segments j)) (Some restored) polls j0 = Ok (S (S polls), j1) /\ jd_files j1 = jd_files j /\
    jd_runs j1 = jd_runs j /\ jd_installation j1 = jd_installation j0 /\ jd_sealed j1 = false /\
    jd_segments j1 = found_segments ++ [new_segment (st_sequence s + 1)] /\ jd_state j1 = Restore.at_rest (clear_delta s).
Proof.
  intros Hf. destruct (adopt_head j0) as (j1 & Ha & Hf1 & Hr1 & Hi1 & Hs1 & Hst1). unfold open_from.
  cbn [restored ck_state]. destruct (rest_fields s) as (_ & E2 & _ & _). rewrite E2, tail_extents. cbn [length]. rewrite decide_False by lia.
  fold restored. rewrite Ha. cbn [obind]. rewrite (proj2 (Z.ltb_lt _ _)) by apply head_positive.
  assert (last (extents (jd_segments j)) = Some (st_sequence s + 1, 0)) as ->.
  { rewrite (ro_segments _ _ _ _ _ _ Hro). unfold extents. rewrite fmap_app. by apply last_snoc. }
  cbn [fst]. rewrite (replay_empty polls j1) by congruence. eexists. split; [reflexivity|].
  cbn [jset_sealed jset_segments jset_state jd_files jd_runs jd_installation jd_sealed jd_segments jd_state]. rewrite Hs1. split_and!; congruence.
Qed.
Lemma chain_ok j1 : jd_sealed j1 = false -> jd_segments j1 = found_segments ++ [new_segment (st_sequence s + 1)] ->
  segments_chain j1 (extents (jd_segments j)) = true /\ extents (jd_segments j1) = extents (jd_segments j).
Proof.
  intros Hs Hseg. destruct found_extents as [Hfe Hff].
  assert (extents (jd_segments j1) = extents (jd_segments j)) as He.
  { rewrite Hseg, (ro_segments _ _ _ _ _ _ Hro). unfold extents in *. rewrite !fmap_app. by rewrite Hfe. }
  split; [|done]. unfold segments_chain. rewrite Hs, <- He. cbn [andb negb]. rewrite andb_true_r. apply andb_true_iff. split.
  - apply bool_decide_eq_true. unfold extents. by rewrite <- list_fmap_compose.
  - apply windows_idle. rewrite Hseg. apply Forall_app. split; [done|by repeat constructor].
Qed.
End Rolled.

(** ** What a roll leaves. *)
Section RollOver.
Context `{Hasher, Unicode, !HasherOk, !RecordCodec JournalRecord, FilesOk F}.
Implicit Types (j : SegmentJournal F) (f : F) (s : Replay).
(** Operations that touch files and their ledger only. *)
Definition quiet j j' : Prop :=
  jd_state j' = jd_state j /\ jd_segments j' = jd_segments j /\ jd_runs j' = jd_runs j /\ jd_checkpoints j' = jd_checkpoints j /\
  jd_merged j' = jd_merged j /\ jd_installation j' = jd_installation j.
#[export] Instance quiet_pre : PreOrder quiet.
Proof. split; [by intros j|]. intros a b c (? & ? & ? & ? & ? & ?) (? & ? & ? & ? & ? & ?). unfold quiet. split_and!; congruence. Qed.
Lemma fence_quiet {A} e : steps_by quiet (fence_file (A := A) e).
Proof. by destruct e; intros j. Qed.
Lemma files_quiet {A} (op : F -> FileResult A * F) : steps_by quiet (on_files op).
Proof. intros j. unfold on_files. by destruct (op (jd_files j)). Qed.
Lemma fenced_quiet {A} (op : F -> FileResult A * F) : steps_by quiet (fenced_op op).
Proof. apply steps_bind; [apply _|apply files_quiet|]. intros [a|e|]; [by intros j|apply fence_quiet|by intros j]. Qed.
Lemma writes_quiet n h entries : steps_by quiet (run_writes n h entries).
Proof. intros j. unfold run_writes. by destruct (write_entries n h entries (jd_files j, None)) as [r [f x]]. Qed.
Ltac quiet :=
  cbv zeta;
  lazymatch goal with
  | |- steps_by quiet (st_bind _ _) => apply steps_bind; [apply _|quiet|intros ?; quiet]
  | |- steps_by quiet (fenced_op _) => apply fenced_quiet
  | |- steps_by quiet (on_files _) => apply files_quiet
  | |- steps_by quiet (run_writes _ _ _) => apply writes_quiet
  | |- steps_by quiet (fence_file _) => apply fence_quiet
  | |- steps_by quiet (match _ with _ => _ end) => case_match; quiet
  | |- _ => by intros ?
  end.
Lemma write_file_quiet n b p : steps_by quiet (write_file n b p).
Proof. unfold write_file. quiet. Qed.
Lemma write_run_quiet level first last entries : steps_by quiet (write_run level first last entries).
Proof. unfold write_run. quiet. Qed.
Lemma publish_checkpoint_quiet head size : steps_by quiet (publish_checkpoint head size).
Proof. unfold publish_checkpoint. quiet. Qed.
Lemma read_free_quiet : steps_by quiet (read_free (F := F)).
Proof. unfold read_free. quiet. Qed.
Lemma remove_all_quiet names : steps_by quiet (remove_all (F := F) names).
Proof. induction names as [|n names IH]; cbn [remove_all]; quiet. Qed.
Lemma quiet_of {A} (c : act A) j r j' : steps_by quiet c -> c j = (r, j') -> quiet j j'.
Proof. intros Hc Hj. specialize (Hc j). by rewrite Hj in Hc. Qed.

(** *** The checkpoint file. *)
Lemma splice_empty b : splice 0 b [] = b.
Proof.
  unfold splice, ztake, zdrop. cbn [Z.to_nat take app]. rewrite drop_ge, app_nil_r; [done|]. unfold zeros. rewrite length_replicate. unfold zlen. cbn [length]. lia.
Qed.
Lemma write_file_content n b p j u j' : write_file n b p j = (Ok u, j') -> file_of (jd_files j') n = Some b.
Proof.
  intros Hw. unfold write_file in Hw. inv_act Hw. destruct a0 as [[]|e|]; [|by inv_act Hw; destruct e|done].
  inv_act Hw. apply fenced_Ok in Hw as (g & Hw & ->). cbn [jset_files jset_derived jd_files] in *.
  apply create_law in Ha as [_ [(_ & _ & He)|[Hno _]]]; [|by destruct a]. apply write_law in Ha0 as (_ & _ & Hc).
  destruct (Hc eq_refl) as (c & Hc0 & Hf). rewrite He in Hc0. injection Hc0 as <-. apply sync_law in Hw.
  rewrite (Hw n (not_elem_of_nil n)), Hf. by rewrite splice_empty.
Qed.
Lemma publish_checkpoint_content head size b j u j' :
  publish_checkpoint head size j = (Ok u, j') -> file_of (jd_files j) (NCheckpointTmp head) = Some b ->
  file_of (jd_files j') (NCheckpoint head) = Some b.
Proof.
  intros Hp Hb. unfold publish_checkpoint in Hp. inv_act Hp. apply point_Ok in Hp as ->. apply publish_law in Ha as [_ Hm]; [|done].
  cbn [jset_files jset_derived jd_files]. destruct Hm as [[_ (c & Hc & _ & Hto)]|[Hno _]]; [|by destruct a]. rewrite Hb in Hc. by injection Hc as ->.
Qed.
#[local] Opaque clear_delta encode_checkpoint.
Lemma roll_checkpoint_file head run j u j' :
  roll_checkpoint head run j = (Ok u, j') ->
  let runs := roll_runs (jd_runs j) (jd_merged j) run in
  jd_segments j' = jd_segments j /\ jd_checkpoints j' = <[head := runs]> (jd_checkpoints j) /\ jd_merged j' = None /\
  exists b, encode_checkpoint (clear_delta (jd_state j)) (roll_census j head) runs = Ok b /\ file_of (jd_files j') (NCheckpoint head) = Some b.
Proof.
  intros Hr runs. unfold roll_checkpoint in Hr. inv_act Hr. fold runs in Hr.
  assert (jd_files j' = jd_files j1 /\ jd_segments j' = jd_segments j1 /\ jd_checkpoints j' = <[head := runs]> (jd_checkpoints j1) /\ jd_merged j' = jd_merged j1)
    as (Hf & Hs & Hc & Hm) by (by injection Hr as _ <-).
  pose proof (quiet_of _ _ _ _ (write_file_quiet _ _ _) Ha0) as (_ & Q1 & _ & Q2 & Q3 & _).
  pose proof (quiet_of _ _ _ _ (publish_checkpoint_quiet _ _) Ha1) as (_ & P1 & _ & P2 & P3 & _). cbn [jset_merged jd_segments jd_checkpoints jd_merged] in *.
  split; [congruence|]. split; [congruence|]. split; [congruence|]. exists a. split; [done|]. rewrite Hf.
  eapply publish_checkpoint_content; [exact Ha1|]. by eapply write_file_content.
Qed.

(** *** [retire] keeps the newest checkpoint and its runs. *)
Lemma newest_two_last (m : gmap Z (list RunRef)) k v :
  m !! k = Some v -> (forall k', is_Some (m !! k') -> k' <= k) -> newest_two m !! k = Some v.
Proof.
  intros Hk Hm. unfold newest_two. pose proof (btree_iter_sorted m) as Hs. pose proof (btree_iter_nodup m) as Hn.
  assert ((k, v) ∈ btree_iter m) as (l1 & l2 & E)%list_elem_of_split by (by apply btree_iter_elem).
  assert (l2 = []) as ->.
  { destruct l2 as [|[k' v'] l2]; [done|]. rewrite E in Hs. apply StronglySorted_app_1_r in Hs. apply StronglySorted_inv in Hs as [_ Hs].
    rewrite Forall_cons in Hs. destruct Hs as [Hlt _]. assert (k < k') by (apply Z.compare_lt_iff; exact Hlt).
    assert (k' <= k); [|lia]. apply Hm. exists v'. apply btree_iter_elem. rewrite E. set_solver. }
  rewrite E in *. apply elem_of_list_to_map.
  - eapply sublist_NoDup; [exact Hn|]. apply fmap_sublist. unfold zdrop. apply sublist_drop.
  - assert (zlen (l1 ++ [(k, v)]) = zlen l1 + 1) as -> by len. pose proof (zlen_nonneg l1). rewrite zdrop_app_le by lia. set_solver.
Qed.
Lemma checkpoint_kept j n runs : jd_checkpoints j !! n = Some runs ->
  NCheckpoint n ∈ kept_names j /\ forall r, r ∈ runs -> run_name r ∈ kept_names j.
Proof.
  intros Hn%btree_iter_elem. unfold kept_names. split; [|intros r Hr]; apply elem_of_app; left; apply elem_concat; eexists.
  - split; [|apply list_elem_of_fmap; exists (n, runs); split; [reflexivity|done]]. constructor.
  - split; [|apply list_elem_of_fmap; exists (n, runs); split; [reflexivity|done]]. constructor. by apply list_elem_of_fmap_2.
Qed.
Definition shrinks (names : list JournalName) f f' : Prop :=
  forall n, file_of f' n = file_of f n \/ n ∈ names /\ is_derived n = true /\ file_of f' n = None.
Lemma remove_all_shrinks names j u j' : remove_all names j = (Ok u, j') -> shrinks names (jd_files j) (jd_files j').
Proof.
  revert j. induction names as [|n names IH]; intros j Hr; cbn [remove_all] in Hr; [injection Hr as _ <-; by intros n; left|].
  inv_act Hr. apply IH in Hr. cbn [jset_files jset_derived jd_files] in Hr. apply remove_law in Ha as (Hs & Hc & _).
  intros k. specialize (Hr k). destruct (decide (k = n)) as [->|Hne].
  - destruct Hr as [Hr|(? & ? & ?)]; [rewrite Hr|right; set_solver]. destruct Hc as [?|[? ?]]; [by left|right; set_solver].
  - rewrite <- (Hs k) by set_solver. destruct Hr as [?|(? & ? & ?)]; [by left|right; set_solver].
Qed.
Lemma retire_spec j u j' :
  retire j = (Ok u, j') -> shrinks (stale_names (jset_checkpoints (newest_two (jd_checkpoints j)) j)) (jd_files j) (jd_files j') /\
  jd_state j' = jd_state j /\ jd_segments j' = jd_segments j /\ jd_runs j' = jd_runs j /\ jd_installation j' = jd_installation j.
Proof.
  intros Hr. unfold retire in Hr. inv_act Hr. pose proof (quiet_of _ _ _ _ (remove_all_quiet _) Hr) as (Q1 & Q2 & Q3 & _ & _ & Q4).
  apply remove_all_shrinks in Hr. cbn [jset_checkpoints jd_files jd_state jd_segments jd_runs jd_installation] in *. done.
Qed.
Lemma stale_not_kept j n : n ∈ kept_names j -> n ∉ stale_names j.
Proof.
  intros Hk [Hs _]%list_elem_of_filter. apply andb_true_iff in Hs as [Hs%bool_decide_eq_true _]. done.
Qed.
Lemma roll_segment_files j u j' next :
  roll_segment j = (Ok u, j') -> next = wrap 64 (st_sequence (jd_state j) + 1) -> next ∉ sg_first <$> jd_segments j ->
  jd_segments j' = jd_segments j ++ [new_segment next] /\
  (jd_state j' = jd_state j /\ jd_runs j' = jd_runs j /\ jd_installation j' = jd_installation j) /\
  (forall n, n <> NSegment next -> file_of (jd_files j') n = file_of (jd_files j) n \/ is_derived n = true /\ file_of (jd_files j') n = None) /\
  file_of (jd_files j') (NSegment next) = Some [] /\
  forall m runs, jd_checkpoints j !! m = Some runs -> (forall k, is_Some (jd_checkpoints j !! k) -> k <= m) ->
    file_of (jd_files j') (NCheckpoint m) = file_of (jd_files j) (NCheckpoint m) /\
    forall r, r ∈ runs -> file_of (jd_files j') (run_name r) = file_of (jd_files j) (run_name r).
Proof.
  intros Hr Hnext Hn. unfold roll_segment in Hr. inv_act Hr. rewrite <- Hnext in *.
  match goal with Hx : add_next _ _ = _ |- _ => rename Hx into Hadd end. unfold add_next in Hadd. inv_act Hadd. destruct (existsb _ _) eqn:Hx.
  { exfalso. apply Hn. apply existsb_exists in Hx as (g & Hg%list_elem_of_In & <-%Z.eqb_eq). by apply list_elem_of_fmap_2. }
  inv_act Hadd. injection Hadd as _ <-. apply retire_spec in Hr as (Hsh & Hst & Hseg & Hruns & Hinst).
  cbn [jset_sealed jset_segments jset_files jd_files jd_state jd_segments jd_runs jd_installation jd_checkpoints] in *.
  match goal with Hx : jf_create _ _ = (Ok ?v, _) |- _ => apply create_law in Hx as [Hs [(_ & _ & He)|[Hno _]]]; [|by destruct v] end.
  split; [done|]. split; [done|]. split; [|split].
  - intros n Hne. destruct (Hsh n) as [->|(_ & ? & ?)]; [left|by right]. apply Hs. set_solver.
  - destruct (Hsh (NSegment next)) as [->|(_ & ? & _)]; [done|done].
  - intros m runs Hm Hmax. match type of Hsh with shrinks (stale_names ?x) _ _ => set (jk := x) in Hsh end.
    assert (jd_checkpoints jk !! m = Some runs) as Hk by (by apply newest_two_last). destruct (checkpoint_kept _ _ _ Hk) as [Hc Hrs]. split.
    + destruct (Hsh (NCheckpoint m)) as [->|(Hin & _)]; [apply Hs; set_solver|]. by apply stale_not_kept in Hin.
    + intros r Hin%Hrs. destruct (Hsh (run_name r)) as [->|(Hst' & _)]; [apply Hs; unfold run_name; set_solver|]. by apply stale_not_kept in Hst'.
Qed.
End RollOver.

(** ** The roll of a sound journal. *)
Lemma clear_fields s :
  st_installation_id (clear_delta s) = st_installation_id s /\ st_sequence (clear_delta s) = st_sequence s /\
  st_last_frame (clear_delta s) = st_last_frame s /\ st_last_digest (clear_delta s) = st_last_digest s.
Proof. by destruct s. Qed.
Section SoundRoll.
Context `{Hasher, Unicode, !HasherOk, !RecordCodec JournalRecord, FilesOk F}.
Implicit Types (j : SegmentJournal F) (f : F) (s : Replay).
(** The files hold what the driver's state says: the segments are on disk and no
    other, they begin with the frame that created the journal and end with the
    frame of the head, the listed runs are on the shelf, and no checkpoint is
    ahead of the state. *)
Record sound_journal j (log : bytes) (pages : list Page) : Prop := {
  sj_durable : durable log (tip (jd_state j)) j;
  sj_shelf : shelf_ok j pages;
  sj_merged : jd_merged j = None;
  sj_installation : st_installation_id (jd_state j) = jd_installation j;
  sj_listed n c : file_of (jd_files j) (NSegment n) = Some c -> n ∈ sg_first <$> jd_segments j;
  sj_sealed : Forall (fun g => sg_first g <= st_sequence (jd_state j)) (jd_segments j);
  sj_first : exists g rest frame more context init digest, jd_segments j = g :: rest /\ sg_first g = 1 /\
    file_of (jd_files j) (NSegment 1) = Some (frame ++ more) /\
    verified_frame frame (mkLocator 1 1 0 (zlen frame)) = Ok (context, RPendingInit init, digest) /\
    installation_id context = jd_installation j;
  sj_last : exists g c frame context record, last (jd_segments j) = Some g /\ sg_first g = l_segment (st_last_frame (jd_state j)) /\
    file_of (jd_files j) (NSegment (sg_first g)) = Some c /\
    get_range (l_offset (st_last_frame (jd_state j))) (l_offset (st_last_frame (jd_state j)) + l_length (st_last_frame (jd_state j))) c = Some frame /\
    verified_frame frame (st_last_frame (jd_state j)) = Ok (context, record, st_last_digest (jd_state j)) /\
    installation_id context = jd_installation j /\
    l_offset (st_last_frame (jd_state j)) + l_length (st_last_frame (jd_state j)) = zlen c;
  sj_checkpoints n c : file_of (jd_files j) (NCheckpoint n) = Some c -> n <= st_sequence (jd_state j);
  sj_known n : is_Some (jd_checkpoints j !! n) -> n <= st_sequence (jd_state j);
}.
#[local] Opaque clear_delta encode_checkpoint.
Lemma roll_derived_over j j' log pages entries :
  sound_journal j log pages -> roll_entries j (st_base (jd_state j) + 1) (st_sequence (jd_state j)) = Ok entries ->
  run_input (header_new 0 (jd_installation j) (st_base (jd_state j) + 1) (st_sequence (jd_state j)) (zlen entries)) entries ->
  roll_derived j = (Ok tt, j') ->
  Forall2 (shelved (jd_files j') (jd_installation j)) (jd_runs j') (pages ++ [entries]) /\
  (jd_state j' = clear_delta (jd_state j) /\ jd_installation j' = jd_installation j /\ jd_segments j' = jd_segments j) /\
  jd_checkpoints j' = <[st_sequence (jd_state j) := jd_runs j']> (jd_checkpoints j) /\
  (forall n, is_derived n = false -> file_of (jd_files j') n = file_of (jd_files j) n) /\
  (forall n, n <> st_sequence (jd_state j) -> file_of (jd_files j') (NCheckpoint n) = file_of (jd_files j) (NCheckpoint n)) /\
  exists b, encode_checkpoint (clear_delta (jd_state j)) (roll_census j (st_sequence (jd_state j))) (jd_runs j') = Ok b /\
    file_of (jd_files j') (NCheckpoint (st_sequence (jd_state j))) = Some b.
Proof.
  intros Hsj He Hi Hr. pose proof (sj_shelf _ _ _ Hsj) as Hok. destruct (roll_derived_shelves _ _ _ _ Hok (sj_merged _ _ _ Hsj) He Hi Hr) as (Hsh & Hst & Hinst).
  rewrite Hinst in Hsh. split; [done|]. pose proof Hok as [_ _ Hb Hu].
  unfold roll_derived in Hr. apply bind_Ok in Hr as (a & j0 & [= <- <-] & Hr). cbv zeta in Hr. rewrite (proj2 (Z.eqb_neq _ _)) in Hr by lia.
  cbn [andb] in Hr. rewrite wrap_small in Hr by (unfold uint, U64_MAX in *; lia). rewrite He in Hr. inv_act Hr. injection Ha as <-.
  destruct (write_run_shelves _ _ _ _ _ _ _ Hi Ha0) as (_ & _ & _ & Hs1 & _).
  pose proof (quiet_of _ _ _ _ (write_run_quiet _ _ _ _) Ha0) as (Q1 & Q2 & Q3 & Q4 & Q5 & Q6).
  destruct (roll_checkpoint_same _ _ _ _ _ Hr) as (Hs2 & _ & Hruns & _). destruct (roll_checkpoint_file _ _ _ _ _ Hr) as (Hseg & Hcp & _ & b & Henc & Hfile).
  rewrite <- Hruns in Hcp, Henc. split; [split_and!; [done|done|congruence]|]. split; [congruence|]. split; [|split].
  - intros n Hn. rewrite (Hs2 n), (Hs1 n); [done|..]; intros [->|[->|[]%elem_of_nil]%elem_of_cons]%elem_of_cons; done.
  - intros n Hn. rewrite (Hs2 (NCheckpoint n)), (Hs1 (NCheckpoint n)); [done|..]; intros [[=]|[[=]|[]%elem_of_nil]%elem_of_cons]%elem_of_cons; done.
  - exists b. split; [|done]. rewrite Q1 in Henc. unfold roll_census in *. by rewrite Q2 in Henc.
Qed.
End SoundRoll.

(** ** A roll, then an open. *)
Section RollThenOpen.
Context `{Hasher, Unicode, !HasherOk, !RecordCodec JournalRecord, FilesOk F}.
Implicit Types (j : SegmentJournal F) (f : F) (s : Replay).
#[local] Opaque clear_delta encode_checkpoint.
Lemma read_free_same j u j' : read_free j = (Ok u, j') -> jd_files j' = jd_files j /\ quiet j j'.
Proof.
  intros Hr. split; [|exact (quiet_of _ _ _ _ read_free_quiet Hr)]. unfold read_free in Hr. inv_act Hr. by injection Hr as _ <-.
Qed.
Lemma sound_same j j' log pages : jd_files j' = jd_files j -> quiet j j' -> sound_journal j log pages -> sound_journal j' log pages.
Proof.
  intros Hf (Q1 & Q2 & Q3 & Q4 & Q5 & Q6) [Hd [Hs1 Hs2 Hs3 Hs4] Hm Hi Hl Hse Hfi Hla Hc Hk].
  split; rewrite ?Q1, ?Q2, ?Q4, ?Q5, ?Q6, ?Hf; try done.
  - eapply durable_same; [exact Hd|..]; [intros n; by rewrite Hf|done|by rewrite Q1].
  - split; rewrite ?Q1, ?Q3, ?Q6, ?Hf; done.
Qed.
(** What a roll leaves of the files and the state. *)
Lemma roll_files j j' log pages entries :
  sound_journal j log pages -> roll_entries j (st_base (jd_state j) + 1) (st_sequence (jd_state j)) = Ok entries ->
  run_input (header_new 0 (jd_installation j) (st_base (jd_state j) + 1) (st_sequence (jd_state j)) (zlen entries)) entries ->
  roll j = (Ok tt, j') ->
  let next := st_sequence (jd_state j) + 1 in
  (jd_state j' = clear_delta (jd_state j) /\ jd_installation j' = jd_installation j /\ jd_segments j' = jd_segments j ++ [new_segment next]) /\
  Forall2 (shelved (jd_files j') (jd_installation j)) (jd_runs j') (pages ++ [entries]) /\
  (forall n, n <> next -> file_of (jd_files j') (NSegment n) = file_of (jd_files j) (NSegment n)) /\
  (forall n c, n <> st_sequence (jd_state j) -> file_of (jd_files j') (NCheckpoint n) = Some c -> file_of (jd_files j) (NCheckpoint n) = Some c) /\
  exists b, encode_checkpoint (clear_delta (jd_state j)) (roll_census j (st_sequence (jd_state j))) (jd_runs j') = Ok b /\
    file_of (jd_files j') (NCheckpoint (st_sequence (jd_state j))) = Some b.
Proof.
  intros Hsj He Hi Hr next. unfold roll in Hr. apply bind_Ok in Hr as (u & j1 & Ha1 & Hr). apply bind_Ok in Hr as ([] & j2 & Ha2 & Hr).
  destruct (read_free_same _ _ _ Ha1) as [Hf1 Hq]. pose proof (sound_same _ _ _ _ Hf1 Hq Hsj) as Hsj1. destruct Hq as (Q1 & Q2 & Q3 & Q4 & Q5 & Q6).
  assert (roll_entries j1 (st_base (jd_state j1) + 1) (st_sequence (jd_state j1)) = Ok entries) as He1 by (unfold roll_entries in *; by rewrite Q1, Q2).
  destruct (roll_derived_over j1 j2 log pages entries Hsj1 He1 ltac:(by rewrite Q1, Q6) Ha2) as (Hsh & (Hst & Hin & Hseg) & Hcp & Hfiles & Hck & b & Henc & Hb).
  assert (roll_census j1 (st_sequence (jd_state j1)) = roll_census j (st_sequence (jd_state j))) as Ecensus by (unfold roll_census; by rewrite Q1, Q2).
  rewrite Ecensus in Henc. rewrite Q1, Q2, Q4, Q6, ?Hf1 in *. clear Q1 Q2 Q3 Q4 Q5 Q6 Ha1 Ha2 He1 Hsj1 Ecensus.
  pose proof (so_base _ _ (sj_shelf _ _ _ Hsj)) as Hbase. pose proof (so_head _ _ (sj_shelf _ _ _ Hsj)) as Hhead.
  assert (next ∉ sg_first <$> jd_segments j2) as Hnew.
  { rewrite Hseg. intros (g & Hg & Hin')%list_elem_of_fmap. pose proof (sj_sealed _ _ _ Hsj) as Hs. rewrite Forall_forall in Hs. specialize (Hs g Hin'). unfold next in Hg. lia. }
  assert (next = wrap 64 (st_sequence (jd_state j2) + 1)) as Hnext.
  { rewrite Hst. destruct (clear_fields (jd_state j)) as (_ & -> & _ & _). unfold next. rewrite wrap_small; [done|]. unfold uint, U64_MAX in *. lia. }
  destruct (roll_segment_files j2 tt j' next Hr Hnext Hnew) as (Hseg' & (Hst' & Hruns & Hin') & Hrest & Hempty & Hnewest).
  destruct (Hnewest (st_sequence (jd_state j)) (jd_runs j2)) as [Hcheck Hrunfiles].
  { rewrite Hcp. by rewrite lookup_insert_eq. }
  { intros k. rewrite Hcp. destruct (decide (k = st_sequence (jd_state j))) as [->|Hne]; [done|]. rewrite lookup_insert_ne by done. apply (sj_known _ _ _ Hsj). }
  split; [split_and!; congruence|]. rewrite Hruns. split; [|split; [|split]].
  - clear -Hsh Hrunfiles. revert Hrunfiles. induction Hsh as [|r p rs ps [] Hsh IH]; intros Hf; constructor.
    + split; try done. rewrite Hf by constructor. done.
    + apply IH. intros r' Hr'. apply Hf. by constructor.
  - intros n Hn. rewrite <- (Hfiles (NSegment n)) by done. destruct (Hrest (NSegment n)) as [?|[? _]]; [congruence|done|done].
  - intros n c Hn Hc. rewrite <- (Hck n Hn). destruct (Hrest (NCheckpoint n)) as [E|[_ E]]; [done|by rewrite <- E|by rewrite E in Hc].
  - exists b. split; [done|]. by rewrite Hcheck.
Qed.
Lemma roll_census_next j j' head : jd_segments j' = jd_segments j ++ [new_segment (head + 1)] -> roll_census j' head = roll_census j head.
Proof. intros Hs. unfold roll_census. rewrite Hs, filter_app, (filter_cons_False _ (new_segment _)) by (cbn; lia). by rewrite app_nil_r. Qed.
(** The files after the roll are those of a journal that rolled at the state. *)
Lemma roll_over j j' log pages entries :
  sound_journal j log pages -> (exists ix, reached ix (jd_state j)) ->
  roll_entries j (st_base (jd_state j) + 1) (st_sequence (jd_state j)) = Ok entries ->
  run_input (header_new 0 (jd_installation j) (st_base (jd_state j) + 1) (st_sequence (jd_state j)) (zlen entries)) entries ->
  roll j = (Ok tt, j') ->
  @storable _ (journal_index j') (jd_state j') -> within_limits (jd_state j') ->
  census_ok (roll_census j (st_sequence (jd_state j))) -> runs_ok (st_sequence (jd_state j)) (jd_runs j') ->
  exists b, rolled_over j' (jd_state j) log (jd_segments j) b (pages ++ [entries]).
Proof.
  intros Hsj Hix He Hi Hr Hsb Hwl Hco Hro.
  destruct (roll_files _ _ _ _ _ Hsj He Hi Hr) as ((Hst & Hin & Hseg) & Hsh & Hfiles & Hck & b & Henc & Hb). exists b.
  assert (room (tip (jd_state j))) as Hroom by (destruct (sj_shelf _ _ _ Hsj) as [_ _ ? ?]; unfold room, tip; cbn; lia).
  pose proof (proj1 (roll_spec _ _ _ _ _ Hroom (sj_durable _ _ _ Hsj) Hr)) as Hd. rewrite Hst in Hsb, Hwl.
  assert (forall g, g ∈ jd_segments j -> file_of (jd_files j') (NSegment (sg_first g)) = file_of (jd_files j) (NSegment (sg_first g))) as Hkeep.
  { intros g Hg. apply Hfiles. pose proof (sj_sealed _ _ _ Hsj) as Hs. rewrite Forall_forall in Hs. specialize (Hs g Hg). lia. }
  split; try done.
  - rewrite Hin. apply Hsj.
  - apply Hsj.
  - intros n c Hc. rewrite Hseg, fmap_app. apply elem_of_app. destruct (decide (n = st_sequence (jd_state j) + 1)) as [->|Hne]; [right; constructor|].
    left. rewrite Hfiles in Hc by done. by apply (sj_listed _ _ _ Hsj n c).
  - apply Hsj.
  - rewrite Hin. destruct (sj_first _ _ _ Hsj) as (g & rest & frame & more & context & init & digest & E & Hone & Hf & Hv).
    exists g, rest, frame, more, context, init, digest. split; [done|]. split; [done|]. split; [|done]. rewrite <- Hf, <- Hone. apply Hkeep. rewrite E. constructor.
  - rewrite Hin. destruct (sj_last _ _ _ Hsj) as (g & c & frame & context & record & Hl & Hs & Hf & Hv).
    exists g, c, frame, context, record. split; [done|]. split; [done|]. split; [|done]. rewrite <- Hf. apply Hkeep. by apply last_Some_elem_of.
  - by rewrite (roll_census_next j).
  - by rewrite Hin.
  - by rewrite Hst, (roll_census_next j).
  - intros n c Hc. destruct (decide (n = st_sequence (jd_state j))) as [->|Hne]; [lia|]. apply (sj_checkpoints _ _ _ Hsj n c). by apply Hck.
Qed.
End RollThenOpen.

(** ** Opening. *)
Section Reopen.
Context `{Hasher, Unicode, !HasherOk, !RecordCodec JournalRecord, FilesOk F}.
Implicit Types (j : SegmentJournal F) (s : Replay).
(** The read-only open of the directory of a journal that rolled. *)
Lemma open_rolled j s log sealed checkpoint pages entries :
  rolled_over j s log sealed checkpoint pages -> readable (jd_files j) -> jf_census (jd_files j) = Ok entries ->
  exists j', open (jd_files j) false never = Ok (OJournal j') /\
    jd_files j' = jd_files j /\ jd_runs j' = jd_runs j /\ jd_installation j' = jd_installation j /\
    extents (jd_segments j') = extents (jd_segments j) /\
    forall f l, @apply_frames _ _ (journal_index j') (Some (jd_state j')) (f :: l) =
                @apply_frames _ _ (journal_index j) (Some (jd_state j)) (f :: l).
Proof.
  intros Hro Hread Hcensus. unfold open. cbn [never poll_open obind]. rewrite Hcensus. cbn [map_err obind].
  rewrite (census_extents _ _ _ _ _ _ _ Hro Hcensus).
  destruct (ro_first _ _ _ _ _ _ Hro) as (g & rest & frame & more & context & init & digest & Hsealed & Hone & Hfile & Hver & Hinst).
  destruct (segment_size _ _ _ _ _ _ Hro g) as (c & Hc & Hz); [rewrite (ro_segments _ _ _ _ _ _ Hro), Hsealed; constructor|].
  assert (exists more, extents (jd_segments j) = (1, zlen c) :: more) as (later & E).
  { rewrite (ro_segments _ _ _ _ _ _ Hro), Hsealed. cbn. rewrite Hone, Hz. by eexists. }
  rewrite E. cbn [Z.eqb Pos.eqb negb obind]. rewrite <- E.
  rewrite Hone, Hfile in Hc. injection Hc as <-.
  assert (zlen (frame ++ more) < 2 ^ 32) as Hsmall.
  { pose proof (du_bytes _ _ _ (ro_durable _ _ _ _ _ _ Hro)) as Hb. rewrite Forall_forall in Hb.
    specialize (Hb g ltac:(rewrite (ro_segments _ _ _ _ _ _ Hro), Hsealed; constructor)). unfold SEGMENT_BYTES in Hb. lia. }
  rewrite (read_first _ _ frame more context init digest Hread Hfile Hsmall eq_refl Hver), Hinst. cbn [obind].
  destruct (census_checkpoints _ _ _ _ Hcensus (ro_checkpoint _ _ _ _ _ _ Hro) (ro_newest _ _ _ _ _ _ Hro)) as [older ->].
  cbn [select_newest never poll_open obind]. rewrite (select_head _ _ _ _ _ _ _ Hro Hread Hcensus) by done. cbn [obind].
  destruct (open_tail _ _ _ _ _ _ Hro (fresh_journal (jd_files j) false (empty_state (jd_installation j) empty_init) []
    (derived_of entries) (jd_installation j)) 2 eq_refl) as (j1 & -> & Hf & Hr & Hi & Hs & Hseg & Hst). cbn [obind].
  destruct (chain_ok _ _ _ _ _ _ Hro j1 Hs Hseg) as [-> He]. cbn [negb]. exists j1. do 5 (split; [done|]).
  intros fr k. unfold journal_index. rewrite Hf, Hr, Hi, Hst, (ro_state _ _ _ _ _ _ Hro). apply apply_at_rest.
Qed.
End Reopen.

(** ** A demonstration: seven records after the first, a roll, and an open. *)
Module ReopenDemo.
Import ReplayDemo JournalDemo HistoryDemo RollDemo.
Definition content (j : SegmentJournal MemoryFiles) : bytes := default [] (mf_files (jd_files j) !! NSegment 1).
(** The frame at [l] of the first segment. *)
Definition frame_at (j : SegmentJournal MemoryFiles) (l : Locator) : bytes := default [] (get_range (l_offset l) (l_offset l + l_length l) (content j)).
Definition names_ok (j : SegmentJournal MemoryFiles) (n : JournalName) : bool :=
  match n with NSegment n => n =? 1 | NCheckpoint _ => false | _ => true end.
Definition first_length (j : SegmentJournal MemoryFiles) : Z := match envelope (content j) with Ok e => e_length e | _ => 0 end.
Definition first_frame_ok (j : SegmentJournal MemoryFiles) : bool :=
  let frame := ztake (first_length j) (content j) in
  match verified_frame frame (mkLocator 1 1 0 (zlen frame)) with
  | Ok (context, RPendingInit _, _) => bool_decide (installation_id context = jd_installation j)
  | _ => false
  end.
Definition verified_record_at (b : bytes) (l : Locator) : Result (FrameContext * JournalRecord * Hash) := verified_frame b l.
Definition last_frame_ok (j : SegmentJournal MemoryFiles) : bool :=
  let l := st_last_frame (jd_state j) in
  match get_range (l_offset l) (l_offset l + l_length l) (content j), verified_record_at (frame_at j l) l with
  | Some _, Ok (context, _, digest) =>
      bool_decide (installation_id context = jd_installation j) && bool_decide (digest = st_last_digest (jd_state j)) &&
      (l_segment l =? 1) && (l_offset l + l_length l =? zlen (content j))
  | _, _ => false
  end.
Definition sound (j : SegmentJournal MemoryFiles) : bool :=
  let s := jd_state j in
  negb (jd_fenced j) && bool_decide (jd_runs j = []) && is_none (jd_merged j) && bool_decide (jd_checkpoints j = ∅) &&
  bool_decide (sg_first <$> jd_segments j = [1]) && is_some (mf_files (jd_files j) !! NSegment 1) &&
  bool_decide (st_installation_id s = jd_installation j) && (0 <=? st_base s) && (st_base s <? st_sequence s) &&
  (st_sequence s <? U64_MAX) && (1 <=? st_sequence s) && forallb (names_ok j) (btree_keys (mf_files (jd_files j))) &&
  first_frame_ok j && last_frame_ok j.
Lemma first_frame_spec j c : first_frame_ok j = true -> mf_files (jd_files j) !! NSegment 1 = Some c ->
  exists frame more context init digest, file_of (jd_files j) (NSegment 1) = Some (frame ++ more) /\
    verified_frame frame (mkLocator 1 1 0 (zlen frame)) = Ok (context, RPendingInit init, digest) /\ installation_id context = jd_installation j.
Proof.
  unfold first_frame_ok. cbv zeta. intros Hf Hc. assert (content j = c) as E by (unfold content; by rewrite Hc). rewrite E in Hf.
  destruct (verified_frame _ _) as [[[context []] digest]| |] eqn:Hv; try done. apply bool_decide_eq_true in Hf.
  exists (ztake (first_length j) c), (zdrop (first_length j) c), context, p, digest. split; [|done].
  unfold ztake, zdrop. rewrite take_drop. exact Hc.
Qed.
Lemma last_frame_spec j c : last_frame_ok j = true -> mf_files (jd_files j) !! NSegment 1 = Some c ->
  let l := st_last_frame (jd_state j) in
  exists frame context (record : JournalRecord), l_segment l = 1 /\ get_range (l_offset l) (l_offset l + l_length l) c = Some frame /\
    verified_frame frame l = Ok (context, record, st_last_digest (jd_state j)) /\ installation_id context = jd_installation j /\
    l_offset l + l_length l = zlen c.
Proof.
  unfold last_frame_ok, verified_record_at, frame_at. cbv zeta. intros Hf Hc. assert (content j = c) as E by (unfold content; by rewrite Hc). rewrite E in Hf.
  destruct (get_range _ _ _) as [frame|]; [|done]. cbn [default from_option id] in Hf.
  destruct (verified_frame _ _) as [[[context record] digest]| |] eqn:Hv; [|done..].
  rewrite !andb_true_iff, !bool_decide_eq_true, !Z.eqb_eq in Hf. destruct Hf as (((Hi & Hd) & Hl) & Hz). subst digest.
  by exists frame, context, record.
Qed.
Lemma sound_spec acked tried j : sound j = true -> driven acked tried j -> exists log, sound_journal j log [].
Proof.
  unfold sound. cbv zeta. rewrite !andb_true_iff, !bool_decide_eq_true, !Z.leb_le, !Z.ltb_lt. intros Hs Hd.
  destruct Hs as (((((((((((((Hfence & Hruns) & Hmerged) & Hck) & Hseg) & Hfile) & Hin) & Hb0) & Hb) & Hu) & H1) & Hnames) & Hfirst) & Hlast).
  destruct (driven_kept _ _ _ Hd) as (frames & _ & _ & [[Hdur _]|[Hf _]]); [|by rewrite Hf in Hfence]. exists (concat frames).
  destruct (mf_files (jd_files j) !! NSegment 1) as [c|] eqn:Hc; [|done].
  assert (exists g, jd_segments j = [g] /\ sg_first g = 1) as (g & Eg & Hg).
  { destruct (jd_segments j) as [|g [|]]; try done. exists g. split; [done|]. by injection Hseg as ->. }
  assert (forall n c, file_of (jd_files j) n = Some c -> names_ok j n = true) as Hn.
  { intros n k Hk. rewrite forallb_forall in Hnames. apply Hnames, list_elem_of_In, btree_keys_elem. by exists k. }
  split; rewrite ?Hseg, ?Eg, ?Hck; try done.
  - split; rewrite ?Hruns; try done. repeat constructor.
  - by destruct (jd_merged j).
  - intros n k Hk%Hn. cbn in Hk. apply Z.eqb_eq in Hk as ->. constructor.
  - repeat constructor. lia.
  - destruct (first_frame_spec j c Hfirst Hc) as (frame & more & context & init & digest & Hr). by exists g, [], frame, more, context, init, digest.
  - destruct (last_frame_spec j c Hlast Hc) as (frame & context & record & Hl & Hr). exists g, c, frame, context, record. rewrite Hl, Hg. done.
  - by intros n k Hk%Hn.
  - intros n [k Hk]. by rewrite lookup_empty in Hk.
Qed.
(** What the roll must find. *)
Definition rolls (j : SegmentJournal MemoryFiles) : bool :=
  let s := jd_state j in
  match roll_entries j (st_base s + 1) (st_sequence s), roll j with
  | Ok entries, (Ok _, j') =>
      bool_decide (run_input (header_new 0 (jd_installation j) (st_base s + 1) (st_sequence s) (zlen entries)) entries) &&
      bool_decide (@storable _ (journal_index j') (jd_state j')) && bool_decide (census_ok (roll_census j (st_sequence s))) &&
      bool_decide (runs_ok (st_sequence s) (jd_runs j')) && bool_decide (mf_crash_at (jd_files j') <> Some PLookup) &&
      (size (st_projects (jd_state j')) <=? 8)%nat && (size (st_conversations (jd_state j')) <=? 8)%nat &&
      (size (st_inputs (jd_state j')) <=? 8)%nat && (size (st_jobs (jd_state j')) <=? 8)%nat
  | _, _ => false
  end.
Lemma rolls_spec j : rolls j = true -> exists entries j' census,
  roll_entries j (st_base (jd_state j) + 1) (st_sequence (jd_state j)) = Ok entries /\
  run_input (header_new 0 (jd_installation j) (st_base (jd_state j) + 1) (st_sequence (jd_state j)) (zlen entries)) entries /\
  roll j = (Ok tt, j') /\ @storable _ (journal_index j') (jd_state j') /\ within_limits (jd_state j') /\
  census_ok (roll_census j (st_sequence (jd_state j))) /\ runs_ok (st_sequence (jd_state j)) (jd_runs j') /\
  readable (jd_files j') /\ jf_census (jd_files j') = Ok census.
Proof.
  unfold rolls. cbv zeta. destruct (roll_entries _ _ _) as [entries| |]; [|done..]. destruct (roll j) as [[[]| |] j']; [|done..].
  rewrite !andb_true_iff, !bool_decide_eq_true, !Nat.leb_le. intros ((((((((Hi & Hs) & Hc) & Hr) & Hp) & H1) & H2) & H3) & H4).
  exists entries, j'. eexists. split_and!; try done; [|by apply memory_readable].
  split; (eapply Nat.le_trans; [eassumption|]); apply Nat.leb_le; reflexivity.
Qed.
(** The state of the driver is the one the bytes of its segment replay to. *)
Definition final (t : option Trace) : option (Prelude.outcome ReplayError Replay) := match t with Some (_, _, j) => Some (Ok (jd_state j)) | None => None end.
Definition replayed (t : option Trace) : option (Prelude.outcome ReplayError Replay) := match t with Some (_, _, j) => replay (content j) never | None => None end.
Definition checked (t : option Trace) : bool :=
  match t with
  | Some (_, _, j) => sound j && rolls j && bool_decide (bytes_ok (content j)) && (st_sequence (jd_state j) =? 8)
  | None => false
  end.
Lemma checked_spec l : checked (history memory_new l) = true -> replayed (history memory_new l) = final (history memory_new l) ->
  exists log j, sound_journal j log [] /\ (exists ix, reached ix (jd_state j)) /\ rolls j = true /\ st_sequence (jd_state j) = 8.
Proof.
  assert (forall t, history memory_new l = Some t -> traced t) as Ht.
  { unfold history. destruct (start memory_new context init) as [t0|] eqn:Hs; [|done]. intros t Hp. apply (play_traced l t0 _ Hp).
    apply (start_traced _ _ _ _ Hs fresh_directory). by_decide. }
  destruct (history memory_new l) as [[[acked tried] j]|]; [|done]. specialize (Ht _ eq_refl). cbn [checked replayed final].
  rewrite !andb_true_iff, bool_decide_eq_true, Z.eqb_eq. intros (((Hs & Hr) & Hb) & Hn) Hrep. destruct (sound_spec _ _ _ Hs Ht) as [log Hsj].
  exists log, j. split; [done|]. split; [|done]. apply replay_Ok in Hrep as (k & fs & E & Hw & Ha); [|done].
  exists (memory_index (content j)). eapply (@apply_frames_reached _ _ (memory_index (content j))); [by apply (written_offsets 0 k fs)|exact Ha].
Qed.
Definition eight : list Step := appended <$> seq 1 7.
Lemma eight_checked : checked (history memory_new eight) = true.
Proof. vm_compute. reflexivity. Qed.
Lemma eight_replayed : replayed (history memory_new eight) = final (history memory_new eight).
Proof. vm_compute. reflexivity. Qed.
End ReopenDemo.
