(* ===== verification/Pages.v ===== *)
(** * Text pages over retained payloads (payload/pages.rs).

    Snapping a window of source bytes to UTF-8 boundaries, cutting it at
    lines, the bounded lossy text, and [read_page] over the ledger and the
    payload file. The theorems: pages of a valid text never split a scalar and
    put together give the text back; the delivered text is bounded and is the
    lossy text of the consumed bytes; no input makes a page read panic; a page
    read leaves the ledger as it was. *)
From stdpp Require Import prelude list gmap.
From Stdlib Require Import ZArith Lia.
From S2P Require Import Prelude PayloadId Codec Ledger.

Definition PAGE_LIMIT : Z := 8192.
Definition TEXT_LIMIT : Z := 8192.
Inductive PageState : Type :=
| SLive | SComplete | SIncomplete | SUnverifiedPrefix | SExpired | SMissing | SCorrupt | SDeleted
| SBusy | SDenied | SStaleCursor.
Inductive Lines : Type := Any | EndAtLine | StartAtLine.
Record PageRequest : Type := mkRequest {
  rq_payload : PayloadId; rq_offset : Z; rq_limit : Z; rq_scope : option Id; rq_lines : Lines;
}.
(** [slice[i]]. *)
Definition index (l : bytes) (i : Z) : Result Z :=
  if decide (0 <= i) then match l !! Z.to_nat i with Some b => Ok b | None => Panic end else Panic.
(** [iter().position(..)] and [iter().rposition(..)]. *)
Fixpoint position (p : Z -> bool) (l : bytes) : option Z :=
  match l with
  | [] => None
  | b :: l' => if p b then Some 0 else option_map (Z.add 1) (position p l')
  end.
Fixpoint rposition (p : Z -> bool) (l : bytes) : option Z :=
  match l with
  | [] => None
  | b :: l' => match rposition p l' with
               | Some i => Some (1 + i)
               | None => if p b then Some 0 else None
               end
  end.
Definition newline (b : Z) : bool := b =? 10.
Definition cut_lines (bs : bytes) (skip length start : Z) (reaches_end : bool) (lines : Lines) : Result (Z * Z) :=
  let? window := sub skip (skip + length) bs in
  Ok match lines with
     | Any => (skip, length)
     | EndAtLine =>
         if reaches_end then (skip, length)
         else match rposition newline window with
              | Some at_ => (skip, at_ + 1)
              | None => (skip, length)
              end
     | StartAtLine =>
         if start =? 0 then (skip, length)
         else match position newline window with
              | Some at_ => if at_ + 1 <? length then (skip + at_ + 1, length - at_ - 1) else (skip, length)
              | None => (skip, length)
              end
     end.

Record Page : Type := mkPage {
  pg_state : PageState; pg_start : Z; pg_text : bytes; pg_next_offset : Z; pg_total : Z;
  pg_digest : option bytes; pg_watermark : option Z;
}.
Definition page_empty (state : PageState) (offset : Z) : Page := mkPage state offset [] offset 0 None None.

Definition continuation (b : Z) : bool := Z.land b 0xC0 =? 0x80.
Definition scalar_len (lead : Z) : Z :=
  if (0xC0 <=? lead) && (lead <=? 0xDF) then 2
  else if (0xE0 <=? lead) && (lead <=? 0xEF) then 3
  else if (0xF0 <=? lead) && (lead <=? 0xF7) then 4
  else 1.
(** [while lead > 0 && end - lead < 3 && continuation(l[lead - back]) { lead -= 1 }]:
    its second condition stops it after three rounds. *)
Fixpoint seek_lead (rounds : nat) (l : bytes) (back end_ lead : Z) : Result Z :=
  match rounds with
  | O => Ok lead
  | S rounds' =>
      if decide (lead > 0 /\ end_ - lead < 3) then
        let? b := index l (lead - back) in
        if continuation b then seek_lead rounds' l back end_ (lead - 1) else Ok lead
      else Ok lead
  end.
Definition without_open_scalar (bs : bytes) : Result Z :=
  let len := zlen bs in
  let? lead := seek_lead 3 bs 1 len len in
  if decide (lead > 0) then
    let start := lead - 1 in
    let? b := index bs start in
    if negb (continuation b) && (len <? start + scalar_len b) then Ok start else Ok len
  else Ok len.
Fixpoint take_while (p : Z -> bool) (l : bytes) : bytes :=
  match l with
  | [] => []
  | b :: l' => if p b then b :: take_while p l' else []
  end.
(** The end of the page before the last two rules of [snap]. *)
Definition snap_end (window : bytes) (limit : Z) : Result Z :=
  let end_ := Z.min limit (zlen window) in
  if decide (end_ < zlen window) then
    let? b := index window end_ in
    if continuation b then
      let? lead := seek_lead 3 window 0 end_ end_ in
      let? c := index window lead in
      if negb (continuation c) && (end_ <? lead + scalar_len c) then Ok lead else Ok end_
    else Ok end_
  else Ok end_.
Definition snap (bs : bytes) (limit : Z) (open_end : bool) : Result (Z * Z) :=
  let skip := zlen (take_while continuation (ztake 3 bs)) in
  let? window := sub skip (zlen bs) bs in
  let? end_ := snap_end window limit in
  if open_end && (end_ =? zlen window) then
    let? end_ := without_open_scalar window in Ok (skip, end_)
  else
    let? end_ :=
      if (end_ =? 0) && negb (bool_decide (window = [])) then
        let? b := index window 0 in Ok (Z.min (scalar_len b) (zlen window))
      else Ok end_ in
    Ok (skip, end_).

(** U+FFFD. *)
Definition REPLACEMENT : bytes := [0xEF; 0xBF; 0xBD].
(** The scalars and the maximal invalid sequences of a text, in order:
    [utf8_chunks], each chunk's valid part taken by [chars]. *)
Fixpoint utf8_items (fuel : nat) (l : bytes) : list (bool * bytes) :=
  match fuel, l with
  | S fuel', b :: r =>
      let '(ok, n) := Utf8.first b r in
      (ok, take n l) :: utf8_items fuel' (drop n l)
  | _, _ => []
  end.
Definition item_text (i : bool * bytes) : bytes := if i.1 then i.2 else REPLACEMENT.
Fixpoint bounded_loop (items : list (bool * bytes)) (max_text : Z) (text : bytes) (consumed : Z) : bytes * Z :=
  match items with
  | [] => (text, consumed)
  | i :: items' =>
      if decide (zlen text + zlen (item_text i) > max_text /\ consumed > 0) then (text, consumed)
      else bounded_loop items' max_text (text ++ item_text i) (consumed + zlen i.2)
  end.
Definition bounded_text (bs : bytes) (max_text : Z) : bytes * Z :=
  bounded_loop (utf8_items (length bs) bs) max_text [] 0.
(** [String::from_utf8_lossy]. *)
Definition lossy (bs : bytes) : bytes := concat (item_text <$> utf8_items (length bs) bs).

(** ** Reading. The payload file is outside the program: [open_read id location]
    is what opening it gives, and [read_at offset n] on the open file returns
    the bytes one read put into a buffer of [n] bytes. *)
Abbreviation ReadAt := (Z -> Z -> outcome PayloadError bytes).
Abbreviation OpenRead := (PayloadId -> Location -> outcome PayloadError ReadAt).
(** [PayloadStore::open_read] over the two directories of the payload root. *)
Definition or_else {E A} (a b : outcome E A) : outcome E A := match a with Err _ => b | c => c end.
Definition open_read (open_object open_staging : PayloadId -> outcome PayloadError ReadAt)
    (id : PayloadId) (location : Location) : outcome PayloadError ReadAt :=
  match location with
  | LObjects => or_else (open_object id) (open_staging id)
  | LStaging => or_else (open_staging id) (open_object id)
  | LNone => Err Absent
  end.
(** The loop that fills the window: [None] is a failed read. A read that
    returns more than it was asked for does not occur; a read of nothing ends
    the loop. Each round reads at least one byte, so [window] rounds are
    enough. *)
Fixpoint fill (rounds : nat) (read_at : ReadAt) (offset window : Z) (buffer : bytes) : option bytes :=
  match rounds with
  | O => Some buffer
  | S rounds' =>
      if decide (zlen buffer < window) then
        match read_at (offset + zlen buffer) (window - zlen buffer) with
        | Ok [] => Some buffer
        | Ok data => fill rounds' read_at offset window (buffer ++ data)
        | _ => None
        end
      else Some buffer
  end.
Definition page_state (state : PayloadState) : PageState + PageState :=
  match state with
  | PLive => inl SLive
  | PComplete => inl SComplete
  | PIncomplete => inl SIncomplete
  | PUnverifiedPrefix => inl SUnverifiedPrefix
  | PCorrupt => inr SCorrupt
  | PMissing => inr SMissing
  end.
(** The page of a filled buffer. *)
Definition page_of_buffer (page : Page) (request : PageRequest) (limit total : Z) (watermarked : bool)
    (buffer : bytes) : Result Page :=
  let offset := rq_offset request in
  let open_end := watermarked && (total <=? offset + zlen buffer) in
  let? (skip, length) := snap buffer limit open_end in
  let reaches_end := total <=? offset + (skip + length) in
  let? (skip, length) := cut_lines buffer skip length (offset + skip) reaches_end (rq_lines request) in
  let? piece := sub skip (skip + length) buffer in
  let '(text, consumed) := bounded_text piece TEXT_LIMIT in
  let start := offset + skip in
  Ok (mkPage (pg_state page) start text (start + consumed) (pg_total page) (pg_digest page) (pg_watermark page)).
Definition clamp (lo hi v : Z) : Z := Z.max lo (Z.min hi v).
Definition scope_denied (scope : option Id) (operation : Id) : bool :=
  is_some_and (fun scope => bool_decide (scope <> operation)) scope.
Definition read_held (open : OpenRead) (heap : Heap) (request : PageRequest) (entry : PayloadEntry) : Result Page :=
  let offset := rq_offset request in
  if scope_denied (rq_scope request) (p_operation entry) then Ok (page_empty SDenied offset) else
  match page_state (p_state entry) with
  | inr state => Ok (page_empty state offset)
  | inl state =>
      let watermark := load heap <$> p_watermark entry in
      let total := default (p_total entry) watermark in
      let live := match state with SLive => true | _ => false end in
      let page := mkPage state offset [] offset total (p_digest entry) (if live then watermark else None) in
      if decide (offset > total) then
        Ok (mkPage SStaleCursor offset [] total total (p_digest entry) (if live then watermark else None))
      else if decide (offset = total) then Ok page
      else
        let limit := clamp 1 PAGE_LIMIT (rq_limit request) in
        let location := match p_location entry with LNone => LStaging | l => l end in
        match open (rq_payload request) location with
        | Ok read_at =>
            let window := Z.min (total - offset) (limit + 4) in
            match fill (Z.to_nat window) read_at offset window [] with
            | None => Ok (page_empty SBusy offset)
            | Some buffer => page_of_buffer page request limit total (bool_decide (is_Some watermark)) buffer
            end
        | Err Absent => Ok (page_empty SMissing offset)
        | Err Unsafe => Ok (page_empty SCorrupt offset)
        | Err _ => Ok (page_empty SBusy offset)
        | Panic => Panic
        end
  end.
Definition read_page (open : OpenRead) (heap : Heap) (s : State) (request : PageRequest) : Result (Page * State) :=
  let offset := rq_offset request in
  if decide (rq_payload request ∈ s_deleted s) then Ok (page_empty SDeleted offset, s)
  else if decide (rq_payload request ∈ s_expired s) then Ok (page_empty SExpired offset, s)
  else
    match hold_payload s (rq_payload request) with
    | (s, None) => Ok (page_empty SMissing offset, s)
    | (s, Some entry) =>
        let? page := read_held open heap request entry in
        Ok (page, release_payload s (rq_payload request))
    end.

(** ** Scalars. *)
Definition scalar (s : bytes) : Prop :=
  match s with [] => False | b :: r => Utf8.first b r = (true, length s) end.
Lemma u8_all (P : Z -> bool) : forallb P (seqZ 0 256) = true -> forall b, u8 b -> P b = true.
Proof.
  intros HP b Hb. rewrite forallb_forall in HP. apply HP, list_elem_of_In, elem_of_seqZ. unfold uint in Hb. lia.
Qed.
Lemma continuation_utf8 b : u8 b -> continuation b = Utf8.continuation b.
Proof.
  intros Hb. apply Bool.eqb_prop. revert b Hb. apply (u8_all (fun b => Bool.eqb (continuation b) (Utf8.continuation b))).
  by vm_compute.
Qed.
Lemma width_scalar_len b :
  u8 b -> (0 < Utf8.width b)%nat -> continuation b = false /\ scalar_len b = Z.of_nat (Utf8.width b).
Proof.
  intros Hb Hw.
  assert (negb (0 <? Z.of_nat (Utf8.width b)) || negb (continuation b) && (scalar_len b =? Z.of_nat (Utf8.width b)) = true) as H.
  { revert b Hb Hw. intros b Hb _. revert b Hb. apply u8_all. by vm_compute. }
  destruct (continuation b); [|split; [done|]]; destruct (Z.ltb_spec 0 (Z.of_nat (Utf8.width b))); simpl in H; lia.
Qed.
Lemma second_continuation lead b : Utf8.second lead b = true -> Utf8.continuation b = true.
Proof.
  unfold Utf8.second, Utf8.continuation. repeat (case_match; try lia); rewrite !andb_true_iff; lia.
Qed.
(** A recognised scalar: its width, and its continuation bytes. *)
Lemma first_true b r n :
  Utf8.first b r = (true, n) ->
  n = Utf8.width b /\ (1 <= n <= 4)%nat /\ (n <= S (length r))%nat /\
  forall i, (i < pred n)%nat -> exists c, r !! i = Some c /\ Utf8.continuation c = true.
Proof.
  intros Hf. destruct (Utf8.first_len _ _ _ _ Hf) as [H1 H2]. unfold Utf8.first, Utf8.test in Hf.
  assert (n = Utf8.width b) as Hn by (repeat case_match; simplify_eq; done).
  split_and!; try done; try lia. intros i Hi.
  repeat case_match; simplify_eq; simpl in Hi; try lia;
    do 3 (destruct i as [|i]; [eauto using second_continuation|try lia]); lia.
Qed.
Lemma first_app b r n t : Utf8.first b r = (true, n) -> Utf8.first b (r ++ t) = (true, n).
Proof.
  intros Hf. destruct (first_true _ _ _ Hf) as (Hw & Hn & Hl & _). revert Hf. unfold Utf8.first, Utf8.test. rewrite <- Hw.
  assert (forall i, (S i < n)%nat -> (r ++ t) !! i = r !! i) as Ht by (intros; apply lookup_app_l; lia).
  destruct n as [|[|[|[|[|n]]]]]; rewrite ?Ht by lia; done.
Qed.
Lemma first_take b r n : Utf8.first b r = (true, n) -> scalar (take n (b :: r)).
Proof.
  intros Hf. destruct (first_true _ _ _ Hf) as (Hw & Hn & Hl & _). destruct n as [|n]; [lia|].
  cbn [take scalar]. assert (length (b :: take n r) = S n) as -> by (simpl; rewrite length_take; lia).
  revert Hf. unfold Utf8.first, Utf8.test. rewrite <- Hw.
  assert (forall i, (i < n)%nat -> take n r !! i = r !! i) as Ht by (intros; by apply lookup_take_lt).
  destruct n as [|[|[|[|n]]]]; [..|lia]; rewrite ?Ht by lia; done.
Qed.
Lemma scalar_nonempty s : scalar s -> (0 < length s)%nat.
Proof. destruct s; simpl; [done|lia]. Qed.
Lemma valid_cons s t : scalar s -> Utf8.valid (s ++ t) = Utf8.valid t.
Proof.
  destruct s as [|b r]; [done|]. cbn [scalar]. intros Hf. unfold Utf8.valid. cbn [app length Utf8.valid_fuel].
  rewrite (first_app _ _ _ _ Hf). cbn [length pred andb]. rewrite drop_app_length.
  apply Utf8.valid_fuel_enough. rewrite length_app. lia.
Qed.
Lemma valid_scalars l : Utf8.valid l = true <-> exists ss, l = concat ss /\ Forall scalar ss.
Proof.
  split.
  - remember (length l) as n eqn:Hn. assert (length l <= n)%nat as Hle by lia. clear Hn. revert l Hle.
    induction n as [|n IH]; intros [|b r] Hle Hv; simpl in Hle; try lia; try (by exists []).
    unfold Utf8.valid in Hv. cbn [length Utf8.valid_fuel] in Hv. destruct (Utf8.first b r) as [ok k] eqn:Hf.
    apply andb_true_iff in Hv as [-> Hv]. destruct (Utf8.first_len _ _ _ _ Hf) as [Hk1 Hk2].
    rewrite Utf8.valid_fuel_enough in Hv by (rewrite length_drop; lia).
    destruct (IH (drop (pred k) r)) as (ss & Hss & Hall); [rewrite length_drop; lia|done|].
    exists (take k (b :: r) :: ss). split; [|constructor; [by apply first_take|done]].
    cbn [concat]. rewrite <- Hss. destruct k as [|k]; [lia|]. cbn. by rewrite take_drop.
  - intros (ss & -> & Hall). induction Hall as [|s ss Hs _ IH]; [done|]. cbn [concat]. by rewrite valid_cons.
Qed.
Lemma valid_app l k : Utf8.valid l = true -> Utf8.valid (l ++ k) = Utf8.valid k.
Proof.
  intros (ss & -> & Hall)%valid_scalars. induction Hall as [|s ss Hs _ IH]; [done|].
  cbn [concat]. rewrite <- app_assoc. by rewrite valid_cons.
Qed.

(** ** Scalar boundaries of a text. *)
Record boundary (data : bytes) (n : Z) : Prop := {
  bd_range : 0 <= n <= zlen data;
  bd_before : Utf8.valid (ztake n data) = true;
  bd_after : Utf8.valid (zdrop n data) = true;
}.
Definition byte_at (data : bytes) (i : Z) : option Z := data !! Z.to_nat i.
Lemma boundary_app l k : Utf8.valid l = true -> Utf8.valid k = true -> boundary (l ++ k) (zlen l).
Proof.
  intros Hl Hk. pose proof (zlen_nonneg l). pose proof (zlen_nonneg k).
  split; [rewrite zlen_app; lia|by rewrite ztake_app_l|by rewrite zdrop_app_l].
Qed.
Lemma valid_scalar s : scalar s -> Utf8.valid s = true.
Proof. intros Hs. apply valid_scalars. exists [s]. split; [cbn; by rewrite app_nil_r|by repeat constructor]. Qed.
Lemma scalar_shape s :
  bytes_ok s -> scalar s ->
  exists b r, s = b :: r /\ continuation b = false /\ scalar_len b = zlen s /\ zlen s <= 4 /\
    forall i c, r !! i = Some c -> continuation c = true.
Proof.
  intros Hb Hs. destruct s as [|b r]; [done|]. cbn [scalar] in Hs.
  destruct (first_true _ _ _ Hs) as (Hw & Hn & _ & Hc). apply Forall_cons in Hb as [Hb Hr].
  destruct (width_scalar_len b Hb) as [Hnc Hsl]; [lia|]. exists b, r.
  split_and!; try done; [by rewrite Hsl, <- Hw|unfold zlen; lia|].
  intros i c Hi. destruct (Hc i) as (c' & Hi' & Hc').
  { apply lookup_lt_Some in Hi. simpl. lia. }
  simplify_eq. rewrite continuation_utf8; [done|]. by eapply (Forall_lookup_1 _ r).
Qed.
(** The scalar around a position. *)
Lemma locate data n :
  bytes_ok data -> Utf8.valid data = true -> 0 <= n < zlen data ->
  exists p k, p <= n < p + k /\ 1 <= k <= 4 /\ boundary data p /\ boundary data (p + k) /\
    (exists b, byte_at data p = Some b /\ continuation b = false /\ scalar_len b = k) /\
    (forall i, p < i < p + k -> exists b, byte_at data i = Some b /\ continuation b = true).
Proof.
  intros Hb (ss & -> & Hall)%valid_scalars Hn.
  assert (exists s1 s s2, ss = s1 ++ s :: s2 /\ zlen (concat s1) <= n < zlen (concat s1) + zlen s) as (s1 & s & s2 & -> & Hin).
  { clear Hall Hb. revert n Hn. induction ss as [|s ss IH]; intros n Hn; [cbn in Hn; change (zlen []) with 0 in Hn; lia|].
    cbn [concat] in Hn. rewrite zlen_app in Hn. destruct (decide (n < zlen s)).
    - exists [], s, ss. cbn. change (zlen []) with 0. split; [done|lia].
    - destruct (IH (n - zlen s)) as (s1 & s' & s2 & -> & Hin); [lia|]. exists (s :: s1), s', s2.
      cbn [concat app]. rewrite zlen_app. split; [done|lia]. }
  apply Forall_app in Hall as [H1 [Hs H2]%Forall_cons]. rewrite concat_app in *. cbn [concat] in *.
  assert (Utf8.valid (concat s1) = true) by (apply valid_scalars; eauto).
  assert (Utf8.valid (concat s2) = true) by (apply valid_scalars; eauto).
  pose proof (valid_scalar s Hs).
  apply bytes_ok_app in Hb as [_ [Hbs _]%bytes_ok_app].
  destruct (scalar_shape s Hbs Hs) as (b & r & -> & Hnc & Hsl & Hle & Hr).
  pose proof (zlen_nonneg (concat s1)) as Hp0. pose proof (zlen_nonneg r).
  assert (forall i, zlen (concat s1) <= i < zlen (concat s1) + zlen (b :: r) ->
    byte_at (concat s1 ++ (b :: r) ++ concat s2) i = (b :: r) !! Z.to_nat (i - zlen (concat s1))) as Hat.
  { intros i Hi. unfold byte_at. unfold zlen in *. rewrite lookup_app_r by lia. rewrite lookup_app_l by lia. f_equal. lia. }
  exists (zlen (concat s1)), (zlen (b :: r)). split_and!; try lia; try done.
  - apply boundary_app; [done|]. by rewrite valid_app.
  - rewrite app_assoc, <- zlen_app. apply boundary_app; [|done]. by rewrite valid_app.
  - exists b. rewrite Hat by lia. by rewrite Z.sub_diag.
  - intros i Hi. rewrite Hat by lia.
    destruct (r !! Z.to_nat (i - zlen (concat s1) - 1)) as [c|] eqn:Hc.
    + exists c. split; [|by eapply Hr]. rewrite <- Hc.
      replace (Z.to_nat (i - zlen (concat s1))) with (S (Z.to_nat (i - zlen (concat s1) - 1))) by lia. done.
    + apply lookup_ge_None in Hc. rewrite (zlen_cons b r) in Hi. unfold zlen in *. lia.
Qed.
Lemma boundary_0 data : Utf8.valid data = true -> boundary data 0.
Proof. intros Hv. by split; [pose proof (zlen_nonneg data); lia|..]. Qed.
Lemma boundary_end data : Utf8.valid data = true -> boundary data (zlen data).
Proof.
  intros Hv. split; [pose proof (zlen_nonneg data); lia|..]; unfold ztake, zdrop, zlen; rewrite Nat2Z.id.
  - by rewrite take_ge by lia.
  - by rewrite drop_ge by lia.
Qed.
(** A boundary is the end, or starts with a byte that is no continuation. *)
Lemma boundary_lead data n b :
  bytes_ok data -> Utf8.valid data = true -> boundary data n -> byte_at data n = Some b -> continuation b = false.
Proof.
  intros Hb Hv [Hn _ Hd] Hat. pose proof (lookup_lt_Some _ _ _ Hat).
  apply valid_scalars in Hd as (ss & Hd & Hall).
  assert (bytes_ok (zdrop n data)) as Hbd by by apply bytes_ok_zdrop.
  destruct ss as [|s ss].
  { assert (zlen (zdrop n data) = 0) as Hz by by rewrite Hd. rewrite zlen_zdrop in Hz by lia. unfold zlen in *. lia. }
  apply Forall_cons in Hall as [Hs _]. cbn [concat] in Hd. rewrite Hd in Hbd. apply bytes_ok_app in Hbd as [Hbs _].
  destruct (scalar_shape s Hbs Hs) as (c & r & -> & Hc & _). rewrite <- Hc. f_equal.
  assert (zdrop n data !! 0%nat = Some c) as H0 by by rewrite Hd.
  unfold zdrop in H0. rewrite lookup_drop, Nat.add_0_r in H0. unfold byte_at in Hat. congruence.
Qed.
Lemma lead_boundary data n b :
  bytes_ok data -> Utf8.valid data = true -> 0 <= n -> byte_at data n = Some b -> continuation b = false -> boundary data n.
Proof.
  intros Hb Hv Hn Hat Hc. pose proof (lookup_lt_Some _ _ _ Hat).
  destruct (locate data n Hb Hv) as (p & k & Hin & _ & Hp & _ & _ & Hcont); [unfold zlen; lia|].
  destruct (decide (p = n)) as [<-|]; [done|]. destruct (Hcont n) as (c & Hc' & ?); [lia|]. congruence.
Qed.

(** ** The scan for a lead byte. *)
Lemma index_Ok l i b : byte_at l i = Some b -> 0 <= i -> index l i = Ok b.
Proof. unfold index, byte_at. intros -> ?. by rewrite decide_True by lia. Qed.
Lemma byte_at_Some l i : 0 <= i < zlen l -> exists b, byte_at l i = Some b.
Proof. unfold byte_at, zlen. intros. apply lookup_lt_is_Some_2. lia. Qed.
Lemma seek_lead_total n l back e lead :
  0 <= back <= 1 -> 0 <= lead -> lead - back < zlen l ->
  exists r, seek_lead n l back e lead = Ok r /\ 0 <= r <= lead.
Proof.
  revert lead. induction n as [|n IH]; intros lead Hb H0 Hl; cbn [seek_lead]; [exists lead; split; [done|lia]|].
  destruct (decide _) as [[Hpos He]|]; [|exists lead; split; [done|lia]].
  destruct (byte_at_Some l (lead - back)) as [b Hat]; [lia|]. rewrite (index_Ok _ _ _ Hat) by lia. cbn [obind].
  destruct (continuation b); [|exists lead; split; [done|lia]].
  destruct (IH (lead - 1)) as (r & -> & ?); [lia..|]. exists r. split; [done|lia].
Qed.
(** It stops at the lead byte [p - back] when only continuation bytes follow. *)
Lemma seek_lead_finds n l back e lead p :
  0 <= back <= 1 -> 0 <= p <= lead -> lead - p <= Z.of_nat n -> e - p <= 3 ->
  (forall i, p < i <= lead -> exists b, byte_at l (i - back) = Some b /\ continuation b = true) ->
  (p = 0 \/ exists b, byte_at l (p - back) = Some b /\ continuation b = false) ->
  seek_lead n l back e lead = Ok p.
Proof.
  revert lead. induction n as [|n IH]; intros lead Hb Hp Hn He Hc Hl; cbn [seek_lead].
  { f_equal. lia. }
  destruct (decide (lead = p)) as [->|Hne].
  - destruct Hl as [->|(b & Hat & Hcb)]; [by rewrite decide_False by lia|].
    destruct (decide _) as [[Hpos _]|]; [|done].
    rewrite (index_Ok _ _ _ Hat) by lia. cbn [obind]. by rewrite Hcb.
  - rewrite decide_True by lia. destruct (Hc lead) as (b & Hat & Hcb); [lia|].
    rewrite (index_Ok _ _ _ Hat) by lia. cbn [obind]. rewrite Hcb. apply IH; try done; try lia.
    intros i Hi. apply Hc. lia.
Qed.

(** ** [snap] on any bytes: no panic, and a page that moves forward. *)
Lemma take_while_le p l : zlen (take_while p l) <= zlen l.
Proof.
  induction l as [|b l IH]; cbn [take_while]; [done|]. destruct (p b); rewrite ?zlen_cons; [lia|].
  pose proof (zlen_nonneg l). change (zlen []) with 0. lia.
Qed.
Lemma snap_end_total window limit :
  0 <= limit -> exists e, snap_end window limit = Ok e /\ 0 <= e <= Z.min limit (zlen window).
Proof.
  intros Hl. unfold snap_end. pose proof (zlen_nonneg window).
  destruct (decide _); [|eexists; split; [done|lia]].
  destruct (byte_at_Some window (Z.min limit (zlen window))) as [b Hb]; [lia|].
  rewrite (index_Ok _ _ _ Hb) by lia. cbn [obind]. destruct (continuation b); [|eexists; split; [done|lia]].
  destruct (seek_lead_total 3 window 0 (Z.min limit (zlen window)) (Z.min limit (zlen window))) as (r & -> & Hr); [lia..|].
  cbn [obind]. destruct (byte_at_Some window r) as [c Hc]; [lia|]. rewrite (index_Ok _ _ _ Hc) by lia. cbn [obind].
  destruct (_ && _); eexists; (split; [done|lia]).
Qed.
Lemma without_open_scalar_total l : exists e, without_open_scalar l = Ok e /\ 0 <= e <= zlen l.
Proof.
  unfold without_open_scalar. pose proof (zlen_nonneg l).
  destruct (seek_lead_total 3 l 1 (zlen l) (zlen l)) as (r & -> & Hr); [lia..|]. cbn [obind].
  destruct (decide _); [|eexists; split; [done|lia]].
  destruct (byte_at_Some l (r - 1)) as [c Hc]; [lia|]. rewrite (index_Ok _ _ _ Hc) by lia. cbn [obind].
  destruct (_ && _); eexists; (split; [done|lia]).
Qed.
Lemma scalar_len_bounds b : 1 <= scalar_len b <= 4.
Proof. unfold scalar_len. repeat case_match; lia. Qed.
Lemma snap_total bs limit open_end :
  1 <= limit ->
  exists skip e, snap bs limit open_end = Ok (skip, e) /\ 0 <= skip <= 3 /\ 0 <= e <= Z.max limit 4 /\
    skip + e <= zlen bs /\ (open_end = false -> bs <> [] -> 0 < skip + e).
Proof.
  intros Hl. unfold snap. pose proof (take_while_le continuation (ztake 3 bs)) as Hsk.
  assert (zlen (ztake 3 bs) <= Z.min 3 (zlen bs)) as H3 by (unfold zlen, ztake; rewrite length_take; lia).
  set (skip := zlen (take_while continuation (ztake 3 bs))) in *. pose proof (zlen_nonneg (take_while continuation (ztake 3 bs))).
  rewrite (sub_in skip (zlen bs) bs) by lia. cbn [obind].
  set (window := ztake (zlen bs - skip) (zdrop skip bs)).
  assert (zlen window = zlen bs - skip) as Hw by (unfold window; rewrite zlen_ztake; rewrite ?zlen_zdrop; lia).
  destruct (snap_end_total window limit) as (e & -> & He); [lia|]. cbn [obind].
  destruct (open_end && (e =? zlen window)) eqn:Hopen.
  - destruct (without_open_scalar_total window) as (e' & -> & He'). cbn [obind]. exists skip, e'.
    apply andb_true_iff in Hopen as [-> Heq]. split_and!; try done; lia.
  - destruct ((e =? 0) && negb (bool_decide (window = []))) eqn:Hz; cbn [obind].
    + apply andb_true_iff in Hz as [He0 Hne]. apply negb_true_iff, bool_decide_eq_false in Hne.
      pose proof (zlen_pos window Hne).
      destruct (byte_at_Some window 0) as [c Hc]; [lia|]. rewrite (index_Ok _ _ _ Hc) by lia. cbn [obind].
      pose proof (scalar_len_bounds c). eexists _, _. split; [done|]. split_and!; try lia. 
    + eexists _, _. split; [done|]. split_and!; try lia. intros -> Hne. pose proof (zlen_pos bs Hne).
      destruct (decide (e = 0)) as [->|]; [|lia]. cbn in Hz.
      apply negb_false_iff, bool_decide_eq_true in Hz. rewrite Hz in Hw. change (zlen []) with 0 in Hw. lia.
Qed.

(** ** [snap] on a valid text: it never splits a scalar. *)
Lemma locate_from data s n :
  bytes_ok data -> Utf8.valid data = true -> boundary data s -> s <= n < zlen data ->
  exists p k, s <= p <= n /\ n < p + k /\ 1 <= k <= 4 /\ boundary data p /\ boundary data (p + k) /\
    (exists b, byte_at data p = Some b /\ continuation b = false /\ scalar_len b = k) /\
    (forall i, p < i < p + k -> exists b, byte_at data i = Some b /\ continuation b = true).
Proof.
  intros Hb Hv Hs Hn. assert (0 <= s) by apply Hs.
  destruct (locate data n Hb Hv) as (p & k & Hin & Hk & Hp & Hpk & Hlead & Hcont); [lia|].
  exists p, k. split_and!; try done; try lia.
  destruct (decide (s <= p)) as [|Hlt]; [done|].
  destruct (Hcont s) as (b & Hat & Hc); [lia|]. rewrite (boundary_lead data s b) in Hc; done.
Qed.
(** A window of the text. *)
Definition window_of (data : bytes) (s w : Z) : bytes := ztake w (zdrop s data).
Lemma window_len data s w : 0 <= s -> 0 <= w -> s + w <= zlen data -> zlen (window_of data s w) = w.
Proof. intros. unfold window_of. rewrite zlen_ztake; [done|]. rewrite zlen_zdrop; lia. Qed.
Lemma window_at data s w i : 0 <= s -> 0 <= i < w -> byte_at (window_of data s w) i = byte_at data (s + i).
Proof.
  intros. unfold byte_at, window_of, ztake, zdrop. rewrite lookup_take_lt by lia. rewrite lookup_drop. f_equal. lia.
Qed.
Lemma take_while_count p l n :
  (forall i, (i < n)%nat -> exists b, l !! i = Some b /\ p b = true) ->
  (n = length l \/ exists b, l !! n = Some b /\ p b = false) -> length (take_while p l) = n.
Proof.
  revert n. induction l as [|b l IH]; intros n Ht Hs; cbn [take_while].
  - destruct n as [|n]; [done|]. destruct (Ht 0%nat) as (? & ? & _); [lia|done].
  - destruct n as [|n].
    + destruct Hs as [?|(c & Hc & Hp)]; [done|]. cbn in Hc. simplify_eq. by rewrite Hp.
    + destruct (Ht 0%nat) as (c & Hc & Hp); [lia|]. cbn in Hc. simplify_eq. rewrite Hp. cbn [length]. f_equal.
      apply IH; [intros i Hi; apply (Ht (S i)); lia|]. destruct Hs as [Hs|Hs]; [left; simpl in Hs; lia|by right].
Qed.
Section Text.
Context (data : bytes) (Hok : bytes_ok data) (Hvalid : Utf8.valid data = true).
Lemma skip_boundary o w :
  0 <= o -> 0 <= w -> o + w <= zlen data -> (3 <= w \/ o + w = zlen data) ->
  let skip := zlen (take_while continuation (ztake 3 (window_of data o w))) in
  boundary data (o + skip) /\ (boundary data o -> skip = 0) /\ skip <= w.
Proof.
  intros Ho Hw Hle Hend skip.
  assert (exists n : nat, (Z.of_nat n <= w /\ Z.of_nat n <= 3) /\ boundary data (o + Z.of_nat n) /\
    (boundary data o -> n = 0%nat) /\
    forall i, (i < n)%nat -> exists b, byte_at data (o + Z.of_nat i) = Some b /\ continuation b = true)
    as (n & Hn & Hbn & Hb0 & Hc).
  { destruct (decide (o = zlen data)) as [Heq|].
    { exists 0%nat. rewrite Z.add_0_r. split_and!; try lia; try done. rewrite Heq. by apply boundary_end. }
    destruct (locate data o Hok Hvalid) as (p & k & Hin & Hk & Hp & Hpk & _ & Hcont); [lia|].
    destruct (decide (p = o)) as [->|].
    { exists 0%nat. rewrite Z.add_0_r. split_and!; try lia; done. }
    assert (p + k <= zlen data) by apply Hpk.
    exists (Z.to_nat (p + k - o)). rewrite Z2Nat.id by lia. replace (o + (p + k - o)) with (p + k) by lia.
    split_and!; try lia; try done.
    - intros Hbo. destruct (Hcont o) as (b & Hat & Hcb); [lia|]. rewrite (boundary_lead data o b) in Hcb; done.
    - intros i Hi. apply Hcont. lia. }
  assert (skip = Z.of_nat n) as ->; [|split_and!; try done; [intros Hbo; rewrite (Hb0 Hbo); done|lia]].
  unfold skip, zlen. f_equal.
  assert (ztake 3 (window_of data o w) = window_of data o (Z.min 3 w)) as ->.
  { unfold window_of, ztake. rewrite take_take. f_equal. lia. }
  apply take_while_count.
  - intros i Hi. destruct (Hc i Hi) as (b & Hat & Hcb). exists b. split; [|done].
    rewrite <- (window_at data o (Z.min 3 w)) in Hat by lia. unfold byte_at in Hat. by rewrite Nat2Z.id in Hat.
  - pose proof (window_len data o (Z.min 3 w) ltac:(lia) ltac:(lia) ltac:(lia)) as Hl. unfold zlen in Hl.
    destruct (decide (Z.of_nat n = Z.min 3 w)); [left; lia|right].
    destruct (byte_at_Some data (o + Z.of_nat n)) as (b & Hat); [lia|]. exists b.
    split; [|by apply (boundary_lead data (o + Z.of_nat n))].
    rewrite <- (window_at data o (Z.min 3 w)) in Hat by lia. unfold byte_at in Hat. by rewrite Nat2Z.id in Hat.
Qed.
Lemma snap_end_text s w limit :
  boundary data s -> s + w <= zlen data -> 1 <= limit < w ->
  exists e, snap_end (window_of data s w) limit = Ok e /\ boundary data (s + e) /\ (0 <= e <= limit /\ limit - 3 <= e) /\
    (e = 0 -> exists b, byte_at data s = Some b /\ limit < scalar_len b <= 4 /\ boundary data (s + scalar_len b)).
Proof.
  intros Hs Hw Hl. assert (0 <= s) by apply Hs. unfold snap_end. rewrite window_len by lia.
  rewrite Z.min_l by lia. rewrite decide_True by lia.
  destruct (byte_at_Some data (s + limit)) as (b & Hat); [lia|].
  rewrite (index_Ok _ limit b); [|by rewrite window_at by lia|lia]. cbn [obind].
  destruct (continuation b) eqn:Hcb.
  2:{ exists limit. split_and!; try lia; [done|]. apply (lead_boundary data _ b); try done. lia. }
  destruct (locate_from data s (s + limit) Hok Hvalid Hs) as (p & k & Hsp & Hin & Hk & Hp & Hpk & (c & Hc & Hcc & Hsl) & Hcont); [lia|].
  assert (p <> s + limit) by (intros ->; congruence).
  rewrite (seek_lead_finds 3 _ 0 limit limit (p - s)); try lia.
  - cbn [obind]. rewrite (index_Ok _ (p - s) c); [|rewrite window_at by lia; rewrite <- Hc; f_equal; lia|lia].
    cbn [obind]. rewrite Hcc, Hsl. cbn [negb andb]. rewrite (proj2 (Z.ltb_lt _ _)) by lia.
    exists (p - s). replace (s + (p - s)) with p by lia. split_and!; try done; try lia.
    intros He. assert (p = s) as -> by lia. exists c. split_and!; try done; try lia. by rewrite Hsl.
  - intros i Hi. destruct (Hcont (s + i)) as (d & Hd & Hcd); [lia|]. exists d.
    rewrite window_at by lia. by rewrite Z.sub_0_r.
  - right. exists c. rewrite window_at by lia. split; [|done]. rewrite <- Hc. f_equal. lia.
Qed.
Lemma without_open_scalar_text s w :
  boundary data s -> 0 <= w -> s + w <= zlen data ->
  exists e, without_open_scalar (window_of data s w) = Ok e /\ boundary data (s + e) /\ w - 3 <= e <= w /\ 0 <= e.
Proof.
  intros Hs Hw Hle. assert (0 <= s) by apply Hs. unfold without_open_scalar. rewrite window_len by lia.
  destruct (decide (w = 0)) as [->|].
  { cbn. exists 0. rewrite Z.add_0_r. split_and!; try done; lia. }
  destruct (locate_from data s (s + w - 1) Hok Hvalid Hs) as (p & k & Hsp & Hin & Hk & Hp & Hpk & (c & Hc & Hcc & Hsl) & Hcont); [lia|].
  rewrite (seek_lead_finds 3 _ 1 w w (p - s + 1)); try lia.
  - cbn [obind]. rewrite decide_True by lia. replace (p - s + 1 - 1) with (p - s) by lia.
    rewrite (index_Ok _ (p - s) c); [|rewrite window_at by lia; rewrite <- Hc; f_equal; lia|lia].
    cbn [obind]. rewrite Hcc, Hsl. cbn [negb andb]. destruct (Z.ltb_spec w (p - s + k)).
    + exists (p - s). replace (s + (p - s)) with p by lia. split_and!; try done; lia.
    + exists w. replace (s + w) with (p + k) by lia. split_and!; try done; lia.
  - intros i Hi. destruct (Hcont (s + i - 1)) as (d & Hd & Hcd); [lia|]. exists d.
    rewrite window_at by lia. by replace (s + (i - 1)) with (s + i - 1) by lia.
  - right. exists c. rewrite window_at by lia. split; [|done]. rewrite <- Hc. f_equal. lia.
Qed.
Lemma window_sub o w skip :
  0 <= o -> 0 <= skip <= w -> o + w <= zlen data ->
  sub skip (zlen (window_of data o w)) (window_of data o w) = @Ok ReplayError _ (window_of data (o + skip) (w - skip)).
Proof.
  intros. rewrite window_len by lia. rewrite sub_in; [|lia|rewrite window_len; lia]. f_equal.
  unfold window_of, ztake, zdrop. rewrite skipn_firstn_comm, take_take, drop_drop. f_equal; [lia|]. f_equal. lia.
Qed.
Lemma snap_settled o w limit :
  0 <= o -> 0 <= w -> o + w <= zlen data -> 1 <= limit -> w <= limit + 4 ->
  (o + w = zlen data \/ w = limit + 4) -> (4 <= limit \/ boundary data o) ->
  exists skip e, snap (window_of data o w) limit false = Ok (skip, e) /\
    boundary data (o + skip) /\ boundary data (o + skip + e) /\ (boundary data o -> skip = 0) /\
    Z.min limit (w - skip) - 3 <= e <= w - skip.
Proof.
  intros Ho Hw Hle Hl Hwl Hend Hbig. unfold snap.
  destruct (skip_boundary o w) as (Hb & Hs0 & Hskw); [lia..|]. pose proof (zlen_nonneg (take_while continuation (ztake 3 (window_of data o w)))) as Hsk0.
  assert (zlen (take_while continuation (ztake 3 (window_of data o w))) <= 3) as Hsk3.
  { etrans; [apply take_while_le|]. unfold zlen, ztake. rewrite length_take. lia. }
  set (skip := zlen (take_while _ _)) in *. rewrite window_sub by lia. cbn [obind].
  destruct (decide (limit < w - skip)) as [Hlt|Hge].
  - destruct (snap_end_text (o + skip) (w - skip) limit) as (e & -> & Hbe & He & Hz); [done|lia..|]. cbn [obind andb].
    rewrite window_len by lia. destruct (Z.eqb_spec e 0) as [->|Hne]; cbn [andb].
    + destruct Hz as (b & Hat & Hsl & Hbk); [done|]. rewrite bool_decide_false.
      2:{ intros He0. assert (zlen (window_of data (o + skip) (w - skip)) = 0) as Hz by by rewrite He0. rewrite window_len in Hz; lia. }
      cbn [negb]. rewrite (index_Ok _ 0 b); [|by rewrite window_at, Z.add_0_r by lia|lia]. cbn [obind].
      assert (o + skip + scalar_len b <= zlen data) by apply Hbk.
      rewrite Z.min_l by (destruct Hbig as [|Hbo]; [|pose proof (Hs0 Hbo)]; lia).
      exists skip, (scalar_len b).
      split_and!; try done; try lia. destruct Hbig as [|Hbo]; [|pose proof (Hs0 Hbo)]; lia.
    + exists skip, e. split_and!; try done; lia.
  - assert (o + w = zlen data) by lia.
    assert (snap_end (window_of data (o + skip) (w - skip)) limit = Ok (w - skip)) as ->.
    { unfold snap_end. rewrite window_len by lia. rewrite Z.min_r, decide_False by lia. done. }
    cbn [obind andb]. exists skip, (w - skip).
    assert (boundary data (o + skip + (w - skip))) as Hbe.
    { replace (o + skip + (w - skip)) with (zlen data) by lia. by apply boundary_end. }
    destruct (Z.eqb_spec (w - skip) 0) as [Hz|Hz]; cbn [andb obind]; [|split_and!; try done; lia].
    rewrite bool_decide_true; [split_and!; try done; lia|]. rewrite Hz. done.
Qed.
Lemma snap_live o w limit :
  boundary data o -> 0 <= w -> o + w <= zlen data -> 3 <= limit ->
  exists e, snap (window_of data o w) limit true = Ok (0, e) /\ boundary data (o + e) /\
    Z.min limit w - 3 <= e <= w.
Proof.
  intros Ho Hw Hle Hl. assert (0 <= o) by apply Ho. unfold snap.
  assert (zlen (take_while continuation (ztake 3 (window_of data o w))) = 0) as ->.
  { destruct (decide (w = 0)) as [->|]; [done|]. destruct (byte_at_Some data o) as (b & Hat); [lia|].
    pose proof (boundary_lead data o b Hok Hvalid Ho Hat) as Hc. unfold zlen. rewrite (take_while_count _ _ 0); [done|intros; lia|].
    right. exists b. split; [|done]. unfold ztake at 1. rewrite lookup_take_lt by lia.
    pose proof (window_at data o w 0 ltac:(lia) ltac:(lia)) as Hw0. rewrite Z.add_0_r, Hat in Hw0. exact Hw0. }
  rewrite window_sub by lia. rewrite Z.add_0_r, Z.sub_0_r. cbn [obind].
  destruct (decide (limit < w)) as [Hlt|Hge].
  - destruct (snap_end_text o w limit) as (e & -> & Hbe & He & Hz); [done|lia..|]. cbn [obind].
    rewrite window_len by lia. rewrite (proj2 (Z.eqb_neq e w)) by lia. cbn [andb].
    destruct (Z.eqb_spec e 0) as [->|Hne]; cbn [andb obind]; [|exists e; split_and!; try done; lia].
    destruct Hz as (b & Hat & Hsl & Hbk); [done|].
    rewrite bool_decide_false.
    2:{ intros He0. assert (zlen (window_of data o w) = 0) as Hz by by rewrite He0. rewrite window_len in Hz; lia. }
    cbn [negb]. rewrite (index_Ok _ 0 b); [|by rewrite window_at, Z.add_0_r by lia|lia]. cbn [obind].
    rewrite Z.min_l by lia. exists (scalar_len b). split_and!; try done; lia.
  - assert (snap_end (window_of data o w) limit = Ok w) as ->.
    { unfold snap_end. rewrite window_len by lia. rewrite Z.min_r, decide_False by lia. done. }
    cbn [obind andb]. rewrite window_len, Z.eqb_refl by lia.
    destruct (without_open_scalar_text o w) as (e & -> & Hbe & He); [done|lia..|]. cbn [obind]. exists e. split_and!; try done; lia.
Qed.
End Text.

(** ** [cut_lines]. *)
Lemma position_Some p l i :
  position p l = Some i -> 0 <= i < zlen l /\ exists b, byte_at l i = Some b /\ p b = true.
Proof.
  revert i. induction l as [|b l IH]; intros i; cbn [position]; [done|]. rewrite zlen_cons. pose proof (zlen_nonneg l).
  destruct (p b) eqn:Hp; [intros [= <-]; split; [lia|]; by exists b|].
  destruct (position p l) as [j|]; [|done]. intros [= <-]. destruct (IH j eq_refl) as (Hj & c & Hc & Hpc).
  split; [lia|]. exists c. split; [|done]. unfold byte_at in *. by replace (Z.to_nat (1 + j)) with (S (Z.to_nat j)) by lia.
Qed.
Lemma rposition_Some p l i :
  rposition p l = Some i -> 0 <= i < zlen l /\ exists b, byte_at l i = Some b /\ p b = true.
Proof.
  revert i. induction l as [|b l IH]; intros i; cbn [rposition]; [done|]. rewrite zlen_cons. pose proof (zlen_nonneg l).
  destruct (rposition p l) as [j|].
  - intros [= <-]. destruct (IH j eq_refl) as (Hj & c & Hc & Hpc).
    split; [lia|]. exists c. split; [|done]. unfold byte_at in *. by replace (Z.to_nat (1 + j)) with (S (Z.to_nat j)) by lia.
  - destruct (p b) eqn:Hp; [|done]. intros [= <-]. split; [lia|]. by exists b.
Qed.
(** The cut window starts where the window did or just after a newline, and
    ends where it did or just after a newline. *)
Lemma cut_lines_spec bs skip len start reaches_end lines :
  0 <= skip -> 0 <= len -> skip + len <= zlen bs ->
  exists skip' len', cut_lines bs skip len start reaches_end lines = Ok (skip', len') /\
    skip <= skip' /\ skip' + len' <= skip + len /\ 0 <= len' /\ (0 < len -> 0 < len') /\
    (skip' = skip \/ byte_at bs (skip' - 1) = Some 10) /\
    (skip' + len' = skip + len \/ byte_at bs (skip' + len' - 1) = Some 10) /\
    (lines = Any -> (skip', len') = (skip, len)).
Proof.
  intros Hs Hl Hle. unfold cut_lines. rewrite sub_in by lia. cbn [obind]. replace (skip + len - skip) with len by lia.
  change (ztake len (zdrop skip bs)) with (window_of bs skip len).
  assert (exists skip' len', Ok (skip, len) = @Ok ReplayError _ (skip', len') /\
    skip <= skip' /\ skip' + len' <= skip + len /\ 0 <= len' /\ (0 < len -> 0 < len') /\
    (skip' = skip \/ byte_at bs (skip' - 1) = Some 10) /\
    (skip' + len' = skip + len \/ byte_at bs (skip' + len' - 1) = Some 10) /\
    (lines = Any -> (skip', len') = (skip, len))) as Hsame.
  { exists skip, len. split_and!; try done; try lia; auto. }
  destruct lines; [done|..].
  - destruct reaches_end; [done|]. destruct (rposition newline _) as [i|] eqn:Hi; [|done].
    apply rposition_Some in Hi as (Hi & b & Hb & Hn). rewrite window_len in Hi by lia. rewrite window_at in Hb by lia.
    apply Z.eqb_eq in Hn as ->. exists skip, (i + 1). split_and!; try done; try lia; auto.
    right. rewrite <- Hb. f_equal. lia.
  - destruct (start =? 0); [done|]. destruct (position newline _) as [i|] eqn:Hi; [|done].
    apply position_Some in Hi as (Hi & b & Hb & Hn). rewrite window_len in Hi by lia. rewrite window_at in Hb by lia.
    apply Z.eqb_eq in Hn as ->. destruct (Z.ltb_spec (i + 1) len); [|done].
    exists (skip + i + 1), (len - i - 1). split_and!; try done; try lia.
    right. rewrite <- Hb. f_equal. lia.
Qed.
Lemma after_newline data n :
  bytes_ok data -> Utf8.valid data = true -> 0 <= n -> byte_at data n = Some 10 -> boundary data (n + 1).
Proof.
  intros Hb Hv Hn Hat. pose proof (lookup_lt_Some _ _ _ Hat).
  destruct (locate data n Hb Hv) as (p & k & Hin & Hk & Hp & Hpk & (b & Hlead & Hc & Hsl) & Hcont); [unfold zlen; lia|].
  destruct (decide (p = n)) as [->|].
  - rewrite Hat in Hlead. injection Hlead as <-. assert (k = 1) as -> by (rewrite <- Hsl; done). done.
  - destruct (Hcont n) as (c & Hc' & Hcc); [lia|]. rewrite Hat in Hc'. injection Hc' as <-. done.
Qed.

(** ** [bounded_text]. *)
Lemma first_truncated b r ok n m :
  Utf8.first b r = (ok, n) -> (n <= S m)%nat -> Utf8.first b (take m r) = (ok, n).
Proof.
  unfold Utf8.first. intros Hf Hm.
  assert (forall i p, Utf8.test p (take m r !! i) = if decide (i < m)%nat then Utf8.test p (r !! i) else false) as Ht.
  { intros i p. case_decide; [by rewrite lookup_take_lt|]. by rewrite lookup_take_ge by lia. }
  rewrite !Ht. revert Hf. destruct (Utf8.width b) as [|[|[|[|[|w]]]]]; try done;
    repeat case_decide; intros; repeat case_match; simplify_eq; try done; lia.
Qed.
Lemma items_concat fuel l : (length l <= fuel)%nat -> concat (snd <$> utf8_items fuel l) = l.
Proof.
  revert l. induction fuel as [|fuel IH]; intros [|b r] Hl; simpl in Hl; try done; try lia.
  cbn [utf8_items]. destruct (Utf8.first b r) as [ok n] eqn:Hf. destruct (Utf8.first_len _ _ _ _ Hf).
  cbn [fmap list_fmap concat snd]. rewrite IH; [apply take_drop|]. rewrite length_drop. simpl. lia.
Qed.
Definition item_ok (i : bool * bytes) : Prop := (0 < length i.2 <= 4)%nat /\ (i.1 = true -> scalar i.2).
Lemma items_ok fuel l : Forall item_ok (utf8_items fuel l).
Proof.
  revert l. induction fuel as [|fuel IH]; intros [|b r]; try constructor.
  cbn [utf8_items]. destruct (Utf8.first b r) as [ok n] eqn:Hf. destruct (Utf8.first_len _ _ _ _ Hf).
  constructor; [|apply IH]. split; [cbn [snd]; rewrite length_take; simpl; lia|]. cbn. intros ->. by apply first_take.
Qed.
(** A prefix of the items is the items of the bytes they cover. *)
Lemma items_prefix fuel fuel' l taken rest :
  utf8_items fuel l = taken ++ rest -> (length (concat (snd <$> taken)) <= fuel')%nat ->
  utf8_items fuel' (take (length (concat (snd <$> taken))) l) = taken.
Proof.
  revert fuel fuel' l. induction taken as [|i taken IH]; intros fuel fuel' l Hi Hf'.
  { cbn. by destruct fuel'. }
  destruct fuel as [|fuel]; [done|]. destruct l as [|b r]; [done|]. cbn [utf8_items] in Hi.
  destruct (Utf8.first b r) as [ok n] eqn:Hf. destruct (Utf8.first_len _ _ _ _ Hf) as [Hn1 Hn2].
  injection Hi as <- Hi. cbn [fmap list_fmap concat snd] in *. rewrite length_app, length_take in *.
  cbn [length] in *. rewrite Nat.min_l in * by lia. set (m := length (concat (snd <$> taken))) in *.
  destruct fuel' as [|fuel']; [lia|]. destruct n as [|n]; [lia|]. cbn [Nat.add take utf8_items].
  rewrite (first_truncated b r ok (S n)) by (done || lia).
  f_equal; [f_equal; cbn [take]; f_equal; rewrite take_take; f_equal; lia|].
  cbn [drop]. rewrite skipn_firstn_comm. replace (n + m - n)%nat with m by lia. apply (IH fuel); [done|lia].
Qed.
Lemma items_eq fuel fuel' l : (length l <= fuel)%nat -> (length l <= fuel')%nat -> utf8_items fuel l = utf8_items fuel' l.
Proof.
  intros Hf Hf'. pose proof (items_prefix fuel fuel' l (utf8_items fuel l) []) as Hp.
  rewrite app_nil_r, items_concat, take_ge in Hp by lia. symmetry. apply Hp; [done|lia].
Qed.
Lemma items_suffix fuel fuel' l taken rest :
  utf8_items fuel l = taken ++ rest -> (length l <= fuel)%nat -> (length l <= fuel')%nat ->
  utf8_items fuel' (drop (length (concat (snd <$> taken))) l) = rest.
Proof.
  revert fuel l. induction taken as [|i taken IH]; intros fuel l Hi Hf Hf'.
  { cbn [fmap list_fmap concat length app] in *. rewrite drop_0, <- Hi. by apply items_eq. }
  destruct fuel as [|fuel]; [done|]. destruct l as [|b r]; [done|]. cbn [utf8_items] in Hi.
  destruct (Utf8.first b r) as [ok n] eqn:Hfst. destruct (Utf8.first_len _ _ _ _ Hfst) as [Hn1 Hn2].
  injection Hi as <- Hi. cbn [fmap list_fmap concat snd]. rewrite length_app, length_take.
  cbn [length] in *. rewrite Nat.min_l, <- drop_drop by lia.
  apply (IH fuel); [done|rewrite length_drop; simpl; lia..].
Qed.
Lemma item_text_len i : item_ok i -> zlen (item_text i) <= 4.
Proof. intros [Hl _]. unfold item_text. destruct i.1; [unfold zlen; lia|done]. Qed.
Lemma bounded_loop_spec items max_text text consumed text' consumed' :
  Forall item_ok items -> 0 <= consumed -> (consumed = 0 -> text = []) ->
  bounded_loop items max_text text consumed = (text', consumed') ->
  exists taken rest, items = taken ++ rest /\ text' = text ++ concat (item_text <$> taken) /\
    consumed' = consumed + zlen (concat (snd <$> taken)) /\
    (zlen text <= Z.max max_text 4 -> zlen text' <= Z.max max_text 4) /\
    match rest with [] => True | i :: _ => zlen text' + zlen (item_text i) > max_text /\ consumed' > 0 end.
Proof.
  intros Hall. revert text consumed. induction Hall as [|i items Hi _ IH]; intros text consumed Hc Ht; cbn [bounded_loop].
  { intros [= <- <-]. exists [], []. cbn. rewrite app_nil_r. change (zlen []) with 0. split_and!; try done; lia. }
  destruct (decide _) as [Hd|Hd].
  { intros [= <- <-]. exists [], (i :: items). cbn. rewrite app_nil_r. change (zlen []) with 0. split_and!; try done; lia. }
  pose proof (proj1 Hi) as Hlen.
  intros HB. apply IH in HB as (taken & rest & -> & -> & -> & Hb & Hr); [|unfold zlen; lia|unfold zlen; lia].
  exists (i :: taken), rest. cbn [fmap list_fmap concat app]. rewrite (zlen_app i.2), (app_assoc text).
  refine (conj eq_refl (conj eq_refl (conj _ (conj _ _)))); [lia| |destruct rest; [done|lia]].
  intros Hle. apply Hb. rewrite zlen_app. pose proof (item_text_len i Hi).
  destruct (decide (consumed = 0)) as [Hz|]; [rewrite (Ht Hz); change (zlen []) with 0; lia|lia].
Qed.
Lemma item_text_valid items : Forall item_ok items -> Utf8.valid (concat (item_text <$> items)) = true.
Proof.
  induction 1 as [|i items [_ Hi] _ IH]; [done|]. cbn [fmap list_fmap concat]. unfold item_text at 1.
  destruct i.1; [rewrite valid_cons by auto|rewrite valid_app by done]; done.
Qed.
Lemma bounded_text_facts bs max_text text consumed :
  bounded_text bs max_text = (text, consumed) ->
  text = lossy (ztake consumed bs) /\ Utf8.valid text = true /\ zlen text <= Z.max max_text 4 /\
  0 <= consumed <= zlen bs /\ (bs <> [] -> 0 < consumed) /\
  (consumed < zlen bs -> exists i rest,
     utf8_items (length bs) (zdrop consumed bs) = i :: rest /\ zlen text + zlen (item_text i) > max_text).
Proof.
  intros HB. pose proof (items_ok (length bs) bs) as Hall. pose proof (items_concat (length bs) bs ltac:(lia)) as Hcat.
  apply bounded_loop_spec in HB as (taken & rest & Hi & -> & -> & Hlen & Hr); [|done|lia|done].
  rewrite Hi, fmap_app, concat_app in Hcat. rewrite Hi in Hall. apply Forall_app in Hall as [Hall Hrest].
  set (m := concat (snd <$> taken)) in *. set (k := concat (snd <$> rest)) in *.
  assert (zlen bs = zlen m + zlen k) as Hz by by rewrite <- Hcat, zlen_app.
  pose proof (zlen_nonneg m). pose proof (zlen_nonneg k). rewrite Z.add_0_l. cbn [app].
  assert (ztake (zlen m) bs = m) as Hm by by rewrite <- Hcat, ztake_app_l.
  split_and!; try lia; try done.
  - rewrite Hm. unfold lossy. do 2 f_equal. pose proof (items_prefix (length bs) (length m) bs taken rest Hi ltac:(subst m; lia)) as Hp.
    fold m in Hp. rewrite <- Hp at 1. f_equal. rewrite <- Hcat. apply take_app_length.
  - by apply item_text_valid.
  - apply Hlen. change (zlen []) with 0. lia.
  - intros Hne. pose proof (zlen_pos bs Hne). destruct taken as [|i taken].
    + destruct rest as [|j rest]; [subst m k; cbn in *; change (zlen []) with 0 in *; lia|].
      cbn in Hr. change (zlen []) with 0 in *. lia.
    + apply Forall_cons in Hall as [[Hl _] _]. subst m. cbn [fmap list_fmap concat]. rewrite zlen_app.
      pose proof (zlen_nonneg (concat (snd <$> taken))). unfold zlen in *. lia.
  - intros Hlt. destruct rest as [|i rest]; [subst k; cbn in *; change (zlen []) with 0 in *; lia|].
    exists i, rest. split; [|by destruct Hr]. rewrite <- (items_suffix (length bs) (length bs) bs taken (i :: rest)) by done.
    unfold zdrop, zlen. by rewrite Nat2Z.id.
Qed.
Lemma bounded_loop_all items max_text text consumed :
  zlen text + zlen (concat (item_text <$> items)) <= max_text ->
  bounded_loop items max_text text consumed =
    (text ++ concat (item_text <$> items), consumed + zlen (concat (snd <$> items))).
Proof.
  revert text consumed. induction items as [|i items IH]; intros text consumed; cbn [bounded_loop fmap list_fmap concat].
  { rewrite app_nil_r, zlen_nil. intros _. f_equal. lia. }
  rewrite zlen_app. pose proof (zlen_nonneg (concat (item_text <$> items))). intros Hle.
  rewrite decide_False by lia. rewrite IH by (rewrite zlen_app; lia). rewrite zlen_app, <- app_assoc. f_equal. lia.
Qed.
Lemma items_valid l : Utf8.valid l = true -> Forall (fun i => i.1 = true) (utf8_items (length l) l).
Proof.
  unfold Utf8.valid. generalize (length l) as fuel. intros fuel. revert l.
  induction fuel as [|fuel IH]; intros [|b r]; cbn [Utf8.valid_fuel utf8_items]; [constructor..|].
  destruct (Utf8.first b r) as [ok n] eqn:Hf. intros [-> Hv]%andb_true_iff.
  destruct (Utf8.first_len _ _ _ _ Hf). destruct n as [|n]; [lia|]. by constructor; [|apply IH].
Qed.
Lemma valid_item_text l : Utf8.valid l = true -> concat (item_text <$> utf8_items (length l) l) = l.
Proof.
  intros Hv. rewrite <- (items_concat (length l) l) at 3 by lia. f_equal.
  apply list_fmap_ext. intros k i Hi. unfold item_text. by rewrite (Forall_lookup_1 _ _ _ _ (items_valid l Hv) Hi).
Qed.
Lemma bounded_text_valid l max_text :
  Utf8.valid l = true -> zlen l <= max_text -> bounded_text l max_text = (l, zlen l).
Proof.
  intros Hv Hl. unfold bounded_text. rewrite bounded_loop_all; rewrite valid_item_text by done; [|rewrite zlen_nil; lia].
  by rewrite items_concat by lia.
Qed.

(** ** The payload file: a read returns at least one byte of the file, and
    nothing at its end. *)
Class ServesFile (read_at : ReadAt) (data : bytes) : Prop := {
  read_inside : forall offset n, 0 <= offset < zlen data -> 0 < n ->
    exists m, 0 < m <= n /\ offset + m <= zlen data /\ read_at offset n = Ok (window_of data offset m);
  read_end : forall offset n, zlen data <= offset -> read_at offset n = Ok [];
}.
Lemma window_app data o a b : 0 <= o -> 0 <= a -> 0 <= b -> window_of data o a ++ window_of data (o + a) b = window_of data o (a + b).
Proof.
  intros. unfold window_of. rewrite ztake_add by done. f_equal. f_equal. rewrite zdrop_zdrop by lia. f_equal. lia.
Qed.
Lemma fill_reads read_at data `{!ServesFile read_at data} rounds offset window done_ :
  0 <= offset -> 0 <= done_ <= window -> offset + window <= zlen data -> window - done_ <= Z.of_nat rounds ->
  fill rounds read_at offset window (window_of data offset done_) = Some (window_of data offset window).
Proof.
  revert done_. induction rounds as [|rounds IH]; intros d Ho Hd Hw Hr; cbn [fill].
  { repeat f_equal. lia. }
  rewrite window_len by lia. destruct (decide (d < window)); [|repeat f_equal; lia].
  destruct (read_inside (offset + d) (window - d)) as (m & Hm & Hle & ->); [lia..|].
  destruct (window_of data (offset + d) m) as [|x r] eqn:Hx.
  { assert (zlen (window_of data (offset + d) m) = 0) as Hz by by rewrite Hx. rewrite window_len in Hz; lia. }
  rewrite <- Hx, window_app by lia. apply IH; lia.
Qed.

(** ** Pages of a text. *)
Lemma valid_between data a b :
  boundary data a -> boundary data b -> a <= b -> Utf8.valid (window_of data a (b - a)) = true.
Proof.
  intros [Ha Ha1 _] [Hb Hb1 _] Hab. rewrite <- (valid_app (ztake a data)) by done.
  unfold window_of. rewrite <- ztake_add by lia. by replace (a + (b - a)) with b by lia.
Qed.
Section Pages.
Context (data : bytes) (Hok : bytes_ok data) (Hvalid : Utf8.valid data = true).
Lemma page_of_text page request limit total watermarked o w skip e :
  rq_offset request = o -> 0 <= o -> 0 <= w -> o + w <= zlen data ->
  snap (window_of data o w) limit (watermarked && (total <=? o + w)) = Ok (skip, e) ->
  boundary data (o + skip) -> boundary data (o + skip + e) -> 0 <= skip -> 0 <= e <= TEXT_LIMIT -> skip + e <= w ->
  exists start next,
    page_of_buffer page request limit total watermarked (window_of data o w) =
      Ok (mkPage (pg_state page) start (window_of data start (next - start)) next (pg_total page) (pg_digest page) (pg_watermark page)) /\
    boundary data start /\ boundary data next /\ o + skip <= start <= next /\ next <= o + skip + e /\ (0 < e -> start < next) /\
    (rq_lines request = Any -> start = o + skip /\ next = o + skip + e).
Proof.
  intros Ho H0 Hw Hle Hsnap Hb1 Hb2 Hs He Hse. unfold page_of_buffer. rewrite Ho, window_len, Hsnap by lia. cbn [obind].
  destruct (cut_lines_spec (window_of data o w) skip e (o + skip) (total <=? o + (skip + e)) (rq_lines request))
    as (s' & l' & -> & Hc1 & Hc2 & Hc3 & Hpos & Hstart & Hend & Hany); [lia..|rewrite window_len; lia|]. cbn [obind].
  rewrite sub_in by (rewrite ?window_len; lia). cbn [obind]. replace (s' + l' - s') with l' by lia.
  assert (ztake l' (zdrop s' (window_of data o w)) = window_of data (o + s') l') as ->.
  { unfold window_of, ztake, zdrop. rewrite skipn_firstn_comm, take_take, drop_drop. f_equal; [lia|]. f_equal. lia. }
  assert (forall i, 0 < i <= w -> byte_at (window_of data o w) (i - 1) = Some 10 -> boundary data (o + i)) as Hnl.
  { intros i Hi Hat. rewrite window_at in Hat by lia. replace (o + i) with (o + (i - 1) + 1) by lia.
    apply after_newline; try done. lia. }
  assert (boundary data (o + s')) as Hbs.
  { destruct Hstart as [->|Hat]; [done|]. destruct (decide (s' = skip)) as [->|]; [done|]. apply Hnl; [lia|done]. }
  assert (boundary data (o + s' + l')) as Hbe.
  { destruct Hend as [Heq|Hat]; [by replace (o + s' + l') with (o + skip + e) by lia|].
    destruct (decide (l' = 0)) as [->|]; [by rewrite Z.add_0_r|].
    rewrite <- Z.add_assoc. apply Hnl; [lia|done]. }
  rewrite bounded_text_valid; [|by replace l' with (o + s' + l' - (o + s')) by lia; apply valid_between; [..|lia]|rewrite window_len; lia].
  exists (o + s'), (o + s' + l'). rewrite window_len by lia. replace (o + s' + l' - (o + s')) with l' by lia.
  split_and!; try done; try lia; intros Hl; injection (Hany Hl) as -> ->; lia.
Qed.
(** What a settled payload with a readable file offers. *)
Record settled_file (open : OpenRead) (entry : PayloadEntry) (id : PayloadId) (state : PageState) : Prop := {
  sf_state : page_state (p_state entry) = inl state;
  sf_total : p_total entry = zlen data;
  sf_watermark : p_watermark entry = None;
  sf_file : exists read_at, ServesFile read_at data /\
    open id (match p_location entry with LNone => LStaging | l => l end) = Ok read_at;
}.
Lemma read_settled open heap request entry state :
  settled_file open entry (rq_payload request) state ->
  scope_denied (rq_scope request) (p_operation entry) = false -> 0 <= rq_offset request < zlen data ->
  (4 <= rq_limit request \/ boundary data (rq_offset request)) ->
  exists start next,
    read_held open heap request entry =
      Ok (mkPage state start (window_of data start (next - start)) next (zlen data) (p_digest entry) None) /\
    boundary data start /\ boundary data next /\ rq_offset request <= start <= next /\ rq_offset request < next /\
    next - start <= TEXT_LIMIT /\
    (rq_lines request = Any -> boundary data (rq_offset request) -> start = rq_offset request).
Proof.
  intros [Hst Htot Hwm (read_at & Hserves & Hopen)] Hscope Hoff Hlim. unfold read_held. rewrite Hscope, Hst, Hwm, Htot.
  cbn [fmap option_fmap option_map default]. rewrite !decide_False by lia. rewrite Hopen.
  set (limit := clamp 1 PAGE_LIMIT (rq_limit request)).
  assert (1 <= limit <= 8192 /\ (4 <= rq_limit request -> 4 <= limit)) as [Hlimit H4] by (unfold limit, clamp, PAGE_LIMIT; lia).
  set (o := rq_offset request) in *. set (w := Z.min (zlen data - o) (limit + 4)).
  assert (0 < w /\ o + w <= zlen data /\ w <= limit + 4 /\ (o + w = zlen data \/ w = limit + 4)) as (Hw0 & Hwle & Hwl & Hwe)
    by (unfold w; lia).
  pose proof (fill_reads read_at data (Z.to_nat w) o w 0 ltac:(lia) ltac:(lia) ltac:(lia) ltac:(lia)) as Hfill.
  change (window_of data o 0) with (@nil Z) in Hfill. rewrite Hfill.
  assert (exists skip e, snap (window_of data o w) limit false = Ok (skip, e) /\
    boundary data (o + skip) /\ boundary data (o + skip + e) /\ (boundary data o -> skip = 0)) as (skip & e & Hsnap & Hb1 & Hb2 & Hs0).
  { destruct (snap_settled data Hok Hvalid o w limit) as (skip & e & ? & ? & ? & ? & _); try done; try lia; [|by exists skip, e].
    destruct Hlim; [left; lia|by right]. }
  destruct (snap_total (window_of data o w) limit false) as (skip' & e' & Hsnap' & Hr1 & Hr2 & Hr3 & Hr4); [lia|].
  rewrite Hsnap in Hsnap'. injection Hsnap' as <- <-. rewrite window_len in Hr3 by lia.
  assert (0 < skip + e) as Hprog.
  { apply Hr4; [done|]. intros Hnil. assert (zlen (window_of data o w) = 0) as Hz by by rewrite Hnil. rewrite window_len in Hz; lia. }
  destruct (page_of_text (mkPage state o [] o (zlen data) (p_digest entry) None) request limit (zlen data) false o w skip e)
    as (start & next & Hpage & Hbs & Hbn & Hrange & Hup & Hpos & Hany); try done; try lia.
  { unfold TEXT_LIMIT. lia. }
  exists start, next. split.
  { cbn [pg_state pg_total pg_digest pg_watermark] in Hpage. rewrite bool_decide_false by (by intros []).
    destruct state; exact Hpage. }
  split_and!; try done; try lia.
  - unfold TEXT_LIMIT. lia.
  - intros Hl Hbo. rewrite (Hs0 Hbo) in *. destruct (Hany Hl). lia.
Qed.
End Pages.

(** ** The ledger around a page read. *)
Definition holds_room (s : State) : Prop := map_Forall (fun _ c => 0 <= c_holds c < 2 ^ 32 - 1) (s_calls s).
Lemma hold_release s id s' entry :
  holds_room s -> hold_payload s id = (s', Some entry) -> release_payload s' id = s.
Proof.
  intros Hroom. unfold hold_payload. destruct (s_payloads s !! id) as [p|] eqn:Hp; [|done].
  destruct (s_calls s !! p_call p) as [c|] eqn:Hc; [|done]. destruct (c_deleting c); [done|]. intros [= <- <-].
  pose proof (Hroom _ _ Hc) as Hh. unfold release_payload, unhold, with_calls. cbn [s_payloads s_calls]. rewrite Hp.
  destruct s as [quota used calls payloads expired deleted pinned refs]. cbn in Hc |- *. f_equal.
  apply map_eq. intros k. destruct (decide (k = p_call p)) as [->|Hk].
  - rewrite lookup_alter_eq, lookup_insert_eq, Hc. cbn. f_equal. destruct c. unfold with_holds. cbn in *.
    rewrite wrap_small by (unfold uint; lia). f_equal. unfold saturating_sub. lia.
  - by rewrite lookup_alter_ne, lookup_insert_ne.
Qed.
Lemma hold_None s id s' : hold_payload s id = (s', None) -> s' = s.
Proof. unfold hold_payload. repeat case_match; naive_solver. Qed.
(** A page that carries a bounded valid text. *)
Definition sound_page (page : Page) : Prop := Utf8.valid (pg_text page) = true /\ zlen (pg_text page) <= TEXT_LIMIT.
Lemma page_of_buffer_total page request limit total watermarked buffer :
  1 <= limit -> exists page', page_of_buffer page request limit total watermarked buffer = Ok page' /\ sound_page page'.
Proof.
  intros Hl. unfold page_of_buffer.
  destruct (snap_total buffer limit (watermarked && (total <=? rq_offset request + zlen buffer))) as (skip & e & -> & ? & ? & ? & _); [done|].
  cbn [obind].
  destruct (cut_lines_spec buffer skip e (rq_offset request + skip) (total <=? rq_offset request + (skip + e)) (rq_lines request))
    as (s' & l' & -> & ? & ? & ? & _); [lia..|]. cbn [obind]. rewrite sub_in by lia. cbn [obind].
  destruct (bounded_text _ TEXT_LIMIT) as [text consumed] eqn:Ht. apply bounded_text_facts in Ht as (_ & Hv & Hlen & _).
  eexists. split; [done|]. split; [done|]. unfold TEXT_LIMIT in *. cbn. lia.
Qed.
Lemma read_held_total open heap request entry :
  (forall id location, open id location <> Panic) ->
  exists page, read_held open heap request entry = Ok page /\ sound_page page.
Proof.
  intros Hopen. unfold read_held.
  assert (forall st o, exists page, @Ok ReplayError _ (page_empty st o) = Ok page /\ sound_page page) as Hempty.
  { intros. eexists. split; [done|]. split; [done|by vm_compute]. }
  destruct (scope_denied _ _); [apply Hempty|]. destruct (page_state _) as [st|st]; [|apply Hempty].
  destruct (decide _); [eexists; split; [done|]; split; [done|by vm_compute]|].
  destruct (decide _); [eexists; split; [done|]; split; [done|by vm_compute]|].
  destruct (open _ _) as [read_at|[]|] eqn:He; try apply Hempty; [|by apply Hopen in He].
  destruct (fill _ _ _ _ _); [|apply Hempty]. apply page_of_buffer_total. unfold clamp, PAGE_LIMIT. lia.
Qed.
(** For any request, any ledger state with room in its hold counters and
    whatever the payload file returns, a page read gives a page, never panics,
    leaves the ledger as it found it, and delivers at most 8,192 bytes of valid
    UTF-8. *)
Theorem read_page_total open heap s request :
  (forall id location, open id location <> Panic) -> holds_room s ->
  exists page, read_page open heap s request = Ok (page, s) /\ sound_page page.
Proof.
  intros Hopen Hroom. unfold read_page.
  assert (forall st o, exists page, @Ok ReplayError _ (page_empty st o, s) = Ok (page, s) /\ sound_page page) as Hempty.
  { intros. eexists. split; [done|]. split; [done|by vm_compute]. }
  destruct (decide _); [apply Hempty|]. destruct (decide _); [apply Hempty|].
  destruct (hold_payload s (rq_payload request)) as [s' [entry|]] eqn:Hh; [|rewrite (hold_None _ _ _ Hh); apply Hempty].
  destruct (read_held_total open heap request entry Hopen) as (page & -> & Hp). cbn [obind].
  exists page. by rewrite (hold_release _ _ _ _ Hroom Hh).
Qed.
(** The bounded text of any bytes is the lossy text of exactly the bytes
    it consumed, valid UTF-8, within the bound (or one scalar); a non-empty input
    is never left unconsumed, and what is left starts with an item that does not
    fit. *)
Theorem bounded_text_spec bs max_text text consumed :
  bounded_text bs max_text = (text, consumed) ->
  text = lossy (ztake consumed bs) /\ Utf8.valid text = true /\ zlen text <= Z.max max_text 4 /\
  0 <= consumed <= zlen bs /\ (bs <> [] -> 0 < consumed) /\
  (consumed < zlen bs -> exists i rest,
     utf8_items (length bs) (zdrop consumed bs) = i :: rest /\ zlen text + zlen (item_text i) > max_text).
Proof. apply bounded_text_facts. Qed.
(** The reader of a settled payload that asks for page after page, each from
    where the last one ended. *)
Fixpoint read_pages (rounds : nat) (open : OpenRead) (heap : Heap) (entry : PayloadEntry)
    (id : PayloadId) (limit offset : Z) : Result bytes :=
  match rounds with
  | O => Ok []
  | S rounds' =>
      let? page := read_held open heap (mkRequest id offset limit None Any) entry in
      if pg_next_offset page =? pg_total page then Ok (pg_text page)
      else let? rest := read_pages rounds' open heap entry id limit (pg_next_offset page) in
           Ok (pg_text page ++ rest)
  end.
Lemma read_pages_from data open heap entry id state limit rounds offset :
  bytes_ok data -> Utf8.valid data = true -> settled_file data open entry id state ->
  boundary data offset -> offset < zlen data -> zlen data - offset <= Z.of_nat rounds ->
  read_pages rounds open heap entry id limit offset = Ok (zdrop offset data).
Proof.
  intros Hok Hv Hfile. revert offset. induction rounds as [|rounds IH]; intros o Ho Hlt Hr; [lia|]. cbn [read_pages].
  assert (0 <= o) by apply Ho.
  destruct (read_settled data Hok Hv open heap (mkRequest id o limit None Any) entry state)
    as (start & next & -> & Hbs & Hbn & Hrange & Hprog & _ & Hstart); [done|done|cbn; lia|by right|].
  cbn [rq_offset rq_lines] in *. rewrite (Hstart eq_refl Ho) in *. cbn [obind pg_next_offset pg_total pg_text].
  assert (next <= zlen data) by apply Hbn.
  assert (window_of data o (next - o) ++ zdrop next data = zdrop o data) as Hcat.
  { unfold window_of. rewrite <- (ztake_zdrop (next - o) (zdrop o data)) at 2. f_equal. rewrite zdrop_zdrop by lia. f_equal. lia. }
  destruct (Z.eqb_spec next (zlen data)) as [->|Hne].
  - f_equal. rewrite <- Hcat. unfold zdrop at 1, zlen. rewrite drop_ge by lia. by rewrite app_nil_r.
  - rewrite IH by (done || lia). cbn [obind]. by rewrite Hcat.
Qed.
(** A page of a live payload at a scalar boundary, with a limit of at
    least three bytes, holds exactly the source bytes up to a scalar boundary at
    or below the watermark, and leaves at most three bytes of what it could
    have shown. *)
Theorem live_page_of_text data file open heap request entry arc :
  bytes_ok data -> Utf8.valid data = true ->
  p_state entry = PLive -> p_watermark entry = Some arc ->
  (exists read_at, ServesFile read_at file /\
     open (rq_payload request) (match p_location entry with LNone => LStaging | l => l end) = Ok read_at) ->
  load heap arc <= zlen file -> load heap arc <= zlen data -> ztake (load heap arc) file = ztake (load heap arc) data ->
  scope_denied (rq_scope request) (p_operation entry) = false -> rq_lines request = Any -> 3 <= rq_limit request ->
  boundary data (rq_offset request) -> rq_offset request < load heap arc ->
  exists next,
    read_held open heap request entry =
      Ok (mkPage SLive (rq_offset request) (window_of data (rq_offset request) (next - rq_offset request)) next
            (load heap arc) (p_digest entry) (Some (load heap arc))) /\
    boundary data next /\ rq_offset request <= next <= load heap arc /\
    Z.min (load heap arc - rq_offset request) (Z.min PAGE_LIMIT (rq_limit request)) - 3 <= next - rq_offset request.
Proof.
  intros Hok Hv Hst Hwm (read_at & Hserves & Hopen) Hf Hd Hsame Hscope Hany Hlim Hb Hlt. unfold read_held.
  rewrite Hscope, Hst, Hwm. cbn [page_state fmap option_fmap option_map default from_option id].
  set (total := load heap arc) in *. set (o := rq_offset request) in *. assert (0 <= o) by apply Hb.
  rewrite !decide_False by lia. rewrite Hopen. set (limit := clamp 1 PAGE_LIMIT (rq_limit request)).
  assert (limit = Z.min PAGE_LIMIT (rq_limit request) /\ 3 <= limit <= 8192) as [Hl Hl3] by (unfold limit, clamp, PAGE_LIMIT; lia).
  set (w := Z.min (total - o) (limit + 4)).
  assert (0 < w /\ o + w <= total /\ w <= limit + 4 /\ (o + w = total \/ w = limit + 4) /\
    Z.min limit w = Z.min (total - o) limit) as (Hw0 & Hwle & Hwl & Hwe & Hwm') by (unfold w; lia).
  assert (window_of file o w = window_of data o w) as Hwin.
  { assert (forall l, total <= zlen l -> window_of l o w = window_of (ztake total l) o w) as Hin.
    { intros l Hlen. unfold window_of, ztake, zdrop. rewrite skipn_firstn_comm, take_take. f_equal. lia. }
    by rewrite (Hin file), (Hin data), Hsame by done. }
  pose proof (fill_reads read_at file (Z.to_nat w) o w 0 ltac:(lia) ltac:(lia) ltac:(lia) ltac:(lia)) as Hfill.
  change (window_of file o 0) with (@nil Z) in Hfill. rewrite Hfill, Hwin. clear Hfill. rewrite bool_decide_true by done.
  assert (exists e, snap (window_of data o w) limit (true && (total <=? o + w)) = Ok (0, e) /\ boundary data (o + e) /\
    Z.min limit w - 3 <= e <= w) as (e & Hsnap & Hbe & He).
  { cbn [andb]. destruct (Z.leb_spec total (o + w)); [by apply snap_live; try done; lia|].
    destruct (snap_settled data Hok Hv o w limit) as (skip & e & Hs & Hb1 & Hb2 & Hs0 & Hr); try done; try lia; [by right|].
    rewrite (Hs0 Hb) in *. exists e. rewrite Z.add_0_r in Hb2. rewrite Z.sub_0_r in Hr. split_and!; try done; lia. }
  destruct (snap_total (window_of data o w) limit (true && (total <=? o + w))) as (skip' & e' & Hs' & Hr1 & Hr2 & Hr3 & _); [lia|].
  rewrite Hsnap in Hs'. injection Hs' as <- <-.
  destruct (page_of_text data Hok Hv (mkPage SLive o [] o total (p_digest entry) (Some total)) request limit total true o w 0 e)
    as (start & next & Hpage & Hbs & Hbn & Hrange & Hup & Hpos & HA); try done; try lia; rewrite ?Z.add_0_r; try done.
  { unfold TEXT_LIMIT. lia. }
  destruct (HA Hany) as [-> ->]. rewrite Z.add_0_r in *. exists (o + e). split; [exact Hpage|]. split_and!; try done; lia.
Qed.

(** ** Witnesses. *)
Module PageDemo.
(** A file whose reads return at most two bytes. *)
Definition file_read (data : bytes) : ReadAt := fun offset n =>
  if offset <? zlen data then Ok (window_of data offset (Z.min (Z.min n 2) (zlen data - offset))) else Ok [].
#[export] Instance file_read_serves data : ServesFile (file_read data) data.
Proof.
  split; unfold file_read.
  - intros o n Ho Hn. rewrite (proj2 (Z.ltb_lt _ _)) by lia.
    exists (Z.min (Z.min n 2) (zlen data - o)). split_and!; try done; lia.
  - intros o n Ho. by rewrite (proj2 (Z.ltb_ge _ _)).
Qed.
(** The euro sign, a grinning face, a newline and "a". *)
Definition text : bytes := [0xE2; 0x82; 0xAC; 0xF0; 0x9F; 0x98; 0x80; 10; 97].
Definition id : PayloadId := replicate 16 3.
Definition job : Id := replicate 16 4.
Definition operation : Id := replicate 16 5.
Definition open (data : bytes) : OpenRead := fun _ _ => Ok (file_read data).
Definition complete : PayloadEntry := mkPayload job operation PComplete LObjects 9 None None.
Definition live : PayloadEntry := mkPayload job operation PLive LStaging 0 None (Some 1%nat).
Definition heap : Heap := {[ 1%nat := 5 ]}.
Definition ledger : State :=
  mkState 0 0 {[ job := mkCall (id, id) 0 9 1 true true true 2 false ]} {[ id := complete ]} ∅ ∅ ∅ (mkRefs ∅ 0).
Lemma settled : settled_file text (open text) complete id SComplete.
Proof. split; try done. exists (file_read text). split; [apply _|done]. Qed.
Lemma read_page_total_witness :
  exists page, read_page (open text) heap ledger (mkRequest id 0 4 (Some operation) Any) = Ok (page, ledger) /\ sound_page page.
Proof.
  apply (read_page_total (open text) heap ledger (mkRequest id 0 4 (Some operation) Any)); [done|].
  apply map_Forall_singleton. cbn. lia.
Defined.
Lemma bounded_text_spec_witness :
  [0xE2; 0x82; 0xAC; 0xEF; 0xBF; 0xBD] = lossy (ztake 5 [0xE2; 0x82; 0xAC; 0xF0; 0x9F; 97]).
Proof.
  apply (bounded_text_spec [0xE2; 0x82; 0xAC; 0xF0; 0x9F; 97] 6 [0xE2; 0x82; 0xAC; 0xEF; 0xBF; 0xBD] 5).
  vm_compute. reflexivity.
Defined.
(** With five bytes written, a live page of three bytes holds the euro sign
    and leaves the open scalar. *)
Lemma live_page_of_text_witness :
  exists next, read_held (open text) heap (mkRequest id 0 3 None Any) live =
    Ok (mkPage SLive 0 (window_of text 0 (next - 0)) next 5 None (Some 5)) /\
  boundary text next.
Proof.
  destruct (live_page_of_text text text (open text) heap (mkRequest id 0 3 None Any) live 1%nat)
    as (next & Hpage & Hb & _); try done; try by_decide.
  - exists (file_read text). split; [apply _|done].
  - exists next. split; [exact Hpage|exact Hb].
Defined.

(** Limits below three and four bytes. A live page of one byte in front of an
    open scalar delivers U+FFFD for it, although [without_open_scalar] would
    leave it; and a page of one byte at an offset inside a scalar cuts the
    next one. *)
Theorem small_limit_splits_a_scalar :
  (snap [0xE2; 0x82] 1 true = Ok (0, 2) /\ without_open_scalar [0xE2; 0x82] = Ok 0 /\
   bounded_text [0xE2; 0x82] TEXT_LIMIT = (REPLACEMENT, 2)) /\
  (snap (window_of text 1 5) 1 false = Ok (2, 3) /\ bounded_text (window_of text 3 3) TEXT_LIMIT = (REPLACEMENT, 3)).
Proof. split_and!; vm_compute; reflexivity. Qed.
End PageDemo.
