(* ===== verification/PagePool.v ===== *)
(** * The page-read pool (payload/pages.rs, [PagePool], [Ticket], [worker]).

    One step of the model is one critical section of the code: the queue lock
    ([submit], the worker's take and finish, [close]), the slot lock ([poll],
    [wait], [deliver]) or both ([withdraw]). A slot is an index into the table
    of replies; [Arc::ptr_eq] is equality of indices. Workers, tickets and
    shutdown interleave freely. The test hold and the reactor wake are left
    out: neither changes a field of the queue or a slot. The theorems: the
    queue and the workers keep their limits and the reserved worker serves
    model requests only; a ticket that waits is always queued, on a worker or
    about to be cancelled, so shutdown leaves none waiting; and a ticket gets
    one reply. *)
From stdpp Require Import prelude list.
From Stdlib Require Import ZArith Lia.
From S2P Require Import Prelude PayloadId Codec Ledger Pages.

Definition PAGE_QUEUE : nat := 8.
Definition PAGE_WORKERS : nat := 2.
Inductive Origin : Type := Model | Client.
#[export] Instance Origin_eq_dec : EqDecision Origin.
Proof. solve_decision. Defined.
Inductive PageReply : Type := RPage (page : Page) | RCancelled.
Inductive Reply : Type := Waiting | Ready (reply : PageReply) | Taken | Withdrawn.
Record Job : Type := mkJob { j_request : PageRequest; j_origin : Origin; j_slot : nat }.
(** Where a worker is in its loop. *)
Inductive Stage : Type :=
| Idle | Took (job : Job) | Reading (job : Job) | Finishing (job : Job) | Exited.
Record Pool : Type := mkPool {
  q_jobs : list Job; q_running : list nat; q_closed : bool; p_slots : list Reply;
  p_workers : list (bool * Stage); p_cancelling : list nat;
}.
Definition with_slots (slots : list Reply) (p : Pool) : Pool :=
  mkPool (q_jobs p) (q_running p) (q_closed p) slots (p_workers p) (p_cancelling p).
Definition with_stage (w : nat) (stage : Stage) (p : Pool) : Pool :=
  mkPool (q_jobs p) (q_running p) (q_closed p) (p_slots p) (alter (fun v => (v.1, stage)) w (p_workers p)) (p_cancelling p).
(** [Slot::deliver]. *)
Definition deliver (reply : PageReply) (slot : nat) (slots : list Reply) : list Reply :=
  match slots !! slot with Some Waiting => <[slot := Ready reply]> slots | _ => slots end.
Definition withdrawn (slot : nat) (slots : list Reply) : bool :=
  match slots !! slot with Some Withdrawn => true | _ => false end.

Definition start (model_reserved : nat) : Pool :=
  let reserved := (model_reserved `min` (PAGE_WORKERS - 1))%nat in
  mkPool [] [] false [] ((fun index => (bool_decide (PAGE_WORKERS - reserved <= index)%nat, Idle)) <$> seq 0 PAGE_WORKERS) [].
Definition submit (p : Pool) (request : PageRequest) (origin : Origin) : outcome PageState (Pool * nat) :=
  if q_closed p || bool_decide (PAGE_QUEUE <= length (q_jobs p))%nat then Err SBusy else
  let slot := length (p_slots p) in
  Ok (mkPool (q_jobs p ++ [mkJob request origin slot]) (q_running p) (q_closed p) (p_slots p ++ [Waiting])
        (p_workers p) (p_cancelling p), slot).
(** The first job a worker may take, and the queue without it. *)
Fixpoint take_job (model_only : bool) (jobs : list Job) : option (Job * list Job) :=
  match jobs with
  | [] => None
  | job :: jobs' =>
      if negb model_only || bool_decide (j_origin job = Model) then Some (job, jobs')
      else match take_job model_only jobs' with Some (j, rest) => Some (j, job :: rest) | None => None end
  end.
(** The worker loop: [None] is a worker that waits, or is elsewhere. *)
Definition worker_take (w : nat) (p : Pool) : option Pool :=
  match p_workers p !! w with
  | Some (model_only, Idle) =>
      if q_closed p then Some (with_stage w Exited p)
      else match take_job model_only (q_jobs p) with
           | Some (job, rest) =>
               Some (with_stage w (Took job)
                 (mkPool rest (q_running p ++ [j_slot job]) (q_closed p) (p_slots p) (p_workers p) (p_cancelling p)))
           | None => None
           end
  | _ => None
  end.
Definition worker_begin (w : nat) (p : Pool) : option Pool :=
  match p_workers p !! w with
  | Some (_, Took job) =>
      Some (with_stage w (if withdrawn (j_slot job) (p_slots p) then Finishing job else Reading job) p)
  | _ => None
  end.
(** [page] is what [read_page] returned. *)
Definition worker_deliver (w : nat) (page : Page) (p : Pool) : option Pool :=
  match p_workers p !! w with
  | Some (_, Reading job) =>
      Some (with_stage w (Finishing job) (with_slots (deliver (RPage page) (j_slot job) (p_slots p)) p))
  | _ => None
  end.
Definition worker_finish (w : nat) (p : Pool) : option Pool :=
  match p_workers p !! w with
  | Some (_, Finishing job) =>
      Some (with_stage w Idle (mkPool (q_jobs p) (filter (fun slot => slot <> j_slot job) (q_running p)) (q_closed p)
              (p_slots p) (p_workers p) (p_cancelling p)))
  | _ => None
  end.
Definition poll (slot : nat) (p : Pool) : Pool * option PageReply :=
  match p_slots p !! slot with
  | Some (Ready reply) => (with_slots (<[slot := Taken]> (p_slots p)) p, Some reply)
  | _ => (p, None)
  end.
(** [Ticket::wait]: [None] while it waits. *)
Definition wait (slot : nat) (p : Pool) : option (Pool * PageReply) :=
  match p_slots p !! slot with
  | Some (Ready reply) => Some (with_slots (<[slot := Taken]> (p_slots p)) p, reply)
  | Some Taken | Some Withdrawn => Some (with_slots (<[slot := Taken]> (p_slots p)) p, RCancelled)
  | _ => None
  end.
Definition withdraw (slot : nat) (p : Pool) : Pool :=
  let slots := match p_slots p !! slot with
               | Some Waiting | Some (Ready _) => <[slot := Withdrawn]> (p_slots p)
               | _ => p_slots p
               end in
  mkPool (filter (fun job => j_slot job <> slot) (q_jobs p)) (q_running p) (q_closed p) slots (p_workers p) (p_cancelling p).
(** [close]: the queue lock, then one [deliver] for each slot it found. *)
Definition close (p : Pool) : Pool :=
  mkPool [] (q_running p) true (p_slots p) (p_workers p) (p_cancelling p ++ (j_slot <$> q_jobs p) ++ q_running p).
Definition cancel_next (p : Pool) : option Pool :=
  match p_cancelling p with
  | [] => None
  | slot :: rest =>
      Some (mkPool (q_jobs p) (q_running p) (q_closed p) (deliver RCancelled slot (p_slots p)) (p_workers p) rest)
  end.

(** ** Interleavings. *)
Inductive step (p : Pool) : Pool -> Prop :=
| step_submit request origin p' slot : submit p request origin = Ok (p', slot) -> step p p'
| step_take w p' : worker_take w p = Some p' -> step p p'
| step_begin w p' : worker_begin w p = Some p' -> step p p'
| step_deliver w page p' : worker_deliver w page p = Some p' -> step p p'
| step_finish w p' : worker_finish w p = Some p' -> step p p'
| step_poll slot p' r : poll slot p = (p', r) -> step p p'
| step_wait slot p' r : wait slot p = Some (p', r) -> step p p'
| step_withdraw slot : step p (withdraw slot p)
| step_close : step p (close p)
| step_cancel p' : cancel_next p = Some p' -> step p p'.
Inductive reachable (model_reserved : nat) : Pool -> Prop :=
| reach_start : reachable model_reserved (start model_reserved)
| reach_step p p' : reachable model_reserved p -> step p p' -> reachable model_reserved p'.

(** ** The invariant. *)
Definition stage_job (s : Stage) : option Job :=
  match s with Took job | Reading job | Finishing job => Some job | Idle | Exited => None end.
(** A worker that has not yet delivered. *)
Definition stage_open (s : Stage) : option Job :=
  match s with Took job | Reading job => Some job | _ => None end.
Definition slots_of (f : Stage -> option Job) (workers : list (bool * Stage)) : list nat :=
  omap (fun v => j_slot <$> f v.2) workers.
Abbreviation worker_slots p := (slots_of stage_job (p_workers p)).
Definition job_slots (p : Pool) : list nat := j_slot <$> q_jobs p.
Definition waits (p : Pool) (i : nat) : Prop := p_slots p !! i = Some Waiting.
Record pool_inv (model_reserved : nat) (p : Pool) : Prop := {
  pi_queue : (length (q_jobs p) <= PAGE_QUEUE)%nat;
  pi_workers : (p_workers p).*1 = (p_workers (start model_reserved)).*1;
  pi_running : q_running p ≡ₚ worker_slots p;
  pi_distinct : NoDup (job_slots p ++ worker_slots p);
  pi_known : Forall (fun i => (i < length (p_slots p))%nat) (job_slots p ++ worker_slots p ++ p_cancelling p);
  pi_reserved : Forall (fun v => v.1 = true -> forall job, stage_job v.2 = Some job -> j_origin job = Model) (p_workers p);
  pi_waiting : forall i, waits p i -> i ∈ job_slots p \/ i ∈ slots_of stage_open (p_workers p) \/ i ∈ p_cancelling p;
  pi_closed : q_closed p = true -> q_jobs p = [];
  pi_exited : Forall (fun v => v.2 = Exited -> q_closed p = true) (p_workers p);
}.
Lemma slots_of_app f l k : slots_of f (l ++ k) = slots_of f l ++ slots_of f k.
Proof. apply omap_app. Qed.
Definition job_slot (o : option Job) : list nat := match o with Some job => [j_slot job] | None => [] end.
Lemma slots_of_cons f v l : slots_of f (v :: l) = job_slot (f v.2) ++ slots_of f l.
Proof. unfold slots_of. cbn. by destruct (f v.2). Qed.
(** The table of workers around one of them. *)
Lemma worker_split p w v :
  p_workers p !! w = Some v ->
  exists l k, p_workers p = l ++ v :: k /\ forall f, alter f w (p_workers p) = l ++ f v :: k.
Proof.
  intros Hw. exists (take w (p_workers p)), (drop (S w) (p_workers p)).
  assert (length (take w (p_workers p)) = w) as Hl by (rewrite length_take; apply lookup_lt_Some in Hw; lia).
  split; [symmetry; by apply take_drop_middle|]. intros f.
  rewrite <- (take_drop_middle _ _ _ Hw) at 1. by rewrite alter_app_r_alt, Hl, Nat.sub_diag by lia.
Qed.
Lemma take_job_spec m jobs job rest :
  take_job m jobs = Some (job, rest) -> jobs ≡ₚ job :: rest /\ (m = true -> j_origin job = Model).
Proof.
  revert rest. induction jobs as [|j jobs IH]; intros rest; cbn [take_job]; [done|].
  destruct (negb m || bool_decide (j_origin j = Model)) eqn:Hm.
  - intros [= -> ->]. split; [done|]. intros ->. by apply bool_decide_eq_true in Hm.
  - destruct (take_job m jobs) as [[x r]|]; [|done]. intros [= -> <-]. destruct (IH r eq_refl) as [Hp Ho].
    split; [|done]. by rewrite Hp, Permutation_swap.
Qed.
Lemma deliver_waiting r i j slots : deliver r j slots !! i = Some Waiting -> i <> j /\ slots !! i = Some Waiting.
Proof.
  unfold deliver. destruct (slots !! j) as [[]|] eqn:Hj; intros Hi; try (by split; [congruence|]).
  apply list_lookup_insert_Some in Hi as [(? & ? & ?)|[? ?]]; done.
Qed.
Lemma deliver_length r j slots : length (deliver r j slots) = length slots.
Proof. unfold deliver. repeat case_match; rewrite ?length_insert; done. Qed.
Section Preservation.
Context (mr : nat) (p : Pool) (Hinv : pool_inv mr p).
Lemma submit_inv request origin p' slot : submit p request origin = Ok (p', slot) -> pool_inv mr p'.
Proof.
  unfold submit. destruct (q_closed p) eqn:Hc; [done|]. case_bool_decide as Hq; [done|]. intros [= <- <-].
  destruct Hinv. assert (job_slots p ++ [length (p_slots p)] = j_slot <$> (q_jobs p ++ [mkJob request origin (length (p_slots p))])) as Hjs
    by (by rewrite fmap_app).
  constructor; unfold job_slots, waits in *; cbn [q_jobs q_running q_closed p_slots p_workers p_cancelling] in *;
    rewrite ?fmap_app; cbn [fmap list_fmap j_slot]; try done.
  - rewrite length_app. simpl. lia.
  - rewrite <- app_assoc. cbn [app]. rewrite <- Permutation_middle. constructor; [|done].
    intros Hin. rewrite app_assoc in pi_known0. apply Forall_app in pi_known0 as [Hk _]. rewrite Forall_forall in Hk.
    specialize (Hk _ Hin). lia.
  - rewrite length_app. cbn [length]. apply (Forall_impl _ (fun i => (i < length (p_slots p) + 1)%nat)) in pi_known0; [|lia].
    rewrite !Forall_app in *. destruct pi_known0 as (? & ? & ?). split_and!; try done. repeat constructor. lia.
  - intros i Hi. rewrite elem_of_app, list_elem_of_singleton. apply lookup_app_Some in Hi as [Hi|[Hge Hi]].
    + destruct (pi_waiting0 i Hi) as [|[|]]; auto.
    + apply list_lookup_singleton_Some in Hi as [Hi _]. left. right. lia.
  - by rewrite Hc in pi_exited0.
Qed.
(** A worker that keeps its job. *)
Lemma restage_inv w m st0 st slots :
  p_workers p !! w = Some (m, st0) -> stage_job st = stage_job st0 -> length slots = length (p_slots p) ->
  (forall i, slots !! i = Some Waiting -> waits p i /\
     forall job, stage_open st0 = Some job -> i = j_slot job -> stage_open st = Some job) ->
  (st = Exited -> q_closed p = true) ->
  pool_inv mr (with_stage w st (with_slots slots p)).
Proof.
  intros Hw Hjob Hlen Hwait Hex. destruct (worker_split p w _ Hw) as (l & k & Hl & Ha). destruct Hinv.
  assert (forall f, f st = f st0 -> slots_of f (l ++ (m, st) :: k) = slots_of f (p_workers p)) as Hsame.
  { intros f Hf. rewrite Hl, !slots_of_app, !slots_of_cons. cbn. by rewrite Hf. }
  unfold with_stage, with_slots. cbn [q_jobs q_running q_closed p_slots p_workers p_cancelling]. rewrite Ha.
  constructor; unfold job_slots in *; cbn [q_jobs q_running q_closed p_slots p_workers p_cancelling fst];
    rewrite ?(Hsame stage_job Hjob), ?Hlen; try done.
  - rewrite Hl, fmap_app, fmap_cons in pi_workers0. by rewrite fmap_app, fmap_cons.
  - rewrite Hl in pi_reserved0. apply Forall_app in pi_reserved0 as [? [Hm ?]%Forall_cons].
    apply Forall_app. split; [done|]. constructor; [|done]. cbn [fst snd] in *. by rewrite Hjob.
  - intros i Hi. destruct (Hwait i Hi) as [Hwi Hopen]. destruct (pi_waiting0 i Hwi) as [|[Hin|]]; auto.
    right. left. revert Hin. rewrite Hl, !slots_of_app, !slots_of_cons, !elem_of_app. cbn [snd].
    intros [?|[Hin|?]]; auto. right. left. destruct (stage_open st0) as [job|] eqn:Hj; cbn in Hin; [|by apply elem_of_nil in Hin].
    apply list_elem_of_singleton in Hin. rewrite (Hopen job eq_refl Hin). cbn. by apply list_elem_of_singleton.
  - rewrite Hl in pi_exited0. apply Forall_app in pi_exited0 as [? [_ ?]%Forall_cons].
    apply Forall_app. split; [done|]. by constructor.
Qed.
Lemma with_slots_id : with_slots (p_slots p) p = p.
Proof. by destruct p. Qed.
Lemma worker_take_inv w p' : worker_take w p = Some p' -> pool_inv mr p'.
Proof.
  unfold worker_take. destruct (p_workers p !! w) as [[m []]|] eqn:Hw; try done.
  destruct (q_closed p) eqn:Hc.
  { intros [= <-]. rewrite <- with_slots_id. by apply (restage_inv w m Idle). }
  destruct (worker_split p w _ Hw) as (l & k & Hl & Ha). destruct Hinv.
  destruct (take_job m (q_jobs p)) as [[job rest]|] eqn:Ht; [|done]. intros [= <-].
  apply take_job_spec in Ht as [Hp Hm]. unfold with_stage. cbn [q_jobs q_running q_closed p_slots p_workers p_cancelling].
  rewrite Ha. cbn [fst].
  assert (job_slots p ≡ₚ j_slot job :: (j_slot <$> rest)) as Hjs by (unfold job_slots; by rewrite Hp).
  rewrite Hl, slots_of_app, slots_of_cons in pi_running0, pi_distinct0, pi_known0.
  rewrite Hl, slots_of_app, slots_of_cons in pi_waiting0. cbn [stage_job stage_open job_slot app snd] in *.
  constructor; unfold job_slots, waits in *; cbn [q_jobs q_running q_closed p_slots p_workers p_cancelling] in *;
    rewrite ?slots_of_app, ?slots_of_cons; cbn [stage_job stage_open job_slot app snd fst]; try done.
  - apply Permutation_length in Hp. simpl in Hp. lia.
  - rewrite Hl, fmap_app, fmap_cons in pi_workers0. by rewrite fmap_app, fmap_cons.
  - rewrite pi_running0. solve_Permutation.
  - rewrite Hjs in pi_distinct0. eapply NoDup_Permutation_proper; [|exact pi_distinct0]. solve_Permutation.
  - rewrite Hjs in pi_known0. rewrite !Forall_app, ?Forall_cons, ?Forall_app in *. tauto.
  - rewrite Hl in pi_reserved0. apply Forall_app in pi_reserved0 as [? [? ?]%Forall_cons].
    apply Forall_app; split; [done|]. constructor; [|done]. cbn. intros -> j [= <-]. by apply Hm.
  - intros i Hi. destruct (pi_waiting0 i Hi) as [Hin|[Hin|Hin]]; [|right; left|by right; right].
    + rewrite Hjs in Hin. apply elem_of_cons in Hin as [->|Hin]; [right; left|by left].
      rewrite elem_of_app, elem_of_cons. auto.
    + rewrite elem_of_app, elem_of_cons in *. tauto.
  - rewrite Hl, Hc in pi_exited0. apply Forall_app in pi_exited0 as [? [_ ?]%Forall_cons].
    apply Forall_app. split; [done|]. by constructor.
Qed.
Lemma worker_begin_inv w p' : worker_begin w p = Some p' -> pool_inv mr p'.
Proof.
  unfold worker_begin. destruct (p_workers p !! w) as [[m []]|] eqn:Hw; try done. intros [= <-].
  rewrite <- with_slots_id at 2. apply (restage_inv w m (Took job)); try done; [by case_match| |by case_match].
  intros i Hi. split; [done|]. intros j [= <-] ->. unfold withdrawn. unfold waits in Hi. by rewrite Hi.
Qed.
Lemma worker_deliver_inv w page p' : worker_deliver w page p = Some p' -> pool_inv mr p'.
Proof.
  unfold worker_deliver. destruct (p_workers p !! w) as [[m []]|] eqn:Hw; try done. intros [= <-].
  apply (restage_inv w m (Reading job)); try done; [apply deliver_length|].
  intros i [Hne Hi]%deliver_waiting. split; [done|]. by intros j [= <-].
Qed.
Lemma worker_finish_inv w p' : worker_finish w p = Some p' -> pool_inv mr p'.
Proof.
  unfold worker_finish. destruct (p_workers p !! w) as [[m []]|] eqn:Hw; try done. intros [= <-].
  destruct (worker_split p w _ Hw) as (l & k & Hl & Ha). destruct Hinv.
  unfold with_stage. cbn [q_jobs q_running q_closed p_slots p_workers p_cancelling]. rewrite Ha. cbn [fst].
  rewrite Hl, slots_of_app, slots_of_cons in pi_running0, pi_distinct0, pi_known0.
  rewrite Hl, slots_of_app, slots_of_cons in pi_waiting0. cbn [stage_job stage_open job_slot app snd] in *.
  constructor; unfold waits, job_slots in *; cbn [q_jobs q_running q_closed p_slots p_workers p_cancelling] in *;
    rewrite ?slots_of_app, ?slots_of_cons; cbn [stage_job stage_open job_slot app snd fst]; try done.
  - rewrite Hl, fmap_app, fmap_cons in pi_workers0. by rewrite fmap_app, fmap_cons.
  - rewrite pi_running0. apply NoDup_app in pi_distinct0 as (_ & _ & Hnd). apply NoDup_app in Hnd as (_ & Hl1 & Hnd).
    apply NoDup_cons in Hnd as [Hk1 _]. rewrite filter_app, filter_cons_False by tauto.
    rewrite !filter_Forall; [done|..]; apply Forall_forall; intros i Hi ->;
      first [by apply Hk1|apply (Hl1 _ Hi), elem_of_cons; by left].
  - eapply sublist_NoDup; [exact pi_distinct0|]. apply sublist_app; [done|]. apply sublist_app; [done|]. by constructor.
  - rewrite !Forall_app, Forall_cons in *. tauto.
  - rewrite Hl in pi_reserved0. apply Forall_app in pi_reserved0 as [? [? ?]%Forall_cons].
    apply Forall_app; split; [done|]. by constructor.
  - rewrite Hl in pi_exited0. apply Forall_app in pi_exited0 as [? [_ ?]%Forall_cons].
    apply Forall_app. split; [done|]. by constructor.
Qed.
Lemma slots_inv slots :
  length slots = length (p_slots p) -> (forall i, slots !! i = Some Waiting -> waits p i) ->
  pool_inv mr (with_slots slots p).
Proof.
  intros Hlen Hw. destruct Hinv. unfold with_slots.
  constructor; unfold job_slots, waits in *; cbn [q_jobs q_running q_closed p_slots p_workers p_cancelling] in *; rewrite ?Hlen; auto.
Qed.
Lemma withdraw_inv slot : pool_inv mr (withdraw slot p).
Proof.
  unfold withdraw. set (slots := match p_slots p !! slot with Some Waiting | Some (Ready _) => _ | _ => _ end).
  assert (length slots = length (p_slots p)) as Hlen by (subst slots; repeat case_match; rewrite ?length_insert; done).
  assert (forall i, slots !! i = Some Waiting -> waits p i /\ i <> slot) as Hw.
  { intros i. subst slots. unfold waits. destruct (p_slots p !! slot) as [[]|] eqn:Hs; intros Hi; try (split; congruence).
    all: apply list_lookup_insert_Some in Hi as [(? & ? & ?)|[? ?]]; done. }
  destruct Hinv.
  assert (j_slot <$> filter (fun job => j_slot job <> slot) (q_jobs p) `sublist_of` job_slots p) as Hsub.
  { unfold job_slots. clear. induction (q_jobs p) as [|j l IH]; [done|]. rewrite filter_cons. case_decide; cbn; by constructor. }
  constructor; unfold job_slots, waits in *; cbn [q_jobs q_running q_closed p_slots p_workers p_cancelling] in *; rewrite ?Hlen; try done.
  - etrans; [apply length_filter|done].
  - eapply sublist_NoDup; [exact pi_distinct0|]. by apply sublist_app.
  - rewrite !Forall_app in *. destruct pi_known0 as (Hk & ? & ?). split_and!; try done.
    rewrite Forall_forall in *. intros i Hi. apply Hk. by eapply elem_of_submseteq, sublist_submseteq.
  - intros i [Hi Hne]%Hw. destruct (pi_waiting0 i Hi) as [Hin|]; [left|auto].
    apply list_elem_of_fmap in Hin as (job & -> & Hin). apply list_elem_of_fmap. exists job. split; [done|].
    by apply list_elem_of_filter.
  - intros Hc. by rewrite (pi_closed0 Hc).
Qed.
Lemma close_inv : pool_inv mr (close p).
Proof.
  destruct Hinv. unfold close. constructor; unfold job_slots, waits in *;
    cbn [q_jobs q_running q_closed p_slots p_workers p_cancelling] in *; try done; cbn [fmap list_fmap app length]; try lia.
  - by apply NoDup_app in pi_distinct0 as (_ & _ & ?).
  - rewrite !Forall_app in *. destruct pi_known0 as (? & ? & ?). split_and!; try done. by rewrite pi_running0.
  - intros i Hi. rewrite !elem_of_app. destruct (pi_waiting0 i Hi) as [|[|]]; auto.
  - eapply Forall_impl; [exact pi_exited0|]. done.
Qed.
Lemma cancel_next_inv p' : cancel_next p = Some p' -> pool_inv mr p'.
Proof.
  unfold cancel_next. destruct (p_cancelling p) as [|slot rest] eqn:Hc; [done|]. intros [= <-]. destruct Hinv.
  rewrite Hc in *. constructor; unfold job_slots, waits in *;
    cbn [q_jobs q_running q_closed p_slots p_workers p_cancelling] in *; rewrite ?deliver_length; try done.
  - rewrite !Forall_app, Forall_cons in *. tauto.
  - intros i [Hne Hi]%deliver_waiting. destruct (pi_waiting0 i Hi) as [|[|Hin]]; auto.
    apply elem_of_cons in Hin as [->|]; [done|auto].
Qed.
End Preservation.

Lemma poll_inv mr p slot p' r : pool_inv mr p -> poll slot p = (p', r) -> pool_inv mr p'.
Proof.
  intros Hinv. unfold poll. destruct (p_slots p !! slot) as [[]|] eqn:Hs; intros [= <- <-]; try done.
  apply slots_inv; [done|apply length_insert|]. intros i Hi. by apply list_lookup_insert_Some in Hi as [(? & ? & ?)|[? ?]].
Qed.
Lemma wait_inv mr p slot p' r : pool_inv mr p -> wait slot p = Some (p', r) -> pool_inv mr p'.
Proof.
  intros Hinv. unfold wait. destruct (p_slots p !! slot) as [[]|] eqn:Hs; intros [= <- <-]; try done;
    (apply slots_inv; [done|apply length_insert|]; intros i Hi; by apply list_lookup_insert_Some in Hi as [(? & ? & ?)|[? ?]]).
Qed.
Lemma step_inv mr p p' : pool_inv mr p -> step p p' -> pool_inv mr p'.
Proof.
  intros Hinv. destruct 1;
    eauto using submit_inv, worker_take_inv, worker_begin_inv, worker_deliver_inv, worker_finish_inv, poll_inv, wait_inv,
      withdraw_inv, close_inv, cancel_next_inv.
Qed.
Lemma start_inv mr : pool_inv mr (start mr).
Proof.
  constructor; unfold waits, job_slots; cbn; try done; try lia; try constructor; try done.
  all: repeat constructor; done.
Qed.
Lemma reachable_inv mr p : reachable mr p -> pool_inv mr p.
Proof. induction 1; [apply start_inv|by eapply step_inv]. Qed.

(** In every state the pool can reach, at most 8 requests are queued and
    at most 2 are on workers, no request is in two places, and the reserved
    worker holds model requests only. *)
Theorem pool_limits mr p :
  reachable mr p ->
  (length (q_jobs p) <= PAGE_QUEUE)%nat /\ (length (q_running p) <= PAGE_WORKERS)%nat /\
  NoDup (job_slots p ++ q_running p) /\
  ((0 < mr)%nat -> exists stage, p_workers p !! 1%nat = Some (true, stage) /\
     forall job, stage_job stage = Some job -> j_origin job = Model).
Proof.
  intros Hr%reachable_inv. destruct Hr.
  assert (length (p_workers p) = 2%nat) as Hlen by (apply (f_equal length) in pi_workers0; by rewrite !length_fmap in pi_workers0).
  split_and!; [done| |by rewrite pi_running0|].
  - rewrite pi_running0. unfold PAGE_WORKERS. rewrite <- Hlen. clear. unfold slots_of.
    induction (p_workers p) as [|v l IH]; cbn; [lia|]. destruct (stage_job v.2); cbn; lia.
  - intros Hmr. destruct (p_workers p) as [|v0 [|[b stage] [|]]]; try done.
    assert (b = true) as ->.
    { unfold start in pi_workers0. cbn in pi_workers0. injection pi_workers0 as _ ->. apply bool_decide_eq_true.
      destruct mr as [|[|]]; cbn; lia. }
    exists stage. split; [done|]. apply Forall_cons in pi_reserved0 as [_ [Hv _]%Forall_cons]. by apply Hv.
Qed.
(** A step of a worker or of shutdown. *)
Definition pool_step (p p' : Pool) : Prop :=
  (exists w, worker_take w p = Some p' \/ worker_begin w p = Some p' \/ worker_finish w p = Some p' \/
     exists page, worker_deliver w page p = Some p') \/ cancel_next p = Some p'.
Lemma worker_can_step mr p w b st :
  reachable mr p -> p_workers p !! w = Some (b, st) -> st <> Exited -> st <> Idle -> exists p', pool_step p p'.
Proof.
  intros _ Hw He Hi. destruct st; try done; eexists; left; exists w.
  - right. left. unfold worker_begin. by rewrite Hw.
  - right. right. right. exists (page_empty SBusy 0). unfold worker_deliver. by rewrite Hw.
  - right. right. left. unfold worker_finish. by rewrite Hw.
Qed.
Lemma take_job_any jobs : jobs <> [] -> exists job rest, take_job false jobs = Some (job, rest).
Proof. destruct jobs as [|j l]; [done|]. intros _. by exists j, l. Qed.
Lemma open_slot_stage f workers i :
  i ∈ slots_of f workers -> exists w b st job, workers !! w = Some (b, st) /\ f st = Some job.
Proof.
  intros Hin. apply list_elem_of_omap in Hin as ([b st] & Hv & Hs). apply list_elem_of_lookup in Hv as [w Hw].
  exists w, b, st. cbn in Hs. destruct (f st) as [job|]; [|done]. by exists job.
Qed.
(** Once shutdown has gone through its list and no worker is before its
    delivery, no ticket waits, and every later request is refused as busy. *)
Theorem shutdown_leaves_no_ticket_waiting mr p :
  reachable mr p -> q_closed p = true -> p_cancelling p = [] -> slots_of stage_open (p_workers p) = [] ->
  (forall i, p_slots p !! i <> Some Waiting) /\ forall request origin, submit p request origin = Err SBusy.
Proof.
  intros Hr Hc Hn Ho. destruct (reachable_inv mr p Hr). split; [|intros; unfold submit; by rewrite Hc].
  intros i Hi. destruct (pi_waiting0 i Hi) as [Hin|[Hin|Hin]].
  - unfold job_slots in Hin. rewrite (pi_closed0 Hc) in Hin. by apply elem_of_nil in Hin.
  - rewrite Ho in Hin. by apply elem_of_nil in Hin.
  - rewrite Hn in Hin. by apply elem_of_nil in Hin.
Qed.
(** *** One reply for a ticket. *)
Definition later (r r' : Reply) : Prop :=
  match r, r' with
  | Waiting, _ => True
  | Ready a, Ready b => a = b
  | Ready _, (Taken | Withdrawn) => True
  | Taken, Taken => True
  | Withdrawn, (Withdrawn | Taken) => True
  | _, _ => False
  end.
#[export] Instance later_preorder : PreOrder later.
Proof. split; [by intros []|]. intros [] [] []; cbn; try done; congruence. Qed.
Lemma later_insert (slots : list Reply) i j r r' x :
  slots !! j = Some x -> later x r' -> slots !! i = Some r -> exists y, <[j := r']> slots !! i = Some y /\ later r y.
Proof.
  intros Hj Hl Hi. destruct (decide (i = j)) as [->|Hne].
  - exists r'. rewrite list_lookup_insert_eq by (by eapply lookup_lt_Some). split; [done|]. by simplify_eq.
  - exists r. by rewrite list_lookup_insert_ne.
Qed.
Lemma deliver_later (slots : list Reply) i j r reply :
  slots !! i = Some r -> exists y, deliver reply j slots !! i = Some y /\ later r y.
Proof.
  intros Hi. unfold deliver. destruct (slots !! j) as [[]|] eqn:Hj; try (by exists r). by eapply later_insert.
Qed.
Lemma step_later p p' i r : step p p' -> p_slots p !! i = Some r -> exists y, p_slots p' !! i = Some y /\ later r y.
Proof.
  intros Hs Hi. destruct Hs as [rq o p' s H|w p' H|w p' H|w pg p' H|w p' H|s p' x H|s p' x H|s| |p' H].
  - unfold submit in H. repeat case_match; simplify_eq. exists r. cbn. by rewrite lookup_app_l by (by eapply lookup_lt_Some).
  - unfold worker_take in H. repeat case_match; simplify_eq; by exists r.
  - unfold worker_begin in H. repeat case_match; simplify_eq; by exists r.
  - unfold worker_deliver in H. repeat case_match; simplify_eq. by apply deliver_later.
  - unfold worker_finish in H. repeat case_match; simplify_eq; by exists r.
  - unfold poll in H. repeat case_match; simplify_eq; try (by exists r). by eapply later_insert.
  - unfold wait in H. repeat case_match; simplify_eq; by eapply later_insert.
  - unfold withdraw. cbn. destruct (p_slots p !! s) as [[]|] eqn:Hj; try (by exists r); by eapply later_insert.
  - by exists r.
  - unfold cancel_next in H. repeat case_match; simplify_eq. by apply deliver_later.
Qed.
Lemma steps_later p p' i r : rtc step p p' -> p_slots p !! i = Some r -> exists y, p_slots p' !! i = Some y /\ later r y.
Proof.
  intros Hs. revert r. induction Hs as [|p p1 p2 Hs _ IH]; intros r Hi; [by exists r|].
  destruct (step_later _ _ _ _ Hs Hi) as (y & Hy & Hl). destruct (IH y Hy) as (z & Hz & Hl'). exists z. split; [done|]. by etrans.
Qed.
(** C39: After [poll] returned a reply, however the pool goes on, every later
    [poll] of that ticket returns nothing and [wait] answers cancelled. *)
Theorem one_reply_per_ticket i p p1 p2 reply :
  poll i p = (p1, Some reply) -> rtc step p1 p2 -> (poll i p2).2 = None /\ wait i p2 = Some (p2, RCancelled).
Proof.
  unfold poll at 1. destruct (p_slots p !! i) as [[]|] eqn:Hi; intros [= <- <-] Hs.
  destruct (steps_later _ _ i Taken Hs) as (y & Hy & Hl).
  { cbn. apply list_lookup_insert_eq. by eapply lookup_lt_Some. }
  destruct y; try done. unfold poll, wait. rewrite Hy. split; [done|]. do 2 f_equal. destruct p2. unfold with_slots. cbn in *. f_equal.
  by apply list_insert_id.
Qed.

(** ** Witnesses. *)
Module PoolDemo.
Definition request : PageRequest := mkRequest (replicate 16 3) 0 100 None Any.
Definition the {A} (d : A) (o : option A) : A := match o with Some a => a | None => d end.
Definition empty : Pool := start 1.
Definition queued : Pool := match submit empty request Model with Ok (p, _) => p | _ => empty end.
(** The reserved worker (number 1) takes the model request and delivers. *)
Definition taken : Pool := the empty (worker_take 1 queued).
Definition reading : Pool := the empty (worker_begin 1 taken).
Definition delivered : Pool := the empty (worker_deliver 1 (page_empty SComplete 0) reading).
Definition cancelled : Pool := the empty (cancel_next (close queued)).
Lemma reach_queued : reachable 1 queued.
Proof. eapply reach_step; [apply reach_start|]. by eapply (step_submit _ request Model). Qed.
Lemma reach_taken : reachable 1 taken.
Proof. eapply reach_step; [apply reach_queued|]. by eapply (step_take _ 1). Qed.
Lemma reach_cancelled : reachable 1 cancelled.
Proof.
  eapply reach_step; [eapply reach_step; [apply reach_queued|apply step_close]|]. by apply step_cancel.
Qed.
Lemma pool_limits_witness :
  (length (q_jobs taken) <= PAGE_QUEUE)%nat /\ q_running taken = [0%nat] /\
  exists stage, p_workers taken !! 1%nat = Some (true, stage) /\
    forall job, stage_job stage = Some job -> j_origin job = Model.
Proof.
  destruct (pool_limits 1 taken reach_taken) as (Hq & _ & _ & Hm).
  split; [exact Hq|]. split; [reflexivity|]. apply Hm. lia.
Defined.
Lemma shutdown_leaves_no_ticket_waiting_witness :
  p_slots cancelled = [Ready RCancelled] /\ submit cancelled request Client = Err SBusy.
Proof.
  split; [reflexivity|].
  apply (shutdown_leaves_no_ticket_waiting 1 cancelled); [apply reach_cancelled|reflexivity..].
Defined.
Lemma one_reply_per_ticket_witness :
  (poll 0 delivered).2 = Some (RPage (page_empty SComplete 0)) /\ (poll 0 (close (poll 0 delivered).1)).2 = None.
Proof.
  split; [reflexivity|].
  apply (one_reply_per_ticket 0 delivered (poll 0 delivered).1 (close (poll 0 delivered).1) (RPage (page_empty SComplete 0))).
  - reflexivity.
  - eapply rtc_l; [apply step_close|apply rtc_refl].
Defined.
End PoolDemo.
